(* ===== verification/_CoqProject ===== *)
-Q . S2P
Prelude.v
GoStrings.v
GoErrors.v
Netip.v
Sorting.v
Types.v
Flags.v
Instances.v
Generator.v
Renderers.v
Kube.v
Manager.v
TestCluster.v
ApiServer.v
RelyGuarantee.v
PoolValidation.v
CacheProfile.v
PoolSelection.v
CircuitBreaker.v
Metrics.v
PoolController.v
PoolSpec.v
PoolComplete.v
PoolProperties.v
PoolHistory.v
PoolConvergence.v
PoolDeletion.v
PolicyController.v
PolicySpec.v
PolicyProperties.v
PolicyConvergence.v
PolicyConcurrency.v
Webhook.v
Operator.v
Startup.v
Calls.v
Scenarios.v
Witnesses.v
