(* ===== verification/Prelude.v ===== *)
(** * The AstraDNS operator

    A model of the operator of AstraDNS (src/cmd, src/controllers,
    src/pkg/engineconfig) and the theorems that make it correct.

    ** The program

    The operator watches three custom resources and keeps one ConfigMap per
    namespace up to date, from which the DNS agents of that namespace load
    their engine's configuration.

    - A [DNSUpstreamPool] says where queries go. Its reconciler stamps a pool
      with the resource version it first saw, validates it, selects the active
      pool of the namespace (the oldest), and for that one generates an
      [EngineConfig] with the namespace's default [DNSCacheProfile], renders it
      for the engine as a check, encodes it as JSON and writes it to the
      ConfigMap; it reports in the pool's [Ready] condition. When a pool is
      gone it publishes one that remains, or removes the configuration. The
      writes go through a circuit breaker, one circuit per namespace, and the
      selection is shown in a Prometheus gauge.
    - A [DNSCacheProfile] is only validated, in its [Active] condition.
    - An [ExternalDNSPolicy] claims the namespaces its selector names by
      annotations, reports in its [Validated] condition, and holds a finalizer
      until its claims are cleared.
    - A webhook, off unless enabled by the environment, refuses a second pool
      in a namespace.

    The parts call each other as follows: main reads the flags, picks a renderer
    from a registry and hands it, with the default generator, to the pool
    reconciler, registers the three reconcilers, the watches that wake them and
    perhaps the webhook with a manager, and starts it; the reconcilers and the
    webhook share nothing but the API server.

    ** The files

    Foundations, none of which models a part of the operator:
    - Prelude: machine integers, Go's maps as [option (gmap _ _)], loops that
      stop at an error, tactics and hint databases;
    - GoStrings, GoErrors, Netip, Sorting: what the program uses of the packages
      strings, strconv, fmt, errors, net/netip and sort;
    - Types: the resources, the configuration, and the interfaces of the
      packages that are not in the repository;
    - Kube: calls to the outside, programs, traces, weakest preconditions;
    - Manager: controller-runtime's manager, builders and servers, as an interface;
    - ApiServer: what a working API server answers ([answers], on a [View] of the
      stored objects), as a class with laws, and a reference server behind or
      without a lagging cache;
    - RelyGuarantee: programs that run beside others on such a server, where each
      call may also fail before or after its effect ([attempt]);
    - Instances, TestCluster: concrete interfaces and a small API server, on
      which the witnesses evaluate.

    The operator, by source:
    - pkg/engineconfig/defaultgen.go is Generator ([generate] is [Generate]);
    - pkg/engineconfig/unbound, coredns and powerdns are the modules of Renderers
      ([render] is [Render]);
    - controllers/dnsupstreampool_controller.go is PoolValidation
      ([validateDNSUpstreamPool]), PoolSelection (stamp, order, selection),
      CircuitBreaker (the maps [configMapFailureCounts] and
      [configMapCircuitOpenUntil]), Metrics ([recordActivePoolSelectionMetric],
      [clearActivePoolSelectionMetric]) and PoolController ([Reconcile] and what it calls);
    - controllers/dnscacheprofile_controller.go is CacheProfile;
    - controllers/externaldnspolicy_controller.go is PolicyController;
    - controllers/dnsupstreampool_webhook.go is Webhook ([Handle]);
    - cmd/main.go is Flags (the flags, with package flag's parsing), Operator
      ([selectRenderer], [registered], [isPoolUniquenessWebhookEnabled]) and
      Startup ([main], of which [register] and [serve] are the last two parts,
      and the server options).
    Each controller's [SetupWithManager] is in its file.

    The specifications are PoolSpec and PolicySpec (the outcomes of a
    reconciliation, as inductive relations), and in each component its
    declarative predicate ([pool_valid], [profile_valid], [config_wf],
    [selector_valid], ...); PoolComplete shows the first exact. PoolProperties and
    PolicyProperties hold the theorems on single reconciliations of the two
    large reconcilers with any API server, PoolHistory those on sequences of
    pool reconciliations, PoolConvergence (convergence), PoolDeletion (the deletion
    of a pool) and PolicyConvergence those on a working API server, PolicyConcurrency the invariant of many policy reconciliations
    and users at once, Calls those on the calls of all three (their number, and the
    watches that cover them). Scenarios are concrete clusters and runs, Witnesses an instance
    of each theorem that has hypotheses.

    ** How the code is modelled

    A handler is a program: a tree of calls ([Kube.call]: client requests,
    recorded events, the clock, the environment, the order of a range over a
    map), each of which continues for every possible answer. A theorem over
    [exec p tr r] holds for any API server, with failures at any point and any
    change by others between two calls; the answers that were read are in the
    trace. What the receiver of a method keeps between calls (the circuits and
    the gauge's memory) is passed explicitly ([PoolReconciler]). Errors are values ([GoErrors.error]
    with wrapping and [errors.Is]); a function that returns a value and an error
    is in [result]; nil pointers and nil maps are [None]. Strings are bytes, with
    Go's decoding of UTF-8 where the code ranges over runes. Integers of Go's
    widths wrap. Objects are values: the code patches deep copies, and a program
    continues with the object the client decodes from the answer.

    A theorem on a working API server adds [replay v tr v']: the answers in the
    trace are those of a server that holds [v], and [v'] is what it holds then.
    Patches are JSON merge patches against the object they were computed from,
    so they succeed on a newer object and change in it only what they differ in.
    [run_replay] makes every run on an [ApiServer] such a trace.

    No definition has fuel: loops are over slices, hence structural, and a
    program is a well-founded tree, so every reconciliation ends after finitely
    many calls whatever is answered; [reconcile_terminates] counts them.

    Code outside the repository is a class, with the laws the program relies on
    in a class of their own where a theorem needs any, and instances in
    Instances, Metrics, Operator and Sorting: [GoRuntime] (Unicode tables, the
    number of CPUs), [ApiMachinery] (DNS-1123 grammar, conditions, finalizers),
    [EngineLib] (template texts and execution, [ValidateTemplateConfig], JSON
    encoding), [SliceSorter] (the unstable [sort.Slice]), [GaugeVec],
    [RendererRegistry], [OtherFlags] (the flags of imported packages),
    [ManagerLib]. The decoding of an admission request is a parameter of
    Webhook. The pool reconciler is proved against the interfaces
    [ConfigGenerator] and [ConfigRenderer]; Operator puts the default generator and the
    three renderers in.

    ** What is proved

    - The pool reconciler, whatever is answered: its executions are exactly the
      outcomes of the specification ([reconcile_refinement]); what is written to
      the ConfigMap, and after which checks ([config_write_safe]); two pools of a
      namespace do not both publish ([one_publisher]); what is reported and
      retried ([ready_report]); the circuits a reconciliation touches
      ([reconcile_circuits]); the gauge ([metric_follows_selection]); the other
      keys of the ConfigMap ([config_map_frame]).
    - The pool reconciler on a working API server: once the pools are stamped, one
      reconciliation of each, in any order, makes one pool active, published and
      reported so, and the others superseded or invalid ([pools_converge]); the
      order does not matter, neither for the reports nor for the ConfigMaps
      ([convergence_order_independent]). Before they are
      stamped one pass may leave a namespace without active pool
      ([one_pass_strands]).
    - Selection: independence of listing order and sorting algorithm
      ([selection_deterministic]), the oldest is selected ([selection_oldest]),
      the condition it needs is needed: three pools of one second, the middle one
      not stamped, are ordered in a cycle, and each is selected for some listing
      ([selection_order_dependent]); the stamp ([stamp_once]).
    - The circuit breaker: the maps implement one abstract machine per namespace
      ([circuit_refinement]), which three failures in a row open for thirty
      seconds ([circuit_trips]); over any sequence of reconciliations its state
      is a function of the document writes of the namespace
      ([breaker_over_time]), and no document is written while it is open
      ([writes_suspended]). Gauge: [gauge_shows_selection].
    - Validation is equivalent to its declarative meaning ([validate_pool_iff],
      [validate_profile_iff], [validate_references_iff]) and guarantees the
      generator's success ([validated_pool_generates]). After a deletion it is
      skipped: an active remaining pool that is invalid, but can be built, is
      published on a working API server ([deletion_skips_validation]).
    - Generation: success, order, well-formedness and widths
      ([generate_succeeds_iff], [generate_upstream_order],
      [generate_well_formed]); renderers accept exactly what their engine can
      express ([renderers_accept_iff]) and need not change what the generator
      made ([generated_config_normal]); both together
      ([published_configuration]).
    - The policy reconciler, whatever is answered: no claim of another policy is
      touched ([namespace_ownership]), the finalizer goes after the claims
      ([finalizer_after_clearing]), the meaning of a validated policy
      ([enforced_means_claimed]), retries ([policy_report]) and watches
      ([watches_complete]).
    - The policy reconciler on a working API server: it leaves alone what others
      own ([claims_respected]), one reconciliation of a valid policy claims its
      namespaces ([policy_converges]), the next changes nothing
      ([policy_fixpoint]), and a deletion releases everything
      ([deletion_releases]).
    - Policy reconciliations that interleave with one another, with users, with
      failing calls and restarts never leave a claim whose policy is gone
      ([no_orphaned_claims]), provided that nobody else drops the finalizer or
      writes a claim, and that reads are fresh: with a lagging cache a claim can
      be orphaned ([lagging_cache_orphans]) or taken over
      ([stale_claim_steals], [both_enforced]).
    - The webhook: its decision ([webhook_admits_iff]), uniqueness for creations
      that do not overlap and the race that defeats it ([webhook_uniqueness]).
    - All reconcilers: a bound on the calls ([reconcile_terminates]), and that an
      event on whatever was read by name requests the reconciliation again, save
      the agent's ConfigMap, which no controller watches ([no_missed_wakeup]).
    - Start-up: every setting of the flags has a command line, and the manager
      started on it has just the options asked for, or their defaults
      ([command_line_options]); the manager is started with everything
      registered or not at all ([startup_complete]); the defaults are the secure
      ones ([secure_by_default]).

    ** What is not modelled

    Logging and the logger's options; the inside of controller-runtime (work
    queues, caches, leader election, the servers), of which only the interface
    is used; the transition times of conditions and the time stamps of events;
    the text of the templates and of the JSON encoding (interfaces); the
    end-to-end test helpers of test/utils, which run kubectl and kind; the Helm
    chart and the CRDs, which were consulted for the types and their bounds.

    ** What is next

    The converse of the policy specification ([policy_outcome] has no impossible
    outcome); progress of several policies at once; namespaces that share
    one target ConfigMap through POD_NAMESPACE; deletions of pools among the
    reconciliations of [pools_converge]; an invalid oldest pool, which [pools_converge]
    shows to keep its namespace without a new document. *)
From Stdlib Require Export ZArith Lia.
From stdpp Require Export prelude gmap strings sorting.

Open Scope Z_scope.

(** ** Machine integers

    Go's [int32] and [int] (64 bits) are integers in two's complement: every
    arithmetic result is wrapped to its width. *)

Definition wrap (w : Z) (z : Z) : Z := (z + 2 ^ (w - 1)) `mod` 2 ^ w - 2 ^ (w - 1).
Definition int32 (z : Z) : Z := wrap 32 z.
Definition int64 (z : Z) : Z := wrap 64 z.
Definition in_int32 (z : Z) : Prop := - 2 ^ 31 <= z < 2 ^ 31.
Definition in_int64 (z : Z) : Prop := - 2 ^ 63 <= z < 2 ^ 63.

Lemma wrap_id w z : 0 < w -> - 2 ^ (w - 1) <= z < 2 ^ (w - 1) -> wrap w z = z.
Proof.
  intros Hw Hz. unfold wrap.
  assert (2 ^ w = 2 * 2 ^ (w - 1)) as Hp.
  { rewrite <- Z.pow_succ_r by lia. f_equal. lia. }
  rewrite Z.mod_small by lia. lia.
Qed.

Lemma int32_id z : in_int32 z -> int32 z = z.
Proof. intros H. apply wrap_id; [lia | exact H]. Qed.

Lemma int64_id z : in_int64 z -> int64 z = z.
Proof. intros H. apply wrap_id; [lia | exact H]. Qed.

(** ** Automation *)

(** Turns boolean comparisons in the context and the goal into propositions. *)
Ltac bool_to_prop :=
  repeat match goal with
  | H : _ && _ = true |- _ => apply andb_true_iff in H as [? ?]
  | H : _ && _ = false |- _ => apply andb_false_iff in H
  | H : _ || _ = false |- _ => apply orb_false_iff in H as [? ?]
  | H : _ || _ = true |- _ => apply orb_true_iff in H
  | H : negb _ = true |- _ => apply negb_true_iff in H
  | H : negb _ = false |- _ => apply negb_false_iff in H
  | H : (_ =? _) = true |- _ => apply Z.eqb_eq in H
  | H : (_ =? _) = false |- _ => apply Z.eqb_neq in H
  | H : (_ <? _) = true |- _ => apply Z.ltb_lt in H
  | H : (_ <? _) = false |- _ => apply Z.ltb_ge in H
  | H : (_ <=? _) = true |- _ => apply Z.leb_le in H
  | H : (_ <=? _) = false |- _ => apply Z.leb_gt in H
  | H : String.eqb _ _ = true |- _ => apply String.eqb_eq in H
  | H : String.eqb _ _ = false |- _ => apply String.eqb_neq in H
  | H : bool_decide _ = true |- _ => apply bool_decide_eq_true in H
  | H : bool_decide _ = false |- _ => apply bool_decide_eq_false in H
  end.

(** Splits on the scrutinee of the first match or conditional of the goal. *)
Ltac split_match :=
  match goal with
  | |- context [match ?x with _ => _ end] =>
      lazymatch x with
      | context [match _ with _ => _ end] => fail
      | _ => destruct x eqn:?
      end
  end.

(** The same on a hypothesis. *)
Ltac split_match_in H :=
  match type of H with
  | context [match ?x with _ => _ end] =>
      lazymatch x with
      | context [match _ with _ => _ end] => fail
      | _ => destruct x eqn:?
      end
  end.

(** The hint database of the library: facts about the Go standard library
    ([go]) that [eauto] chains, and the rewrite rules of the effect calculus
    ([eff]). *)
Create HintDb go discriminated.
#[export] Hint Constants Opaque : go.

Create HintDb eff discriminated.

#[export] Hint Resolve int32_id int64_id : go.

(** ** Options and lists *)

(** Go reads a missing key of a map, or any key of a nil map, as the zero
    value; a nil map is [None]. *)
Definition map_get {A} (zero : A) (m : option (gmap string A)) (k : string) : A :=
  match m with
  | Some m => default zero (m !! k)
  | None => zero
  end.

(** The comma-ok form: [v, ok := m[k]]. *)
Definition map_lookup {A} (m : option (gmap string A)) (k : string) : option A :=
  match m with
  | Some m => m !! k
  | None => None
  end.

(** [delete(m, k)]: no effect on a nil map. *)
Definition map_delete {A} (m : option (gmap string A)) (k : string) : option (gmap string A) :=
  delete k <$> m.

Lemma map_get_lookup {A} (zero : A) m k : map_get zero m k = default zero (map_lookup m k).
Proof. by destruct m. Qed.

Lemma map_lookup_delete_eq {A} (m : option (gmap string A)) k :
  map_lookup (map_delete m k) k = None.
Proof. destruct m as [m|]; [apply lookup_delete_eq | done]. Qed.

Lemma map_lookup_delete_ne {A} (m : option (gmap string A)) k k' :
  k <> k' -> map_lookup (map_delete m k) k' = map_lookup m k'.
Proof. intros Hne. destruct m as [m|]; [by apply lookup_delete_ne | done]. Qed.

(** [for i, x := range l] with an early return of an error: the first error
    stops the loop, the accumulator is threaded through. *)
Fixpoint range_err {A S E} (f : nat -> A -> S -> E + S) (i : nat) (l : list A) (s : S) : E + S :=
  match l with
  | [] => inr s
  | x :: l => match f i x s with
              | inl e => inl e
              | inr s => range_err f (Datatypes.S i) l s
              end
  end.

(** The loop invariant rule of [range_err], for a loop that finishes. *)
Lemma range_err_inv {A S E} (f : nat -> A -> S -> E + S) (I : list A -> S -> Prop) :
  (forall i pre x s s', I pre s -> f i x s = inr s' -> I (pre ++ [x]) s') ->
  forall l pre i s s', I pre s -> range_err f i l s = inr s' -> I (pre ++ l) s'.
Proof.
  intros Hstep l. induction l as [|x l IH]; intros pre i s s' HI Hr; simpl in Hr.
  - simplify_eq. by rewrite app_nil_r.
  - destruct (f i x s) as [e|s1] eqn:Hf; [done|].
    rewrite cons_middle, app_assoc. eauto.
Qed.

(** The loop finishes when every iteration does. *)
Lemma range_err_total {A S E} (f : nat -> A -> S -> E + S) (I : list A -> S -> Prop) l0 :
  (forall i pre x post s, l0 = pre ++ x :: post -> I pre s ->
     exists s', f i x s = inr s' /\ I (pre ++ [x]) s') ->
  forall l pre i s, l0 = pre ++ l -> I pre s ->
  exists s', range_err f i l s = inr s' /\ I l0 s'.
Proof.
  intros Hstep l. induction l as [|x l IH]; intros pre i s Hl0 HI; simpl.
  - rewrite app_nil_r in Hl0. subst. eauto.
  - destruct (Hstep i pre x l s Hl0 HI) as (s1 & Hf & HI1). rewrite Hf.
    apply (IH (pre ++ [x])); [by rewrite <- app_assoc | done].
Qed.

(** A finite set with at most one element. *)
Lemma size_le_1 (X : gset string) :
  (size X <= 1)%nat <-> (forall x y, x ∈ X -> y ∈ X -> x = y).
Proof.
  split.
  - intros Hs x y Hx Hy. apply (size_singleton_inv X); [|done..].
    destruct (decide (size X = 0%nat)) as [Hz%size_empty_inv|]; [set_solver|lia].
  - intros Heq. destruct (decide (size X = 0%nat)) as [->|Hz]; [lia|].
    destruct (size_pos_elem_of X) as [n Hn]; [lia|].
    assert (X ⊆ {[n]}) as Hsub%subseteq_size by set_solver.
    rewrite size_singleton in Hsub. lia.
Qed.

(** The last separator of a list determines the two sides. *)
Lemma app_last_sep {A} (c : A) (l1 l2 d1 d2 : list A) :
  c ∉ d1 -> c ∉ d2 -> l1 ++ c :: d1 = l2 ++ c :: d2 -> l1 = l2 /\ d1 = d2.
Proof.
  intros H1 H2. revert l2. induction l1 as [|a l1 IH]; intros [|b l2]; cbn; intros Heq; simplify_eq.
  - done.
  - exfalso. apply H1. set_solver.
  - exfalso. apply H2. set_solver.
  - destruct (IH l2) as [-> ->]; done.
Qed.
