(* ===== verification/GoStrings.v ===== *)
(** Go strings as byte strings, and the functions of [strings], [strconv],
    [fmt] and [unicode/utf8] the program calls: [TrimSpace], [ToLower],
    [TrimSuffix], [TrimPrefix], [Count], [Join], [ParseInt], [ParseBool] and
    the [%d] and [%q] verbs of [Sprintf].

    A Go string is a sequence of bytes, here [String.string].  The Unicode
    tables that [ToLower] and [%q] consult for the runes above ASCII are the
    class [GoRuntime], together with the two process constants the program
    reads from the runtime. *)
From S2P Require Import Prelude.
From Stdlib Require Import Ascii DecimalString Decimal DecimalZ DecimalPos.

(** What the program uses of the Go runtime and that is data of the
    installation: the case and printability tables of package [unicode] (for
    runes from 0x80), the number of CPUs, and the RFC 3339 rendering of an
    instant. *)
Class GoRuntime := {
  unicode_to_lower : Z -> Z;
  unicode_is_print : Z -> bool;
  NumCPU : Z;
  FormatRFC3339 : Z -> string;
}.

(** ** Bytes *)

Definition byte_of (a : ascii) : Z := Z.of_N (N_of_ascii a).
Definition of_byte (z : Z) : ascii := ascii_of_N (Z.to_N z).
Definition char (z : Z) : string := String.String (of_byte z) String.EmptyString.

(** The double quote, which a literal cannot hold. *)
Definition dquote : string := char 34.

Definition in_range (lo hi z : Z) : bool := (lo <=? z) && (z <=? hi).

(** Every byte of the string satisfies [P]. *)
Fixpoint all_bytes (P : Z -> bool) (s : string) : bool :=
  match s with
  | String.EmptyString => true
  | String.String a s => P (byte_of a) && all_bytes P s
  end.

(** ** [strings.TrimSpace]

    [unicode.IsSpace] holds of six ASCII bytes and of eleven runes encoded on
    two or three bytes. *)

Definition space1 (a : ascii) : bool := in_range 9 13 (byte_of a) || (byte_of a =? 32).

Definition space2 (a b : ascii) : bool :=
  (byte_of a =? 0xC2) && ((byte_of b =? 0x85) || (byte_of b =? 0xA0)).

Definition space3 (a b c : ascii) : bool :=
  let '(a, b, c) := (byte_of a, byte_of b, byte_of c) in
  (a =? 0xE1) && (b =? 0x9A) && (c =? 0x80)
  || (a =? 0xE2) && (b =? 0x80)
     && (in_range 0x80 0x8A c || (c =? 0xA8) || (c =? 0xA9) || (c =? 0xAF))
  || (a =? 0xE2) && (b =? 0x81) && (c =? 0x9F)
  || (a =? 0xE3) && (b =? 0x80) && (c =? 0x80).

(** Drops the leading spaces, where a space is one byte in [s1], two in [s2]
    or three in [s3]. *)
Fixpoint drop_spaces (s1 : ascii -> bool) (s2 : ascii -> ascii -> bool)
    (s3 : ascii -> ascii -> ascii -> bool) (l : list ascii) : list ascii :=
  match l with
  | [] => []
  | a :: l1 =>
      if s1 a then drop_spaces s1 s2 s3 l1 else
      match l1 with
      | [] => l
      | b :: l2 =>
          if s2 a b then drop_spaces s1 s2 s3 l2 else
          match l2 with
          | [] => l
          | c :: l3 => if s3 a b c then drop_spaces s1 s2 s3 l3 else l
          end
      end
  end.

Definition trim_left : list ascii -> list ascii := drop_spaces space1 space2 space3.

Definition trim_right (l : list ascii) : list ascii :=
  reverse (drop_spaces space1 (fun a b => space2 b a) (fun a b c => space3 c b a) (reverse l)).

Definition bytes (s : string) : list ascii := String.list_ascii_of_string s.
Definition of_bytes (l : list ascii) : string := String.string_of_list_ascii l.

Definition TrimSpace (s : string) : string := of_bytes (trim_right (trim_left (bytes s))).

Lemma of_bytes_bytes s : of_bytes (bytes s) = s.
Proof. apply String.string_of_list_ascii_of_string. Qed.

Lemma bytes_of_bytes l : bytes (of_bytes l) = l.
Proof. apply String.list_ascii_of_string_of_list_ascii. Qed.

Lemma bytes_app s t : bytes (s +:+ t) = bytes s ++ bytes t.
Proof.
  induction s as [|a s IH]; [done|].
  change (a :: bytes (s +:+ t) = a :: bytes s ++ bytes t). by rewrite IH.
Qed.

Lemma bytes_inj s t : bytes s = bytes t -> s = t.
Proof. intros H. by rewrite <- (of_bytes_bytes s), <- (of_bytes_bytes t), H. Qed.

Section DropSpaces.
Context (s1 : ascii -> bool) (s2 : ascii -> ascii -> bool) (s3 : ascii -> ascii -> ascii -> bool).

(** Whether the list begins with a space. *)
Definition starts_with_space (l : list ascii) : bool :=
  match l with
  | a :: b :: c :: _ => s1 a || s2 a b || s3 a b c
  | [a; b] => s1 a || s2 a b
  | [a] => s1 a
  | [] => false
  end.

Lemma drop_spaces_id l : starts_with_space l = false -> drop_spaces s1 s2 s3 l = l.
Proof.
  destruct l as [|a [|b [|c l]]]; cbn; intros H; [done|..];
    repeat (apply orb_false_iff in H as [H ?]);
    repeat match goal with E : _ = false |- _ => rewrite E; clear E end; done.
Qed.

(** One unfolding of the loop. *)
Lemma drop_spaces_cons a l :
  drop_spaces s1 s2 s3 (a :: l) =
    if s1 a then drop_spaces s1 s2 s3 l else
    match l with
    | [] => [a]
    | b :: l2 =>
        if s2 a b then drop_spaces s1 s2 s3 l2 else
        match l2 with
        | [] => [a; b]
        | c :: l3 => if s3 a b c then drop_spaces s1 s2 s3 l3 else a :: b :: c :: l3
        end
    end.
Proof. by destruct l as [|b [|c l]]. Qed.

(** The result is what remains after some prefix, and it is a fixed point:
    the induction on the length shared by the two lemmas below. *)
Lemma drop_spaces_spec l :
  starts_with_space (drop_spaces s1 s2 s3 l) = false /\
  exists pre, l = pre ++ drop_spaces s1 s2 s3 l.
Proof.
  induction l as [l IH] using (induction_ltof1 _ (@length ascii)); unfold ltof in IH.
  assert (forall pre l', l = pre ++ l' -> (length l' < length l)%nat ->
            starts_with_space (drop_spaces s1 s2 s3 l') = false /\
            exists pre, l = pre ++ drop_spaces s1 s2 s3 l') as Hstep.
  { intros pre l' -> Hlen. destruct (IH l' Hlen) as [? [pre' Hpre]]. split; [done|].
    exists (pre ++ pre'). by rewrite <- app_assoc, <- Hpre. }
  destruct l as [|a l]; [split; [done | by exists []]|].
  rewrite drop_spaces_cons. destruct (s1 a) eqn:E1; [apply (Hstep [a]); [done | cbn; lia]|].
  destruct l as [|b l]; [split; [done | by exists []]|].
  destruct (s2 a b) eqn:E2; [apply (Hstep [a; b]); [done | cbn; lia]|].
  destruct l as [|c l]; [split; [cbn; by rewrite E1, E2 | by exists []]|].
  destruct (s3 a b c) eqn:E3; [apply (Hstep [a; b; c]); [done | cbn; lia]|].
  split; [cbn; by rewrite E1, E2, E3 | by exists []].
Qed.

Lemma drop_spaces_starts l : starts_with_space (drop_spaces s1 s2 s3 l) = false.
Proof. apply drop_spaces_spec. Qed.

Lemma drop_spaces_suffix l : exists pre, l = pre ++ drop_spaces s1 s2 s3 l.
Proof. apply drop_spaces_spec. Qed.

(** Cutting a tail off cannot create a leading space. *)
Lemma starts_with_space_prefix l l' :
  starts_with_space (l ++ l') = false -> starts_with_space l = false.
Proof.
  destruct l as [|a [|b [|c l]]]; destruct l' as [|a' [|b' l']]; cbn; intros H; try done;
    repeat (apply orb_false_iff in H as [H ?]);
    repeat match goal with E : _ = false |- _ => rewrite E; clear E end; done.
Qed.
End DropSpaces.

Lemma trim_right_prefix l : exists post, l = trim_right l ++ post.
Proof.
  unfold trim_right.
  destruct (drop_spaces_suffix space1 (fun a b => space2 b a) (fun a b c => space3 c b a)
              (reverse l)) as [pre Hpre].
  exists (reverse pre). rewrite <- reverse_app, <- Hpre. by rewrite reverse_involutive.
Qed.

Lemma trim_right_idemp l : trim_right (trim_right l) = trim_right l.
Proof.
  unfold trim_right. rewrite reverse_involutive. f_equal.
  apply drop_spaces_id, drop_spaces_starts.
Qed.

(** Trimming is a projection. *)
Lemma TrimSpace_idemp s : TrimSpace (TrimSpace s) = TrimSpace s.
Proof.
  unfold TrimSpace. rewrite bytes_of_bytes. f_equal.
  set (l := trim_left (bytes s)).
  assert (trim_left (trim_right l) = trim_right l) as ->.
  { apply drop_spaces_id. destruct (trim_right_prefix l) as [post Hpost].
    eapply starts_with_space_prefix. rewrite <- Hpost. apply drop_spaces_starts. }
  apply trim_right_idemp.
Qed.

#[export] Hint Resolve TrimSpace_idemp : go.
#[export] Hint Rewrite TrimSpace_idemp : go.

(** A string without any byte that could begin or end a space is unchanged. *)
Definition no_space_byte (z : Z) : bool :=
  negb (in_range 9 13 z || (z =? 32) || (0x80 <=? z)).

Lemma no_space_byte_starts s2 s3 l :
  (forall a b, s2 a b = true -> 0x80 <= byte_of a) ->
  (forall a b c, s3 a b c = true -> 0x80 <= byte_of a) ->
  Forall (fun a => no_space_byte (byte_of a) = true) l ->
  starts_with_space space1 s2 s3 l = false.
Proof.
  intros H2 H3 Hl.
  assert (forall a, no_space_byte (byte_of a) = true ->
            space1 a = false /\ (byte_of a < 0x80)) as Hb.
  { intros a. unfold no_space_byte, space1.
    destruct (in_range _ _ _), (byte_of a =? 32); cbn; try done.
    destruct (0x80 <=? byte_of a) eqn:E; cbn; [done|]. intros _. split; [done|].
    by apply Z.leb_gt in E. }
  assert (forall a b, byte_of a < 0x80 -> s2 a b = false) as H2'.
  { intros a b Ha. destruct (s2 a b) eqn:E; [|done]. apply H2 in E. lia. }
  assert (forall a b c, byte_of a < 0x80 -> s3 a b c = false) as H3'.
  { intros a b c Ha. destruct (s3 a b c) eqn:E; [|done]. apply H3 in E. lia. }
  destruct l as [|a l]; [done|]. apply Forall_cons in Hl as [Ha _].
  apply Hb in Ha as [Ha1 Ha2].
  destruct l as [|b [|c l]]; cbn; rewrite ?Ha1, ?H2', ?H3'; done.
Qed.

Lemma all_bytes_Forall P s : all_bytes P s = true <-> Forall (fun a => P (byte_of a) = true) (bytes s).
Proof.
  induction s as [|a s IH]; cbn; [by rewrite Forall_nil|].
  rewrite Forall_cons, andb_true_iff, IH. done.
Qed.

Ltac solve_space_lead :=
  unfold space2, space3; intros; bool_to_prop;
  repeat match goal with H : _ \/ _ |- _ => destruct H end; bool_to_prop; lia.

Lemma TrimSpace_no_space s : all_bytes no_space_byte s = true -> TrimSpace s = s.
Proof.
  intros Hs%all_bytes_Forall. unfold TrimSpace, trim_left, trim_right.
  rewrite (drop_spaces_id _ _ _ (bytes s)).
  2:{ apply no_space_byte_starts; [| |done]; solve_space_lead. }
  rewrite drop_spaces_id.
  2:{ apply no_space_byte_starts; [| |by apply Forall_reverse].
      - unfold space2. intros a b H. bool_to_prop. destruct H0; bool_to_prop; lia.
      - unfold space3, in_range. intros a b c H. bool_to_prop.
        repeat match goal with H : _ \/ _ |- _ => destruct H end; bool_to_prop;
        repeat match goal with H : _ \/ _ |- _ => destruct H end; bool_to_prop; lia. }
  rewrite reverse_involutive. apply of_bytes_bytes.
Qed.

(** ** [unicode/utf8]

    Decoding a byte sequence: a valid encoding yields its rune ([inr]), any
    other byte is reported alone ([inl]). *)

Definition continuation (z : Z) : bool := in_range 0x80 0xBF z.

Definition second_of_three (x y : Z) : bool :=
  if x =? 0xE0 then in_range 0xA0 0xBF y
  else if x =? 0xED then in_range 0x80 0x9F y
  else in_range 0xE1 0xEF x && continuation y.

Definition second_of_four (x y : Z) : bool :=
  if x =? 0xF0 then in_range 0x90 0xBF y
  else if x =? 0xF4 then in_range 0x80 0x8F y
  else in_range 0xF1 0xF3 x && continuation y.

Fixpoint utf8_decode (l : list ascii) : list (Z + Z) :=
  match l with
  | [] => []
  | a :: l1 =>
      let x := byte_of a in
      if x <? 0x80 then inr x :: utf8_decode l1 else
      match l1 with
      | [] => [inl x]
      | b :: l2 =>
          let y := byte_of b in
          if in_range 0xC2 0xDF x && continuation y
          then inr (64 * (x - 0xC0) + (y - 0x80)) :: utf8_decode l2 else
          match l2 with
          | [] => inl x :: utf8_decode l1
          | c :: l3 =>
              let z := byte_of c in
              if second_of_three x y && continuation z
              then inr (4096 * (x - 0xE0) + 64 * (y - 0x80) + (z - 0x80)) :: utf8_decode l3 else
              match l3 with
              | [] => inl x :: utf8_decode l1
              | d :: l4 =>
                  let w := byte_of d in
                  if second_of_four x y && continuation z && continuation w
                  then inr (262144 * (x - 0xF0) + 4096 * (y - 0x80) + 64 * (z - 0x80) + (w - 0x80))
                       :: utf8_decode l4
                  else inl x :: utf8_decode l1
              end
          end
      end
  end.

Definition RuneError : Z := 0xFFFD.

Definition ValidRune (r : Z) : bool := in_range 0 0xD7FF r || in_range 0xE000 0x10FFFF r.

(** [utf8.AppendRune]. *)
Definition encode_rune (r : Z) : string :=
  let r := if ValidRune r then r else RuneError in
  if r <? 0x80 then char r
  else if r <? 0x800 then char (0xC0 + r / 64) +:+ char (0x80 + r `mod` 64)
  else if r <? 0x10000 then
    char (0xE0 + r / 4096) +:+ char (0x80 + (r / 64) `mod` 64) +:+ char (0x80 + r `mod` 64)
  else
    char (0xF0 + r / 262144) +:+ char (0x80 + (r / 4096) `mod` 64)
      +:+ char (0x80 + (r / 64) `mod` 64) +:+ char (0x80 + r `mod` 64).

(** [for _, r := range s]: the runes of [s], an invalid byte read as U+FFFD. *)
Definition range_runes (s : string) : list Z :=
  (fun x => match x with inl _ => RuneError | inr r => r end) <$> utf8_decode (bytes s).

(** ** [strings.ToLower] *)

Definition ascii_lower (z : Z) : Z := if in_range 65 90 z then z + 32 else z.

Fixpoint map_bytes (f : Z -> Z) (s : string) : string :=
  match s with
  | String.EmptyString => String.EmptyString
  | String.String a s => String.String (of_byte (f (byte_of a))) (map_bytes f s)
  end.

Definition is_ascii (s : string) : bool := all_bytes (fun z => z <? 0x80) s.

Definition ToLower `{GoRuntime} (s : string) : string :=
  if is_ascii s then map_bytes ascii_lower s
  else String.concat ""
         ((fun r => encode_rune (if r <? 0x80 then ascii_lower r else unicode_to_lower r))
            <$> range_runes s).

(** On ASCII the runes are the bytes. *)
Lemma range_runes_ascii s : is_ascii s = true -> range_runes s = byte_of <$> bytes s.
Proof.
  unfold range_runes. induction s as [|a s IH]; intros Hs; [done|].
  cbn in Hs. apply andb_true_iff in Hs as [Ha Hs].
  change (bytes (String.String a s)) with (a :: bytes s).
  cbn [utf8_decode]. rewrite Ha, !fmap_cons. f_equal. by apply IH.
Qed.

(** ** Prefixes and suffixes *)

Fixpoint strip_prefix (p l : list ascii) : option (list ascii) :=
  match p, l with
  | [], _ => Some l
  | a :: p, b :: l => if Ascii.eqb a b then strip_prefix p l else None
  | _ :: _, [] => None
  end.

Definition TrimPrefix (s p : string) : string :=
  match strip_prefix (bytes p) (bytes s) with
  | Some l => of_bytes l
  | None => s
  end.

Definition TrimSuffix (s p : string) : string :=
  match strip_prefix (reverse (bytes p)) (reverse (bytes s)) with
  | Some l => of_bytes (reverse l)
  | None => s
  end.

(** [strings.Count(s, sep)] for a separator of one byte. *)
Fixpoint CountByte (s : string) (c : Z) : Z :=
  match s with
  | String.EmptyString => 0
  | String.String a s => (if byte_of a =? c then 1 else 0) + CountByte s c
  end.

Definition Join (l : list string) (sep : string) : string := String.concat sep l.

Lemma strip_prefix_spec p l l' : strip_prefix p l = Some l' -> l = p ++ l'.
Proof.
  revert l. induction p as [|a p IH]; intros [|b l] H; cbn in H; simplify_eq; try done.
  destruct (Ascii.eqb_spec a b); [|done]. subst. cbn. f_equal. by apply IH.
Qed.

(** A property of all the bytes survives trimming and cutting. *)
Lemma TrimSuffix_bytes P s p : all_bytes P s = true -> all_bytes P (TrimSuffix s p) = true.
Proof.
  intros Hs. unfold TrimSuffix. case_match eqn:E; [|done].
  apply strip_prefix_spec in E. apply all_bytes_Forall in Hs. apply all_bytes_Forall.
  rewrite bytes_of_bytes. apply Forall_reverse. apply Forall_reverse in Hs.
  rewrite E in Hs. by apply Forall_app in Hs as [_ ?].
Qed.

Lemma TrimSpace_bytes P s : all_bytes P s = true -> all_bytes P (TrimSpace s) = true.
Proof.
  intros Hs%all_bytes_Forall. apply all_bytes_Forall. unfold TrimSpace.
  rewrite bytes_of_bytes.
  destruct (drop_spaces_suffix space1 space2 space3 (bytes s)) as [pre Hpre].
  rewrite Hpre in Hs. apply Forall_app in Hs as [_ Hs]. fold (trim_left (bytes s)) in Hs.
  destruct (trim_right_prefix (trim_left (bytes s))) as [post Hpost].
  rewrite Hpost in Hs. by apply Forall_app in Hs as [? _].
Qed.

(** ** [strconv] *)

(** The [%d] verb and [strconv.Itoa]. *)
Definition Itoa (z : Z) : string := NilZero.string_of_int (Z.to_int z).

Lemma Itoa_inj x y : Itoa x = Itoa y -> x = y.
Proof.
  unfold Itoa. intros H.
  apply (f_equal NilZero.int_of_string) in H.
  assert (forall z, NilZero.int_of_string (NilZero.string_of_int (Z.to_int z))
                    = Some (Z.to_int z)) as Hi.
  { intros z. apply NilZero.isi.
    - destruct z; cbn; try done. intros Hp. simplify_eq. by eapply Unsigned.to_uint_nonnil.
    - destruct z; cbn; try done. intros Hp. simplify_eq. by eapply Unsigned.to_uint_nonnil. }
  rewrite !Hi in H. simplify_eq. by apply DecimalZ.to_int_inj.
Qed.

Lemma string_of_uint_bytes d :
  all_bytes (fun z => in_range 48 57 z) (NilEmpty.string_of_uint d) = true.
Proof. induction d; cbn; rewrite ?IHd; done. Qed.

(** A decimal numeral is made of digits, after an optional sign. *)
Lemma Itoa_bytes z : all_bytes (fun c => in_range 48 57 c || (c =? 45)) (Itoa z) = true.
Proof.
  assert (forall d, all_bytes (fun c => in_range 48 57 c || (c =? 45))
                      (NilZero.string_of_uint d) = true) as Hd.
  { intros d. assert (all_bytes (fun z => in_range 48 57 z) (NilZero.string_of_uint d) = true) as H.
    { destruct d; [done|..]; apply string_of_uint_bytes. }
    apply all_bytes_Forall. apply all_bytes_Forall in H.
    eapply Forall_impl; [exact H|]. intros a Ha. cbn in *. by rewrite Ha. }
  unfold Itoa, NilZero.string_of_int. destruct (Z.to_int z); [apply Hd|].
  cbn. rewrite Hd. done.
Qed.

Fixpoint parse_digits (l : list ascii) (acc : Z) : option Z :=
  match l with
  | [] => Some acc
  | a :: l =>
      if in_range 48 57 (byte_of a) then parse_digits l (10 * acc + (byte_of a - 48)) else None
  end.

(** [strconv.ParseUint(s, 10, 64)] before its range check. *)
Definition parse_uint (l : list ascii) : option Z :=
  match l with
  | [] => None
  | _ => parse_digits l 0
  end.

(** [strconv.ParseInt(s, 10, 64)]; [None] is an error. *)
Definition ParseInt (s : string) : option Z :=
  match bytes s with
  | [] => None
  | a :: l =>
      if byte_of a =? 43 then
        un ← parse_uint l; if un <? 2 ^ 63 then Some un else None
      else if byte_of a =? 45 then
        un ← parse_uint l; if un <=? 2 ^ 63 then Some (- un) else None
      else
        un ← parse_uint (a :: l); if un <? 2 ^ 63 then Some un else None
  end.

(** The result of [ParseInt] fits its type. *)
Lemma ParseInt_range s v : ParseInt s = Some v -> in_int64 v.
Proof.
  assert (forall l acc un, 0 <= acc -> parse_digits l acc = Some un -> 0 <= un) as Hpos.
  { induction l as [|a l IH]; intros acc un Hacc H; cbn in H; [by simplify_eq|].
    destruct (in_range 48 57 (byte_of a)) eqn:E; [|done]. unfold in_range in E. bool_to_prop.
    eapply (IH _ _); [|exact H]. lia. }
  assert (forall l un, parse_uint l = Some un -> 0 <= un) as Hu.
  { intros [|a l] un H; [done|]. exact (Hpos _ _ _ (Z.le_refl 0) H). }
  unfold ParseInt, in_int64. intros H.
  destruct (bytes s) as [|a l]; [done|].
  repeat case_match; bool_to_prop;
    (apply bind_Some in H as (un & Hun & H); specialize (Hu _ _ Hun);
     case_match; [|done]; simplify_eq; bool_to_prop; lia).
Qed.

(** A printed non-negative integer reads back as itself. *)
Lemma parse_digits_acc d acc :
  parse_digits (bytes (NilEmpty.string_of_uint d)) (Z.pos acc) = Some (Z.pos (Pos.of_uint_acc d acc)).
Proof.
  revert acc. induction d; intros acc; [done|..]; cbn [Pos.of_uint_acc];
    match goal with |- _ = Some (Z.pos (Pos.of_uint_acc d ?a)) => rewrite <- (IHd a) end;
    cbn -[Z.mul Z.add Pos.mul Pos.add]; unfold byte_of; cbn -[Z.mul Z.add Pos.mul Pos.add]; try (f_equal; lia); done.
Qed.
Lemma parse_digits_uint d :
  parse_digits (bytes (NilEmpty.string_of_uint d)) 0 = Some (Z.of_N (Pos.of_uint d)).
Proof. induction d; [done|done|..]; apply parse_digits_acc. Qed.
Lemma ParseInt_Itoa n : 0 <= n < 2 ^ 63 -> ParseInt (Itoa n) = Some n.
Proof.
  intros Hn. unfold Itoa. 
  assert (exists d, Z.to_int n = Decimal.Pos d /\ d <> Nil /\ Z.of_N (Pos.of_uint d) = n) as (d & -> & Hd & Hv).
  { destruct n as [|p|p]; [by exists (D0 Nil)| |lia]. exists (Pos.to_uint p). split; [done|].
    split; [apply Unsigned.to_uint_nonnil|]. by rewrite Unsigned.of_to. }
  pose proof (parse_digits_uint d) as Hp. rewrite Hv in Hp. unfold ParseInt, NilZero.string_of_int.
  assert (n <? 2 ^ 63 = true) as Hlt by lia.
  destruct d; cbn [NilZero.string_of_uint]; [done|..]; cbn -[parse_digits Z.pow] in *; rewrite Hp; cbn -[Z.pow]; by rewrite Hlt.
Qed.

(** [strconv.ParseBool]; [None] is an error. *)
Definition ParseBool (s : string) : option bool :=
  if bool_decide (s ∈ ["1"; "t"; "T"; "true"; "TRUE"; "True"]) then Some true
  else if bool_decide (s ∈ ["0"; "f"; "F"; "false"; "FALSE"; "False"]) then Some false
  else None.

(** The [%q] verb, [strconv.Quote]. *)
Definition hex_digit (z : Z) : string := char (if z <? 10 then 48 + z else 87 + z).

Fixpoint hex_digits (n : nat) (z : Z) : string :=
  match n with
  | O => ""
  | S n => hex_digits n (z / 16) +:+ hex_digit (z `mod` 16)
  end.

Definition quote_rune `{GoRuntime} (r : Z) : string :=
  let backslash := char 92 in
  if (r =? 34) || (r =? 92) then backslash +:+ char r
  else if (if r <? 0x80 then in_range 32 126 r else unicode_is_print r) then encode_rune r
  else if r =? 7 then backslash +:+ "a"
  else if r =? 8 then backslash +:+ "b"
  else if r =? 12 then backslash +:+ "f"
  else if r =? 10 then backslash +:+ "n"
  else if r =? 13 then backslash +:+ "r"
  else if r =? 9 then backslash +:+ "t"
  else if r =? 11 then backslash +:+ "v"
  else if (r <? 32) || (r =? 127) then backslash +:+ "x" +:+ hex_digits 2 r
  else if r <? 0x10000 then backslash +:+ "u" +:+ hex_digits 4 r
  else backslash +:+ "U" +:+ hex_digits 8 r.

Definition Quote `{GoRuntime} (s : string) : string :=
  let body := (fun x => match x with
                        | inl b => char 92 +:+ "x" +:+ hex_digits 2 b
                        | inr r => quote_rune r
                        end) <$> utf8_decode (bytes s) in
  dquote +:+ String.concat "" body +:+ dquote.

(** ** The order of strings

    Go compares strings byte by byte; [String.ltb] is [<]. *)

Lemma string_ltb_cons a s b t :
  String.ltb (String.String a s) (String.String b t) =
    match Ascii.compare a b with Eq => String.ltb s t | Lt => true | Gt => false end.
Proof. unfold String.ltb. cbn. by destruct (Ascii.compare a b). Qed.

Lemma ascii_compare_eq a b : Ascii.compare a b = Eq <-> a = b.
Proof.
  unfold Ascii.compare. rewrite N.compare_eq_iff. split; [|by intros ->].
  intros H. by rewrite <- (ascii_N_embedding a), <- (ascii_N_embedding b), H.
Qed.

Lemma string_ltb_irrefl s : String.ltb s s = false.
Proof.
  induction s as [|a s IH]; [done|]. rewrite string_ltb_cons.
  by rewrite (proj2 (ascii_compare_eq a a) eq_refl).
Qed.

Lemma string_ltb_trans s t u :
  String.ltb s t = true -> String.ltb t u = true -> String.ltb s u = true.
Proof.
  revert t u. induction s as [|a s IH]; intros [|b t] [|c u]; try done.
  rewrite !string_ltb_cons. unfold Ascii.compare.
  destruct (N.compare_spec (N_of_ascii a) (N_of_ascii b)),
    (N.compare_spec (N_of_ascii b) (N_of_ascii c)),
    (N.compare_spec (N_of_ascii a) (N_of_ascii c)); try done; try lia. apply IH.
Qed.

Lemma string_ltb_total s t : String.ltb s t = false -> String.ltb t s = false -> s = t.
Proof.
  revert t. induction s as [|a s IH]; intros [|b t]; try done.
  rewrite !string_ltb_cons, (Ascii.compare_antisym b a).
  destruct (Ascii.compare a b) eqn:E; cbn; try done.
  apply ascii_compare_eq in E as ->. intros H1 H2. f_equal. by apply IH.
Qed.
