(* ===== verification/GoErrors.v ===== *)
(** Go errors: the values built by [errors.New], [fmt.Errorf] with and without
    a [%w] verb, the package-level sentinels of the controllers, and the errors
    the Kubernetes client returns; [Error], [errors.Is] and
    [apierrors.IsNotFound]. *)
From S2P Require Import Prelude GoStrings.

(** The package-level error variables of the program. *)
Inductive sentinel :=
  | errConfigMapCircuitOpen
  | errNamespacePolicyConflict.

#[global] Instance sentinel_eq_dec : EqDecision sentinel.
Proof. solve_decision. Defined.

Definition sentinel_text (s : sentinel) : string :=
  match s with
  | errConfigMapCircuitOpen => "configmap update circuit breaker is open"
  | errNamespacePolicyConflict => "namespace already managed by another external dns policy"
  end.

(** An error value. [ErrWrap pre e post] is [fmt.Errorf] with one [%w]: the
    text around the wrapped error, and the wrapped error. [ErrExternal] is an
    error made outside the program; the flag is what [apierrors.IsNotFound]
    says of it. *)
Inductive error :=
  | ErrNew (text : string)
  | ErrSentinel (s : sentinel)
  | ErrWrap (pre : string) (e : error) (post : string)
  | ErrExternal (not_found : bool) (text : string).

Fixpoint Error (e : error) : string :=
  match e with
  | ErrNew text | ErrExternal _ text => text
  | ErrSentinel s => sentinel_text s
  | ErrWrap pre e post => pre +:+ Error e +:+ post
  end.

(** [errors.Is(err, s)] follows the chain of wrapped errors. *)
Fixpoint errors_Is (e : error) (s : sentinel) : bool :=
  match e with
  | ErrSentinel s' => bool_decide (s' = s)
  | ErrWrap _ e _ => errors_Is e s
  | ErrNew _ | ErrExternal _ _ => false
  end.

(** [apierrors.IsNotFound] looks through the chain as well. *)
Fixpoint IsNotFound (e : error) : bool :=
  match e with
  | ErrExternal not_found _ => not_found
  | ErrWrap _ e _ => IsNotFound e
  | ErrNew _ | ErrSentinel _ => false
  end.

(** The value-and-error results of Go functions that return a zero value with
    any error: [inl] the error, [inr] the value. *)
Abbreviation result A := (error + A)%type.

Definition result_bind {A B} (r : result A) (f : A -> result B) : result B :=
  match r with
  | inl e => inl e
  | inr a => f a
  end.

Declare Scope result_scope.
Delimit Scope result_scope with result.

(** [x <- r ;; k]: [if err != nil { return err }] with the error unchanged. *)
Notation "x <- r ;; k" := (result_bind r (fun x => k))
  (at level 100, r at next level, right associativity) : result_scope.

(** [check b e ;; k]: [if b { return e }]. *)
Notation "'reject' b 'with' e ;; k" := (if b then inl e else k)
  (at level 100, b at level 99, e at level 99, k at level 200, right associativity) : result_scope.

(** [if err != nil { return fmt.Errorf("prefix: %w", err) }]. *)
Definition wrap_err {A} (pre : string) (r : result A) : result A :=
  match r with
  | inl e => inl (ErrWrap pre e "")
  | inr a => inr a
  end.
