(* ===== verification/Netip.v ===== *)
(** Which strings [netip.ParseAddr] accepts: IPv4 in dotted decimal, IPv6 in
    its textual form with an optional zone. Only the acceptance is modelled,
    the program never uses the parsed address. *)
From S2P Require Import Prelude GoStrings.
From Stdlib Require Import Ascii.

Definition digit (z : Z) : bool := in_range 48 57 z.
Definition dot : Z := 46.
Definition colon : Z := 58.
Definition percent : Z := 37.

(** The value of a hexadecimal digit. *)
Definition hex_value (z : Z) : option Z :=
  if digit z then Some (z - 48)
  else if in_range 97 102 z then Some (z - 87)
  else if in_range 65 70 z then Some (z - 55)
  else None.

(** [parseIPv4Fields]: the loop over the bytes, with the previous byte (if
    any), the number of completed fields, the value and the number of digits
    of the current field. *)
Fixpoint ipv4_loop (prev : option Z) (pos val digLen : Z) (l : list ascii) : bool :=
  match l with
  | [] => negb (pos <? 3)
  | a :: rest =>
      let c := byte_of a in
      if digit c then
        if (digLen =? 1) && (val =? 0) then false
        else let val := 10 * val + (c - 48) in
             if 255 <? val then false else ipv4_loop (Some c) pos val (digLen + 1) rest
      else if c =? dot then
        if match prev with None => true | Some p => p =? dot end
           || match rest with [] => true | _ => false end
        then false
        else if pos =? 3 then false
        else ipv4_loop (Some c) (pos + 1) 0 0 rest
      else false
  end.

Definition parseIPv4 (l : list ascii) : bool := ipv4_loop None 0 0 0 l.

(** The hexadecimal group at the head of [l]: the number of digits read and
    the rest, or [None] when a group is too long or too large. *)
Fixpoint hex_group (off acc : Z) (l : list ascii) : option (Z * list ascii) :=
  match l with
  | [] => Some (off, [])
  | a :: rest =>
      match hex_value (byte_of a) with
      | None => Some (off, l)
      | Some d =>
          let acc := 16 * acc + d in
          if 3 <? off then None
          else if 65535 <? acc then None
          else hex_group (off + 1) acc rest
      end
  end.

Definition head_is (z : Z) (l : list ascii) : bool :=
  match l with
  | a :: _ => byte_of a =? z
  | [] => false
  end.

(** The loop of [parseIPv6]: [i] bytes of the address are filled, [ellipsis]
    says whether [::] has been seen. Eight turns are enough, since each fills
    two bytes and the loop stops at sixteen. *)
Fixpoint ipv6_loop (fuel : nat) (i : Z) (ellipsis : bool) (s : list ascii) : bool :=
  let finish i ellipsis s :=
    match s with
    | _ :: _ => false
    | [] => if i <? 16 then ellipsis else negb ellipsis
    end in
  match fuel with
  | O => finish i ellipsis s
  | S fuel =>
      if negb (i <? 16) then finish i ellipsis s else
      match hex_group 0 0 s with
      | None => false
      | Some (off, rest) =>
          if off =? 0 then false
          else if head_is dot rest then
            if negb ellipsis && negb (i =? 12) then false
            else if 16 <? i + 4 then false
            else parseIPv4 s && finish (i + 4) ellipsis []
          else
            let i := i + 2 in
            match rest with
            | [] => finish i ellipsis []
            | c :: rest =>
                if negb (byte_of c =? colon) then false
                else match rest with
                     | [] => false
                     | d :: rest' =>
                         if byte_of d =? colon then
                           if ellipsis then false
                           else match rest' with
                                | [] => finish i true []
                                | _ => ipv6_loop fuel i true rest'
                                end
                         else ipv6_loop fuel i ellipsis rest
                     end
            end
      end
  end.

(** The part before the first [%], and the zone after it. *)
Fixpoint split_zone (l : list ascii) : list ascii * option (list ascii) :=
  match l with
  | [] => ([], None)
  | a :: l =>
      if byte_of a =? percent then ([], Some l)
      else let '(s, zone) := split_zone l in (a :: s, zone)
  end.

Definition parseIPv6 (l : list ascii) : bool :=
  let '(s, zone) := split_zone l in
  match zone with
  | Some [] => false
  | _ =>
      match s with
      | a :: b :: rest =>
          if (byte_of a =? colon) && (byte_of b =? colon) then
            match rest with
            | [] => true
            | _ => ipv6_loop 8 0 true rest
            end
          else ipv6_loop 8 0 false s
      | _ => ipv6_loop 8 0 false s
      end
  end.

(** [ParseAddr]: the first of [.], [:] and [%] decides the form. *)
Fixpoint parse_addr_form (l whole : list ascii) : bool :=
  match l with
  | [] => false
  | a :: l =>
      let c := byte_of a in
      if c =? dot then parseIPv4 whole
      else if c =? colon then parseIPv6 whole
      else if c =? percent then false
      else parse_addr_form l whole
  end.

(** [_, err := netip.ParseAddr(s); err == nil]. *)
Definition ParseAddr (s : string) : bool := parse_addr_form (bytes s) (bytes s).

Example ParseAddr_v4 : ParseAddr "1.1.1.1" = true. Proof. reflexivity. Qed.
Example ParseAddr_v4_bad : ParseAddr "999.999.999.999" = false. Proof. reflexivity. Qed.
Example ParseAddr_v6 : ParseAddr "2001:4860:4860::8888" = true. Proof. reflexivity. Qed.
Example ParseAddr_v6_v4 : ParseAddr "::ffff:1.2.3.4" = true. Proof. reflexivity. Qed.
Example ParseAddr_v6_zone : ParseAddr "fe80::1%eth0" = true. Proof. reflexivity. Qed.
Example ParseAddr_v6_full : ParseAddr "1:2:3:4:5:6:7:8" = true. Proof. reflexivity. Qed.
Example ParseAddr_v6_long : ParseAddr "1:2:3:4:5:6:7:8:9" = false. Proof. reflexivity. Qed.
Example ParseAddr_host : ParseAddr "dns.google" = false. Proof. reflexivity. Qed.

