(* ===== verification/Sorting.v ===== *)
(** Package [sort]: [sort.Slice], [sort.SliceStable] and [sort.Strings].

    The documentation of [sort.Slice] asks of the comparison that it be a
    strict weak order and says nothing about the place of equal elements. The
    class [SliceSorter] is that contract; [insertion_sort] is the algorithm Go
    runs on at most twelve elements, and an instance of the class whatever the
    length. [sort.SliceStable] is determined by its contract (a stable sorted
    permutation is unique), so it is the insertion sort itself. *)
From S2P Require Import Prelude GoStrings.

(** ** Strict weak orders *)

(** [less] is a strict weak order on the elements that satisfy [P]. *)
Class StrictWeak {A} (less : A -> A -> bool) (P : A -> Prop) : Prop := {
  sw_asym x y : P x -> P y -> less x y = true -> less y x = false;
  sw_cotrans x y z : P x -> P y -> P z -> less x z = true -> less x y = true \/ less y z = true;
}.

(** The order of a sorted slice: nothing is less than what stands before it. *)
Definition not_less {A} (less : A -> A -> bool) (x y : A) : Prop := less y x = false.

Section StrictWeak.
Context {A : Type} (less : A -> A -> bool) (P : A -> Prop) `{!StrictWeak less P}.

Lemma sw_trans x y z :
  P x -> P y -> P z -> less x y = true -> less y z = true -> less x z = true.
Proof.
  intros Hx Hy Hz Hxy Hyz.
  destruct (sw_cotrans x z y Hx Hz Hy Hxy) as [?|Hzy]; [done|].
  rewrite (sw_asym y z Hy Hz Hyz) in Hzy. done.
Qed.

Lemma not_less_trans x y z :
  P x -> P y -> P z -> not_less less x y -> not_less less y z -> not_less less x z.
Proof.
  unfold not_less. intros Hx Hy Hz Hxy Hyz.
  destruct (less z x) eqn:E; [|done].
  destruct (sw_cotrans z y x Hz Hy Hx E); congruence.
Qed.

Lemma less_not_less x y : P x -> P y -> less x y = true -> not_less less x y.
Proof. unfold not_less. intros. by apply sw_asym. Qed.
End StrictWeak.

(** Two comparisons in turn are a strict weak order when each is. *)
Lemma lexicographic_strict_weak {A} (less1 less2 less : A -> A -> bool) (P : A -> Prop) :
  StrictWeak less1 P -> StrictWeak less2 P ->
  (forall x y, P x -> P y ->
     less x y = less1 x y || (negb (less1 y x) && less2 x y)) ->
  StrictWeak less P.
Proof.
  intros S1 S2 Hless. split.
  - intros x y Hx Hy Hxy. rewrite Hless in Hxy by done. rewrite Hless by done.
    apply orb_true_iff in Hxy as [H1|H1]; [by rewrite H1, (sw_asym (less:=less1) x y)|].
    apply andb_true_iff in H1 as [H1 H2]. apply negb_true_iff in H1.
    rewrite H1, (sw_asym (less:=less2) x y) by done. by rewrite andb_false_r.
  - intros x y z Hx Hy Hz Hxz. rewrite Hless in Hxz by done. rewrite !Hless by done.
    apply orb_true_iff in Hxz as [H1|H1].
    { destruct (sw_cotrans (less:=less1) x y z Hx Hy Hz H1) as [->| ->]; cbn; auto. }
    apply andb_true_iff in H1 as [Hzx H2]. apply negb_true_iff in Hzx.
    destruct (less1 x y) eqn:Exy; [by left|]. destruct (less1 y z) eqn:Eyz; [by right|]. cbn.
    assert (less1 y x = false) as ->.
    { apply not_true_iff_false. intros E.
      destruct (sw_cotrans (less:=less1) y z x Hy Hz Hx E); congruence. }
    assert (less1 z y = false) as ->.
    { apply not_true_iff_false. intros E.
      destruct (sw_cotrans (less:=less1) z x y Hz Hx Hy E); congruence. }
    exact (sw_cotrans (less:=less2) x y z Hx Hy Hz H2).
Qed.

(** ** Insertion sort *)

Section InsertionSort.
Context {A : Type} (less : A -> A -> bool).

(** Moves [x] down the sorted prefix, held with its greatest element first:
    [for j := i; j > a && less(j, j-1); j-- { swap(j, j-1) }]. *)
Fixpoint insert_back (x : A) (acc : list A) : list A :=
  match acc with
  | [] => [x]
  | y :: ys => if less x y then y :: insert_back x ys else x :: acc
  end.

(** [for i := a + 1; i < b; i++]. *)
Definition insertion_sort (l : list A) : list A :=
  reverse (foldl (fun acc x => insert_back x acc) [] l).

Lemma insert_back_perm x acc : insert_back x acc ≡ₚ x :: acc.
Proof.
  induction acc as [|y acc IH]; cbn; [done|].
  destruct (less x y); [|done]. rewrite IH. apply Permutation_swap.
Qed.

Lemma insertion_sort_perm l : insertion_sort l ≡ₚ l.
Proof.
  unfold insertion_sort. rewrite reverse_Permutation.
  assert (forall acc, foldl (fun acc x => insert_back x acc) acc l ≡ₚ acc ++ l) as H.
  { induction l as [|x l IH]; intros acc; cbn; [by rewrite app_nil_r|].
    rewrite IH, insert_back_perm. apply (Permutation_middle acc l x). }
  apply (H []).
Qed.

Lemma insert_back_sorted (P : A -> Prop) `{!StrictWeak less P} x acc :
  P x -> Forall P acc -> StronglySorted (flip (not_less less)) acc ->
  StronglySorted (flip (not_less less)) (insert_back x acc).
Proof.
  intros Hx. induction acc as [|y acc IH]; cbn; intros HP Hs.
  - repeat constructor.
  - apply Forall_cons in HP as [Hy HP]. apply StronglySorted_inv in Hs as [Hs Hall].
    destruct (less x y) eqn:E.
    + constructor; [by apply IH|]. rewrite insert_back_perm. constructor; [|done].
      unfold flip. by eapply (less_not_less less P).
    + constructor; [by constructor|]. constructor; [done|].
      rewrite Forall_forall in *. intros z Hz. unfold flip in *.
      eapply (not_less_trans less P); [by apply HP|exact Hy|exact Hx|by apply Hall|exact E].
Qed.

Lemma StronglySorted_snoc (R : A -> A -> Prop) l x :
  StronglySorted R l -> Forall (fun y => R y x) l -> StronglySorted R (l ++ [x]).
Proof.
  induction 1 as [|y l Hs IH Hall]; cbn; intros HF; [repeat constructor|].
  apply Forall_cons in HF as [Hy HF]. constructor; [by apply IH|].
  apply Forall_app. split; [done|by constructor].
Qed.

Lemma StronglySorted_reverse (R : A -> A -> Prop) l :
  StronglySorted (flip R) l -> StronglySorted R (reverse l).
Proof.
  induction 1 as [|x l Hs IH Hall]; [constructor|].
  rewrite reverse_cons. apply StronglySorted_snoc; [done|]. by apply Forall_reverse.
Qed.

Lemma insertion_sort_sorted (P : A -> Prop) `{!StrictWeak less P} l :
  Forall P l -> StronglySorted (not_less less) (insertion_sort l).
Proof.
  intros HP. apply StronglySorted_reverse.
  assert (forall l' acc, Forall P l' -> Forall P acc ->
            StronglySorted (flip (not_less less)) acc ->
            StronglySorted (flip (not_less less))
              (foldl (fun acc x => insert_back x acc) acc l')) as H.
  { induction l' as [|x l' IH]; intros acc Hl' Hacc Hs; cbn; [done|].
    apply Forall_cons in Hl' as [Hx Hl'].
    apply IH; [done| |by apply (insert_back_sorted P)].
    rewrite insert_back_perm. by constructor. }
  apply H; [done..|constructor].
Qed.

(** Stability: the elements that are neither less nor greater than a given
    one keep the order they came in. *)
Definition tied (x y : A) : bool := negb (less x y) && negb (less y x).

Lemma insert_back_tied (P : A -> Prop) `{!StrictWeak less P} w x acc :
  P w -> P x -> Forall P acc ->
  filter (fun y => tied w y = true) (insert_back x acc)
  = filter (fun y => tied w y = true) (x :: acc).
Proof.
  intros Hw Hx. induction acc as [|y acc IH]; intros HP; [done|].
  apply Forall_cons in HP as [Hy HP]. cbn [insert_back].
  destruct (less x y) eqn:E; [|done].
  rewrite filter_cons, IH by done. rewrite !filter_cons.
  destruct (decide (tied w y = true)) as [T1|]; [|done].
  destruct (decide (tied w x = true)) as [T2|]; [|done].
  exfalso. unfold tied in T1, T2. bool_to_prop.
  destruct (sw_cotrans (less:=less) x w y Hx Hw Hy E); congruence.
Qed.

Lemma insertion_sort_stable (P : A -> Prop) `{!StrictWeak less P} l w :
  Forall P l -> P w ->
  filter (fun y => tied w y = true) (insertion_sort l)
  = filter (fun y => tied w y = true) l.
Proof.
  intros HP Hw. unfold insertion_sort. rewrite filter_reverse.
  assert (forall l' acc, Forall P l' -> Forall P acc ->
            filter (fun y => tied w y = true) (foldl (fun acc x => insert_back x acc) acc l')
            = reverse (filter (fun y => tied w y = true) l')
              ++ filter (fun y => tied w y = true) acc) as H.
  { induction l' as [|x l' IH]; intros acc Hl' Hacc; cbn [foldl]; [done|].
    apply Forall_cons in Hl' as [Hx Hl'].
    rewrite IH; [|done|rewrite insert_back_perm; by constructor].
    rewrite (insert_back_tied P) by done. rewrite !filter_cons.
    case_decide; [|done]. by rewrite reverse_cons, <- app_assoc. }
  rewrite H; [|done..].
  rewrite app_nil_r. apply reverse_involutive.
Qed.
End InsertionSort.

(** A sorted permutation is unique when no two distinct elements tie. *)
Lemma sorted_unique {A} (less : A -> A -> bool) (l1 l2 : list A) :
  (forall x y, x ∈ l1 -> y ∈ l1 -> less x y = false -> less y x = false -> x = y) ->
  l1 ≡ₚ l2 -> StronglySorted (not_less less) l1 -> StronglySorted (not_less less) l2 -> l1 = l2.
Proof.
  intros Htot Hp S1 S2. apply (StronglySorted_unique_strong (not_less less)); [|done..].
  unfold not_less. intros x y Hx Hy H1 H2. rewrite <- Hp in Hy. by apply Htot.
Qed.

(** ** The contracts *)

Class SliceSorter := sort_Slice : forall {A}, (A -> A -> bool) -> list A -> list A.

Class SliceSorterLaws `{SliceSorter} : Prop := {
  sort_Slice_perm {A} (less : A -> A -> bool) l : sort_Slice less l ≡ₚ l;
  sort_Slice_sorted {A} (less : A -> A -> bool) l :
    StrictWeak less (.∈ l) -> StronglySorted (not_less less) (sort_Slice less l);
}.

Definition insertion_sorter : SliceSorter := @insertion_sort.

#[export] Instance insertion_sorter_laws : @SliceSorterLaws insertion_sorter.
Proof.
  split.
  - intros A less l. apply insertion_sort_perm.
  - intros A less l HW. apply (insertion_sort_sorted less (.∈ l)). by apply Forall_forall.
Qed.

(** [sort.SliceStable]. *)
Definition sort_SliceStable {A} (less : A -> A -> bool) (l : list A) : list A :=
  insertion_sort less l.

Lemma sort_SliceStable_perm {A} (less : A -> A -> bool) l : sort_SliceStable less l ≡ₚ l.
Proof. apply insertion_sort_perm. Qed.

(** [sort.Strings]: equal strings are indistinguishable, so the result does
    not depend on the algorithm. *)
Definition sort_Strings (l : list string) : list string := insertion_sort String.ltb l.

#[export] Instance string_ltb_strict_weak P : StrictWeak String.ltb P.
Proof.
  split.
  - intros x y _ _ Hxy. destruct (String.ltb y x) eqn:E; [|done].
    by rewrite <- (string_ltb_irrefl x), (string_ltb_trans x y x Hxy E).
  - intros x y z _ _ _ Hxz. destruct (String.ltb x y) eqn:E1; [by left|].
    destruct (String.ltb y z) eqn:E2; [by right|]. exfalso.
    destruct (String.ltb y x) eqn:E3.
    + by rewrite (string_ltb_trans y x z E3 Hxz) in E2.
    + by rewrite (string_ltb_total x y E1 E3), E2 in Hxz.
Qed.

Lemma sort_Strings_perm l : sort_Strings l ≡ₚ l.
Proof. apply insertion_sort_perm. Qed.

Lemma sort_Strings_sorted l : StronglySorted (not_less String.ltb) (sort_Strings l).
Proof. apply (insertion_sort_sorted _ (fun _ => True)). by apply Forall_true. Qed.

(** The sorted form depends only on the multiset of the strings. *)
#[export] Instance sort_Strings_proper : Proper ((≡ₚ) ==> (=)) sort_Strings.
Proof.
  intros l1 l2 Hp. apply (sorted_unique String.ltb); [|by rewrite !sort_Strings_perm|..].
  - intros x y _ _. apply string_ltb_total.
  - apply sort_Strings_sorted.
  - apply sort_Strings_sorted.
Qed.
