(* ===== verification/Types.v ===== *)
(** The data the operator works on: the custom resources of
    [astradns-types/api/v1alpha1], the [EngineConfig] of
    [astradns-types/engine], the Kubernetes objects and conditions, and the
    third-party functions on them, which are the classes [ApiMachinery] and
    [EngineLib].

    The type packages are not part of the repository. The fields are those the
    program reads or writes (and the CRDs under config/crd/bases describe);
    the values of the string constants are those the CRD enumerations and the
    validation messages give. A nil-able Go value is an [option]; a nil slice
    and an empty one are both [[]], which the program never tells apart. *)
From S2P Require Import Prelude GoStrings GoErrors.

(** ** Object metadata *)

(** Instants are nanoseconds since the zero [time.Time]; [IsZero] is [0]. *)
Abbreviation time := Z (only parsing).

Definition time_IsZero (t : time) : bool := t =? 0.
Definition time_Equal (t u : time) : bool := t =? u.
Definition time_Before (t u : time) : bool := t <? u.
Definition time_After (t u : time) : bool := u <? t.
Definition Second : Z := 1000000000.

Record ObjectMeta := {
  Name : string;
  Namespace : string;
  UID : string;
  ResourceVersion : string;
  Generation : Z;
  CreationTimestamp : time;
  DeletionTimestamp : option time;
  Annotations : option (gmap string string);
  Finalizers : list string;
}.

Record NamespacedName := { key_Namespace : string; key_Name : string }.

#[global] Instance NamespacedName_eq_dec : EqDecision NamespacedName.
Proof. solve_decision. Defined.

#[global] Instance NamespacedName_countable : Countable NamespacedName.
Proof.
  apply (inj_countable' (fun k => (key_Namespace k, key_Name k))
    (fun k => {| key_Namespace := k.1; key_Name := k.2 |})). by intros [].
Defined.

(** [NamespacedName.String], the text of [%s]. *)
Definition key_String (k : NamespacedName) : string := key_Namespace k +:+ "/" +:+ key_Name k.

Definition meta_key (m : ObjectMeta) : NamespacedName :=
  {| key_Namespace := Namespace m; key_Name := Name m |}.

Definition set_Annotations (v : option (gmap string string)) (m : ObjectMeta) : ObjectMeta :=
  {| Name := Name m; Namespace := Namespace m; UID := UID m;
     ResourceVersion := ResourceVersion m; Generation := Generation m;
     CreationTimestamp := CreationTimestamp m; DeletionTimestamp := DeletionTimestamp m;
     Annotations := v; Finalizers := Finalizers m |}.

Definition set_Finalizers (v : list string) (m : ObjectMeta) : ObjectMeta :=
  {| Name := Name m; Namespace := Namespace m; UID := UID m;
     ResourceVersion := ResourceVersion m; Generation := Generation m;
     CreationTimestamp := CreationTimestamp m; DeletionTimestamp := DeletionTimestamp m;
     Annotations := Annotations m; Finalizers := v |}.

(** ** Status conditions *)

Inductive ConditionStatus := ConditionTrue | ConditionFalse | ConditionUnknown.

#[global] Instance ConditionStatus_eq_dec : EqDecision ConditionStatus.
Proof. solve_decision. Defined.

(** [metav1.Condition] without its transition time, which the program never
    reads or sets. *)
Record Condition := {
  cond_Type : string;
  cond_Status : ConditionStatus;
  cond_ObservedGeneration : Z;
  cond_Reason : string;
  cond_Message : string;
}.

#[global] Instance Condition_eq_dec : EqDecision Condition.
Proof. solve_decision. Defined.

Definition find_condition (t : string) (l : list Condition) : option Condition :=
  head (filter (fun c => cond_Type c = t) l).

(** ** [DNSUpstreamPool] *)

Record Upstream := {
  Address : string;
  Port : Z;
  Transport : string;
  TLSServerName : string;
  Weight : Z;
  Preference : Z;
}.

Record DomainFilter := { Allow : list string; Deny : list string; Action : string }.

Record DNSUpstreamPoolSpec := {
  Upstreams : list Upstream;
  WorkerThreads : Z;               (* spec.runtime.workerThreads *)
  DNSSECMode : string;             (* spec.dnssec.mode *)
  PoolDomainFilter : DomainFilter; (* spec.domainFilter *)
}.

Record Status := { Conditions : list Condition; ObservedGeneration : Z }.

Record DNSUpstreamPool := {
  pool_meta : ObjectMeta;
  pool_spec : DNSUpstreamPoolSpec;
  pool_status : Status;
}.

(** ** [DNSCacheProfile] *)

Record DNSCacheProfileSpec := {
  MaxEntries : Z;
  MinSeconds : Z;        (* spec.positiveTtl.minSeconds *)
  MaxSeconds : Z;        (* spec.positiveTtl.maxSeconds *)
  NegativeSeconds : Z;   (* spec.negativeTtl.seconds *)
  PrefetchEnabled : bool;
  PrefetchThreshold : Z;
}.

Record DNSCacheProfile := {
  profile_meta : ObjectMeta;
  profile_spec : DNSCacheProfileSpec;
  profile_status : Status;
}.

(** ** [ExternalDNSPolicy] *)

Record ExternalDNSPolicySpec := {
  SelectorNamespaces : list string;  (* spec.selector.namespaces *)
  UpstreamPoolRef : string;          (* spec.upstreamPoolRef.name *)
  CacheProfileRef : string;          (* spec.cacheProfileRef.name *)
}.

Record ExternalDNSPolicy := {
  policy_meta : ObjectMeta;
  policy_spec : ExternalDNSPolicySpec;
  policy_status : Status;
  AppliedNodes : Z;                  (* status.appliedNodes *)
}.

(** ** Core objects *)

Record CoreNamespace := { namespace_meta : ObjectMeta }.

Record ConfigMap := { cm_key : NamespacedName; cm_Data : option (gmap string string) }.

(** ** [engine.EngineConfig]

    [UpstreamTransport], [DNSSECMode], [DomainFilterAction] and [EngineType]
    are string types with constants. *)

Definition UpstreamTransportDNS : string := "dns".
Definition UpstreamTransportDoT : string := "dot".
Definition UpstreamTransportDoH : string := "doh".
Definition DNSSECModeOff : string := "off".
Definition DNSSECModeProcess : string := "process".
Definition DNSSECModeValidate : string := "validate".
Definition DomainFilterActionRefused : string := "refused".
Definition DomainFilterActionNXDomain : string := "nxdomain".
Definition EngineUnbound : string := "unbound".
Definition EngineCoreDNS : string := "coredns".
Definition EnginePowerDNS : string := "powerdns".

Record UpstreamConfig := {
  uc_Address : string;
  uc_Port : Z;
  uc_Transport : string;
  uc_TLSServerName : string;
  uc_Weight : Z;
  uc_Preference : Z;
}.

Record CacheConfig := {
  cc_MaxEntries : Z;
  cc_PositiveTtlMin : Z;
  cc_PositiveTtlMax : Z;
  cc_NegativeTtl : Z;
  cc_PrefetchEnabled : bool;
  cc_PrefetchThreshold : Z;
}.

Record EngineConfig := {
  ec_Upstreams : list UpstreamConfig;
  ec_Cache : CacheConfig;
  ec_ListenAddr : string;
  ec_ListenPort : Z;
  ec_WorkerThreads : Z;
  ec_DNSSECMode : string;
  ec_DomainFilter : DomainFilter;
}.

Definition no_filter : DomainFilter := {| Allow := []; Deny := []; Action := "" |}.

(** ** Third-party functions *)

(** [k8s.io/apimachinery/pkg/util/validation], [pkg/api/meta] and
    controller-runtime's finalizer helpers. The validation functions return
    the list of complaints, empty for a valid name. *)
Class ApiMachinery := {
  IsDNS1123Subdomain : string -> list string;
  IsDNS1123Label : string -> list string;
  SetStatusCondition : list Condition -> Condition -> list Condition;
  ContainsFinalizer : list string -> string -> bool;
  AddFinalizer : list string -> string -> list string;
  RemoveFinalizer : list string -> string -> list string;
}.

(** The bytes a DNS-1123 subdomain is made of: lower-case letters, digits,
    the dash and the dot. *)
Definition dns1123_byte (z : Z) : bool :=
  in_range 97 122 z || in_range 48 57 z || (z =? 45) || (z =? 46).

(** What the program relies on of these functions, from their documentation:
    a subdomain is made of the bytes above; setting a condition makes it the
    one found under its type and leaves the other types alone; finalizers are
    a set. *)
Class ApiMachineryLaws `{ApiMachinery} : Prop := {
  subdomain_bytes s : IsDNS1123Subdomain s = [] -> all_bytes dns1123_byte s = true;
  SetStatusCondition_same l c : find_condition (cond_Type c) (SetStatusCondition l c) = Some c;
  SetStatusCondition_other l c t :
    t <> cond_Type c -> find_condition t (SetStatusCondition l c) = find_condition t l;
  ContainsFinalizer_spec l f : ContainsFinalizer l f = true <-> f ∈ l;
  AddFinalizer_spec l f g : g ∈ AddFinalizer l f <-> g = f \/ g ∈ l;
  RemoveFinalizer_spec l f g : g ∈ RemoveFinalizer l f <-> g <> f /\ g ∈ l;
}.

(** [engine.ValidateTemplateConfig], the JSON encoding of the configuration,
    and the text of each engine template executed on the data of a
    configuration ([NewTemplateData], [template.Parse] and [Execute]). *)
Class EngineLib := {
  ValidateTemplateConfig : EngineConfig -> option error;
  TemplateData : Type;
  NewTemplateData : EngineConfig -> TemplateData;
  Template : Type;
  template_Parse : string -> string -> result Template;
  template_Execute : Template -> TemplateData -> result string;
  UnboundConfigTemplate : string;
  CorefileTemplate : string;
  RecursorConfTemplate : string;
  MarshalIndent : EngineConfig -> result string;
}.

(** [ctrl.Result]; a zero [RequeueAfter] asks for no requeue. *)
Record ReconcileResult := { RequeueAfter : Z }.
Definition no_requeue : ReconcileResult := {| RequeueAfter := 0 |}.

(** The interfaces of [astradns-types/engineconfig]. *)
Record ConfigGenerator := {
  Generate : option DNSUpstreamPool -> option DNSCacheProfile -> result EngineConfig;
}.

Record ConfigRenderer := {
  Render : option EngineConfig -> result string;
  EngineType : string;
  ConfigFileName : string;
}.
