(* ===== verification/Flags.v ===== *)
(** Package [flag], and the flags of cmd/main.go: which command lines the
    operator accepts and the options they give.

    [flag.CommandLine] exits when the parsing fails ([ExitOnError]); here the
    parsing returns how it ends, and the usage texts are not modelled. The
    flags that imported packages define on the same command line (zap's
    [BindFlags], controller-runtime's [kubeconfig]) are the class
    [OtherFlags]. *)
From Stdlib Require Import Ascii.
From stdpp Require Import functions.
From S2P Require Import Prelude GoStrings GoErrors.

(** ** The variables of main *)

Inductive string_var :=
  | metricsAddr | probeAddr | leaderElectionID
  | webhookCertPath | webhookCertName | webhookCertKey
  | metricsCertPath | metricsCertName | metricsCertKey.

Inductive bool_var := enableLeaderElection | secureMetrics | enableHTTP2.

#[global] Instance string_var_eq_dec : EqDecision string_var.
Proof. solve_decision. Defined.
#[global] Instance bool_var_eq_dec : EqDecision bool_var.
Proof. solve_decision. Defined.

(** The values of the variables. *)
Record Options := { string_of : string_var -> string; bool_of : bool_var -> bool }.

Definition defaultLeaderElectionID : string := "60acac32.astradns.com".

(** The values the definitions of the flags give. *)
Definition default_options : Options := {|
  string_of v :=
    match v with
    | metricsAddr => "0"
    | probeAddr => ":8081"
    | leaderElectionID => defaultLeaderElectionID
    | webhookCertPath => ""
    | webhookCertName => "tls.crt"
    | webhookCertKey => "tls.key"
    | metricsCertPath => ""
    | metricsCertName => "tls.crt"
    | metricsCertKey => "tls.key"
    end;
  bool_of v :=
    match v with
    | enableLeaderElection => false
    | secureMetrics => true
    | enableHTTP2 => false
    end;
|}.

(** The names the variables are bound to by [flag.StringVar] and
    [flag.BoolVar], in the order of the calls. *)
Definition flags : list (string * (string_var + bool_var)) := [
  ("metrics-bind-address", inl metricsAddr);
  ("health-probe-bind-address", inl probeAddr);
  ("leader-elect", inr enableLeaderElection);
  ("leader-election-id", inl leaderElectionID);
  ("metrics-secure", inr secureMetrics);
  ("webhook-cert-path", inl webhookCertPath);
  ("webhook-cert-name", inl webhookCertName);
  ("webhook-cert-key", inl webhookCertKey);
  ("metrics-cert-path", inl metricsCertPath);
  ("metrics-cert-name", inl metricsCertName);
  ("metrics-cert-key", inl metricsCertKey);
  ("enable-http2", inr enableHTTP2)].

Definition set_string (v : string_var) (value : string) (o : Options) : Options :=
  {| string_of := <[v := value]> (string_of o); bool_of := bool_of o |}.
Definition set_bool (v : bool_var) (value : bool) (o : Options) : Options :=
  {| string_of := string_of o; bool_of := <[v := value]> (bool_of o) |}.

(** The flags of the imported packages: whether a name is one of them and then
    a boolean one, and their [Set], which may refuse the text. *)
Class OtherFlags := {
  other : Type;
  other_default : other;
  other_flag : string -> option bool;
  other_Set : string -> string -> other -> option other;
}.

(** ** Parsing *)

(** How [flag.Parse] ends: with the values and the remaining arguments, with
    the help text (exit 0), or with an error (exit 2). *)
Inductive parsed {X : Type} :=
  | Parsed (o : Options) (x : X) (rest : list string)
  | HelpRequested
  | BadArguments.
Arguments parsed X : clear implicits.

(** What [parseOne] makes of one argument before it looks the name up: not a
    flag, the terminator, a syntax error, or a name with perhaps a value. *)
Inductive argument :=
  | NotAFlag
  | Terminator
  | BadSyntax
  | NamedFlag (name : string) (value : option string).

(** The name up to the first equals sign, and what follows it. *)
Fixpoint split_equals (name : list ascii) : list ascii * option (list ascii) :=
  match name with
  | [] => ([], None)
  | a :: l =>
      if byte_of a =? 61 then ([], Some l)
      else let '(n, v) := split_equals l in (a :: n, v)
  end.

Definition named_flag (name : list ascii) : argument :=
  match name with
  | [] => BadSyntax
  | a :: _ =>
      if (byte_of a =? 45) || (byte_of a =? 61) then BadSyntax
      else let '(n, v) := split_equals name in NamedFlag (of_bytes n) (of_bytes <$> v)
  end.

Definition read_argument (s : string) : argument :=
  match bytes s with
  | a :: b :: l =>
      if negb (byte_of a =? 45) then NotAFlag
      else if byte_of b =? 45 then
        match l with
        | [] => Terminator
        | _ => named_flag l
        end
      else named_flag (b :: l)
  | _ => NotAFlag
  end.

Section Parse.
Context `{OtherFlags}.

(** The variable of a name, [f.formal[name]]. *)
Definition lookup_flag (name : string) : option (string_var + bool_var) :=
  snd <$> List.find (fun '(n, _) => String.eqb n name) flags.

(** The values: ours and those of the imported packages. *)
Definition values : Type := Options * other.

(** Whether the name is defined, and then whether it is a boolean flag. *)
Definition flag_kind (name : string) : option bool :=
  match lookup_flag name with
  | Some (inl _) => Some false
  | Some (inr _) => Some true
  | None => other_flag name
  end.

(** [flag.Value.Set(value)]. *)
Definition flag_Set (name value : string) (vs : values) : option values :=
  let '(o, x) := vs in
  match lookup_flag name with
  | Some (inl v) => Some (set_string v value o, x)
  | Some (inr v) => (fun b => (set_bool v b o, x)) <$> ParseBool value
  | None => (fun x => (o, x)) <$> other_Set name value x
  end.

(** The loop of [Parse] over [parseOne]. A flag that is not boolean takes the
    next argument, whatever it is, when it has no value of its own. *)
Fixpoint parse (args : list string) (vs : values) : parsed other :=
  match args with
  | [] => Parsed vs.1 vs.2 []
  | s :: args =>
      match read_argument s with
      | NotAFlag => Parsed vs.1 vs.2 (s :: args)
      | Terminator => Parsed vs.1 vs.2 args
      | BadSyntax => BadArguments
      | NamedFlag name value =>
          match flag_kind name with
          | None =>
              if String.eqb name "help" || String.eqb name "h" then HelpRequested else BadArguments
          | Some true =>
              match flag_Set name (default "true" value) vs with
              | Some vs => parse args vs
              | None => BadArguments
              end
          | Some false =>
              match value, args with
              | Some value, _ =>
                  match flag_Set name value vs with
                  | Some vs => parse args vs
                  | None => BadArguments
                  end
              | None, value :: args =>
                  match flag_Set name value vs with
                  | Some vs => parse args vs
                  | None => BadArguments
                  end
              | None, [] => BadArguments
              end
          end
      end
  end.

Definition flag_Parse (args : list string) : parsed other := parse args (default_options, other_default).

(** An argument that gives the flag a value, with one dash or two. *)
Definition mentions (name s : string) : Prop := exists value, read_argument s = NamedFlag name value.

Lemma lookup_flag_name name v : lookup_flag name = Some v -> (name, v) ∈ flags.
Proof.
  unfold lookup_flag. intros Hl. destruct (List.find _ flags) as [[n v']|] eqn:E; [|done].
  cbn in Hl. simplify_eq. apply List.find_some in E as [Hin Hn]. apply String.eqb_eq in Hn. subst.
  by apply list_elem_of_In.
Qed.

(** Setting a flag of another name leaves a boolean variable alone. *)
Lemma flag_Set_other name value vs vs' b name0 :
  (name0, inr b) ∈ flags -> (forall n, (n, inr b) ∈ flags -> n = name0) -> name <> name0 ->
  flag_Set name value vs = Some vs' -> bool_of vs'.1 b = bool_of vs.1 b.
Proof.
  intros Hin Hone Hne. destruct vs as [o x]. unfold flag_Set.
  destruct (lookup_flag name) as [[v|v]|] eqn:Hl.
  - by intros [= <-].
  - apply lookup_flag_name in Hl. destruct (ParseBool value) as [b'|]; [|done]. intros [= <-]. cbn.
    rewrite fn_lookup_insert_ne; [done|]. intros ->. apply Hne. by apply Hone.
  - destruct (other_Set name value x); [|done]. by intros [= <-].
Qed.

(** A boolean flag that no argument mentions keeps its value. *)
Lemma parse_unmentioned b name0 args vs o x rest :
  (name0, inr b) ∈ flags -> (forall n, (n, inr b) ∈ flags -> n = name0) ->
  (forall s, s ∈ args -> ~ mentions name0 s) ->
  parse args vs = Parsed o x rest -> bool_of o b = bool_of vs.1 b.
Proof.
  intros Hin Hone. remember (length args) as n eqn:Hn. revert args Hn vs.
  induction n as [n IH] using lt_wf_ind. intros args -> vs Hargs Hp.
  destruct args as [|s args]; cbn in Hp; [by simplify_eq|].
  assert (forall args' vs', length args' <= length args -> args' ⊆ args ->
    bool_of vs'.1 b = bool_of vs.1 b -> parse args' vs' = Parsed o x rest ->
    bool_of o b = bool_of vs.1 b)%nat as Hnext.
  { intros args' vs' Hlen Hsub <- Hp'. eapply (IH (length args')); [cbn; lia|done| |done].
    intros s' Hs'. apply Hargs. right. by apply Hsub. }
  destruct (read_argument s) as [| | |name value] eqn:Hs; [by simplify_eq..|done|].
  assert (forall value' vs', flag_Set name value' vs = Some vs' -> bool_of vs'.1 b = bool_of vs.1 b) as Hset.
  { intros value' vs'. apply (flag_Set_other _ _ _ _ _ name0); [done..|].
    intros ->. apply (Hargs s); [by left|]. by exists value. }
  destruct (flag_kind name) as [[|]|]; [| |by destruct (_ || _)].
  - destruct (flag_Set name _ vs) eqn:E; [|done]. by eapply (Hnext args); [..|eapply Hset, E|].
  - destruct value as [value|].
    + destruct (flag_Set name value vs) as [vs'|] eqn:E; [|done].
      by eapply (Hnext args); [..|eapply Hset, E|].
    + destruct args as [|value args]; [done|].
      destruct (flag_Set name value vs) as [vs'|] eqn:E; [|done].
      eapply (Hnext args); [cbn; lia|set_solver|eapply Hset, E|done].
Qed.

(** ** Command lines *)

Definition FormatBool (b : bool) : string := if b then "true" else "false".

(** [--name=value], or nothing when the flag is not given. *)
Definition string_arg (name : string) (value : option string) : list string :=
  match value with
  | Some value => ["--" +:+ name +:+ "=" +:+ value]
  | None => []
  end.
Definition bool_arg (name : string) (value : option bool) : list string :=
  string_arg name (FormatBool <$> value).

Lemma split_equals_app n v :
  Forall (fun a => (byte_of a =? 61) = false) n ->
  split_equals (n ++ of_byte 61 :: v) = (n, Some v).
Proof.
  induction 1 as [|a n Ha Hn IH]; [done|]. cbn [app split_equals]. by rewrite Ha, IH.
Qed.

(** An argument in that form is read back, whatever the value is. *)
Lemma read_argument_equals name value :
  match bytes name with
  | [] => False
  | a :: _ => (byte_of a =? 45) = false
  end ->
  Forall (fun a => (byte_of a =? 61) = false) (bytes name) ->
  read_argument ("--" +:+ name +:+ "=" +:+ value) = NamedFlag name (Some value).
Proof.
  intros Hhd Heq. unfold read_argument. rewrite !bytes_app.
  change (bytes "--") with [of_byte 45; of_byte 45]. change (bytes "=") with [of_byte 61].
  pose proof (of_bytes_bytes name) as Hn. destruct (bytes name) as [|a l] eqn:E; [done|].
  pose proof (Forall_inv Heq) as Ha. cbn beta in Ha.
  cbn [app]. change (negb (byte_of (of_byte 45) =? 45)) with false.
  change (byte_of (of_byte 45) =? 45) with true. cbn match.
  unfold named_flag. rewrite Hhd, Ha. cbn [orb].
  change (a :: l ++ of_byte 61 :: bytes value) with ((a :: l) ++ of_byte 61 :: bytes value).
  rewrite split_equals_app by done. cbn [fmap option_fmap option_map].
  by rewrite Hn, of_bytes_bytes.
Qed.

(** A name that can be written on a command line. *)
Definition writable (name : string) : bool :=
  match bytes name with
  | [] => false
  | a :: _ => negb (byte_of a =? 45)
  end
  && forallb (fun a => negb (byte_of a =? 61)) (bytes name).

Lemma writable_read name value :
  writable name = true ->
  read_argument ("--" +:+ name +:+ "=" +:+ value) = NamedFlag name (Some value).
Proof.
  unfold writable. intros [Hhd Heq]%andb_true_iff. apply read_argument_equals.
  - destruct (bytes name); [done|]. by apply negb_true_iff.
  - rewrite List.forallb_forall in Heq. apply Forall_forall. intros a Ha%list_elem_of_In.
    by apply negb_true_iff, Heq.
Qed.

(** What giving a flag or not makes of the options. *)
Definition give_string (v : string_var) (value : option string) (o : Options) : Options :=
  match value with
  | Some value => set_string v value o
  | None => o
  end.
Definition give_bool (v : bool_var) (value : option bool) (o : Options) : Options :=
  match value with
  | Some value => set_bool v value o
  | None => o
  end.

Lemma parse_string_arg name v value args o x :
  writable name = true -> lookup_flag name = Some (inl v) ->
  parse (string_arg name value ++ args) (o, x) = parse args (give_string v value o, x).
Proof.
  intros Hw Hl. destruct value as [value|]; [|done]. cbn [string_arg app parse].
  rewrite writable_read by done. unfold flag_kind, flag_Set. by rewrite Hl.
Qed.

Lemma parse_bool_arg name v value args o x :
  writable name = true -> lookup_flag name = Some (inr v) ->
  parse (bool_arg name value ++ args) (o, x) = parse args (give_bool v value o, x).
Proof.
  intros Hw Hl. destruct value as [value|]; [|done].
  cbn [bool_arg string_arg fmap option_fmap option_map app parse]. rewrite writable_read by done. unfold flag_kind, flag_Set. rewrite Hl. by destruct value.
Qed.
End Parse.

Lemma string_of_give_string v value o w :
  string_of (give_string v value o) w = if decide (w = v) then default (string_of o w) value else string_of o w.
Proof.
  destruct value as [value|]; cbn; [|by case_decide].
  case_decide as E; [by rewrite E, fn_lookup_insert|by rewrite fn_lookup_insert_ne].
Qed.

Lemma bool_of_give_bool v value o w :
  bool_of (give_bool v value o) w = if decide (w = v) then default (bool_of o w) value else bool_of o w.
Proof.
  destruct value as [value|]; cbn; [|by case_decide].
  case_decide as E; [by rewrite E, fn_lookup_insert|by rewrite fn_lookup_insert_ne].
Qed.

Lemma bool_of_give_string v value o w : bool_of (give_string v value o) w = bool_of o w.
Proof. by destruct value. Qed.

Lemma string_of_give_bool v value o w : string_of (give_bool v value o) w = string_of o w.
Proof. by destruct value. Qed.

Create HintDb give discriminated.
#[export] Hint Rewrite string_of_give_string bool_of_give_bool bool_of_give_string
  string_of_give_bool : give.
