(* ===== verification/Instances.v ===== *)
(** Concrete instances of the third-party interfaces, on which the witnesses
    evaluate: an ASCII runtime with two CPUs, the DNS-1123 grammar, conditions
    and finalizers on lists, and an engine library that accepts every
    configuration. *)
From S2P Require Import Prelude GoStrings GoErrors Types.
From Stdlib Require Import Ascii.

Definition test_runtime : GoRuntime := {|
  unicode_to_lower r := if r =? 0x212A then 107 else if r =? 0x130 then 105 else r;
  unicode_is_print _ := true;
  NumCPU := 2;
  FormatRFC3339 t := Itoa t;
|}.

Definition alphanumeric (z : Z) : bool := in_range 97 122 z || in_range 48 57 z.

(** One DNS-1123 label: alphanumeric at both ends, dashes inside. *)
Definition dns_label (l : list ascii) : bool :=
  match l with
  | [] => false
  | a :: _ =>
      alphanumeric (byte_of a) && match last l with Some b => alphanumeric (byte_of b) | None => false end
      && forallb (fun a => alphanumeric (byte_of a) || (byte_of a =? 45)) l
  end.

(** The labels between dots. *)
Fixpoint split_dots (l cur : list ascii) : list (list ascii) :=
  match l with
  | [] => [reverse cur]
  | a :: l => if byte_of a =? 46 then reverse cur :: split_dots l [] else split_dots l (a :: cur)
  end.

(** Replaces the condition of the same type in place, or appends it. *)
Fixpoint put_condition (l : list Condition) (c : Condition) : list Condition :=
  match l with
  | [] => [c]
  | c' :: l => if bool_decide (cond_Type c' = cond_Type c) then c :: l else c' :: put_condition l c
  end.

Definition test_machinery : ApiMachinery := {|
  IsDNS1123Subdomain s :=
    if all_bytes dns1123_byte s && (String.length s <=? 253)%nat
       && forallb dns_label (split_dots (bytes s) [])
    then [] else ["a lowercase RFC 1123 subdomain"];
  IsDNS1123Label s :=
    if (String.length s <=? 63)%nat && dns_label (bytes s) then [] else ["a lowercase RFC 1123 label"];
  SetStatusCondition := put_condition;
  ContainsFinalizer l f := bool_decide (f ∈ l);
  AddFinalizer l f := if bool_decide (f ∈ l) then l else l ++ [f];
  RemoveFinalizer l f := filter (fun g => g <> f) l;
|}.

#[export] Instance test_machinery_laws : @ApiMachineryLaws test_machinery.
Proof.
  split; cbn [IsDNS1123Subdomain SetStatusCondition ContainsFinalizer AddFinalizer RemoveFinalizer test_machinery].
  - intros s. destruct (all_bytes _ s); [done|]. done.
  - intros l c. unfold find_condition. induction l as [|c' l IH]; cbn [put_condition].
    + by rewrite filter_cons_True.
    + case_bool_decide; [by rewrite filter_cons_True | by rewrite filter_cons_False].
  - intros l c t Ht. unfold find_condition. induction l as [|c' l IH]; cbn [put_condition].
    + by rewrite filter_cons_False.
    + case_bool_decide as Hc.
      * by rewrite !filter_cons_False by congruence.
      * rewrite !filter_cons. by case_decide.
  - intros l f. apply bool_decide_eq_true.
  - intros l f g. case_bool_decide; rewrite ?elem_of_app, ?list_elem_of_singleton; naive_solver.
  - intros l f g. rewrite list_elem_of_filter. done.
Qed.

Definition test_engine : EngineLib := {|
  ValidateTemplateConfig _ := None;
  TemplateData := EngineConfig;
  NewTemplateData c := c;
  Template := string;
  template_Parse name text := inr text;
  template_Execute t c := inr (t +:+ Itoa (ec_ListenPort c));
  UnboundConfigTemplate := "unbound ";
  CorefileTemplate := "corefile ";
  RecursorConfTemplate := "recursor ";
  MarshalIndent c := inr (String.concat "," (uc_Address <$> ec_Upstreams c));
|}.

(** ** Sample objects *)

Definition sample_meta (name : string) (rv : string) (ts : time)
    (annotations : option (gmap string string)) : ObjectMeta :=
  {| Name := name; Namespace := "dns"; UID := "uid-" +:+ name; ResourceVersion := rv;
     Generation := 3; CreationTimestamp := ts; DeletionTimestamp := None;
     Annotations := annotations; Finalizers := [] |}.

Definition sample_upstream (address transport : string) (preference weight : Z) : Upstream :=
  {| Address := address; Port := 0; Transport := transport; TLSServerName := "";
     Weight := weight; Preference := preference |}.

Definition sample_spec (upstreams : list Upstream) : DNSUpstreamPoolSpec :=
  {| Upstreams := upstreams; WorkerThreads := 4; DNSSECMode := ""; PoolDomainFilter := no_filter |}.

Definition empty_status : Status := {| Conditions := []; ObservedGeneration := 0 |}.

Definition sample_pool (m : ObjectMeta) (upstreams : list Upstream) : DNSUpstreamPool :=
  {| pool_meta := m; pool_spec := sample_spec upstreams; pool_status := empty_status |}.

Definition sample_profile : DNSCacheProfile :=
  {| profile_meta := sample_meta "default" "7" 5 None;
     profile_spec := {| MaxEntries := 0; MinSeconds := 90; MaxSeconds := 0; NegativeSeconds := 15;
                        PrefetchEnabled := false; PrefetchThreshold := 0 |};
     profile_status := empty_status |}.

(** A pool with two plain upstreams and one over TLS. *)
Definition pool_a : DNSUpstreamPool :=
  sample_pool (sample_meta "pool-a" "10" 100 None)
    [sample_upstream "1.1.1.1" "" 0 0; sample_upstream "dns.quad9.net" "DoT" 50 2;
     sample_upstream "8.8.8.8" "dns" 50 7].
