(* ===== verification/Generator.v ===== *)
(** pkg/engineconfig/defaultgen.go: [DefaultConfigGenerator], from a pool and
    an optional cache profile to the engine configuration, and what the
    generated configuration satisfies. *)
From S2P Require Import Prelude GoStrings GoErrors Netip Sorting Types.

Section Generator.
Context `{GoRuntime}.

(** ** Constants *)

Definition defaultUpstreamPortDNS : Z := 53.
Definition defaultUpstreamPortDoT : Z := 853.
Definition defaultUpstreamPortDoH : Z := 443.
Definition defaultUpstreamWeight : Z := 1.
Definition defaultUpstreamPreference : Z := 100.
Definition defaultCacheMaxEntries : Z := 100000.
Definition defaultPositiveTTLMin : Z := 60.
Definition defaultPositiveTTLMax : Z := 300.
Definition defaultNegativeTTL : Z := 30.
Definition defaultPrefetchEnabled : bool := true.
Definition defaultPrefetchThreshold : Z := 10.
Definition defaultEngineListenAddress : string := "127.0.0.1".
Definition defaultEngineListeningPort : Z := 5354.
Definition defaultDNSSECMode : string := DNSSECModeOff.
Definition defaultWorkerThreads : Z := 2.
Definition maxWorkerThreads : Z := 256.

(** ** Field normalisation *)

Definition defaultUpstreamPortForTransport (transport : string) : Z :=
  if String.eqb transport UpstreamTransportDoT then defaultUpstreamPortDoT
  else if String.eqb transport UpstreamTransportDoH then defaultUpstreamPortDoH
  else defaultUpstreamPortDNS.

Definition normalizeUpstreamTransport (transport : string) : string :=
  let trimmed := ToLower (TrimSpace transport) in
  if String.eqb trimmed UpstreamTransportDoT then UpstreamTransportDoT
  else if String.eqb trimmed UpstreamTransportDoH then UpstreamTransportDoH
  else UpstreamTransportDNS.

Definition normalizeDNSSECMode (mode : string) : string :=
  let trimmed := ToLower (TrimSpace mode) in
  if String.eqb trimmed DNSSECModeProcess then DNSSECModeProcess
  else if String.eqb trimmed DNSSECModeValidate then DNSSECModeValidate
  else defaultDNSSECMode.

Definition normalizeUpstreamWeight (weight : Z) : Z :=
  if weight <=? 0 then defaultUpstreamWeight else weight.

Definition normalizeUpstreamPreference (preference : Z) : Z :=
  if preference <=? 0 then defaultUpstreamPreference else preference.

Definition resolveWorkerThreads (value : Z) : Z :=
  if maxWorkerThreads <? value then maxWorkerThreads
  else if 0 <? value then value
  else
    let cpuCount := NumCPU in
    if cpuCount <=? 0 then defaultWorkerThreads
    else if maxWorkerThreads <? cpuCount then maxWorkerThreads
    else int32 cpuCount.

Definition normalizeDomainFilterAction (action : string) : string :=
  let trimmed := ToLower (TrimSpace action) in
  if String.eqb trimmed DomainFilterActionNXDomain then DomainFilterActionNXDomain
  else DomainFilterActionRefused.

Definition defaultTLSServerName (address : string) : string :=
  let trimmed := TrimSuffix (TrimSpace address) "." in
  if String.eqb trimmed "" then ""
  else if ParseAddr trimmed then ""
  else trimmed.

(** ** [Generate] *)

(** The comparison of the stable sort: preference upwards, then weight
    downwards. *)
Definition upstream_less (left right : Upstream) : bool :=
  let leftPreference := normalizeUpstreamPreference (Preference left) in
  let rightPreference := normalizeUpstreamPreference (Preference right) in
  if negb (leftPreference =? rightPreference) then leftPreference <? rightPreference
  else
    let leftWeight := normalizeUpstreamWeight (Weight left) in
    let rightWeight := normalizeUpstreamWeight (Weight right) in
    rightWeight <? leftWeight.

(** The body of the loop over the sorted upstreams. *)
Definition generate_upstream (i : nat) (upstream : Upstream) (upstreams : list UpstreamConfig)
    : result (list UpstreamConfig) :=
  let address := TrimSpace (Address upstream) in
  if String.eqb address "" then
    inl (ErrNew ("upstream at index " +:+ Itoa (Z.of_nat i) +:+ " has empty address"))
  else
    let transport := normalizeUpstreamTransport (Transport upstream) in
    let port := Port upstream in
    let port := if port =? 0 then defaultUpstreamPortForTransport transport else port in
    let tlsServerName := TrimSpace (TLSServerName upstream) in
    let tlsServerName :=
      if negb (String.eqb transport UpstreamTransportDNS) && String.eqb tlsServerName ""
      then defaultTLSServerName address else tlsServerName in
    let tlsServerName :=
      if String.eqb transport UpstreamTransportDNS then "" else tlsServerName in
    inr (upstreams ++
      [{| uc_Address := address; uc_Port := port; uc_Transport := transport;
          uc_TLSServerName := tlsServerName;
          uc_Weight := normalizeUpstreamWeight (Weight upstream);
          uc_Preference := normalizeUpstreamPreference (Preference upstream) |}]).

Definition default_cache : CacheConfig :=
  {| cc_MaxEntries := defaultCacheMaxEntries;
     cc_PositiveTtlMin := defaultPositiveTTLMin;
     cc_PositiveTtlMax := defaultPositiveTTLMax;
     cc_NegativeTtl := defaultNegativeTTL;
     cc_PrefetchEnabled := defaultPrefetchEnabled;
     cc_PrefetchThreshold := defaultPrefetchThreshold |}.

(** The overrides of the cache profile. *)
Definition apply_profile (profile : DNSCacheProfile) (cache : CacheConfig) : CacheConfig :=
  let spec := profile_spec profile in
  let positive v d := if 0 <? v then v else d in
  {| cc_MaxEntries := positive (MaxEntries spec) (cc_MaxEntries cache);
     cc_PositiveTtlMin := positive (MinSeconds spec) (cc_PositiveTtlMin cache);
     cc_PositiveTtlMax := positive (MaxSeconds spec) (cc_PositiveTtlMax cache);
     cc_NegativeTtl := positive (NegativeSeconds spec) (cc_NegativeTtl cache);
     cc_PrefetchEnabled := PrefetchEnabled spec;
     cc_PrefetchThreshold := positive (PrefetchThreshold spec) (cc_PrefetchThreshold cache) |}.

Definition generate_filter (f : DomainFilter) : DomainFilter :=
  match Allow f, Deny f with
  | [], [] => no_filter
  | _, _ => {| Allow := Allow f; Deny := Deny f;
               Action := normalizeDomainFilterAction (Action f) |}
  end.

Definition generate (pool : option DNSUpstreamPool) (profile : option DNSCacheProfile)
    : result EngineConfig :=
  match pool with
  | None => inl (ErrNew "dns upstream pool is required")
  | Some pool =>
      match Upstreams (pool_spec pool) with
      | [] => inl (ErrNew "dns upstream pool must contain at least one upstream")
      | _ =>
          let upstreams := sort_SliceStable upstream_less (Upstreams (pool_spec pool)) in
          match range_err generate_upstream 0 upstreams [] with
          | inl err => inl err
          | inr upstreams =>
              inr {| ec_Upstreams := upstreams;
                     ec_Cache := match profile with
                                 | None => default_cache
                                 | Some profile => apply_profile profile default_cache
                                 end;
                     ec_ListenAddr := defaultEngineListenAddress;
                     ec_ListenPort := defaultEngineListeningPort;
                     ec_WorkerThreads := resolveWorkerThreads (WorkerThreads (pool_spec pool));
                     ec_DNSSECMode := normalizeDNSSECMode (DNSSECMode (pool_spec pool));
                     ec_DomainFilter := generate_filter (PoolDomainFilter (pool_spec pool)) |}
          end
      end
  end.

Definition DefaultConfigGenerator : ConfigGenerator := {| Generate := generate |}.

End Generator.

(** ** What the generator guarantees *)

(** The translation of one upstream, and the rank the sort orders by. *)
Definition upstream_config `{GoRuntime} (u : Upstream) : UpstreamConfig :=
  let address := TrimSpace (Address u) in
  let transport := normalizeUpstreamTransport (Transport u) in
  let sni := TrimSpace (TLSServerName u) in
  {| uc_Address := address;
     uc_Port := if Port u =? 0 then defaultUpstreamPortForTransport transport else Port u;
     uc_Transport := transport;
     uc_TLSServerName :=
       if String.eqb transport UpstreamTransportDNS then ""
       else if String.eqb sni "" then defaultTLSServerName address else sni;
     uc_Weight := normalizeUpstreamWeight (Weight u);
     uc_Preference := normalizeUpstreamPreference (Preference u) |}.

Definition addressed `{GoRuntime} (u : Upstream) : Prop := TrimSpace (Address u) <> "".

(** [u] may stand before [v] in a configuration. *)
Definition config_before (u v : UpstreamConfig) : Prop :=
  uc_Preference u < uc_Preference v
  \/ uc_Preference u = uc_Preference v /\ uc_Weight v <= uc_Weight u.

Definition same_rank (u v : UpstreamConfig) : Prop :=
  uc_Preference u = uc_Preference v /\ uc_Weight u = uc_Weight v.

#[global] Instance same_rank_dec u v : Decision (same_rank u v).
Proof. unfold same_rank. apply _. Defined.

Lemma filter_map {A B} (f : A -> B) (P : B -> Prop) `{!forall b, Decision (P b)} (l : list A) :
  filter P (f <$> l) = f <$> filter (fun a => P (f a)) l.
Proof.
  induction l as [|a l IH]; [done|]. rewrite fmap_cons, !filter_cons, IH.
  by destruct (decide (P (f a))).
Qed.

Section Properties.
Context `{GoRuntime}.

#[local] Instance upstream_less_strict_weak P : StrictWeak upstream_less P.
Proof.
  apply (lexicographic_strict_weak
    (fun u v => normalizeUpstreamPreference (Preference u) <? normalizeUpstreamPreference (Preference v))
    (fun u v => normalizeUpstreamWeight (Weight v) <? normalizeUpstreamWeight (Weight u))).
  - split; intros; bool_to_prop; [apply Z.ltb_ge; lia|].
    rewrite !Z.ltb_lt. lia.
  - split; intros; bool_to_prop; [apply Z.ltb_ge; lia|].
    rewrite !Z.ltb_lt. lia.
  - intros u v _ _. unfold upstream_less.
    destruct (normalizeUpstreamPreference (Preference u) =? _) eqn:E; bool_to_prop; cbn.
    + rewrite E, Z.ltb_irrefl. done.
    + destruct (_ <? _) eqn:E1; [done|]. bool_to_prop.
      replace (_ <? _) with true; [done|]. symmetry. apply Z.ltb_lt. lia.
Qed.

Lemma tied_same_rank u v :
  tied upstream_less u v = true <-> same_rank (upstream_config u) (upstream_config v).
Proof.
  unfold same_rank, tied, upstream_less. cbn.
  rewrite !(Z.eqb_sym (normalizeUpstreamPreference (Preference v))).
  destruct (normalizeUpstreamPreference (Preference u) =? _) eqn:E; cbn; bool_to_prop;
    rewrite andb_true_iff, !negb_true_iff, !Z.ltb_ge; lia.
Qed.

Lemma generate_upstream_eq i u acc :
  generate_upstream i u acc =
    if String.eqb (TrimSpace (Address u)) ""
    then inl (ErrNew ("upstream at index " +:+ Itoa (Z.of_nat i) +:+ " has empty address"))
    else inr (acc ++ [upstream_config u]).
Proof.
  unfold generate_upstream, upstream_config. destruct (String.eqb _ _); [done|].
  do 3 f_equal. destruct (String.eqb (normalizeUpstreamTransport _) _); [done|].
  by destruct (String.eqb _ _).
Qed.

(** The loop translates every upstream, or stops at the first blank address. *)
Lemma generate_loop_ok l :
  Forall addressed l -> range_err generate_upstream 0 l [] = inr (upstream_config <$> l).
Proof.
  intros Hl.
  destruct (range_err_total generate_upstream (fun pre acc => acc = upstream_config <$> pre) l)
    with (l := l) (pre := @nil Upstream) (i := 0%nat) (s := @nil UpstreamConfig)
    as (s' & -> & ->); [|done..].
  intros i pre u post acc -> ->. rewrite Forall_app, Forall_cons in Hl.
  destruct Hl as (_ & Hu & _). rewrite generate_upstream_eq.
  rewrite (proj2 (String.eqb_neq _ _) Hu). eexists. split; [done|]. by rewrite fmap_app.
Qed.

Lemma generate_loop_inv l s :
  range_err generate_upstream 0 l [] = inr s -> Forall addressed l /\ s = upstream_config <$> l.
Proof.
  intros Hr.
  apply (range_err_inv generate_upstream
    (fun pre acc => Forall addressed pre /\ acc = upstream_config <$> pre)) with (pre := []) in Hr;
    [done| |done].
  intros i pre u acc acc' [Hpre ->] Hstep. rewrite generate_upstream_eq in Hstep.
  destruct (String.eqb_spec (TrimSpace (Address u)) ""); simplify_eq. split.
  - apply Forall_app. by split; [|constructor].
  - by rewrite fmap_app.
Qed.

(** The generated configuration, whenever there is one. *)
Lemma generate_inv pool profile cfg :
  generate (Some pool) profile = inr cfg ->
  Upstreams (pool_spec pool) <> [] /\ Forall addressed (Upstreams (pool_spec pool)) /\
  cfg = {| ec_Upstreams := upstream_config <$> sort_SliceStable upstream_less (Upstreams (pool_spec pool));
           ec_Cache := match profile with None => default_cache
                       | Some profile => apply_profile profile default_cache end;
           ec_ListenAddr := "127.0.0.1"; ec_ListenPort := 5354;
           ec_WorkerThreads := resolveWorkerThreads (WorkerThreads (pool_spec pool));
           ec_DNSSECMode := normalizeDNSSECMode (DNSSECMode (pool_spec pool));
           ec_DomainFilter := generate_filter (PoolDomainFilter (pool_spec pool)) |}.
Proof.
  unfold generate. destruct (Upstreams (pool_spec pool)) as [|u us] eqn:E; [done|].
  destruct (range_err _ _ _ _) as [e|s] eqn:Hr; [done|]. intros Hc. simplify_eq.
  apply generate_loop_inv in Hr as [Hall ->]. split; [done|]. split; [|done].
  by rewrite sort_SliceStable_perm in Hall.
Qed.

(** When there is a configuration. *)
Lemma generate_ok_iff pool profile :
  (exists cfg, generate (Some pool) profile = inr cfg) <->
  Upstreams (pool_spec pool) <> [] /\ Forall addressed (Upstreams (pool_spec pool)).
Proof.
  split; [intros [cfg Hc]; by apply generate_inv in Hc as (? & ? & _)|].
  intros [Hne Hall]. unfold generate.
  destruct (Upstreams (pool_spec pool)) as [|u us] eqn:E; [done|].
  rewrite generate_loop_ok; [by eexists|].
  by rewrite sort_SliceStable_perm.
Qed.

(** [Generate] returns a configuration exactly for a pool with at least one
    upstream whose addresses are all non-blank, whatever the cache profile: no
    other input is an error and no such input is accepted. *)
Lemma generate_succeeds_iff pool profile :
  (exists cfg, generate (Some pool) profile = inr cfg) <->
  Upstreams (pool_spec pool) <> [] /\ Forall addressed (Upstreams (pool_spec pool)).
Proof. apply generate_ok_iff. Qed.

(** C20. The upstreams of a generated configuration are the translations of
    the pool's upstreams, each once, in ascending preference and, within a
    preference, in descending weight; upstreams of the same preference and
    weight keep the order the pool lists them in. *)
Theorem generate_upstream_order pool profile cfg :
  generate (Some pool) profile = inr cfg ->
  StronglySorted config_before (ec_Upstreams cfg) /\
  ec_Upstreams cfg ≡ₚ upstream_config <$> Upstreams (pool_spec pool) /\
  (forall u, filter (same_rank (upstream_config u)) (ec_Upstreams cfg)
     = filter (same_rank (upstream_config u)) (upstream_config <$> Upstreams (pool_spec pool))).
Proof.
  intros (_ & _ & ->)%generate_inv. cbn [ec_Upstreams].
  set (l := Upstreams (pool_spec pool)). repeat split.
  - eapply (StronglySorted_fmap _ (not_less upstream_less));
      [|apply (insertion_sort_sorted _ (fun _ => True)); by apply Forall_true].
    unfold config_before, not_less, upstream_less. cbn. intros u v Huv.
    destruct (normalizeUpstreamPreference (Preference v) =? _) eqn:E; cbn in Huv; bool_to_prop; lia.
  - by rewrite sort_SliceStable_perm.
  - intros u. rewrite !filter_map. f_equal.
    rewrite !(list_filter_iff _ _ _ (fun v => iff_sym (tied_same_rank u v))).
    apply (insertion_sort_stable _ (fun _ => True)); [by apply Forall_true|done].
Qed.

(** *** Well-formed configurations *)

Record upstream_wf (u : UpstreamConfig) : Prop := {
  wf_address : uc_Address u <> "" /\ TrimSpace (uc_Address u) = uc_Address u;
  wf_port : uc_Port u <> 0;
  wf_transport : uc_Transport u ∈ [UpstreamTransportDNS; UpstreamTransportDoT; UpstreamTransportDoH];
  wf_sni : uc_Transport u = UpstreamTransportDNS -> uc_TLSServerName u = "";
  wf_weight : 1 <= uc_Weight u;
  wf_preference : 1 <= uc_Preference u;
}.

Record cache_wf (c : CacheConfig) : Prop := {
  wf_entries : 0 < cc_MaxEntries c;
  wf_ttl_min : 0 < cc_PositiveTtlMin c;
  wf_ttl_max : 0 < cc_PositiveTtlMax c;
  wf_negative : 0 < cc_NegativeTtl c;
  wf_threshold : 0 < cc_PrefetchThreshold c;
}.

Record config_wf (c : EngineConfig) : Prop := {
  wf_nonempty : ec_Upstreams c <> [];
  wf_upstreams : Forall upstream_wf (ec_Upstreams c);
  wf_cache : cache_wf (ec_Cache c);
  wf_workers : 1 <= ec_WorkerThreads c <= 256;
  wf_dnssec : ec_DNSSECMode c ∈ [DNSSECModeOff; DNSSECModeProcess; DNSSECModeValidate];
  wf_filter : ec_DomainFilter c = no_filter \/
    Action (ec_DomainFilter c) ∈ [DomainFilterActionRefused; DomainFilterActionNXDomain];
}.

Lemma resolveWorkerThreads_range v : 1 <= resolveWorkerThreads v <= 256.
Proof.
  unfold resolveWorkerThreads, maxWorkerThreads, defaultWorkerThreads.
  repeat case_match; bool_to_prop; try lia.
  rewrite int32_id by (unfold in_int32; lia). lia.
Qed.

Lemma normalizeUpstreamTransport_cases t :
  normalizeUpstreamTransport t ∈ [UpstreamTransportDNS; UpstreamTransportDoT; UpstreamTransportDoH].
Proof. unfold normalizeUpstreamTransport. repeat case_match; set_solver. Qed.

Lemma normalizeDNSSECMode_cases m :
  normalizeDNSSECMode m ∈ [DNSSECModeOff; DNSSECModeProcess; DNSSECModeValidate].
Proof. unfold normalizeDNSSECMode. repeat case_match; set_solver. Qed.

Lemma normalizeUpstreamWeight_pos w : 1 <= normalizeUpstreamWeight w.
Proof. unfold normalizeUpstreamWeight, defaultUpstreamWeight. case_match; bool_to_prop; lia. Qed.

Lemma normalizeUpstreamPreference_pos p : 1 <= normalizeUpstreamPreference p.
Proof. unfold normalizeUpstreamPreference, defaultUpstreamPreference. case_match; bool_to_prop; lia. Qed.

Lemma defaultUpstreamPortForTransport_pos t : 0 < defaultUpstreamPortForTransport t < 65536.
Proof.
  unfold defaultUpstreamPortForTransport, defaultUpstreamPortDoT, defaultUpstreamPortDoH,
    defaultUpstreamPortDNS. repeat case_match; lia.
Qed.

Lemma upstream_config_wf u : addressed u -> upstream_wf (upstream_config u).
Proof.
  intros Hu. unfold upstream_config. split; cbn.
  - split; [done | apply TrimSpace_idemp].
  - pose proof (defaultUpstreamPortForTransport_pos (normalizeUpstreamTransport (Transport u))).
    case_match; bool_to_prop; lia.
  - apply normalizeUpstreamTransport_cases.
  - by intros ->.
  - apply normalizeUpstreamWeight_pos.
  - apply normalizeUpstreamPreference_pos.
Qed.

Lemma apply_profile_wf profile cache : cache_wf cache -> cache_wf (apply_profile profile cache).
Proof. intros []. split; cbn; case_match; bool_to_prop; lia. Qed.

(** Generated configurations are well formed. *)
Lemma generate_wf pool profile cfg :
  generate pool profile = inr cfg -> config_wf cfg.
Proof.
  destruct pool as [pool|]; [|done]. intros (Hne & Hall & ->)%generate_inv. split; cbn.
  - intros Hnil%fmap_nil_inv. apply Hne.
    apply Permutation_nil. by rewrite <- Hnil, sort_SliceStable_perm.
  - apply Forall_fmap. rewrite sort_SliceStable_perm.
    eapply Forall_impl; [exact Hall|]. apply upstream_config_wf.
  - destruct profile; [apply apply_profile_wf|]; by split.
  - apply resolveWorkerThreads_range.
  - apply normalizeDNSSECMode_cases.
  - unfold generate_filter, normalizeDomainFilterAction.
    repeat case_match; cbn; [by left|..]; right; set_solver.
Qed.

(** The widths of the Go types: the integers of the resources and of the
    configuration are 32 bits wide. *)
Definition pool_widths (pool : DNSUpstreamPool) : Prop :=
  in_int32 (WorkerThreads (pool_spec pool)) /\
  Forall (fun u => in_int32 (Port u) /\ in_int32 (Weight u) /\ in_int32 (Preference u))
    (Upstreams (pool_spec pool)).

Definition profile_widths (profile : DNSCacheProfile) : Prop :=
  let spec := profile_spec profile in
  Forall in_int32 [MaxEntries spec; MinSeconds spec; MaxSeconds spec; NegativeSeconds spec; PrefetchThreshold spec].

Definition config_widths (c : EngineConfig) : Prop :=
  Forall (fun u => in_int32 (uc_Port u) /\ in_int32 (uc_Weight u) /\ in_int32 (uc_Preference u)) (ec_Upstreams c) /\
  let cache := ec_Cache c in
  Forall in_int32 [cc_MaxEntries cache; cc_PositiveTtlMin cache; cc_PositiveTtlMax cache; cc_NegativeTtl cache;
                   cc_PrefetchThreshold cache; ec_ListenPort c; ec_WorkerThreads c].

Lemma generate_widths pool profile cfg :
  generate (Some pool) profile = inr cfg -> pool_widths pool -> (forall p, profile = Some p -> profile_widths p) ->
  config_widths cfg.
Proof.
  intros (_ & _ & ->)%generate_inv [_ Hup] Hprofile.
  assert (in_int32 53 /\ in_int32 853 /\ in_int32 443 /\ in_int32 1 /\ in_int32 100) as (? & ? & ? & ? & ?)
    by (unfold in_int32; lia).
  split; cbn.
  - apply Forall_fmap. rewrite sort_SliceStable_perm. eapply Forall_impl; [exact Hup|].
    intros u (Hp & Hw & Hf). cbn. unfold defaultUpstreamPortForTransport, normalizeUpstreamWeight,
      normalizeUpstreamPreference. by repeat case_match.
  - pose proof (resolveWorkerThreads_range (WorkerThreads (pool_spec pool))).
    destruct profile as [p|]; [pose proof (Hprofile p eq_refl) as Hw; unfold profile_widths in Hw; rewrite !Forall_cons in Hw|];
      rewrite !Forall_cons; cbn; split_and!; try case_match; try constructor; unfold in_int32 in *; lia || tauto.
Qed.

(** C26. Every configuration the generator returns is well formed, for any
    pool and profile: there is an upstream; addresses are non-blank and
    trimmed, ports non-zero, transports among the three known ones with no TLS
    name on plain DNS, weights and preferences positive; the worker count is
    between 1 and 256 on any machine; the cache bounds are positive; the DNSSEC
    mode and the filter action are known ones. Its integers fit 32 bits as
    those of the pool and the profile do. *)
Theorem generate_well_formed pool profile cfg :
  generate (Some pool) profile = inr cfg ->
  config_wf cfg /\
  (pool_widths pool -> (forall p, profile = Some p -> profile_widths p) -> config_widths cfg).
Proof. intros Hg. split; [by eapply generate_wf|by eapply generate_widths]. Qed.
End Properties.
