(* ===== verification/Renderers.v ===== *)
(** pkg/engineconfig/unbound, coredns and powerdns: the three renderers. Each
    package normalises the configuration on its own copy, refuses what its
    engine cannot express, and executes its template; the template texts, the
    template data and the final validation belong to [EngineLib].

    The packages repeat the normalisation functions, and so do the modules
    below; the section after them shows that the copies agree and what a
    successful rendering establishes. *)
From S2P Require Import Prelude GoStrings GoErrors Netip Sorting Types Generator.

(** ** pkg/engineconfig/unbound/renderer.go *)
Module Unbound.
Section Unbound.
Context `{GoRuntime} `{EngineLib}.

Definition defaultPortForTransport (transport : string) : Z :=
  if String.eqb transport UpstreamTransportDoT then 853
  else if String.eqb transport UpstreamTransportDoH then 443
  else 53.

Definition normalizeUpstreamTransport (transport : string) : string :=
  let trimmed := ToLower (TrimSpace transport) in
  if String.eqb trimmed UpstreamTransportDoT then UpstreamTransportDoT
  else if String.eqb trimmed UpstreamTransportDoH then UpstreamTransportDoH
  else UpstreamTransportDNS.

Definition normalizeDNSSECMode (mode : string) : string :=
  let trimmed := ToLower (TrimSpace mode) in
  if String.eqb trimmed DNSSECModeProcess then DNSSECModeProcess
  else if String.eqb trimmed DNSSECModeValidate then DNSSECModeValidate
  else DNSSECModeOff.

Definition normalizeWorkerThreads (value : Z) : Z :=
  if 256 <? value then 256
  else if 0 <? value then value
  else
    let cpuCount := NumCPU in
    if cpuCount <=? 0 then 2
    else if 256 <? cpuCount then 256
    else int32 cpuCount.

Definition defaultTLSServerName (address : string) : string :=
  let trimmed := TrimSuffix (TrimSpace address) "." in
  if String.eqb trimmed "" then ""
  else if ParseAddr trimmed then ""
  else trimmed.

(** The body of the loop over the copied upstreams. *)
Definition normalize_upstream (u : UpstreamConfig) : UpstreamConfig :=
  let transport := normalizeUpstreamTransport (uc_Transport u) in
  let port := if uc_Port u =? 0 then defaultPortForTransport transport else uc_Port u in
  let sni := TrimSpace (uc_TLSServerName u) in
  let sni := if negb (String.eqb transport UpstreamTransportDNS) && String.eqb sni ""
             then defaultTLSServerName (uc_Address u) else sni in
  let sni := if String.eqb transport UpstreamTransportDNS then "" else sni in
  let weight := if uc_Weight u <=? 0 then 1 else uc_Weight u in
  let preference := if uc_Preference u <=? 0 then 100 else uc_Preference u in
  {| uc_Address := uc_Address u; uc_Port := port; uc_Transport := transport;
     uc_TLSServerName := sni; uc_Weight := weight; uc_Preference := preference |}.

Definition normalizeConfig (config : EngineConfig) : EngineConfig :=
  {| ec_Upstreams := normalize_upstream <$> ec_Upstreams config;
     ec_Cache := ec_Cache config;
     ec_ListenAddr := ec_ListenAddr config;
     ec_ListenPort := ec_ListenPort config;
     ec_WorkerThreads := normalizeWorkerThreads (ec_WorkerThreads config);
     ec_DNSSECMode := normalizeDNSSECMode (ec_DNSSECMode config);
     ec_DomainFilter := ec_DomainFilter config |}.

(** One turn of the compatibility loop; the state is ([hasPlainDNS], [hasDoT]). *)
Definition compat_step (i : nat) (u : UpstreamConfig) (s : bool * bool) : result (bool * bool) :=
  let '(hasPlainDNS, hasDoT) := s in
  if String.eqb (uc_Transport u) UpstreamTransportDoH then
    inl (ErrNew ("upstreams[" +:+ Itoa (Z.of_nat i) +:+
                 "].transport doh is not supported by unbound renderer"))
  else if String.eqb (uc_Transport u) UpstreamTransportDoT then inr (hasPlainDNS, true)
  else inr (true, hasDoT).

Definition validateUnboundCompatibility (config : EngineConfig) : option error :=
  match range_err compat_step 0 (ec_Upstreams config) (false, false) with
  | inl err => Some err
  | inr (hasPlainDNS, hasDoT) =>
      if hasPlainDNS && hasDoT
      then Some (ErrNew "mixed dns and dot upstream transports are not supported by unbound renderer")
      else None
  end.

Definition render (config : option EngineConfig) : result string :=
  match config with
  | None => inl (ErrNew "engine config is required")
  | Some config =>
      let normalized := normalizeConfig config in
      match validateUnboundCompatibility normalized with
      | Some err => inl (ErrWrap "validate unbound transport compatibility: " err "")
      | None =>
          match ValidateTemplateConfig normalized with
          | Some err => inl (ErrWrap "validate unbound template input: " err "")
          | None =>
              let data := NewTemplateData normalized in
              match template_Parse "unbound.conf" UnboundConfigTemplate with
              | inl err => inl (ErrWrap "parse unbound template: " err "")
              | inr tmpl => wrap_err "render unbound template: " (template_Execute tmpl data)
              end
          end
      end
  end.

Definition UnboundRenderer : ConfigRenderer :=
  {| Render := render; EngineType := EngineUnbound; ConfigFileName := "unbound.conf" |}.

End Unbound.
End Unbound.

(** ** pkg/engineconfig/coredns/renderer.go *)
Module CoreDNS.
Section CoreDNS.
Context `{GoRuntime} `{EngineLib}.

Definition defaultPortForTransport (transport : string) : Z :=
  if String.eqb transport UpstreamTransportDoT then 853
  else if String.eqb transport UpstreamTransportDoH then 443
  else 53.

Definition normalizeUpstreamTransport (transport : string) : string :=
  let trimmed := ToLower (TrimSpace transport) in
  if String.eqb trimmed UpstreamTransportDoT then UpstreamTransportDoT
  else if String.eqb trimmed UpstreamTransportDoH then UpstreamTransportDoH
  else UpstreamTransportDNS.

Definition normalizeDNSSECMode (mode : string) : string :=
  let trimmed := ToLower (TrimSpace mode) in
  if String.eqb trimmed DNSSECModeProcess then DNSSECModeProcess
  else if String.eqb trimmed DNSSECModeValidate then DNSSECModeValidate
  else DNSSECModeOff.

Definition normalizeWorkerThreads (value : Z) : Z :=
  if 256 <? value then 256
  else if 0 <? value then value
  else
    let cpuCount := NumCPU in
    if cpuCount <=? 0 then 2
    else if 256 <? cpuCount then 256
    else int32 cpuCount.

Definition defaultTLSServerName (address : string) : string :=
  let trimmed := TrimSuffix (TrimSpace address) "." in
  if String.eqb trimmed "" then ""
  else if ParseAddr trimmed then ""
  else trimmed.

(** The body of the loop over the copied upstreams. *)
Definition normalize_upstream (u : UpstreamConfig) : UpstreamConfig :=
  let transport := normalizeUpstreamTransport (uc_Transport u) in
  let port := if uc_Port u =? 0 then defaultPortForTransport transport else uc_Port u in
  let sni := TrimSpace (uc_TLSServerName u) in
  let sni := if negb (String.eqb transport UpstreamTransportDNS) && String.eqb sni ""
             then defaultTLSServerName (uc_Address u) else sni in
  let sni := if String.eqb transport UpstreamTransportDNS then "" else sni in
  let weight := if uc_Weight u <=? 0 then 1 else uc_Weight u in
  let preference := if uc_Preference u <=? 0 then 100 else uc_Preference u in
  {| uc_Address := uc_Address u; uc_Port := port; uc_Transport := transport;
     uc_TLSServerName := sni; uc_Weight := weight; uc_Preference := preference |}.

Definition normalizeConfig (config : EngineConfig) : EngineConfig :=
  {| ec_Upstreams := normalize_upstream <$> ec_Upstreams config;
     ec_Cache := ec_Cache config;
     ec_ListenAddr := ec_ListenAddr config;
     ec_ListenPort := ec_ListenPort config;
     ec_WorkerThreads := normalizeWorkerThreads (ec_WorkerThreads config);
     ec_DNSSECMode := normalizeDNSSECMode (ec_DNSSECMode config);
     ec_DomainFilter := ec_DomainFilter config |}.

(** One turn of the compatibility loop; the state is the set of TLS server
    names seen. *)
Definition compat_step (i : nat) (u : UpstreamConfig) (seen : gset string) : result (gset string) :=
  if negb (String.eqb (uc_Transport u) UpstreamTransportDNS
           || String.eqb (uc_Transport u) UpstreamTransportDoT
           || String.eqb (uc_Transport u) UpstreamTransportDoH) then
    inl (ErrNew ("upstreams[" +:+ Itoa (Z.of_nat i) +:+ "].transport " +:+
                 Quote (uc_Transport u) +:+ " is not supported by coredns renderer"))
  else if String.eqb (uc_Transport u) UpstreamTransportDNS then inr seen
  else if String.eqb (uc_TLSServerName u) "" then inr seen
  else inr ({[uc_TLSServerName u]} ∪ seen).

Definition validateCoreDNSCompatibility (config : EngineConfig) : option error :=
  if negb (String.eqb (ec_DNSSECMode config) DNSSECModeOff) then
    Some (ErrNew ("dnssec mode " +:+ Quote (ec_DNSSECMode config) +:+
                  " is not supported by coredns renderer"))
  else
    match range_err compat_step 0 (ec_Upstreams config) ∅ with
    | inl err => Some err
    | inr seenTLSServerNames =>
        if (1 <? size seenTLSServerNames)%nat
        then Some (ErrNew "coredns forward supports only one tlsServerName across encrypted upstreams")
        else None
    end.

Definition render (config : option EngineConfig) : result string :=
  match config with
  | None => inl (ErrNew "engine config is required")
  | Some config =>
      let normalized := normalizeConfig config in
      match validateCoreDNSCompatibility normalized with
      | Some err => inl (ErrWrap "validate coredns compatibility: " err "")
      | None =>
          match ValidateTemplateConfig normalized with
          | Some err => inl (ErrWrap "validate coredns template input: " err "")
          | None =>
              let data := NewTemplateData normalized in
              match template_Parse "Corefile" CorefileTemplate with
              | inl err => inl (ErrWrap "parse coredns template: " err "")
              | inr tmpl => wrap_err "render coredns template: " (template_Execute tmpl data)
              end
          end
      end
  end.

Definition CoreDNSRenderer : ConfigRenderer :=
  {| Render := render; EngineType := EngineCoreDNS; ConfigFileName := "Corefile" |}.

End CoreDNS.
End CoreDNS.

(** ** pkg/engineconfig/powerdns/renderer.go *)
Module PowerDNS.
Section PowerDNS.
Context `{GoRuntime} `{EngineLib}.

Definition defaultPortForTransport (transport : string) : Z :=
  if String.eqb transport UpstreamTransportDoT then 853
  else if String.eqb transport UpstreamTransportDoH then 443
  else 53.

Definition normalizeUpstreamTransport (transport : string) : string :=
  let trimmed := ToLower (TrimSpace transport) in
  if String.eqb trimmed UpstreamTransportDoT then UpstreamTransportDoT
  else if String.eqb trimmed UpstreamTransportDoH then UpstreamTransportDoH
  else UpstreamTransportDNS.

Definition normalizeDNSSECMode (mode : string) : string :=
  let trimmed := ToLower (TrimSpace mode) in
  if String.eqb trimmed DNSSECModeProcess then DNSSECModeProcess
  else if String.eqb trimmed DNSSECModeValidate then DNSSECModeValidate
  else DNSSECModeOff.

Definition normalizeWorkerThreads (value : Z) : Z :=
  if 256 <? value then 256
  else if 0 <? value then value
  else
    let cpuCount := NumCPU in
    if cpuCount <=? 0 then 2
    else if 256 <? cpuCount then 256
    else int32 cpuCount.

(** The body of the loop over the copied upstreams. *)
Definition normalize_upstream (u : UpstreamConfig) : UpstreamConfig :=
  let transport := normalizeUpstreamTransport (uc_Transport u) in
  let port := if uc_Port u =? 0 then defaultPortForTransport transport else uc_Port u in
  let sni := TrimSpace (uc_TLSServerName u) in
  let sni := if String.eqb transport UpstreamTransportDNS then "" else sni in
  let weight := if uc_Weight u <=? 0 then 1 else uc_Weight u in
  let preference := if uc_Preference u <=? 0 then 100 else uc_Preference u in
  {| uc_Address := uc_Address u; uc_Port := port; uc_Transport := transport;
     uc_TLSServerName := sni; uc_Weight := weight; uc_Preference := preference |}.

Definition normalizeConfig (config : EngineConfig) : EngineConfig :=
  {| ec_Upstreams := normalize_upstream <$> ec_Upstreams config;
     ec_Cache := ec_Cache config;
     ec_ListenAddr := ec_ListenAddr config;
     ec_ListenPort := ec_ListenPort config;
     ec_WorkerThreads := normalizeWorkerThreads (ec_WorkerThreads config);
     ec_DNSSECMode := normalizeDNSSECMode (ec_DNSSECMode config);
     ec_DomainFilter := ec_DomainFilter config |}.

(** One turn of the compatibility loop. *)
Definition compat_step (i : nat) (u : UpstreamConfig) (s : unit) : result unit :=
  if negb (String.eqb (uc_Transport u) UpstreamTransportDNS) then
    inl (ErrNew ("upstreams[" +:+ Itoa (Z.of_nat i) +:+ "].transport " +:+
                 Quote (uc_Transport u) +:+ " is not supported by powerdns renderer"))
  else inr s.

Definition validatePowerDNSCompatibility (config : EngineConfig) : option error :=
  match range_err compat_step 0 (ec_Upstreams config) tt with
  | inl err => Some err
  | inr _ => None
  end.

Definition render (config : option EngineConfig) : result string :=
  match config with
  | None => inl (ErrNew "engine config is required")
  | Some config =>
      let normalized := normalizeConfig config in
      match validatePowerDNSCompatibility normalized with
      | Some err => inl (ErrWrap "validate powerdns transport compatibility: " err "")
      | None =>
          match ValidateTemplateConfig normalized with
          | Some err => inl (ErrWrap "validate powerdns template input: " err "")
          | None =>
              let data := NewTemplateData normalized in
              match template_Parse "recursor.conf" RecursorConfTemplate with
              | inl err => inl (ErrWrap "parse powerdns template: " err "")
              | inr tmpl => wrap_err "render powerdns template: " (template_Execute tmpl data)
              end
          end
      end
  end.

Definition PowerDNSRenderer : ConfigRenderer :=
  {| Render := render; EngineType := EnginePowerDNS; ConfigFileName := "recursor.conf" |}.

End PowerDNS.
End PowerDNS.

(** ** Normal configurations *)

Section Normal.
Context `{GoRuntime}.

(** Configurations on which normalisation is the identity, field by field. *)
Definition normal_upstream (u : UpstreamConfig) : Prop :=
  Unbound.normalizeUpstreamTransport (uc_Transport u) = uc_Transport u /\
  uc_Port u <> 0 /\ 1 <= uc_Weight u /\ 1 <= uc_Preference u /\
  TrimSpace (uc_TLSServerName u) = uc_TLSServerName u /\
  (uc_Transport u = UpstreamTransportDNS -> uc_TLSServerName u = "") /\
  (uc_Transport u <> UpstreamTransportDNS -> uc_TLSServerName u = "" ->
   Unbound.defaultTLSServerName (uc_Address u) = "").

Lemma normal_upstream_fixed u :
  normal_upstream u ->
  Unbound.normalize_upstream u = u /\ CoreDNS.normalize_upstream u = u /\
  PowerDNS.normalize_upstream u = u.
Proof.
  intros (Ht & Hp & Hw & Hpr & Htrim & Hdns & Henc).
  assert (Unbound.normalize_upstream u = u) as HU.
  { unfold Unbound.normalize_upstream. rewrite Ht, Htrim.
    destruct u as [a p t s w pr]; cbn in *.
    rewrite (proj2 (Z.eqb_neq p 0)), (proj2 (Z.leb_gt w 0)), (proj2 (Z.leb_gt pr 0)) by lia.
    destruct (String.eqb_spec t UpstreamTransportDNS); cbn; [by rewrite Hdns|].
    destruct (String.eqb_spec s ""); [|done]. subst s. by rewrite Henc. }
  split; [done|]. split; [exact HU|].
  unfold PowerDNS.normalize_upstream.
  change (PowerDNS.normalizeUpstreamTransport (uc_Transport u))
    with (Unbound.normalizeUpstreamTransport (uc_Transport u)).
  rewrite Ht, Htrim. destruct u as [a p t s w pr]; cbn in *.
  rewrite (proj2 (Z.eqb_neq p 0)), (proj2 (Z.leb_gt w 0)), (proj2 (Z.leb_gt pr 0)) by lia.
  destruct (String.eqb_spec t UpstreamTransportDNS); [by rewrite Hdns|done].
Qed.

Lemma known_transport_normal t :
  t ∈ [UpstreamTransportDNS; UpstreamTransportDoT; UpstreamTransportDoH] ->
  Unbound.normalizeUpstreamTransport t = t.
Proof.
  rewrite !elem_of_cons, elem_of_nil. intros [->|[->|[->|[]]]]; reflexivity.
Qed.

Lemma known_dnssec_normal m :
  m ∈ [DNSSECModeOff; DNSSECModeProcess; DNSSECModeValidate] -> Unbound.normalizeDNSSECMode m = m.
Proof.
  rewrite !elem_of_cons, elem_of_nil. intros [->|[->|[->|[]]]]; reflexivity.
Qed.

Lemma known_workers_normal n : 1 <= n <= 256 -> Unbound.normalizeWorkerThreads n = n.
Proof.
  intros Hn. unfold Unbound.normalizeWorkerThreads.
  rewrite (proj2 (Z.ltb_ge 256 n)), (proj2 (Z.ltb_lt 0 n)) by lia. done.
Qed.

(** A name derived from an address without spaces is trimmed. *)
Lemma defaultTLSServerName_trimmed a :
  all_bytes no_space_byte a = true ->
  TrimSpace (Generator.defaultTLSServerName a) = Generator.defaultTLSServerName a.
Proof.
  intros Ha. unfold Generator.defaultTLSServerName. repeat case_match; try reflexivity.
  apply TrimSpace_no_space. by apply TrimSuffix_bytes, TrimSpace_bytes.
Qed.

Lemma generated_upstream_normal u :
  all_bytes no_space_byte (Address u) = true -> addressed u -> normal_upstream (upstream_config u).
Proof.
  intros Ha Hu. pose proof (upstream_config_wf u Hu) as [_ Hp Ht Hs Hw Hpr].
  repeat split; try done; [by apply known_transport_normal|..]; cbn.
  - repeat case_match; try reflexivity; [|apply TrimSpace_idemp].
    by apply defaultTLSServerName_trimmed, TrimSpace_bytes.
  - intros Hn%String.eqb_neq. rewrite Hn. case_match; [by intros|].
    intros E. by rewrite E in *.
Qed.

(** Generated configurations are fixed points of the normalisations. *)
Lemma generate_normal pool profile cfg :
  Forall (fun u => all_bytes no_space_byte (Address u) = true) (Upstreams (pool_spec pool)) ->
  generate (Some pool) profile = inr cfg ->
  Unbound.normalizeConfig cfg = cfg /\ CoreDNS.normalizeConfig cfg = cfg /\
  PowerDNS.normalizeConfig cfg = cfg.
Proof.
  intros Hsp Hg. pose proof (generate_wf _ _ _ Hg) as [_ _ _ Hwork Hmode _].
  apply generate_inv in Hg as (_ & Haddr & ->). cbn in Hwork, Hmode.
  assert (Forall (fun u => normal_upstream u)
    (upstream_config <$> sort_SliceStable upstream_less (Upstreams (pool_spec pool)))) as Hall.
  { apply Forall_fmap. rewrite sort_SliceStable_perm. apply Forall_forall. intros u Hu.
    rewrite Forall_forall in Hsp, Haddr. apply generated_upstream_normal; auto. }
  pose proof (Forall_impl _ _ _ Hall normal_upstream_fixed) as Hfix.
  apply Forall_and in Hfix as [HU Hfix]. apply Forall_and in Hfix as [HC HP].
  unfold Unbound.normalizeConfig, CoreDNS.normalizeConfig, PowerDNS.normalizeConfig; cbn.
  change CoreDNS.normalizeWorkerThreads with Unbound.normalizeWorkerThreads.
  change PowerDNS.normalizeWorkerThreads with Unbound.normalizeWorkerThreads.
  change CoreDNS.normalizeDNSSECMode with Unbound.normalizeDNSSECMode.
  change PowerDNS.normalizeDNSSECMode with Unbound.normalizeDNSSECMode.
  rewrite known_workers_normal, known_dnssec_normal by done.
  rewrite (Forall_fmap_ext_1 _ id _ HU), (Forall_fmap_ext_1 _ id _ HC),
    (Forall_fmap_ext_1 _ id _ HP), list_fmap_id. done.
Qed.

(** C24. What the renderers validate is what the operator publishes: when no
    upstream address contains a space, the generated configuration is a fixed
    point of the normalisation of all three renderers, so the configuration
    written for the agent is the one that passed the rendering check. *)
Theorem generated_config_normal pool profile cfg :
  Forall (fun u => all_bytes no_space_byte (Address u) = true) (Upstreams (pool_spec pool)) ->
  generate (Some pool) profile = inr cfg ->
  Unbound.normalizeConfig cfg = cfg /\ CoreDNS.normalizeConfig cfg = cfg /\
  PowerDNS.normalizeConfig cfg = cfg.
Proof. apply generate_normal. Qed.
End Normal.

(** ** What each engine accepts *)

Definition plain (u : UpstreamConfig) : Prop :=
  uc_Transport u <> UpstreamTransportDoT /\ uc_Transport u <> UpstreamTransportDoH.

Definition encrypted (u : UpstreamConfig) : Prop := uc_Transport u <> UpstreamTransportDNS.

(** The rest of a rendering, once the engine accepts the configuration. *)
Definition executes_to `{EngineLib} (name text : string) (c : EngineConfig) (out : string) : Prop :=
  ValidateTemplateConfig c = None /\
  exists tmpl, template_Parse name text = inr tmpl /\
    template_Execute tmpl (NewTemplateData c) = inr out.

(** The three [Render] methods share their structure. *)
Lemma render_structure `{EngineLib} (compat : option error) (m1 m2 m3 m4 name text : string)
    (c : EngineConfig) (out : string) :
  match compat with
  | Some err => inl (ErrWrap m1 err "")
  | None =>
      match ValidateTemplateConfig c with
      | Some err => inl (ErrWrap m2 err "")
      | None =>
          match template_Parse name text with
          | inl err => inl (ErrWrap m3 err "")
          | inr tmpl => wrap_err m4 (template_Execute tmpl (NewTemplateData c))
          end
      end
  end = inr out <-> compat = None /\ executes_to name text c out.
Proof.
  unfold executes_to. destruct compat as [e|]; [split; [done|naive_solver]|].
  destruct (ValidateTemplateConfig c) as [e|]; [split; [done|naive_solver]|].
  destruct (template_Parse name text) as [e|tmpl]; [split; [done|naive_solver]|].
  destruct (template_Execute tmpl _) as [e|o] eqn:E; cbn; split.
  - done.
  - intros (_ & _ & t & Ht & Ho). congruence.
  - intros Ho. simplify_eq. eauto 10.
  - intros (_ & _ & t & Ht & Ho). congruence.
Qed.

Section Accept.
Context `{GoRuntime}.

(** A loop whose body either refuses an upstream or updates its state. *)
Lemma compat_loop_ok {S} (step : nat -> UpstreamConfig -> S -> result S)
    (ok : UpstreamConfig -> Prop) (next : UpstreamConfig -> S -> S) :
  (forall i u s, ok u -> step i u s = inr (next u s)) ->
  (forall i u s, ~ ok u -> exists e, step i u s = inl e) ->
  (forall u, Decision (ok u)) ->
  forall l i s,
  (Forall ok l -> range_err step i l s = inr (foldl (fun s u => next u s) s l)) /\
  (~ Forall ok l -> exists e, range_err step i l s = inl e).
Proof.
  intros Hok Hbad Hdec l. induction l as [|u l IH]; intros i s; cbn.
  - split; [done|]. intros Hn. by destruct Hn.
  - rewrite Forall_cons. destruct (Hdec u) as [Hu|Hu].
    + rewrite Hok by done. destruct (IH (Datatypes.S i) (next u s)) as [IH1 IH2].
      split; [naive_solver|]. intros Hn. apply IH2. naive_solver.
    + destruct (Hbad i u s Hu) as [e ->]. split; [naive_solver|eauto].
Qed.

Lemma unbound_compat_iff c :
  Unbound.validateUnboundCompatibility c = None <->
  Forall (fun u => uc_Transport u <> UpstreamTransportDoH) (ec_Upstreams c) /\
  (Exists (fun u => uc_Transport u = UpstreamTransportDoT) (ec_Upstreams c) ->
   ~ Exists plain (ec_Upstreams c)).
Proof.
  unfold Unbound.validateUnboundCompatibility. set (l := ec_Upstreams c).
  pose (next u (s : bool * bool) :=
    if bool_decide (uc_Transport u = UpstreamTransportDoT) then (s.1, true) else (true, s.2)).
  destruct (compat_loop_ok Unbound.compat_step
    (fun u => uc_Transport u <> UpstreamTransportDoH) next) with (l := l) (i := 0%nat)
    (s := (false, false)) as [Hok Hbad]; [| |apply _|].
  { intros i u [p d] Hu. unfold Unbound.compat_step, next. cbn.
    rewrite (proj2 (String.eqb_neq _ _) Hu).
    destruct (String.eqb_spec (uc_Transport u) UpstreamTransportDoT); case_bool_decide; done. }
  { intros i u [p d] Hu. apply dec_stable in Hu. unfold Unbound.compat_step. rewrite Hu. eauto. }
  destruct (decide (Forall (fun u => uc_Transport u <> UpstreamTransportDoH) l)) as [Hf|Hf].
  2:{ destruct (Hbad Hf) as [e ->]. split; [done|]. naive_solver. }
  rewrite (Hok Hf).
  assert (forall s, (foldl (fun s u => next u s) s l).1 = true <-> s.1 = true \/ Exists plain l) as H1.
  { clear Hok Hbad. induction l as [|u l IH]; intros s; cbn [foldl].
    - rewrite Exists_nil. naive_solver.
    - apply Forall_cons in Hf as [Hu Hf]. rewrite IH, Exists_cons by done. unfold next, plain.
      case_bool_decide; cbn; naive_solver. }
  assert (forall s, (foldl (fun s u => next u s) s l).2 = true <->
    s.2 = true \/ Exists (fun u => uc_Transport u = UpstreamTransportDoT) l) as H2.
  { clear Hok Hbad H1. induction l as [|u l IH]; intros s; cbn [foldl].
    - rewrite Exists_nil. naive_solver.
    - apply Forall_cons in Hf as [Hu Hf]. rewrite IH, Exists_cons by done. unfold next.
      case_bool_decide; cbn; naive_solver. }
  specialize (H1 (false, false)). specialize (H2 (false, false)).
  destruct (foldl _ _ _) as [p d]; cbn in *.
  destruct p, d; cbn; naive_solver.
Qed.

Lemma powerdns_compat_iff c :
  PowerDNS.validatePowerDNSCompatibility c = None <->
  Forall (fun u => uc_Transport u = UpstreamTransportDNS) (ec_Upstreams c).
Proof.
  unfold PowerDNS.validatePowerDNSCompatibility.
  destruct (compat_loop_ok PowerDNS.compat_step
    (fun u => uc_Transport u = UpstreamTransportDNS) (fun _ s => s)) with (l := ec_Upstreams c)
    (i := 0%nat) (s := tt) as [Hok Hbad]; [| |apply _|].
  { intros i u s Hu. unfold PowerDNS.compat_step. by rewrite Hu. }
  { intros i u s Hu. unfold PowerDNS.compat_step. rewrite (proj2 (String.eqb_neq _ _) Hu). eauto. }
  destruct (decide (Forall (fun u => uc_Transport u = UpstreamTransportDNS) (ec_Upstreams c)))
    as [Hf|Hf].
  - by rewrite (Hok Hf).
  - destruct (Hbad Hf) as [e ->]. naive_solver.
Qed.

(** The TLS server names an encrypted pool presents. *)
Definition presents (u : UpstreamConfig) : Prop := encrypted u /\ uc_TLSServerName u <> "".

Lemma coredns_compat_iff c :
  CoreDNS.validateCoreDNSCompatibility c = None <->
  ec_DNSSECMode c = DNSSECModeOff /\
  Forall (fun u => uc_Transport u ∈ [UpstreamTransportDNS; UpstreamTransportDoT; UpstreamTransportDoH])
    (ec_Upstreams c) /\
  (forall u v, u ∈ ec_Upstreams c -> v ∈ ec_Upstreams c -> presents u -> presents v ->
     uc_TLSServerName u = uc_TLSServerName v).
Proof.
  unfold CoreDNS.validateCoreDNSCompatibility. set (l := ec_Upstreams c).
  destruct (String.eqb_spec (ec_DNSSECMode c) DNSSECModeOff) as [Hm|Hm]; cbn [negb]; [|naive_solver].
  pose (next u (s : gset string) :=
    if bool_decide (uc_Transport u = UpstreamTransportDNS) || bool_decide (uc_TLSServerName u = "")
    then s else {[uc_TLSServerName u]} ∪ s).
  destruct (compat_loop_ok CoreDNS.compat_step (fun u => uc_Transport u ∈
      [UpstreamTransportDNS; UpstreamTransportDoT; UpstreamTransportDoH]) next) with (l := l)
    (i := 0%nat) (s := ∅ : gset string) as [Hok Hbad]; [| |intros; apply _|].
  { intros i u s Hu. unfold CoreDNS.compat_step, next.
    rewrite !elem_of_cons, elem_of_nil in Hu.
    destruct (String.eqb_spec (uc_TLSServerName u) "") as [Hs|Hs];
      rewrite ?(bool_decide_eq_true_2 _ Hs), ?(bool_decide_eq_false_2 _ Hs);
      destruct Hu as [->|[->|[->|[]]]]; reflexivity. }
  { intros i u s Hu. unfold CoreDNS.compat_step. rewrite !elem_of_cons, elem_of_nil in Hu.
    rewrite !(proj2 (String.eqb_neq _ _)) by naive_solver. cbn. eauto. }
  destruct (decide (Forall (fun u => uc_Transport u ∈
    [UpstreamTransportDNS; UpstreamTransportDoT; UpstreamTransportDoH]) l)) as [Hf|Hf].
  2:{ destruct (Hbad Hf) as [e ->]. naive_solver. }
  rewrite (Hok Hf).
  assert (forall s n, n ∈ foldl (fun s u => next u s) s l <->
    n ∈ s \/ exists u, u ∈ l /\ presents u /\ uc_TLSServerName u = n) as Hseen.
  { clear Hok Hbad Hf. induction l as [|u l IH]; intros s n; cbn [foldl]; [set_solver|].
    rewrite IH. unfold next, presents, encrypted.
    case_bool_decide; cbn; [set_solver|]. case_bool_decide; set_solver. }
  specialize (Hseen ∅).
  pose proof (size_le_1 (foldl (fun s u => next u s) ∅ l)) as Hsize.
  destruct (Nat.ltb_spec 1 (size (foldl (fun s u => next u s) ∅ l))) as [Hlt|Hle].
  - split; [done|]. intros (_ & _ & Hone). exfalso. apply Nat.lt_nge in Hlt. apply Hlt, Hsize.
    intros x y [?|(u & Hu & Pu & <-)]%Hseen [?|(v & Hv & Pv & <-)]%Hseen; set_solver.
  - split; [|done]. intros _. split; [done|]. split; [done|]. intros u v Hu Hv Pu Pv.
    apply (proj1 Hsize Hle); apply Hseen; eauto.
Qed.

(** What Unbound accepts. *)
Lemma unbound_render_spec `{EngineLib} c out :
  Unbound.render (Some c) = inr out <->
  let n := Unbound.normalizeConfig c in
  (Forall (fun u => uc_Transport u <> UpstreamTransportDoH) (ec_Upstreams n) /\
   (Exists (fun u => uc_Transport u = UpstreamTransportDoT) (ec_Upstreams n) ->
    ~ Exists plain (ec_Upstreams n))) /\
  executes_to "unbound.conf" UnboundConfigTemplate n out.
Proof. cbn zeta. rewrite <- unbound_compat_iff. apply render_structure. Qed.

(** What CoreDNS accepts. *)
Lemma coredns_render_spec `{EngineLib} c out :
  CoreDNS.render (Some c) = inr out <->
  let n := CoreDNS.normalizeConfig c in
  (ec_DNSSECMode n = DNSSECModeOff /\
   (forall u v, u ∈ ec_Upstreams n -> v ∈ ec_Upstreams n -> presents u -> presents v ->
      uc_TLSServerName u = uc_TLSServerName v)) /\
  executes_to "Corefile" CorefileTemplate n out.
Proof.
  unfold CoreDNS.render. rewrite render_structure, coredns_compat_iff. cbn zeta.
  enough (Forall (fun u => uc_Transport u ∈
    [UpstreamTransportDNS; UpstreamTransportDoT; UpstreamTransportDoH])
    (ec_Upstreams (CoreDNS.normalizeConfig c))) by naive_solver.
  apply Forall_fmap, Forall_true. intros u. apply normalizeUpstreamTransport_cases.
Qed.

(** What PowerDNS accepts. *)
Lemma powerdns_render_spec `{EngineLib} c out :
  PowerDNS.render (Some c) = inr out <->
  let n := PowerDNS.normalizeConfig c in
  Forall (fun u => uc_Transport u = UpstreamTransportDNS) (ec_Upstreams n) /\
  executes_to "recursor.conf" RecursorConfTemplate n out.
Proof. cbn zeta. rewrite <- powerdns_compat_iff. apply render_structure. Qed.


(** C33. What the renderers accept and produce. Each succeeds exactly on the
    configurations that its engine supports once normalised, when the shared
    validation accepts them and the engine's template executes on them; the
    output is the executed template. Unbound supports no DNS over HTTPS and no
    mix of plain DNS with DNS over TLS; CoreDNS supports no DNSSEC, and its
    encrypted upstreams must present at most one TLS server name between them;
    PowerDNS supports plain DNS only. *)
Theorem renderers_accept_iff `{EngineLib} c out :
  (Unbound.render (Some c) = inr out <->
   let n := Unbound.normalizeConfig c in
   (Forall (fun u => uc_Transport u <> UpstreamTransportDoH) (ec_Upstreams n) /\
    (Exists (fun u => uc_Transport u = UpstreamTransportDoT) (ec_Upstreams n) ->
     ~ Exists plain (ec_Upstreams n))) /\
   executes_to "unbound.conf" UnboundConfigTemplate n out) /\
  (CoreDNS.render (Some c) = inr out <->
   let n := CoreDNS.normalizeConfig c in
   (ec_DNSSECMode n = DNSSECModeOff /\
    (forall u v, u ∈ ec_Upstreams n -> v ∈ ec_Upstreams n -> presents u -> presents v ->
       uc_TLSServerName u = uc_TLSServerName v)) /\
   executes_to "Corefile" CorefileTemplate n out) /\
  (PowerDNS.render (Some c) = inr out <->
   let n := PowerDNS.normalizeConfig c in
   Forall (fun u => uc_Transport u = UpstreamTransportDNS) (ec_Upstreams n) /\
   executes_to "recursor.conf" RecursorConfTemplate n out).
Proof. split_and!; [apply unbound_render_spec|apply coredns_render_spec|apply powerdns_render_spec]. Qed.
End Accept.
