(* ===== verification/Kube.v ===== *)
(** Effects. Everything a reconciler asks of the outside (the Kubernetes
    client of controller-runtime, the event recorder, the clock, the
    environment, and Go's unspecified map iteration order) is a [call], and a
    program is a tree of calls: after each one it continues with whatever
    answer it gets. Nothing is assumed about the answers here, so a theorem
    about every execution of a program holds for any API server, including
    one that fails at any point.

    A trace is the list of the calls made with their answers. [exec] is the
    trace semantics, [wp] computes the weakest precondition of a property of
    trace and result, [run] executes a program on a handler. *)
From S2P Require Import Prelude GoStrings GoErrors Types.

(** ** Calls *)

Inductive call :=
  (* client.Client: DNSUpstreamPool *)
  | GetPool (key : NamespacedName)
  | ListPools (namespace : string)
  | PatchPool (obj base : DNSUpstreamPool)
  | PatchPoolStatus (obj base : DNSUpstreamPool)
  (* client.Client: DNSCacheProfile *)
  | GetProfile (key : NamespacedName)
  | PatchProfileStatus (obj base : DNSCacheProfile)
  (* client.Client: ExternalDNSPolicy; [None] lists every namespace *)
  | GetPolicy (key : NamespacedName)
  | ListPolicies (namespace : option string)
  | PatchPolicy (obj base : ExternalDNSPolicy)
  | PatchPolicyStatus (obj base : ExternalDNSPolicy)
  (* client.Client: Namespace *)
  | GetNamespace (name : string)
  | ListNamespaces
  | PatchNamespace (obj base : CoreNamespace)
  (* client.Client: ConfigMap; controllerutil.CreateOrUpdate *)
  | GetConfigMap (key : NamespacedName)
  | CreateOrUpdate (obj : ConfigMap) (mutate : ConfigMap -> ConfigMap)
  (* events.EventRecorder.Eventf *)
  | Eventf (object : ObjectMeta) (eventType reason message : string)
  (* time.Now, os.Getenv *)
  | Now
  | Getenv (name : string)
  (* for k := range m *)
  | MapRange (keys : gset string).

(** The answers. A patch answers with the object as the server returns it,
    which the client decodes into the argument. *)
Definition resp (c : call) : Type :=
  match c with
  | GetPool _ => result DNSUpstreamPool
  | ListPools _ => result (list DNSUpstreamPool)
  | PatchPool _ _ => result DNSUpstreamPool
  | PatchPoolStatus _ _ => option error
  | GetProfile _ => result DNSCacheProfile
  | PatchProfileStatus _ _ => option error
  | GetPolicy _ => result ExternalDNSPolicy
  | ListPolicies _ => result (list ExternalDNSPolicy)
  | PatchPolicy _ _ => result ExternalDNSPolicy
  | PatchPolicyStatus _ _ => option error
  | GetNamespace _ => result CoreNamespace
  | ListNamespaces => result (list CoreNamespace)
  | PatchNamespace _ _ => option error
  | GetConfigMap _ => result ConfigMap
  | CreateOrUpdate _ _ => option error
  | Eventf _ _ _ _ => unit
  | Now => time
  | Getenv _ => string
  | MapRange keys => { l : list string | l ≡ₚ elements keys }
  end.

Definition event : Type := { c : call & resp c }.
Definition ev (c : call) (r : resp c) : event := existT c r.
Abbreviation trace := (list event).

(** ** Programs *)

Inductive prog (A : Type) : Type :=
  | Ret (a : A)
  | Do (c : call) (k : resp c -> prog A).
Arguments Ret {A} a.
Arguments Do {A} c k.

Definition trigger (c : call) : prog (resp c) := Do c Ret.

Fixpoint bind {A B} (p : prog A) (f : A -> prog B) : prog B :=
  match p with
  | Ret a => f a
  | Do c k => Do c (fun r => bind (k r) f)
  end.

Declare Scope prog_scope.
Delimit Scope prog_scope with prog.
Bind Scope prog_scope with prog.
Notation "x <- p ;; k" := (bind p (fun x => k))
  (at level 100, p at next level, right associativity) : prog_scope.
Notation "p ;; k" := (bind p (fun _ => k))
  (at level 100, right associativity) : prog_scope.

(** [for i := range items { if err := f(items[i]); err != nil { return err } }]. *)
Fixpoint for_each {A E} (f : A -> prog (option E)) (l : list A) : prog (option E) :=
  match l with
  | [] => Ret None
  | x :: l => bind (f x) (fun err => match err with
                                     | Some e => Ret (Some e)
                                     | None => for_each f l
                                     end)
  end.

(** The same with an accumulator. *)
Fixpoint for_fold {A S E} (f : A -> S -> prog (E + S)) (l : list A) (s : S) : prog (E + S) :=
  match l with
  | [] => Ret (inr s)
  | x :: l => bind (f x s) (fun r => match r with
                                     | inl e => Ret (inl e)
                                     | inr s => for_fold f l s
                                     end)
  end.

(** ** Traces *)

(** [exec p tr a]: [p] can run with the calls and answers of [tr] and return
    [a]. *)
Fixpoint exec {A} (p : prog A) (tr : trace) (a : A) : Prop :=
  match p with
  | Ret b => tr = [] /\ a = b
  | Do c k => exists r tr', tr = ev c r :: tr' /\ exec (k r) tr' a
  end.

Fixpoint wp {A} (p : prog A) (Q : trace -> A -> Prop) : Prop :=
  match p with
  | Ret a => Q [] a
  | Do c k => forall r, wp (k r) (fun tr a => Q (ev c r :: tr) a)
  end.

(** [wp] is exactly "every execution satisfies [Q]". *)
Lemma wp_exec {A} (p : prog A) Q : wp p Q <-> forall tr a, exec p tr a -> Q tr a.
Proof.
  revert Q. induction p as [a|c k IH]; intros Q; cbn.
  - split; [by intros ? ? ? [-> ->] | intros HQ; by apply HQ].
  - split.
    + intros Hw tr b (r & tr' & -> & Hx). by apply (proj1 (IH r _) (Hw r)).
    + intros HQ r. apply IH. intros tr a Hx. apply HQ. eauto.
Qed.

Lemma exec_pair {A B} (p : prog (A * B)) (Q : trace -> A -> B -> Prop) :
  wp p (fun tr '(a, b) => Q tr a b) -> forall tr a b, exec p tr (a, b) -> Q tr a b.
Proof. rewrite wp_exec. intros Hw tr a b Hx. exact (Hw tr (a, b) Hx). Qed.

Lemma wp_mono {A} (p : prog A) (Q R : trace -> A -> Prop) :
  (forall tr a, Q tr a -> R tr a) -> wp p Q -> wp p R.
Proof. rewrite !wp_exec. eauto. Qed.

#[export] Instance wp_proper {A} (p : prog A) :
  Proper (pointwise_relation _ (pointwise_relation _ iff) ==> iff) (wp p).
Proof. intros Q R HQR. split; apply wp_mono; intros tr a; apply HQR. Qed.

Lemma wp_bind {A B} (p : prog A) (f : A -> prog B) Q :
  wp (bind p f) Q <-> wp p (fun tr a => wp (f a) (fun tr' b => Q (tr ++ tr') b)).
Proof.
  revert Q. induction p as [a|c k IH]; intros Q; cbn; [done|].
  split; intros Hw r.
  - exact (proj1 (IH r _) (Hw r)).
  - exact (proj2 (IH r _) (Hw r)).
Qed.

(** An execution of a composition splits at the composition. *)
Lemma exec_bind {A B} (p : prog A) (f : A -> prog B) tr b :
  exec (bind p f) tr b <->
  exists tr1 tr2 a, tr = tr1 ++ tr2 /\ exec p tr1 a /\ exec (f a) tr2 b.
Proof.
  revert tr. induction p as [a|c k IH]; intros tr; cbn.
  - split; [by exists [], tr, a|]. by intros (? & ? & ? & -> & [-> ->] & Hx).
  - split.
    + intros (r & tr' & -> & (tr1 & tr2 & a & -> & H1 & H2)%IH).
      exists (ev c r :: tr1), tr2, a. split; [done|]. split; [|done]. eauto.
    + intros (tr1 & tr2 & a & -> & (r & tr' & -> & H1) & H2).
      exists r, (tr' ++ tr2). split; [done|]. apply IH. eauto 10.
Qed.

(** ** Equality of programs

    Two programs are equal when they make the same calls and continue in the
    same way after every answer. Programs are well-founded trees: whatever the
    answers are, a program makes finitely many calls and returns. *)
Inductive prog_eq {A} : prog A -> prog A -> Prop :=
  | eq_ret a : prog_eq (Ret a) (Ret a)
  | eq_do c k1 k2 : (forall r, prog_eq (k1 r) (k2 r)) -> prog_eq (Do c k1) (Do c k2).

Lemma prog_eq_refl {A} (p : prog A) : prog_eq p p.
Proof. induction p; by constructor. Qed.
#[export] Hint Resolve prog_eq_refl : eff.
#[export] Hint Constructors prog_eq : eff.

Lemma bind_ret_r {A} (p : prog A) : prog_eq (bind p Ret) p.
Proof. induction p; cbn; auto with eff. Qed.

Lemma bind_assoc {A B C} (p : prog A) (f : A -> prog B) (g : B -> prog C) :
  prog_eq (bind (bind p f) g) (bind p (fun a => bind (f a) g)).
Proof. induction p; cbn; auto with eff. Qed.

#[export] Instance wp_prog_proper {A} :
  Proper (prog_eq ==> eq ==> iff) (@wp A).
Proof.
  intros p q Hpq Q ? <-. revert Q. induction Hpq as [a|c k1 k2 Hk IH]; intros Q; cbn; [done|].
  split; intros Hw r; by apply IH.
Qed.

(** ** Running on a handler

    A handler answers the calls from a world [W] that the calls change. *)
Definition handler (W : Type) : Type := forall c, W -> W * resp c.

Fixpoint run {W A} (h : handler W) (p : prog A) (w : W) : W * A :=
  match p with
  | Ret a => (w, a)
  | Do c k => let '(w', r) := h c w in run h (k r) w'
  end.

Lemma run_bind {W A B} (h : handler W) (p : prog A) (f : A -> prog B) w :
  run h (bind p f) w = let '(w', a) := run h p w in run h (f a) w'.
Proof.
  revert w. induction p as [a|c k IH]; intros w; cbn; [done|].
  destruct (h c w) as [w' r]. apply IH.
Qed.

(** A run is one of the executions. *)
Lemma run_exec {W A} (h : handler W) (p : prog A) w :
  exists tr, exec p tr (run h p w).2.
Proof.
  revert w. induction p as [a|c k IH]; intros w; cbn; [by exists []|].
  destruct (h c w) as [w' r]. destruct (IH r w') as [tr Hx]. eauto 10.
Qed.

(** The run together with its trace. *)
Fixpoint run_trace {W A} (h : handler W) (p : prog A) (w : W) : W * trace * A :=
  match p with
  | Ret a => (w, [], a)
  | Do c k =>
      let '(w', r) := h c w in
      let '(w'', tr, a) := run_trace h (k r) w' in
      (w'', ev c r :: tr, a)
  end.

Lemma run_trace_exec {W A} (h : handler W) (p : prog A) w w' tr a :
  run_trace h p w = (w', tr, a) -> exec p tr a /\ run h p w = (w', a).
Proof.
  revert w w' tr a. induction p as [a0|c k IH]; intros w w' tr a; cbn.
  - intros; by simplify_eq.
  - destruct (h c w) as [w1 r]. destruct (run_trace h (k r) w1) as [[w2 tr'] b] eqn:E.
    intros; simplify_eq. destruct (IH r _ _ _ _ E) as [Hx Hr]. eauto 10.
Qed.

(** ** State

    A reconciler with fields of its own threads them through its programs. *)
Definition state (S A : Type) : Type := S -> prog (S * A).

Definition state_ret {S A} (a : A) : state S A := fun s => Ret (s, a).
Definition state_bind {S A B} (m : state S A) (f : A -> state S B) : state S B :=
  fun s => bind (m s) (fun '(s, a) => f a s).
Definition lift {S A} (p : prog A) : state S A := fun s => bind p (fun a => Ret (s, a)).
Definition modify {S A} (f : S -> S * A) : state S A := fun s => Ret (f s).

Declare Scope state_scope.
Delimit Scope state_scope with state.
Notation "x <- p ;; k" := (state_bind p (fun x => k))
  (at level 100, p at next level, right associativity) : state_scope.
Notation "p ;; k" := (state_bind p (fun _ => k))
  (at level 100, right associativity) : state_scope.

(** ** Reading traces *)

Definition as_config_write (e : event)
    : option (ConfigMap * (ConfigMap -> ConfigMap) * option error) :=
  let '(existT c r) := e in
  match c return resp c -> option (ConfigMap * (ConfigMap -> ConfigMap) * option error) with
  | CreateOrUpdate obj f => fun r => Some (obj, f, r)
  | _ => fun _ => None
  end r.

Definition as_pool_status (e : event)
    : option (DNSUpstreamPool * DNSUpstreamPool * option error) :=
  let '(existT c r) := e in
  match c return resp c -> option (DNSUpstreamPool * DNSUpstreamPool * option error) with
  | PatchPoolStatus obj base => fun r => Some (obj, base, r)
  | _ => fun _ => None
  end r.

Definition as_pool_patch (e : event)
    : option (DNSUpstreamPool * DNSUpstreamPool * result DNSUpstreamPool) :=
  let '(existT c r) := e in
  match c return resp c -> option (DNSUpstreamPool * DNSUpstreamPool * result DNSUpstreamPool) with
  | PatchPool obj base => fun r => Some (obj, base, r)
  | _ => fun _ => None
  end r.

Definition as_pool_get (e : event) : option (NamespacedName * result DNSUpstreamPool) :=
  let '(existT c r) := e in
  match c return resp c -> option (NamespacedName * result DNSUpstreamPool) with
  | GetPool key => fun r => Some (key, r)
  | _ => fun _ => None
  end r.

Definition as_pool_list (e : event) : option (string * result (list DNSUpstreamPool)) :=
  let '(existT c r) := e in
  match c return resp c -> option (string * result (list DNSUpstreamPool)) with
  | ListPools ns => fun r => Some (ns, r)
  | _ => fun _ => None
  end r.

Definition as_profile_get (e : event) : option (NamespacedName * result DNSCacheProfile) :=
  let '(existT c r) := e in
  match c return resp c -> option (NamespacedName * result DNSCacheProfile) with
  | GetProfile key => fun r => Some (key, r)
  | _ => fun _ => None
  end r.

Definition as_profile_status (e : event)
    : option (DNSCacheProfile * DNSCacheProfile * option error) :=
  let '(existT c r) := e in
  match c return resp c -> option (DNSCacheProfile * DNSCacheProfile * option error) with
  | PatchProfileStatus obj base => fun r => Some (obj, base, r)
  | _ => fun _ => None
  end r.

Definition as_policy_list (e : event) : option (option string * result (list ExternalDNSPolicy)) :=
  let '(existT c r) := e in
  match c return resp c -> option (option string * result (list ExternalDNSPolicy)) with
  | ListPolicies ns => fun r => Some (ns, r)
  | _ => fun _ => None
  end r.

Definition as_policy_get (e : event) : option (NamespacedName * result ExternalDNSPolicy) :=
  let '(existT c r) := e in
  match c return resp c -> option (NamespacedName * result ExternalDNSPolicy) with
  | GetPolicy key => fun r => Some (key, r)
  | _ => fun _ => None
  end r.

Definition as_policy_patch (e : event)
    : option (ExternalDNSPolicy * ExternalDNSPolicy * result ExternalDNSPolicy) :=
  let '(existT c r) := e in
  match c return resp c -> option (ExternalDNSPolicy * ExternalDNSPolicy * result ExternalDNSPolicy) with
  | PatchPolicy obj base => fun r => Some (obj, base, r)
  | _ => fun _ => None
  end r.

Definition as_policy_status (e : event)
    : option (ExternalDNSPolicy * ExternalDNSPolicy * option error) :=
  let '(existT c r) := e in
  match c return resp c -> option (ExternalDNSPolicy * ExternalDNSPolicy * option error) with
  | PatchPolicyStatus obj base => fun r => Some (obj, base, r)
  | _ => fun _ => None
  end r.

Definition as_namespace_patch (e : event)
    : option (CoreNamespace * CoreNamespace * option error) :=
  let '(existT c r) := e in
  match c return resp c -> option (CoreNamespace * CoreNamespace * option error) with
  | PatchNamespace obj base => fun r => Some (obj, base, r)
  | _ => fun _ => None
  end r.

(** The calls that change the cluster. *)
Definition is_write (e : event) : bool :=
  match projT1 e with
  | PatchPool _ _ | PatchPoolStatus _ _ | PatchProfileStatus _ _ | PatchPolicy _ _
  | PatchPolicyStatus _ _ | PatchNamespace _ _ | CreateOrUpdate _ _ => true
  | _ => false
  end.

(** ** Reasoning about stateful programs *)

Lemma wp_ret {A} (a : A) (Q : trace -> A -> Prop) : Q [] a -> wp (Ret a) Q.
Proof. done. Qed.

Lemma wp_state_bind {S A B} (m : state S A) (f : A -> state S B) s Q :
  wp (state_bind m f s) Q
  <-> wp (m s) (fun tr '(s', a) => wp (f a s') (fun tr' b => Q (tr ++ tr') b)).
Proof.
  unfold state_bind. rewrite wp_bind. split; apply wp_mono; by intros tr [s' a].
Qed.

Lemma wp_lift {S A} (p : prog A) (s : S) Q : wp (lift p s) Q <-> wp p (fun tr a => Q tr (s, a)).
Proof.
  unfold lift. rewrite wp_bind. split; apply wp_mono; intros tr a; cbn; by rewrite app_nil_r.
Qed.

(** Composition through a known postcondition of the first part. *)
Lemma wp_seq {A B} (p : prog A) (f : A -> prog B) P Q :
  wp p P -> (forall tr a, P tr a -> wp (f a) (fun tr' b => Q (tr ++ tr') b)) -> wp (bind p f) Q.
Proof. intros Hp Hf. apply wp_bind. by apply (wp_mono _ P). Qed.

Lemma wp_state_seq {S A B} (m : state S A) (f : A -> state S B) s P Q :
  wp (m s) P ->
  (forall tr s' a, P tr (s', a) -> wp (f a s') (fun tr' b => Q (tr ++ tr') b)) ->
  wp (state_bind m f s) Q.
Proof. intros Hp Hf. apply wp_state_bind. apply (wp_mono _ P); [|done]. intros tr [s' a]. apply Hf. Qed.

Lemma wp_trigger c : wp (trigger c) (fun tr r => tr = [ev c r]).
Proof. done. Qed.

Lemma wp_lift_seq {S A B} (p : prog A) (f : A -> state S B) s P Q :
  wp p P ->
  (forall tr a, P tr a -> wp (f a s) (fun tr' b => Q (tr ++ tr') b)) ->
  wp (state_bind (lift p) f s) Q.
Proof. intros Hp Hf. apply wp_state_bind, wp_lift. by apply (wp_mono _ P). Qed.

(** The trace without the events recorded. *)
Definition is_loud (e : event) : bool :=
  match projT1 e with
  | Eventf _ _ _ _ => false
  | _ => true
  end.

Definition loud (tr : trace) : trace := List.filter is_loud tr.

Lemma loud_app tr tr' : loud (tr ++ tr') = loud tr ++ loud tr'.
Proof. apply List.filter_app. Qed.

Lemma elem_of_loud e tr : e ∈ loud tr <-> is_loud e = true /\ e ∈ tr.
Proof. unfold loud. rewrite !list_elem_of_In, List.filter_In. tauto. Qed.

(** A reading of a trace that sees only loud calls. *)
Lemma omap_loud {B} (f : event -> option B) tr :
  (forall e, is_loud e = false -> f e = None) -> omap f (loud tr) = omap f tr.
Proof.
  intros Hf. unfold loud. induction tr as [|e tr IH]; cbn; [done|].
  destruct (is_loud e) eqn:E; cbn; [|rewrite (Hf e E)]; by rewrite IH.
Qed.

Lemma omap_config_loud tr : omap as_config_write (loud tr) = omap as_config_write tr.
Proof. apply omap_loud. by intros [[] ?]. Qed.
Lemma omap_status_loud tr : omap as_pool_status (loud tr) = omap as_pool_status tr.
Proof. apply omap_loud. by intros [[] ?]. Qed.
Lemma omap_list_loud tr : omap as_pool_list (loud tr) = omap as_pool_list tr.
Proof. apply omap_loud. by intros [[] ?]. Qed.
Lemma omap_get_loud tr : omap as_pool_get (loud tr) = omap as_pool_get tr.
Proof. apply omap_loud. by intros [[] ?]. Qed.

(** ** Loops

    The traces of a loop are those of its iterations, one after the other, up
    to the first error. *)
Inductive each_runs {A E} (P : A -> trace -> option E -> Prop) : list A -> trace -> option E -> Prop :=
  | each_nil : each_runs P [] [] None
  | each_stop x l t e : P x t (Some e) -> each_runs P (x :: l) t (Some e)
  | each_step x l t t' r :
      P x t None -> each_runs P l t' r -> each_runs P (x :: l) (t ++ t') r.

Inductive fold_runs {A S E} (P : A -> S -> trace -> E + S -> Prop)
    : list A -> S -> trace -> E + S -> Prop :=
  | fold_nil s : fold_runs P [] s [] (inr s)
  | fold_stop x l s t e : P x s t (inl e) -> fold_runs P (x :: l) s t (inl e)
  | fold_step x l s t s' t' r :
      P x s t (inr s') -> fold_runs P l s' t' r -> fold_runs P (x :: l) s (t ++ t') r.

Lemma wp_for_each {A E} (f : A -> prog (option E)) P l :
  (forall x, x ∈ l -> wp (f x) (P x)) -> wp (for_each f l) (each_runs P l).
Proof.
  induction l as [|x l IH]; intros Hf; [by constructor|]. cbn [for_each].
  eapply wp_seq; [apply Hf; by left|]. intros tr [e|] HP.
  - apply wp_ret. rewrite app_nil_r. by constructor.
  - eapply wp_mono; [|apply IH; intros y Hy; apply Hf; by right]. intros tr' r Hr. by constructor.
Qed.

Lemma wp_for_fold {A S E} (f : A -> S -> prog (E + S)) P l s :
  (forall x s, x ∈ l -> wp (f x s) (P x s)) -> wp (for_fold f l s) (fold_runs P l s).
Proof.
  revert s. induction l as [|x l IH]; intros s Hf; [by constructor|]. cbn [for_fold].
  eapply wp_seq; [apply Hf; by left|]. intros tr [e|s'] HP.
  - apply wp_ret. rewrite app_nil_r. by constructor.
  - eapply wp_mono; [|apply IH; intros y s0 Hy; apply Hf; by right]. intros tr' r Hr. by econstructor.
Qed.

(** The iterations of a loop that stops have all the calls of its trace, and a
    property of every iteration's calls is one of the whole loop's. *)
Lemma each_runs_Forall {A E} (P : A -> trace -> option E -> Prop) (Q : event -> Prop) l tr r :
  (forall x t r, x ∈ l -> P x t r -> Forall Q t) -> each_runs P l tr r -> Forall Q tr.
Proof.
  intros HP Hr. induction Hr as [|x l t e Hx|x l t t' r Hx Hr IH]; [constructor|..].
  - by apply (HP x t (Some e)); [left|].
  - apply Forall_app. split; [by apply (HP x t None); [left|]|]. apply IH. intros; eapply HP; [by right|done].
Qed.

Lemma each_runs_all {A E} (P : A -> trace -> option E -> Prop) l tr :
  each_runs P l tr None -> forall x, x ∈ l -> exists t, P x t None /\ forall e, e ∈ t -> e ∈ tr.
Proof.
  intros Hr. remember None as r eqn:Er in Hr.
  induction Hr as [|x l t e Hx|x l t t' r Hx Hr IH]; intros y Hy; [set_solver|done|].
  apply elem_of_cons in Hy as [->|Hy].
  - exists t. split; [done|]. set_solver.
  - destruct (IH Er y Hy) as (t0 & ? & Hin). exists t0. split; [done|]. set_solver.
Qed.

Lemma fold_runs_Forall {A S E} (P : A -> S -> trace -> E + S -> Prop) (Q : event -> Prop) l s tr r :
  (forall x s t r, x ∈ l -> P x s t r -> Forall Q t) -> fold_runs P l s tr r -> Forall Q tr.
Proof.
  intros HP Hr. induction Hr as [s|x l s t e Hx|x l s t s' t' r Hx Hr IH]; [constructor|..].
  - by apply (HP x s t (inl e)); [left|].
  - apply Forall_app. split; [by apply (HP x s t (inr s')); [left|]|].
    apply IH. intros; eapply HP; [by right|done].
Qed.

Lemma fold_runs_all {A S E} (P : A -> S -> trace -> E + S -> Prop) l s tr s' :
  fold_runs P l s tr (inr s') ->
  forall x, x ∈ l -> exists t s1 s2, P x s1 t (inr s2) /\ forall e, e ∈ t -> e ∈ tr.
Proof.
  intros Hr. remember (inr s') as r eqn:Er in Hr.
  induction Hr as [s|x l s t e Hx|x l s t s1 t' r Hx Hr IH]; intros y Hy; [set_solver|done|].
  apply elem_of_cons in Hy as [->|Hy].
  - exists t, s, s1. split; [done|]. set_solver.
  - destruct (IH Er y Hy) as (t0 & a & b & ? & Hin). exists t0, a, b. split; [done|]. set_solver.
Qed.
