(* ===== verification/Manager.v ===== *)
(** The interface of controller-runtime that cmd/main.go and the
    [SetupWithManager] methods use: server and manager options, controllers as
    their builder describes them, and the manager. *)
From S2P Require Import Prelude GoStrings GoErrors Types Kube.

(** ** Controllers *)

(** The types of the objects that the controllers watch or read. *)
Inductive Kind := KindPool | KindProfile | KindPolicy | KindNamespace | KindConfigMap.

#[global] Instance Kind_eq_dec : EqDecision Kind.
Proof. solve_decision. Defined.

(** A [reconcile.Reconciler]: what it keeps between reconciliations, what it
    starts from, and its [Reconcile]. *)
Record Reconciler := {
  rec_State : Type;
  rec_init : rec_State;
  rec_Reconcile : NamespacedName -> state rec_State (ReconcileResult * option error);
}.

(** A reconciler that keeps nothing. *)
Definition stateless (f : NamespacedName -> prog (ReconcileResult * option error)) : Reconciler :=
  {| rec_State := unit; rec_init := tt; rec_Reconcile req := lift (f req) |}.

(** A builder before [Complete]: the type given to [For], the types given to
    [Watches] with the functions of their [EnqueueRequestsFromMapFunc]. *)
Record Builder := {
  builder_For : Kind;
  builder_Watches : list (Kind * (ObjectMeta -> prog (list NamespacedName)));
}.

Definition For (k : Kind) : Builder := {| builder_For := k; builder_Watches := [] |}.
Definition Watches (k : Kind) (f : ObjectMeta -> prog (list NamespacedName)) (b : Builder) : Builder :=
  {| builder_For := builder_For b; builder_Watches := builder_Watches b ++ [(k, f)] |}.

(** What [Complete(r)] registers. *)
Record Controller := { ctl_builder : Builder; ctl_reconciler : Reconciler }.

(** ** Servers *)

(** [tls.Config], of which the program touches one field. *)
Record tlsConfig := { NextProtos : list string }.

Record WebhookOptions := {
  wo_TLSOpts : list (tlsConfig -> tlsConfig);
  wo_CertDir : string;
  wo_CertName : string;
  wo_KeyName : string;
}.

(** [filters.WithAuthenticationAndAuthorization]. *)
Inductive filter_provider := WithAuthenticationAndAuthorization.

Record MetricsOptions := {
  mo_BindAddress : string;
  mo_SecureServing : bool;
  mo_TLSOpts : list (tlsConfig -> tlsConfig);
  mo_FilterProvider : option filter_provider;
  mo_CertDir : string;
  mo_CertName : string;
  mo_KeyName : string;
}.

(** The TLS configuration a server ends up with: its options applied in turn. *)
Definition apply_TLSOpts (opts : list (tlsConfig -> tlsConfig)) (c : tlsConfig) : tlsConfig :=
  foldl (fun c f => f c) c opts.

(** ** Admission *)

Inductive Operation := Create | Update | Delete | Connect.

#[global] Instance Operation_eq_dec : EqDecision Operation.
Proof. solve_decision. Defined.

Record Request := { req_Operation : Operation; req_Raw : string; req_Namespace : string }.

(** [admission.Allowed], [Denied] and [Errored]. *)
Inductive Response :=
  | Allowed (message : string)
  | Denied (message : string)
  | Errored (code : Z) (err : error).

(** An [admission.Handler] with its [Handle]. *)
Abbreviation Handler := (Request -> prog Response).

(** ** The manager *)

(** [ctrl.Options]. *)
Record ManagerOptions {Scheme WebhookServer : Type} := {
  opt_Scheme : Scheme;
  opt_Metrics : MetricsOptions;
  opt_WebhookServer : WebhookServer;
  opt_HealthProbeBindAddress : string;
  opt_LeaderElection : bool;
  opt_LeaderElectionID : string;
}.
Arguments ManagerOptions : clear implicits.

Class ManagerLib := {
  (* runtime.Scheme and the AddToScheme functions of the type packages *)
  Scheme : Type;
  NewScheme : Scheme;
  clientgo_AddToScheme : Scheme -> result Scheme;
  v1alpha1_AddToScheme : Scheme -> result Scheme;
  (* webhook.NewServer *)
  WebhookServer : Type;
  NewServer : WebhookOptions -> WebhookServer;
  (* ctrl.GetConfigOrDie: [None] is the exit *)
  rest_Config : Type;
  GetConfigOrDie : option rest_Config;
  (* ctrl.Manager *)
  Manager : Type;
  NewManager : rest_Config -> ManagerOptions Scheme WebhookServer -> result Manager;
  Complete : Controller -> Manager -> result Manager;
  Register : string -> Handler -> Manager -> Manager;
  AddHealthzCheck : string -> Manager -> result Manager;
  AddReadyzCheck : string -> Manager -> result Manager;
  Start : Manager -> option error;
}.

(** What a manager holds. *)
Record Registered {Scheme WebhookServer : Type} := {
  m_options : ManagerOptions Scheme WebhookServer;
  m_controllers : list Controller;
  m_handlers : list (string * Handler);
  m_healthz : list string;
  m_readyz : list string;
}.
Arguments Registered : clear implicits.

(** The registration functions add what they are given, and nothing else. *)
Class ManagerLaws `{ManagerLib} := {
  holds : Manager -> Registered Scheme WebhookServer;
  NewManager_holds config options m :
    NewManager config options = inr m ->
    holds m = {| m_options := options; m_controllers := []; m_handlers := [];
                 m_healthz := []; m_readyz := [] |};
  Complete_holds c m m' :
    Complete c m = inr m' ->
    holds m' = {| m_options := m_options (holds m); m_controllers := m_controllers (holds m) ++ [c];
                  m_handlers := m_handlers (holds m); m_healthz := m_healthz (holds m);
                  m_readyz := m_readyz (holds m) |};
  Register_holds path h m :
    holds (Register path h m)
    = {| m_options := m_options (holds m); m_controllers := m_controllers (holds m);
         m_handlers := m_handlers (holds m) ++ [(path, h)]; m_healthz := m_healthz (holds m);
         m_readyz := m_readyz (holds m) |};
  AddHealthzCheck_holds name m m' :
    AddHealthzCheck name m = inr m' ->
    holds m' = {| m_options := m_options (holds m); m_controllers := m_controllers (holds m);
                  m_handlers := m_handlers (holds m); m_healthz := m_healthz (holds m) ++ [name];
                  m_readyz := m_readyz (holds m) |};
  AddReadyzCheck_holds name m m' :
    AddReadyzCheck name m = inr m' ->
    holds m' = {| m_options := m_options (holds m); m_controllers := m_controllers (holds m);
                  m_handlers := m_handlers (holds m); m_healthz := m_healthz (holds m);
                  m_readyz := m_readyz (holds m) ++ [name] |};
}.

(** A manager that is what it holds, and never fails. *)
#[export] Instance list_manager : ManagerLib := {|
  Scheme := list string;
  NewScheme := [];
  clientgo_AddToScheme s := inr (s ++ ["k8s.io/client-go"]);
  v1alpha1_AddToScheme s := inr (s ++ ["dns.astradns.com/v1alpha1"]);
  WebhookServer := WebhookOptions;
  NewServer o := o;
  rest_Config := unit;
  GetConfigOrDie := Some tt;
  Manager := Registered (list string) WebhookOptions;
  NewManager _ options :=
    inr {| m_options := options; m_controllers := []; m_handlers := []; m_healthz := []; m_readyz := [] |};
  Complete c m :=
    inr {| m_options := m_options m; m_controllers := m_controllers m ++ [c];
           m_handlers := m_handlers m; m_healthz := m_healthz m; m_readyz := m_readyz m |};
  Register path h m :=
    {| m_options := m_options m; m_controllers := m_controllers m;
       m_handlers := m_handlers m ++ [(path, h)]; m_healthz := m_healthz m; m_readyz := m_readyz m |};
  AddHealthzCheck name m :=
    inr {| m_options := m_options m; m_controllers := m_controllers m; m_handlers := m_handlers m;
           m_healthz := m_healthz m ++ [name]; m_readyz := m_readyz m |};
  AddReadyzCheck name m :=
    inr {| m_options := m_options m; m_controllers := m_controllers m; m_handlers := m_handlers m;
           m_healthz := m_healthz m; m_readyz := m_readyz m ++ [name] |};
  Start _ := None;
|}.

#[export, refine] Instance list_manager_laws : ManagerLaws (H := list_manager) := {| holds m := m |}.
Proof. all: by intros; simplify_eq/=. Defined.
