(* ===== verification/TestCluster.v ===== *)
(** A small API server to run the reconcilers on: objects in lists, found by
    key, patched in place; a ConfigMap store; a clock that advances at every
    reading; an environment. It answers every call of [Kube.call], and can be
    told to fail the ConfigMap writes. The witnesses run on it. *)
From S2P Require Import Prelude GoStrings GoErrors Types Kube Instances.

Record Cluster := {
  cl_pools : list DNSUpstreamPool;
  cl_profiles : list DNSCacheProfile;
  cl_policies : list ExternalDNSPolicy;
  cl_namespaces : list CoreNamespace;
  cl_configs : list ConfigMap;
  cl_clock : time;
  cl_env : list (string * string);
  cl_read_only : bool;
}.

Definition not_found : error := ErrExternal true "not found".
Definition forbidden : error := ErrExternal false "forbidden".

Section Store.
Context {A : Type} (meta : A -> ObjectMeta).

Definition lookup_key (key : NamespacedName) (l : list A) : result A :=
  match List.find (fun a => bool_decide (meta_key (meta a) = key)) l with
  | Some a => inr a
  | None => inl not_found
  end.

Definition replace_key (a : A) (l : list A) : list A :=
  (fun b => if bool_decide (meta_key (meta b) = meta_key (meta a)) then a else b) <$> l.

Definition in_namespace (ns : string) (l : list A) : list A :=
  List.filter (fun a => bool_decide (Namespace (meta a) = ns)) l.
End Store.

Definition with_pools l w := {|
  cl_pools := l; cl_profiles := cl_profiles w; cl_policies := cl_policies w;
  cl_namespaces := cl_namespaces w; cl_configs := cl_configs w; cl_clock := cl_clock w;
  cl_env := cl_env w; cl_read_only := cl_read_only w |}.
Definition with_profiles l w := {|
  cl_pools := cl_pools w; cl_profiles := l; cl_policies := cl_policies w;
  cl_namespaces := cl_namespaces w; cl_configs := cl_configs w; cl_clock := cl_clock w;
  cl_env := cl_env w; cl_read_only := cl_read_only w |}.
Definition with_policies l w := {|
  cl_pools := cl_pools w; cl_profiles := cl_profiles w; cl_policies := l;
  cl_namespaces := cl_namespaces w; cl_configs := cl_configs w; cl_clock := cl_clock w;
  cl_env := cl_env w; cl_read_only := cl_read_only w |}.
Definition with_namespaces l w := {|
  cl_pools := cl_pools w; cl_profiles := cl_profiles w; cl_policies := cl_policies w;
  cl_namespaces := l; cl_configs := cl_configs w; cl_clock := cl_clock w;
  cl_env := cl_env w; cl_read_only := cl_read_only w |}.
Definition with_configs l w := {|
  cl_pools := cl_pools w; cl_profiles := cl_profiles w; cl_policies := cl_policies w;
  cl_namespaces := cl_namespaces w; cl_configs := l; cl_clock := cl_clock w;
  cl_env := cl_env w; cl_read_only := cl_read_only w |}.
Definition with_clock t w := {|
  cl_pools := cl_pools w; cl_profiles := cl_profiles w; cl_policies := cl_policies w;
  cl_namespaces := cl_namespaces w; cl_configs := cl_configs w; cl_clock := t;
  cl_env := cl_env w; cl_read_only := cl_read_only w |}.

Definition same_config (k : NamespacedName) (cm : ConfigMap) : bool := bool_decide (cm_key cm = k).

(** Get the ConfigMap and mutate it, or create the mutated argument. *)
Definition create_or_update (obj : ConfigMap) (mutate : ConfigMap -> ConfigMap)
    (l : list ConfigMap) : list ConfigMap :=
  if existsb (same_config (cm_key obj)) l
  then (fun cm => if same_config (cm_key obj) cm then mutate cm else cm) <$> l
  else mutate obj :: l.

Definition getenv (env : list (string * string)) (name : string) : string :=
  match List.find (fun '(n, _) => String.eqb n name) env with
  | Some (_, v) => v
  | None => ""
  end.

Definition answer_config (key : NamespacedName) (l : list ConfigMap) : result ConfigMap :=
  match List.find (same_config key) l with
  | Some cm => inr cm
  | None => inl not_found
  end.

Definition cluster : handler Cluster := fun c w =>
  match c return Cluster * resp c with
  | GetPool key => (w, lookup_key pool_meta key (cl_pools w))
  | ListPools ns => (w, inr (in_namespace pool_meta ns (cl_pools w)))
  | PatchPool obj base => (with_pools (replace_key pool_meta obj (cl_pools w)) w, inr obj)
  | PatchPoolStatus obj base => (with_pools (replace_key pool_meta obj (cl_pools w)) w, None)
  | GetProfile key => (w, lookup_key profile_meta key (cl_profiles w))
  | PatchProfileStatus obj base =>
      (with_profiles (replace_key profile_meta obj (cl_profiles w)) w, None)
  | GetPolicy key => (w, lookup_key policy_meta key (cl_policies w))
  | ListPolicies None => (w, inr (cl_policies w))
  | ListPolicies (Some ns) => (w, inr (in_namespace policy_meta ns (cl_policies w)))
  | PatchPolicy obj base => (with_policies (replace_key policy_meta obj (cl_policies w)) w, inr obj)
  | PatchPolicyStatus obj base => (with_policies (replace_key policy_meta obj (cl_policies w)) w, None)
  | GetNamespace name =>
      (w, lookup_key namespace_meta {| key_Namespace := ""; key_Name := name |} (cl_namespaces w))
  | ListNamespaces => (w, inr (cl_namespaces w))
  | PatchNamespace obj base =>
      (with_namespaces (replace_key namespace_meta obj (cl_namespaces w)) w, None)
  | GetConfigMap key => (w, answer_config key (cl_configs w))
  | CreateOrUpdate obj mutate =>
      if cl_read_only w then (w, Some forbidden)
      else (with_configs (create_or_update obj mutate (cl_configs w)) w, None)
  | Eventf _ _ _ _ => (w, tt)
  | Now => (with_clock (cl_clock w + Second) w, cl_clock w)
  | Getenv name => (w, getenv (cl_env w) name)
  | MapRange keys => (w, exist _ (elements keys) (Permutation_refl (elements keys)))
  end.

Definition empty_cluster : Cluster :=
  {| cl_pools := []; cl_profiles := []; cl_policies := []; cl_namespaces := []; cl_configs := [];
     cl_clock := 1000 * Second; cl_env := []; cl_read_only := false |}.

(** What the trace of a program on the cluster is. *)
Definition trace_on {A} (w : Cluster) (p : prog A) : trace := (run_trace cluster p w).1.2.
Definition result_on {A} (w : Cluster) (p : prog A) : A := (run_trace cluster p w).2.
Definition after {A} (w : Cluster) (p : prog A) : Cluster := (run_trace cluster p w).1.1.

Lemma exec_on {A} (w : Cluster) (p : prog A) : exec p (trace_on w p) (result_on w p).
Proof.
  unfold trace_on, result_on. destruct (run_trace cluster p w) as [[w' tr] a] eqn:E.
  by apply run_trace_exec in E as [? _].
Qed.
