(* ===== verification/ApiServer.v ===== *)
(** What the reconcilers rely on of the cluster they talk to, when it works:
    [answers] gives, for every call, the answers of a server that holds the
    objects of a [View], and the objects it holds then. Lists come in any
    order, resource versions are any numbers, and patches are JSON merge
    patches against the base they are computed from, so a patch from an old
    object changes only what it means to change.

    [ApiServerLaws] says that a handler is such a server. [reference_server] is
    one. [replay] runs a trace through the views. *)
From S2P Require Import Prelude GoStrings GoErrors Types Kube.

(** The objects by key, and the environment of the process. *)
Record View := {
  v_pools : gmap NamespacedName DNSUpstreamPool;
  v_profiles : gmap NamespacedName DNSCacheProfile;
  v_policies : gmap NamespacedName ExternalDNSPolicy;
  v_namespaces : gmap string CoreNamespace;
  v_configs : gmap NamespacedName ConfigMap;
  v_env : string -> string;
}.

Definition set_pools m v := {|
  v_pools := m; v_profiles := v_profiles v; v_policies := v_policies v;
  v_namespaces := v_namespaces v; v_configs := v_configs v; v_env := v_env v |}.
Definition set_profiles m v := {|
  v_pools := v_pools v; v_profiles := m; v_policies := v_policies v;
  v_namespaces := v_namespaces v; v_configs := v_configs v; v_env := v_env v |}.
Definition set_policies m v := {|
  v_pools := v_pools v; v_profiles := v_profiles v; v_policies := m;
  v_namespaces := v_namespaces v; v_configs := v_configs v; v_env := v_env v |}.
Definition set_namespaces m v := {|
  v_pools := v_pools v; v_profiles := v_profiles v; v_policies := v_policies v;
  v_namespaces := m; v_configs := v_configs v; v_env := v_env v |}.
Definition set_configs m v := {|
  v_pools := v_pools v; v_profiles := v_profiles v; v_policies := v_policies v;
  v_namespaces := v_namespaces v; v_configs := m; v_env := v_env v |}.

(** ** Merge patches *)

(** A field of the stored object, patched by the difference of two objects. *)
Definition merge_field {A} `{EqDecision A} (base obj stored : A) : A :=
  if decide (obj = base) then stored else obj.

(** The annotations that differ, with null for those that are gone. *)
Definition annotations_diff (base obj : gmap string string) : gmap string (option string) :=
  merge (fun b o => if decide (b = o) then None else Some o) base obj.

Definition apply_diff (diff : gmap string (option string)) (stored : gmap string string) : gmap string string :=
  merge (fun d s => match d with
                    | Some o => o
                    | None => s
                    end) diff stored.

(** An object without annotations has none. *)
Definition some_annotations (m : gmap string string) : option (gmap string string) :=
  if decide (m = ∅) then None else Some m.

Definition merge_annotations (base obj stored : option (gmap string string)) : option (gmap string string) :=
  some_annotations
    (apply_diff (annotations_diff (default ∅ base) (default ∅ obj)) (default ∅ stored)).

Definition merge_meta (base obj stored : ObjectMeta) (rv : string) : ObjectMeta := {|
  Name := Name stored; Namespace := Namespace stored; UID := UID stored; ResourceVersion := rv;
  Generation := Generation stored; CreationTimestamp := CreationTimestamp stored;
  DeletionTimestamp := DeletionTimestamp stored;
  Annotations := merge_annotations (Annotations base) (Annotations obj) (Annotations stored);
  Finalizers := merge_field (Finalizers base) (Finalizers obj) (Finalizers stored);
|}.

Definition merge_status (base obj stored : Status) : Status := {|
  Conditions := merge_field (Conditions base) (Conditions obj) (Conditions stored);
  ObservedGeneration :=
    merge_field (ObservedGeneration base) (ObservedGeneration obj) (ObservedGeneration stored);
|}.

(** The same object at another version. *)
Definition at_version (rv : string) (m : ObjectMeta) : ObjectMeta := {|
  Name := Name m; Namespace := Namespace m; UID := UID m; ResourceVersion := rv;
  Generation := Generation m; CreationTimestamp := CreationTimestamp m;
  DeletionTimestamp := DeletionTimestamp m; Annotations := Annotations m; Finalizers := Finalizers m;
|}.

Definition patched_pool (base obj stored : DNSUpstreamPool) (rv : string) : DNSUpstreamPool :=
  {| pool_meta := merge_meta (pool_meta base) (pool_meta obj) (pool_meta stored) rv;
     pool_spec := pool_spec stored; pool_status := pool_status stored |}.

Definition patched_pool_status (base obj stored : DNSUpstreamPool) (rv : string) : DNSUpstreamPool :=
  {| pool_meta := at_version rv (pool_meta stored); pool_spec := pool_spec stored;
     pool_status := merge_status (pool_status base) (pool_status obj) (pool_status stored) |}.

Definition patched_profile_status (base obj stored : DNSCacheProfile) (rv : string) : DNSCacheProfile :=
  {| profile_meta := at_version rv (profile_meta stored); profile_spec := profile_spec stored;
     profile_status := merge_status (profile_status base) (profile_status obj) (profile_status stored) |}.

Definition patched_policy (base obj stored : ExternalDNSPolicy) (rv : string) : ExternalDNSPolicy :=
  {| policy_meta := merge_meta (policy_meta base) (policy_meta obj) (policy_meta stored) rv;
     policy_spec := policy_spec stored; policy_status := policy_status stored;
     AppliedNodes := AppliedNodes stored |}.

Definition patched_policy_status (base obj stored : ExternalDNSPolicy) (rv : string) : ExternalDNSPolicy :=
  {| policy_meta := at_version rv (policy_meta stored); policy_spec := policy_spec stored;
     policy_status := merge_status (policy_status base) (policy_status obj) (policy_status stored);
     AppliedNodes := merge_field (AppliedNodes base) (AppliedNodes obj) (AppliedNodes stored) |}.

Definition patched_namespace (base obj stored : CoreNamespace) (rv : string) : CoreNamespace :=
  {| namespace_meta := merge_meta (namespace_meta base) (namespace_meta obj) (namespace_meta stored) rv |}.

(** An object that is being deleted goes with its last finalizer. *)
Definition put_policy (key : NamespacedName) (p : ExternalDNSPolicy) (m : gmap NamespacedName ExternalDNSPolicy)
    : gmap NamespacedName ExternalDNSPolicy :=
  if decide (DeletionTimestamp (policy_meta p) <> None /\ Finalizers (policy_meta p) = [])
  then delete key m else <[key := p]> m.

(** ** Answers *)

(** A resource version is a number. *)
Definition version_ok (rv : string) : Prop := exists n, ParseInt rv = Some n /\ 0 < n.

Definition found {A} (o : option A) (r : result A) : Prop :=
  match o with
  | Some a => r = inr a
  | None => exists e, r = inl e /\ IsNotFound e = true
  end.

Definition values_in {A} (P : NamespacedName -> Prop) `{forall k, Decision (P k)} (m : gmap NamespacedName A)
    : list A := (filter (fun kv => P kv.1) (map_to_list m)).*2.

(** Objects [l] are those of [m] with a key in [P]. *)
Definition listed {A} (P : NamespacedName -> Prop) `{forall k, Decision (P k)}
    (m : gmap NamespacedName A) (r : result (list A)) : Prop :=
  exists l, r = inr l /\ l ≡ₚ values_in P m.

(** A patch of the object at [key]: refused if there is none. *)
Definition patched {A} (o : option A) (new : A -> string -> A) (gone : Prop) (done : A -> Prop) : Prop :=
  match o with
  | None => gone
  | Some stored => exists rv, version_ok rv /\ done (new stored rv)
  end.

Definition refused {A} (v v' : View) (r : result A) : Prop :=
  v' = v /\ exists e, r = inl e /\ IsNotFound e = true.

Definition refused_patch (v v' : View) (r : option error) : Prop :=
  v' = v /\ exists e, r = Some e /\ IsNotFound e = true.

Definition answers (v : View) (c : call) : resp c -> View -> Prop :=
  match c return resp c -> View -> Prop with
  | GetPool key => fun r v' => v' = v /\ found (v_pools v !! key) r
  | ListPools ns => fun r v' => v' = v /\ listed (fun k => key_Namespace k = ns) (v_pools v) r
  | PatchPool obj base => fun r v' =>
      let key := meta_key (pool_meta obj) in
      patched (v_pools v !! key) (patched_pool base obj) (refused v v' r)
        (fun p => r = inr p /\ v' = set_pools (<[key := p]> (v_pools v)) v)
  | PatchPoolStatus obj base => fun r v' =>
      let key := meta_key (pool_meta obj) in
      patched (v_pools v !! key) (patched_pool_status base obj) (refused_patch v v' r)
        (fun p => r = None /\ v' = set_pools (<[key := p]> (v_pools v)) v)
  | GetProfile key => fun r v' => v' = v /\ found (v_profiles v !! key) r
  | PatchProfileStatus obj base => fun r v' =>
      let key := meta_key (profile_meta obj) in
      patched (v_profiles v !! key) (patched_profile_status base obj) (refused_patch v v' r)
        (fun p => r = None /\ v' = set_profiles (<[key := p]> (v_profiles v)) v)
  | GetPolicy key => fun r v' => v' = v /\ found (v_policies v !! key) r
  | ListPolicies (Some ns) => fun r v' =>
      v' = v /\ listed (fun k => key_Namespace k = ns) (v_policies v) r
  | ListPolicies None => fun r v' => v' = v /\ listed (fun _ => True) (v_policies v) r
  | PatchPolicy obj base => fun r v' =>
      let key := meta_key (policy_meta obj) in
      patched (v_policies v !! key) (patched_policy base obj) (refused v v' r)
        (fun p => r = inr p /\ v' = set_policies (put_policy key p (v_policies v)) v)
  | PatchPolicyStatus obj base => fun r v' =>
      let key := meta_key (policy_meta obj) in
      patched (v_policies v !! key) (patched_policy_status base obj) (refused_patch v v' r)
        (fun p => r = None /\ v' = set_policies (<[key := p]> (v_policies v)) v)
  | GetNamespace name => fun r v' => v' = v /\ found (v_namespaces v !! name) r
  | ListNamespaces => fun r v' =>
      v' = v /\ exists l, r = inr l /\ l ≡ₚ (map_to_list (v_namespaces v)).*2
  | PatchNamespace obj base => fun r v' =>
      let key := Name (namespace_meta obj) in
      patched (v_namespaces v !! key) (patched_namespace base obj) (refused_patch v v' r)
        (fun n => r = None /\ v' = set_namespaces (<[key := n]> (v_namespaces v)) v)
  | GetConfigMap key => fun r v' => v' = v /\ found (v_configs v !! key) r
  | CreateOrUpdate obj mutate => fun r v' =>
      let key := cm_key obj in
      r = None /\
      v' = set_configs (<[key := mutate (default obj (v_configs v !! key))]> (v_configs v)) v
  | Eventf _ _ _ _ => fun _ v' => v' = v
  | Now => fun _ v' => v' = v
  | Getenv name => fun r v' => v' = v /\ r = v_env v name
  | MapRange _ => fun _ v' => v' = v
  end.

Class ApiServer (W : Type) := {
  serve : handler W;
  view : W -> View;
}.

Class ApiServerLaws (W : Type) `{ApiServer W} : Prop :=
  serve_answers c w : answers (view w) c (serve c w).2 (view (serve c w).1).

(** ** Traces on views *)

Definition step (v : View) (e : event) (v' : View) : Prop :=
  let '(existT c r) := e in answers v c r v'.

Fixpoint replay (v : View) (tr : trace) (v' : View) : Prop :=
  match tr with
  | [] => v' = v
  | e :: tr => exists v1, step v e v1 /\ replay v1 tr v'
  end.

Lemma replay_app v tr1 tr2 v' :
  replay v (tr1 ++ tr2) v' <-> exists v1, replay v tr1 v1 /\ replay v1 tr2 v'.
Proof.
  revert v. induction tr1 as [|e tr1 IH]; intros v; cbn; [naive_solver|].
  setoid_rewrite IH. naive_solver.
Qed.

(** Recorded events do not matter. *)
Lemma replay_loud v tr v' : replay v tr v' -> replay v (loud tr) v'.
Proof.
  revert v. induction tr as [|[c r] tr IH]; intros v; cbn; [done|].
  intros (v1 & Hs & Hr). destruct c; cbn in *; eauto. subst. eauto.
Qed.

(** Reading changes nothing. *)
Lemma replay_reads v tr v' : List.filter is_write tr = [] -> replay v tr v' -> v' = v.
Proof.
  revert v. induction tr as [|[c r] tr IH]; intros v; cbn; [done|].
  destruct (is_write (existT c r)) eqn:Hw; [done|]. intros Hf (v1 & Hs & Hr).
  assert (v1 = v) as ->; [|by apply IH].
  destruct c as [| | | | | | | [ns|]| | | | | | | | | | |]; cbn in *; try done; by destruct Hs.
Qed.

(** What a program does on a server, seen on the views. *)
Lemma run_replay {W A} `{ApiServerLaws W} (p : prog A) w :
  let '(w', tr, a) := run_trace serve p w in exec p tr a /\ replay (view w) tr (view w').
Proof.
  revert w. induction p as [a|c k IH]; intros w; cbn; [done|].
  pose proof (serve_answers c w) as Ha. destruct (serve c w) as [w1 r]. cbn in Ha.
  specialize (IH r w1). destruct (run_trace serve (k r) w1) as [[w2 tr] a].
  destruct IH as [Hx Hr]. cbn. split; [eauto|]. exists (view w1). done.
Qed.

(** ** Facts on patches *)

Lemma merge_field_fresh {A} `{EqDecision A} (base obj : A) : merge_field base obj base = obj.
Proof. unfold merge_field. by case_decide. Qed.

Lemma lookup_some_annotations m k : map_lookup (some_annotations m) k = m !! k.
Proof. unfold some_annotations. case_decide; subst; [by rewrite lookup_empty|done]. Qed.

Lemma lookup_default_annotations (m : option (gmap string string)) k :
  default ∅ m !! k = map_lookup m k.
Proof. destruct m; [done|apply lookup_empty]. Qed.

Lemma lookup_merge_annotations base obj stored k :
  map_lookup (merge_annotations base obj stored) k
  = if decide (map_lookup base k = map_lookup obj k) then map_lookup stored k else map_lookup obj k.
Proof.
  unfold merge_annotations, apply_diff, annotations_diff. rewrite lookup_some_annotations.
  rewrite !lookup_merge, !lookup_default_annotations.
  destruct (map_lookup base k), (map_lookup obj k), (map_lookup stored k); cbn;
    repeat case_decide; done || congruence.
Qed.

(** A patch from the stored object itself is that object. *)
Lemma lookup_merge_fresh base obj k :
  map_lookup (merge_annotations base obj base) k = map_lookup obj k.
Proof. rewrite lookup_merge_annotations. by case_decide. Qed.

Lemma merge_status_fresh base obj : merge_status base obj base = obj.
Proof. unfold merge_status. rewrite !merge_field_fresh. by destruct obj. Qed.

Lemma elem_of_values_in {A} P `{forall k, Decision (P k)} (m : gmap NamespacedName A) a :
  a ∈ values_in P m <-> exists k, P k /\ m !! k = Some a.
Proof.
  unfold values_in. rewrite list_elem_of_fmap. setoid_rewrite list_elem_of_filter. split.
  - intros ([k b] & -> & Hp & Hin%elem_of_map_to_list). eauto.
  - intros (k & Hp & Hk). exists (k, a). by rewrite elem_of_map_to_list.
Qed.

(** ** A server

    The objects and a revision, from which the resource versions come. *)
Record Server := { srv_view : View; srv_revision : Z }.

Definition next_version (s : Server) : string := Itoa (1 + srv_revision s `mod` 2 ^ 62).

Definition put (v : View) (s : Server) : Server :=
  {| srv_view := v; srv_revision := srv_revision s + 1 |}.

Definition answer {A} (o : option A) : result A :=
  match o with
  | Some a => inr a
  | None => inl (ErrExternal true "not found")
  end.

(** Patches the object at [key] of [m], if there is one. *)
Definition patch_at {K} `{Countable K} {A B} (m : gmap K A) (key : K) (new : A -> string -> A)
    (write : A -> View) (gone : B) (ok : A -> B) (s : Server) : Server * B :=
  match m !! key with
  | None => (s, gone)
  | Some stored => let a := new stored (next_version s) in (put (write a) s, ok a)
  end.

Definition not_there {A} : result A := inl (ErrExternal true "not found").

Definition reference_serve : handler Server := fun c s =>
  let v := srv_view s in
  match c return Server * resp c with
  | GetPool key => (s, answer (v_pools v !! key))
  | ListPools ns => (s, inr (values_in (fun k => key_Namespace k = ns) (v_pools v)))
  | PatchPool obj base =>
      let key := meta_key (pool_meta obj) in
      patch_at (v_pools v) key (patched_pool base obj)
        (fun p => set_pools (<[key := p]> (v_pools v)) v) not_there inr s
  | PatchPoolStatus obj base =>
      let key := meta_key (pool_meta obj) in
      patch_at (v_pools v) key (patched_pool_status base obj)
        (fun p => set_pools (<[key := p]> (v_pools v)) v)
        (Some (ErrExternal true "not found")) (fun _ => None) s
  | GetProfile key => (s, answer (v_profiles v !! key))
  | PatchProfileStatus obj base =>
      let key := meta_key (profile_meta obj) in
      patch_at (v_profiles v) key (patched_profile_status base obj)
        (fun p => set_profiles (<[key := p]> (v_profiles v)) v)
        (Some (ErrExternal true "not found")) (fun _ => None) s
  | GetPolicy key => (s, answer (v_policies v !! key))
  | ListPolicies None => (s, inr (values_in (fun _ => True) (v_policies v)))
  | ListPolicies (Some ns) => (s, inr (values_in (fun k => key_Namespace k = ns) (v_policies v)))
  | PatchPolicy obj base =>
      let key := meta_key (policy_meta obj) in
      patch_at (v_policies v) key (patched_policy base obj)
        (fun p => set_policies (put_policy key p (v_policies v)) v) not_there inr s
  | PatchPolicyStatus obj base =>
      let key := meta_key (policy_meta obj) in
      patch_at (v_policies v) key (patched_policy_status base obj)
        (fun p => set_policies (<[key := p]> (v_policies v)) v)
        (Some (ErrExternal true "not found")) (fun _ => None) s
  | GetNamespace name => (s, answer (v_namespaces v !! name))
  | ListNamespaces => (s, inr (map_to_list (v_namespaces v)).*2)
  | PatchNamespace obj base =>
      let key := Name (namespace_meta obj) in
      patch_at (v_namespaces v) key (patched_namespace base obj)
        (fun n => set_namespaces (<[key := n]> (v_namespaces v)) v)
        (Some (ErrExternal true "not found")) (fun _ => None) s
  | GetConfigMap key => (s, answer (v_configs v !! key))
  | CreateOrUpdate obj mutate =>
      let key := cm_key obj in
      (put (set_configs (<[key := mutate (default obj (v_configs v !! key))]> (v_configs v)) v) s, None)
  | Eventf _ _ _ _ => (s, tt)
  | Now => (s, srv_revision s)
  | Getenv name => (s, v_env v name)
  | MapRange keys => (s, exist _ (elements keys) (Permutation_refl (elements keys)))
  end.

#[export] Instance reference_server : ApiServer Server := {| serve := reference_serve; view := srv_view |}.

Lemma next_version_ok s : version_ok (next_version s).
Proof.
  exists (1 + srv_revision s `mod` 2 ^ 62).
  pose proof (Z.mod_pos_bound (srv_revision s) (2 ^ 62) ltac:(lia)). split; [apply ParseInt_Itoa|]; lia.
Qed.

Lemma found_answer {A} (o : option A) : found o (answer o).
Proof. destruct o; cbn; eauto. Qed.

#[export] Instance reference_server_laws : ApiServerLaws Server.
Proof.
  intros c s. destruct c as [| | | | | | | [ns|]| | | | | | | | | | |]; cbn;
    try (split; [done|]; apply found_answer); try (split; [done|]; by eexists); try done;
    unfold patch_at, patched; case_match; cbn;
    first [by exists (next_version s); split; [apply next_version_ok|] | split; [done|]; by eexists].
Qed.

(** ** A server behind a cache

    Reads are answered from a view of the past, writes go to the server: the
    client of controller-runtime, whose cache follows the server with a delay. *)
Record Cached := { cache : View; live : Server }.

Definition cached_serve : handler Cached := fun c w =>
  let '(s, r) := reference_serve c (live w) in
  if is_write (ev c r) then ({| cache := cache w; live := s |}, r)
  else (w, (reference_serve c {| srv_view := cache w; srv_revision := srv_revision (live w) |}).2).
