(* ===== verification/RelyGuarantee.v ===== *)
(** Programs that run beside others on one API server. Between two calls of a
    program the objects change as a relation [R] allows, and every one of its
    own calls changes them as [G] allows: rely and guarantee. A call may also
    fail, before its effect or after it ([attempt]). *)
From S2P Require Import Prelude GoErrors Types Kube ApiServer.

(** ** Calls that may fail *)

(** Answers that report a failure. *)
Definition fails (c : call) : resp c -> Prop :=
  match c return resp c -> Prop with
  | GetPool _ => fun r => exists e, r = inl e
  | ListPools _ => fun r => exists e, r = inl e
  | PatchPool _ _ => fun r => exists e, r = inl e
  | PatchPoolStatus _ _ => fun r => exists e, r = Some e
  | GetProfile _ => fun r => exists e, r = inl e
  | PatchProfileStatus _ _ => fun r => exists e, r = Some e
  | GetPolicy _ => fun r => exists e, r = inl e
  | ListPolicies _ => fun r => exists e, r = inl e
  | PatchPolicy _ _ => fun r => exists e, r = inl e
  | PatchPolicyStatus _ _ => fun r => exists e, r = Some e
  | GetNamespace _ => fun r => exists e, r = inl e
  | ListNamespaces => fun r => exists e, r = inl e
  | PatchNamespace _ _ => fun r => exists e, r = Some e
  | GetConfigMap _ => fun r => exists e, r = inl e
  | CreateOrUpdate _ _ => fun r => exists e, r = Some e
  | _ => fun _ => False
  end.

(** A call at [v]: answered, failed without effect, or done and its answer
    lost. *)
Definition attempt (v : View) (c : call) (r : resp c) (v' : View) : Prop :=
  answers v c r v' \/ (fails c r /\ (v' = v \/ exists r', answers v c r' v')).

(** Whatever was answered, the effect is that of the call, or none. *)
Lemma attempt_effect v c r v' : attempt v c r v' -> v' = v \/ exists r', answers v c r' v'.
Proof. intros [?|[_ ?]]; eauto. Qed.

Definition is_read (c : call) : bool :=
  match c with
  | PatchPool _ _ | PatchPoolStatus _ _ | PatchProfileStatus _ _ | PatchPolicy _ _
  | PatchPolicyStatus _ _ | PatchNamespace _ _ | CreateOrUpdate _ _ => false
  | _ => true
  end.

Lemma attempt_read v c r v' : is_read c = true -> attempt v c r v' -> v' = v.
Proof.
  intros Hc [->|[r' Ha]]%attempt_effect; [done|].
  assert (replay v [ev c r'] v') as Hr by (exists v'; by split).
  apply replay_reads in Hr; [done|]. by destruct c.
Qed.

(** Every call has some answer, so every program some execution. *)
Lemma resp_inhabited c : exists r : resp c, True.
Proof.
  destruct c as [| | | | | | | | | | | | | | | | | |keys]; cbn;
    first [by exists tt | by exists 0 | by exists "" | by exists None | by exists (inl (ErrNew "")) | idtac].
  by exists (exist (fun l => l ≡ₚ elements keys) (elements keys) (Permutation_refl (elements keys))).
Qed.

Lemma exec_inhabited {A} (p : prog A) : exists tr a, exec p tr a.
Proof.
  induction p as [a|c k IH]; [by exists [], a|]. destruct (resp_inhabited c) as [r _].
  destruct (IH r) as (tr & a & Hx). exists (ev c r :: tr), a, r, tr. done.
Qed.

Section RG.
Variables R G : View -> View -> Prop.

Definition stable (P : View -> Prop) : Prop := forall v v', R v v' -> P v -> P v'.

Lemma stable_rtc P v v' : stable P -> rtc R v v' -> P v -> P v'.
Proof. intros HP. induction 1; eauto. Qed.

(** ** Traces beside others

    Along the trace, from [v], every call is as [G] allows, and at its end [Q]
    holds, while the objects change in between as [R] allows. *)
Fixpoint beside (tr : trace) (Q : View -> Prop) (v : View) : Prop :=
  match tr with
  | [] => Q v
  | e :: tr =>
      forall v1 v2, rtc R v v1 -> attempt v1 (projT1 e) (projT2 e) v2 -> G v1 v2 /\ beside tr Q v2
  end.

Lemma beside_mono tr (Q Q' : View -> Prop) v : (forall v, Q v -> Q' v) -> beside tr Q v -> beside tr Q' v.
Proof.
  intros HQ. revert v. induction tr as [|e tr IH]; intros v; cbn; [apply HQ|].
  intros Hb v1 v2 Hr Ha. destruct (Hb v1 v2 Hr Ha). auto.
Qed.

Lemma beside_app tr1 tr2 Q v : beside (tr1 ++ tr2) Q v <-> beside tr1 (beside tr2 Q) v.
Proof.
  revert v. induction tr1 as [|e tr1 IH]; intros v; cbn; [done|]. by setoid_rewrite IH.
Qed.

Lemma beside_stable tr v v' : rtc R v v' -> tr <> [] -> forall Q, beside tr Q v -> beside tr Q v'.
Proof.
  intros Hr Hne Q. destruct tr as [|e tr]; [done|]. intros Hb v1 v2 Hr1. apply Hb. by etrans.
Qed.

(** One call, with what is known before it. *)
Lemma beside_step (P : View -> Prop) e tr Q v :
  stable P -> P v ->
  (forall v1 v2, P v1 -> attempt v1 (projT1 e) (projT2 e) v2 -> G v1 v2 /\ beside tr Q v2) ->
  beside (e :: tr) Q v.
Proof. intros HP Hv Hs v1 v2 Hr. apply Hs. by eapply stable_rtc. Qed.

(** ** Programs beside others *)

Definition runs_beside {A} (p : prog A) (v : View) : Prop :=
  wp p (fun tr _ => beside tr (fun _ => True) v).

Lemma runs_beside_stable {A} (p : prog A) v v' : rtc R v v' -> runs_beside p v -> runs_beside p v'.
Proof.
  intros Hr. apply wp_mono. intros tr _ Hb. destruct tr; [done|]. by apply (beside_stable _ v).
Qed.

Lemma runs_beside_call {A} c (k : resp c -> prog A) v r v' :
  runs_beside (Do c k) v -> attempt v c r v' -> G v v' /\ runs_beside (k r) v'.
Proof.
  intros Hw Ha. specialize (Hw r). split.
  - destruct (exec_inhabited (k r)) as (tr & a & Hx).
    apply (proj1 (wp_exec _ _) Hw tr a Hx); [done|exact Ha].
  - revert Hw. apply wp_mono. intros tr a Hb. by apply (Hb v v').
Qed.

Context `{HG : !Reflexive G}.

Lemma beside_reads (P : View -> Prop) tr v :
  stable P -> List.filter is_write tr = [] -> P v -> beside tr P v.
Proof.
  intros HP. revert v. induction tr as [|[c r] tr IH]; intros v; cbn; [done|].
  destruct (is_write (existT c r)) eqn:Hc; [done|]. intros Hf Hv v1 v2 Hr Ha.
  apply attempt_read in Ha; [|by destruct c]. subst. split; [done|]. apply IH; [done|]. by eapply stable_rtc.
Qed.

(** Recorded events do not matter. *)
Lemma beside_loud (P : View -> Prop) tr v :
  stable P -> (forall v, P v -> beside (loud tr) (fun _ => True) v) -> P v ->
  beside tr (fun _ => True) v.
Proof.
  intros HP. revert v P HP. induction tr as [|e tr IH]; intros v P HP Hl Hv; [done|].
  intros v1 v2 Hr Ha. change (loud (e :: tr)) with (if is_loud e then e :: loud tr else loud tr) in Hl.
  destruct (is_loud e) eqn:He.
  - destruct (Hl v Hv v1 v2 Hr Ha) as [? Hb]. split; [done|].
    apply (IH v2 (fun v' => rtc R v2 v')); [| |done].
    + intros u u' ? ?. by eapply rtc_r.
    + intros u Hu. destruct (loud tr) eqn:El; [done|]. by eapply beside_stable.
  - destruct e as [c r]. apply attempt_read in Ha; [|by destruct c]. subst. split; [done|].
    apply (IH v1 P HP Hl). by eapply stable_rtc.
Qed.

(** A loop, with an invariant on what is left of the list. *)
Lemma beside_each {A E} (Out : A -> trace -> option E -> Prop) (I : list A -> View -> Prop) l tr r v :
  (forall x l t, Out x t None -> forall v, I (x :: l) v -> beside t (I l) v) ->
  (forall x l t e, Out x t (Some e) -> forall v, I (x :: l) v -> beside t (fun _ => True) v) ->
  each_runs Out l tr r -> I l v ->
  beside tr (fun v' => match r with
                       | None => I [] v'
                       | Some _ => True
                       end) v.
Proof.
  intros Hnone Hsome Hr. revert v. induction Hr as [|x l t e Hx|x l t t' r Hx Hr IH]; intros v Hv.
  - done.
  - by eapply Hsome.
  - apply beside_app. eapply beside_mono; [|by eapply Hnone]. auto.
Qed.

Lemma beside_fold {A S E} (Out : A -> S -> trace -> E + S -> Prop) (I : View -> Prop) l s tr r v :
  (forall x s t r, Out x s t r -> forall v, I v -> beside t I v) ->
  fold_runs Out l s tr r -> I v -> beside tr I v.
Proof.
  intros Hout Hr. revert v. induction Hr as [s|x l s t e Hx|x l s t s' t' r Hx Hr IH]; intros v Hv.
  - done.
  - by eapply Hout.
  - apply beside_app. eapply beside_mono; [|by eapply Hout]. auto.
Qed.
End RG.
