(* ===== verification/PoolValidation.v ===== *)
(** controllers/dnsupstreampool_controller.go, the validation of a pool:
    [validateDNSUpstreamPool] and its helpers, the declarative meaning of a
    valid pool, and what validation guarantees to the generator. *)
From S2P Require Import Prelude GoStrings GoErrors Netip Sorting Types Generator.

Section PoolValidation.
Context `{GoRuntime} `{ApiMachinery}.

Definition parseUpstreamTransport (raw : string) : option string :=
  let trimmed := ToLower (TrimSpace raw) in
  if String.eqb trimmed "" || String.eqb trimmed UpstreamTransportDNS then Some UpstreamTransportDNS
  else if String.eqb trimmed UpstreamTransportDoT then Some UpstreamTransportDoT
  else if String.eqb trimmed UpstreamTransportDoH then Some UpstreamTransportDoH
  else None.

Definition defaultUpstreamPortForTransport (transport : string) : Z :=
  if String.eqb transport UpstreamTransportDoT then 853
  else if String.eqb transport UpstreamTransportDoH then 443
  else 53.

Definition parseDNSSECMode (raw : string) : option string :=
  let trimmed := ToLower (TrimSpace raw) in
  if String.eqb trimmed "" || String.eqb trimmed DNSSECModeOff then Some DNSSECModeOff
  else if String.eqb trimmed DNSSECModeProcess then Some DNSSECModeProcess
  else if String.eqb trimmed DNSSECModeValidate then Some DNSSECModeValidate
  else None.

Definition looksLikeInvalidIPv4Literal (value : string) : bool :=
  if negb (CountByte value 46 =? 3) then false
  else forallb (fun r => negb (negb (r =? 46) && ((r <? 48) || (57 <? r)))) (range_runes value).

Definition valid_name (complaints : list string) : bool :=
  match complaints with
  | [] => true
  | _ => false
  end.

Definition isValidUpstreamAddress (address : string) : bool :=
  let trimmed := TrimSpace address in
  if String.eqb trimmed "" then false
  else if ParseAddr trimmed then true
  else if looksLikeInvalidIPv4Literal trimmed then false
  else valid_name (IsDNS1123Subdomain trimmed).

(** [spec.upstreams[%d]]. *)
Definition upstreams_at (i : nat) : string := "spec.upstreams[" +:+ Itoa (Z.of_nat i) +:+ "]".

Definition upstream_key (transport address : string) (port : Z) : string :=
  transport +:+ ":" +:+ address +:+ ":" +:+ Itoa port.

(** One turn of the loop over the upstreams; the state is [seenUpstreams]. *)
Definition validate_upstream (i : nat) (upstream : Upstream) (seenUpstreams : gset string)
    : result (gset string) :=
  (let trimmedAddress := TrimSpace (Address upstream) in
   reject negb (String.eqb (Address upstream) trimmedAddress)
     with ErrNew (upstreams_at i +:+ ".address must not include leading or trailing whitespace") ;;
   reject negb (isValidUpstreamAddress trimmedAddress)
     with ErrNew (upstreams_at i +:+ ".address " +:+ Quote (Address upstream)
                  +:+ " is not a valid IP or DNS name") ;;
   match parseUpstreamTransport (Transport upstream) with
   | None => inl (ErrNew (upstreams_at i +:+ ".transport must be one of dns, dot, or doh"))
   | Some transport =>
       let port := Port upstream in
       let port := if port =? 0 then defaultUpstreamPortForTransport transport else port in
       reject (port <=? 0) || (65535 <? port)
         with ErrNew (upstreams_at i +:+ ".port must be between 1 and 65535") ;;
       let tlsServerName := TrimSpace (TLSServerName upstream) in
       reject String.eqb transport UpstreamTransportDNS && negb (String.eqb tlsServerName "")
         with ErrNew (upstreams_at i +:+ ".tlsServerName is only valid for dot or doh transport") ;;
       let name := TrimSuffix tlsServerName "." in
       reject negb (String.eqb tlsServerName "")
              && (String.eqb name "" || negb (valid_name (IsDNS1123Subdomain (ToLower name))))
         with ErrNew (upstreams_at i +:+ ".tlsServerName " +:+ Quote (TLSServerName upstream)
                      +:+ " is not a valid DNS hostname") ;;
       reject (Weight upstream <? 0) || (100 <? Weight upstream)
         with ErrNew (upstreams_at i +:+ ".weight must be between 1 and 100 when set") ;;
       reject (Preference upstream <? 0) || (1000 <? Preference upstream)
         with ErrNew (upstreams_at i +:+ ".preference must be between 1 and 1000 when set") ;;
       let upstreamKey := upstream_key transport trimmedAddress port in
       reject bool_decide (upstreamKey ∈ seenUpstreams)
         with ErrNew (upstreams_at i +:+ " " +:+ Quote upstreamKey +:+ " is duplicated") ;;
       inr ({[upstreamKey]} ∪ seenUpstreams)
   end)%result.

Definition validateDNSUpstreamPool (pool : option DNSUpstreamPool) : option error :=
  match pool with
  | None => Some (ErrNew "dns upstream pool is nil")
  | Some pool =>
      match Upstreams (pool_spec pool) with
      | [] => Some (ErrNew "spec.upstreams must contain at least one upstream")
      | upstreams =>
          match range_err validate_upstream 0 upstreams ∅ with
          | inl err => Some err
          | inr _ =>
              let workerThreads := WorkerThreads (pool_spec pool) in
              if (workerThreads <? 0) || (256 <? workerThreads) then
                Some (ErrNew "spec.runtime.workerThreads must be between 1 and 256 when set")
              else
                match parseDNSSECMode (DNSSECMode (pool_spec pool)) with
                | None => Some (ErrNew "spec.dnssec.mode must be one of off, process, or validate")
                | Some _ => None
                end
          end
      end
  end.
End PoolValidation.

(** ** The meaning of a valid pool *)

Section Valid.
Context `{GoRuntime} `{ApiMachinery}.

(** The transport, address and port an upstream is contacted at. *)
Definition endpoint_port (u : Upstream) (transport : string) : Z :=
  if Port u =? 0 then defaultUpstreamPortForTransport transport else Port u.

Definition endpoint (u : Upstream) : string * string * Z :=
  let transport := Generator.normalizeUpstreamTransport (Transport u) in
  (transport, Address u, endpoint_port u transport).

Record upstream_valid (u : Upstream) : Prop := {
  valid_trimmed : TrimSpace (Address u) = Address u;
  valid_address : isValidUpstreamAddress (Address u) = true;
  valid_transport : parseUpstreamTransport (Transport u) = Some (endpoint u).1.1;
  valid_port : 1 <= (endpoint u).2 <= 65535;
  valid_plain_sni : (endpoint u).1.1 = UpstreamTransportDNS -> TrimSpace (TLSServerName u) = "";
  valid_sni : TrimSpace (TLSServerName u) <> "" ->
    let name := TrimSuffix (TrimSpace (TLSServerName u)) "." in
    name <> "" /\ IsDNS1123Subdomain (ToLower name) = [];
  valid_weight : 0 <= Weight u <= 100;
  valid_preference : 0 <= Preference u <= 1000;
}.

Record pool_valid (pool : DNSUpstreamPool) : Prop := {
  valid_nonempty : Upstreams (pool_spec pool) <> [];
  valid_upstreams : Forall upstream_valid (Upstreams (pool_spec pool));
  valid_distinct : NoDup (endpoint <$> Upstreams (pool_spec pool));
  valid_threads : 0 <= WorkerThreads (pool_spec pool) <= 256;
  valid_dnssec : parseDNSSECMode (DNSSECMode (pool_spec pool)) <> None;
}.

(** The controller's parser and the generator's normalisation agree on every
    transport the parser accepts. *)
Lemma parse_normalize_transport raw t :
  parseUpstreamTransport raw = Some t -> Generator.normalizeUpstreamTransport raw = t.
Proof.
  unfold parseUpstreamTransport, Generator.normalizeUpstreamTransport.
  destruct (String.eqb_spec (ToLower (TrimSpace raw)) "") as [->|]; cbn; [by intros [= <-]|].
  destruct (String.eqb_spec (ToLower (TrimSpace raw)) UpstreamTransportDNS) as [->|];
    cbn; [by intros [= <-]|].
  destruct (String.eqb _ UpstreamTransportDoT); [by intros [= <-]|].
  destruct (String.eqb _ UpstreamTransportDoH); [by intros [= <-]|done].
Qed.

Lemma parse_transport_cases raw t :
  parseUpstreamTransport raw = Some t ->
  t = UpstreamTransportDNS \/ t = UpstreamTransportDoT \/ t = UpstreamTransportDoH.
Proof. unfold parseUpstreamTransport. repeat case_match; naive_solver. Qed.

(** ** The duplicate key

    The key identifies the endpoint: transports have three letters, and the
    port is what follows the last colon, addresses may contain colons. *)

Lemma colon_notin_Itoa z : of_byte 58 ∉ bytes (Itoa z).
Proof.
  intros Hin. pose proof (Itoa_bytes z) as Hb%all_bytes_Forall.
  rewrite Forall_forall in Hb. specialize (Hb _ Hin). done.
Qed.

Lemma upstream_key_inj raw1 raw2 t1 t2 a1 a2 p1 p2 :
  parseUpstreamTransport raw1 = Some t1 -> parseUpstreamTransport raw2 = Some t2 ->
  upstream_key t1 a1 p1 = upstream_key t2 a2 p2 -> (t1, a1, p1) = (t2, a2, p2).
Proof.
  intros Ht1%parse_transport_cases Ht2%parse_transport_cases Hk%(f_equal bytes).
  unfold upstream_key in Hk. rewrite !bytes_app in Hk.
  assert (t1 = t2 /\ bytes a1 ++ bytes ":" ++ bytes (Itoa p1)
                     = bytes a2 ++ bytes ":" ++ bytes (Itoa p2)) as [-> Hr].
  { destruct Ht1 as [->|[->| ->]], Ht2 as [->|[->| ->]]; cbn in Hk; by simplify_eq. }
  apply app_last_sep in Hr as [Ha Hp]; [|apply colon_notin_Itoa..].
  by rewrite (bytes_inj _ _ Ha), (Itoa_inj _ _ (bytes_inj _ _ Hp)).
Qed.

Definition endpoint_key (u : Upstream) : string :=
  let '(transport, address, port) := endpoint u in upstream_key transport address port.

Lemma endpoint_key_inj u v :
  upstream_valid u -> upstream_valid v -> endpoint_key u = endpoint_key v -> endpoint u = endpoint v.
Proof.
  intros [_ _ Hu _ _ _ _ _] [_ _ Hv _ _ _ _ _]. exact (upstream_key_inj _ _ _ _ _ _ _ _ Hu Hv).
Qed.

(** A turn of the loop succeeds exactly on a valid upstream whose key is new. *)
Lemma validate_upstream_ok i u seen seen' :
  validate_upstream i u seen = inr seen' <->
  upstream_valid u /\ endpoint_key u ∉ seen /\ seen' = {[endpoint_key u]} ∪ seen.
Proof.
  unfold validate_upstream.
  destruct (String.eqb_spec (Address u) (TrimSpace (Address u))) as [Ha|Ha]; cbn [negb].
  2:{ split; [done|]. intros [[] _]. congruence. }
  rewrite <- Ha.
  destruct (isValidUpstreamAddress (Address u)) eqn:Hv; cbn [negb].
  2:{ split; [done|]. intros [[] _]. congruence. }
  destruct (parseUpstreamTransport (Transport u)) as [t|] eqn:Ht.
  2:{ split; [done|]. intros [[] _]. congruence. }
  pose proof (parse_normalize_transport _ _ Ht) as Hn.
  assert (endpoint u = (t, Address u, endpoint_port u t)) as He by (unfold endpoint; by rewrite Hn).
  assert (endpoint_key u = upstream_key t (Address u) (endpoint_port u t)) as Hk
    by (unfold endpoint_key; by rewrite He).
  fold (endpoint_port u t). rewrite Hk. clear Hk.
  destruct ((endpoint_port u t <=? 0) || (65535 <? endpoint_port u t)) eqn:Hp.
  { split; [done|]. intros [[_ _ _ Hr _ _ _ _] _]. rewrite He in Hr. cbn in Hr.
    bool_to_prop. destruct Hp; bool_to_prop; lia. }
  destruct (String.eqb t UpstreamTransportDNS && negb (String.eqb (TrimSpace (TLSServerName u)) ""))
    eqn:Hs.
  { split; [done|]. intros [[_ _ _ _ Hr _ _ _] _]. rewrite He in Hr. cbn in Hr.
    bool_to_prop. naive_solver. }
  destruct (negb (String.eqb (TrimSpace (TLSServerName u)) "") && _) eqn:Hsni.
  { split; [done|]. intros [[_ _ _ _ _ Hr _ _] _]. bool_to_prop. destruct (Hr H1) as [Hr1 Hr2].
    rewrite Hr2 in H2. destruct H2 as [H2|H2]; bool_to_prop; done. }
  destruct ((Weight u <? 0) || (100 <? Weight u)) eqn:Hw.
  { split; [done|]. intros [[_ _ _ _ _ _ Hr _] _]. bool_to_prop. destruct Hw; bool_to_prop; lia. }
  destruct ((Preference u <? 0) || (1000 <? Preference u)) eqn:Hpr.
  { split; [done|]. intros [[_ _ _ _ _ _ _ Hr] _]. bool_to_prop. destruct Hpr; bool_to_prop; lia. }
  case_bool_decide as Hin; [naive_solver|].
  split; [intros [= <-]|naive_solver]. split; [|done].
  bool_to_prop. split; rewrite ?He; cbn; try done; try lia.
  - intros Hdns. destruct Hs as [Hs|Hs]; bool_to_prop; done.
  - intros Hne. destruct Hsni as [Hsni|Hsni]; bool_to_prop; [done|].
    destruct (IsDNS1123Subdomain _); done.
Qed.

Lemma validate_loop_ok l : forall i seen,
  (exists seen', range_err validate_upstream i l seen = inr seen') <->
  Forall upstream_valid l /\ NoDup (endpoint_key <$> l) /\
  (forall u, u ∈ l -> endpoint_key u ∉ seen).
Proof.
  induction l as [|u l IH]; intros i seen; cbn [range_err].
  - split; [|eauto]. intros _. split_and!; [done|constructor|]. intros u Hu. by apply not_elem_of_nil in Hu.
  - rewrite fmap_cons, NoDup_cons, Forall_cons.
    destruct (validate_upstream i u seen) as [e|seen1] eqn:Hv.
    + split; [naive_solver|]. intros ((Hu & _) & _ & Hseen).
      assert (validate_upstream i u seen = inr ({[endpoint_key u]} ∪ seen)) as Hv'
        by (apply validate_upstream_ok; split_and!; [done|apply Hseen; set_solver|done]).
      congruence.
    + apply validate_upstream_ok in Hv as (Hu & Hnew & ->). rewrite IH. split.
      * intros (Hl & Hnd & Hseen). split_and!; try done.
        -- intros (v & Hk & Hin)%list_elem_of_fmap. apply (Hseen v Hin). set_solver.
        -- intros v [->|Hin]%elem_of_cons; [done|]. specialize (Hseen v Hin). set_solver.
      * intros ((_ & Hl) & (Hnin & Hnd) & Hseen). split_and!; try done.
        intros v Hin [Hk%elem_of_singleton|Hk]%elem_of_union.
        -- apply Hnin. rewrite <- Hk. by apply list_elem_of_fmap_2.
        -- apply (Hseen v); [set_solver|done].
Qed.

Lemma NoDup_endpoint_key l :
  Forall upstream_valid l -> NoDup (endpoint_key <$> l) <-> NoDup (endpoint <$> l).
Proof.
  induction 1 as [|u l Hu Hl IH]; [split; constructor|]. rewrite !fmap_cons, !NoDup_cons, IH.
  rewrite !list_elem_of_fmap. rewrite Forall_forall in Hl.
  assert ((exists v, endpoint_key u = endpoint_key v /\ v ∈ l) <->
          (exists v, endpoint u = endpoint v /\ v ∈ l)) as ->; [|done].
  split; intros (v & Hk & Hin); exists v; (split; [|done]).
  - apply endpoint_key_inj; auto.
  - unfold endpoint_key. by rewrite Hk.
Qed.

(** Validation against its specification. *)
Lemma validate_pool_spec pool :
  validateDNSUpstreamPool (Some pool) = None <-> pool_valid pool.
Proof.
  unfold validateDNSUpstreamPool. pose proof (validate_loop_ok (Upstreams (pool_spec pool)) 0 ∅) as Hloop.
  destruct (Upstreams (pool_spec pool)) as [|u us] eqn:Eu.
  { split; [done|]. intros [Hne _ _ _ _]. by rewrite Eu in Hne. }
  rewrite <- Eu in *. destruct (range_err _ _ _ _) as [e|seen] eqn:Hr.
  { split; [done|]. intros [Hne Hall Hnd _ _]. destruct Hloop as [_ Hloop].
    destruct Hloop as [? Hx]; [|done]. split_and!; [done| |set_solver].
    by apply NoDup_endpoint_key. }
  destruct Hloop as [Hloop _]. destruct Hloop as (Hall & Hnd & _); [eauto|].
  destruct (_ || _) eqn:Hw.
  { split; [done|]. intros [_ _ _ Hrange _]. bool_to_prop. destruct Hw; bool_to_prop; lia. }
  destruct (parseDNSSECMode _) eqn:Hm; [|split; [done|by intros []]].
  split; [|done]. intros _. bool_to_prop. split; [by rewrite Eu|done|by apply NoDup_endpoint_key|lia|].
  by rewrite Hm.
Qed.

(** C17. [validateDNSUpstreamPool] accepts exactly the valid pools: non-empty,
    every upstream with a trimmed well-formed address, a known transport, a
    port in 1..65535 after the transport's default, a TLS server name only
    where it makes sense and then a DNS hostname, weight and preference within
    bounds, no two upstreams with the same transport, address and port, a
    worker count of at most 256 and a known DNSSEC mode. In particular the
    textual duplicate key confuses no two different endpoints. *)
Theorem validate_pool_iff pool :
  validateDNSUpstreamPool (Some pool) = None <-> pool_valid pool.
Proof. apply validate_pool_spec. Qed.

(** C25. Validation is what the generator needs: a pool the controller accepts
    is never refused by the generator, with any cache profile, and in the
    configuration every port is in 1..65535 and no two upstreams have the same
    transport, address and port. *)
Theorem validated_pool_generates pool profile :
  validateDNSUpstreamPool (Some pool) = None ->
  exists cfg, generate (Some pool) profile = inr cfg /\
    Forall (fun u => 1 <= uc_Port u <= 65535) (ec_Upstreams cfg) /\
    NoDup ((fun u => (uc_Transport u, uc_Address u, uc_Port u)) <$> ec_Upstreams cfg).
Proof.
  intros [Hne Hall Hnd _ _]%validate_pool_spec.
  destruct (proj2 (generate_ok_iff pool profile)) as [cfg Hg].
  { split; [done|]. eapply Forall_impl; [exact Hall|]. intros u [Ht Ha _ _ _ _ _ _].
    unfold addressed, isValidUpstreamAddress in *. by destruct (String.eqb_spec (TrimSpace (Address u)) ""). }
  exists cfg. split; [done|]. apply generate_inv in Hg as (_ & _ & ->). cbn [ec_Upstreams].
  rewrite Forall_forall in Hall.
  assert (forall u, u ∈ Upstreams (pool_spec pool) ->
    (fun u => (uc_Transport u, uc_Address u, uc_Port u)) (upstream_config u) = endpoint u) as He.
  { intros u Hu. apply Hall in Hu as [Ht _ _ _ _ _ _ _]. cbn. by rewrite Ht. }
  split.
  - apply Forall_fmap. rewrite sort_SliceStable_perm. apply Forall_forall. intros u Hu. cbn.
    pose proof (valid_port u (Hall u Hu)) as Hp. rewrite <- (He u Hu) in Hp. exact Hp.
  - rewrite <- list_fmap_compose, sort_SliceStable_perm.
    erewrite Forall_fmap_ext_1; [exact Hnd|]. apply Forall_forall. exact He.
Qed.

(** Addresses with an upper-case letter (or any byte outside lower-case
    letters, digits, dash and dot) are refused unless they parse as an IP
    address: unlike the TLS server name, the address is not lower-cased before
    the DNS-1123 check, although the CRD pattern admits upper-case letters. *)
Lemma address_case_sensitive `{!ApiMachineryLaws} address :
  ParseAddr (TrimSpace address) = false ->
  all_bytes dns1123_byte (TrimSpace address) = false ->
  isValidUpstreamAddress address = false.
Proof.
  intros Hp Hb. unfold isValidUpstreamAddress. rewrite Hp.
  repeat case_match; try done. destruct (IsDNS1123Subdomain (TrimSpace address)) eqn:E; [|done].
  apply subdomain_bytes in E. congruence.
Qed.

(** A dotted quad of decimal digits is accepted as an upstream address
    only if it is a well-formed IPv4 address, although a name such as
    999.999.999.999 is a syntactically valid DNS-1123 subdomain. *)
Lemma dotted_quad_is_ipv4 address :
  TrimSpace address = address ->
  CountByte address 46 = 3 ->
  all_bytes (fun z => digit z || (z =? 46)) address = true ->
  isValidUpstreamAddress address = ParseAddr address.
Proof.
  intros Ht Hc Hd. unfold isValidUpstreamAddress. rewrite Ht.
  destruct (String.eqb_spec address "") as [->|Hne]; [done|].
  destruct (ParseAddr address); [done|].
  enough (looksLikeInvalidIPv4Literal address = true) as -> by done.
  unfold looksLikeInvalidIPv4Literal. rewrite Hc. change (negb (3 =? 3)) with false. cbv iota.
  rewrite range_runes_ascii.
  - apply all_bytes_Forall in Hd. rewrite Forall_forall in Hd.
    apply List.forallb_forall. intros r Hr%list_elem_of_In.
    apply list_elem_of_fmap in Hr as (a & -> & Ha%Hd).
    unfold digit, in_range in Ha. destruct (byte_of a =? 46); [done|]. bool_to_prop.
    destruct Ha; [|done]. bool_to_prop.
    by rewrite (proj2 (Z.ltb_ge _ _)), (proj2 (Z.ltb_ge _ _)) by lia.
  - apply all_bytes_Forall in Hd. apply all_bytes_Forall. eapply Forall_impl; [exact Hd|].
    unfold digit, in_range. cbn. intros a Ha. apply Z.ltb_lt.
    bool_to_prop. destruct Ha; bool_to_prop; lia.
Qed.
End Valid.
