(* ===== verification/CacheProfile.v ===== *)
(** controllers/dnscacheprofile_controller.go: the validation of a cache
    profile and the reconciler that publishes its verdict as the [Active]
    condition. *)
From S2P Require Import Prelude GoStrings GoErrors Types Kube Manager Generator.

Definition cacheProfileActiveCondition : string := "Active".
Definition defaultProfilePositiveTTLMin : Z := 60.
Definition defaultProfilePositiveTTLMax : Z := 300.

Definition validateDNSCacheProfile (profile : option DNSCacheProfile) : option error :=
  match profile with
  | None => Some (ErrNew "dns cache profile is nil")
  | Some profile =>
      let spec := profile_spec profile in
      if MaxEntries spec <? 0 then Some (ErrNew "spec.maxEntries must be >= 0")
      else if MinSeconds spec <? 0 then Some (ErrNew "spec.positiveTtl.minSeconds must be >= 0")
      else if MaxSeconds spec <? 0 then Some (ErrNew "spec.positiveTtl.maxSeconds must be >= 0")
      else if NegativeSeconds spec <? 0 then Some (ErrNew "spec.negativeTtl.seconds must be >= 0")
      else if PrefetchThreshold spec <? 0 then Some (ErrNew "spec.prefetch.threshold must be >= 0")
      else
        let minTTL := MinSeconds spec in
        let minTTL := if minTTL =? 0 then defaultProfilePositiveTTLMin else minTTL in
        let maxTTL := MaxSeconds spec in
        let maxTTL := if maxTTL =? 0 then defaultProfilePositiveTTLMax else maxTTL in
        if maxTTL <? minTTL then
          Some (ErrNew ("spec.positiveTtl.minSeconds (" +:+ Itoa minTTL
                        +:+ ") must be <= spec.positiveTtl.maxSeconds (" +:+ Itoa maxTTL +:+ ")"))
        else None
  end.

Arguments validateDNSCacheProfile : simpl never.

Section Reconciler.
Context `{ApiMachinery}.

(** Whether the reconciler was given an event recorder. *)
Variable Recorder : bool.

Definition recordEvent (object : DNSCacheProfile) (eventType reason message : string) : prog unit :=
  if negb Recorder then Ret tt
  else trigger (Eventf (profile_meta object) eventType reason message).

Definition active_condition (profile : DNSCacheProfile) (status : ConditionStatus)
    (reason message : string) : Condition :=
  {| cond_Type := cacheProfileActiveCondition; cond_Status := status;
     cond_ObservedGeneration := Generation (profile_meta profile);
     cond_Reason := reason; cond_Message := message |}.

(** The profile with the condition set and the generation observed. *)
Definition with_active (profile : DNSCacheProfile) (c : Condition) : DNSCacheProfile :=
  {| profile_meta := profile_meta profile; profile_spec := profile_spec profile;
     profile_status :=
       {| Conditions := SetStatusCondition (Conditions (profile_status profile)) c;
          ObservedGeneration := Generation (profile_meta profile) |} |}.

Definition setActiveCondition (profile : DNSCacheProfile) (status : ConditionStatus)
    (reason message : string) : prog (option error) :=
  (let base := profile in
   let profile := with_active profile (active_condition profile status reason message) in
   err <- trigger (PatchProfileStatus profile base) ;;
   match err with
   | Some err => Ret (Some (ErrWrap "update DNSCacheProfile status: " err ""))
   | None => Ret None
   end)%prog.

Definition Reconcile (req : NamespacedName) : prog (ReconcileResult * option error) :=
  (got <- trigger (GetProfile req) ;;
   match got with
   | inl err =>
       if IsNotFound err then Ret (no_requeue, None)
       else Ret (no_requeue, Some (ErrWrap ("get DNSCacheProfile " +:+ key_String req +:+ ": ") err ""))
   | inr profile =>
       match validateDNSCacheProfile (Some profile) with
       | Some err =>
           recordEvent profile "Warning" "InvalidSpec" (Error err) ;;
           statusErr <- setActiveCondition profile ConditionFalse "InvalidSpec" (Error err) ;;
           Ret (no_requeue, statusErr)
       | None =>
           recordEvent profile "Normal" "Validated" "Validated DNSCacheProfile" ;;
           err <- setActiveCondition profile ConditionTrue "Active" "DNSCacheProfile is active" ;;
           Ret (no_requeue, err)
       end
   end)%prog.

Definition profile_builder : Builder := For KindProfile.

Definition SetupWithManager `{ManagerLib} (mgr : Manager) : result Manager :=
  Complete {| ctl_builder := profile_builder; ctl_reconciler := stateless Reconcile |} mgr.
End Reconciler.

(** ** What validation means *)

Definition effective (v d : Z) : Z := if v =? 0 then d else v.

Record profile_valid (spec : DNSCacheProfileSpec) : Prop := {
  valid_entries : 0 <= MaxEntries spec;
  valid_min : 0 <= MinSeconds spec;
  valid_max : 0 <= MaxSeconds spec;
  valid_negative : 0 <= NegativeSeconds spec;
  valid_threshold : 0 <= PrefetchThreshold spec;
  valid_bounds : effective (MinSeconds spec) 60 <= effective (MaxSeconds spec) 300;
}.

(** Validation against its specification. *)
Lemma validate_profile_spec profile :
  validateDNSCacheProfile (Some profile) = None <-> profile_valid (profile_spec profile).
Proof.
  unfold validateDNSCacheProfile.
  change defaultProfilePositiveTTLMin with 60. change defaultProfilePositiveTTLMax with 300.
  fold (effective (MinSeconds (profile_spec profile)) 60).
  fold (effective (MaxSeconds (profile_spec profile)) 300).
  split.
  - intros Hv. repeat case_match; try done. bool_to_prop. by split.
  - intros []. by rewrite !(proj2 (Z.ltb_ge _ _)) by done.
Qed.

(** The default TTL bounds of the profile validation are those of the
    generator. *)
Lemma generated_ttl_ordered `{GoRuntime} pool profile cfg :
  (forall p, profile = Some p -> validateDNSCacheProfile (Some p) = None) ->
  generate pool profile = inr cfg ->
  cc_PositiveTtlMin (ec_Cache cfg) <= cc_PositiveTtlMax (ec_Cache cfg).
Proof.
  intros Hp Hg. destruct pool as [pool|]; [|done]. apply generate_inv in Hg as (_ & _ & ->).
  cbn. destruct profile as [p|]; [|done].
  destruct (proj1 (validate_profile_spec p) (Hp p eq_refl)) as [_ Hmin Hmax _ _ Hb].
  unfold effective in Hb. cbn. unfold defaultPositiveTTLMin, defaultPositiveTTLMax.
  repeat case_match; bool_to_prop; lia.
Qed.

(** C39. [validateDNSCacheProfile] accepts exactly the profiles without a
    negative field whose TTL bounds are ordered once an unset bound is read as
    its default; the defaults are those of the generator, so with an accepted
    profile the minimum positive TTL of a generated cache is at most its
    maximum. *)
Theorem validate_profile_iff `{GoRuntime} profile :
  (validateDNSCacheProfile (Some profile) = None <-> profile_valid (profile_spec profile)) /\
  (profile_valid (profile_spec profile) -> forall pool cfg, generate pool (Some profile) = inr cfg ->
     cc_PositiveTtlMin (ec_Cache cfg) <= cc_PositiveTtlMax (ec_Cache cfg)).
Proof.
  split; [apply validate_profile_spec|]. intros Hv pool cfg. apply generated_ttl_ordered.
  intros ? [= <-]. by apply validate_profile_spec.
Qed.

(** ** The reconciler *)

(** The condition the reconciler publishes. *)
Definition verdict (profile : DNSCacheProfile) : Condition :=
  match validateDNSCacheProfile (Some profile) with
  | Some err => active_condition profile ConditionFalse "InvalidSpec" (Error err)
  | None => active_condition profile ConditionTrue "Active" "DNSCacheProfile is active"
  end.

(** C40. Whatever the API server answers, reconciling a profile changes
    nothing but the profile's status: if the profile cannot be read nothing is
    written, and the error is returned unless the profile is gone; otherwise
    exactly one status patch is sent, which sets the [Active] condition to the
    verdict of the validation and the observed generation to the profile's,
    and only its failure is an error. *)
Theorem profile_reconcile_effect `{ApiMachinery} Recorder req tr res err :
  exec (Reconcile Recorder req) tr (res, err) ->
  res = no_requeue /\
  exists got tr', tr = ev (GetProfile req) got :: tr' /\
    match got with
    | inl e =>
        tr' = [] /\
        err = if IsNotFound e then None
              else Some (ErrWrap ("get DNSCacheProfile " +:+ key_String req +:+ ": ") e "")
    | inr profile =>
        exists r,
          List.filter is_write tr' =
            [ev (PatchProfileStatus (with_active profile (verdict profile)) profile) r] /\
          err = (fun e => ErrWrap "update DNSCacheProfile status: " e "") <$> r
    end.
Proof.
  revert tr res err. apply exec_pair.
  intros got. destruct got as [e|profile]; cbn.
  - destruct (IsNotFound e) eqn:En; cbn; (split; [done|]); eexists _, _; (split; [done|]); cbn;
      by rewrite En.
  - unfold verdict. destruct (validateDNSCacheProfile (Some profile)) as [e|] eqn:Hv;
      unfold recordEvent; destruct Recorder; cbn; intros;
      match goal with r : option error |- _ => destruct r end; cbn;
      (split; [done|]); eexists _, _; (split; [done|]); cbn; rewrite ?Hv; eauto.
Qed.

