(* ===== verification/PoolSelection.v ===== *)
(** controllers/dnsupstreampool_controller.go, the choice of the active pool
    of a namespace: the initial-resource-version stamp, the comparison and the
    sort of the pools, [selectActivePoolName].

    The comparison is a strict total order on the pools of a namespace as long
    as pools created in the same second are all stamped or all unstamped
    ([selection_ready]); the sort then has one possible result. Without that
    it can be cyclic, and the selected pool depends on the listing order. *)
From S2P Require Import Prelude GoStrings GoErrors Sorting Types Kube.

Definition initialRVAnnotation : string := "dns.astradns.com/initial-resource-version".
Definition poolSelectionReasonSingle : string := "single_pool".
Definition poolSelectionReasonOldest : string := "oldest_pool".

Definition pool_name (p : DNSUpstreamPool) : string := Name (pool_meta p).
Definition created (p : DNSUpstreamPool) : time := CreationTimestamp (pool_meta p).

(** Zero if the annotation is absent or not a 64-bit integer. *)
Definition initialRV (pool : DNSUpstreamPool) : Z :=
  match Annotations (pool_meta pool) with
  | None => 0
  | Some annotations =>
      match ParseInt (default "" (annotations !! initialRVAnnotation)) with
      | None => 0
      | Some v => v
      end
  end.

(** The pool with the stamp of its current ResourceVersion. *)
Definition stamp (pool : DNSUpstreamPool) : DNSUpstreamPool :=
  let annotations := default ∅ (Annotations (pool_meta pool)) in
  {| pool_meta := set_Annotations
       (Some (<[initialRVAnnotation := ResourceVersion (pool_meta pool)]> annotations))
       (pool_meta pool);
     pool_spec := pool_spec pool; pool_status := pool_status pool |}.

(** [ensureInitialRVAnnotation(ctx, pool)]; the value is what [*pool] holds
    when it returns without an error. *)
Definition ensureInitialRVAnnotation (pool : DNSUpstreamPool) : prog (result DNSUpstreamPool) :=
  (match map_lookup (Annotations (pool_meta pool)) initialRVAnnotation with
   | Some _ => Ret (inr pool)
   | None =>
       let base := pool in
       let pool := stamp pool in
       patched <- trigger (PatchPool pool base) ;;
       Ret (wrap_err "patch initial-resource-version annotation: " patched)
   end)%prog.

(** The comparison of [sortPoolsForSelection]. *)
Definition pool_less (a b : DNSUpstreamPool) : bool :=
  let left := created a in
  let right := created b in
  if negb (time_IsZero left) && negb (time_IsZero right) && negb (time_Equal left right)
  then time_Before left right
  else
    let leftIRV := initialRV a in
    let rightIRV := initialRV b in
    if (0 <? leftIRV) && (0 <? rightIRV) && negb (leftIRV =? rightIRV)
    then leftIRV <? rightIRV
    else String.ltb (pool_name a) (pool_name b).

Section Selection.
Context `{SliceSorter}.

Definition sortPoolsForSelection (items : list DNSUpstreamPool) : list DNSUpstreamPool :=
  sort_Slice pool_less items.

(** [selectActivePoolName]: name, count and reason. The sort is in place, hence
    a permutation: it is empty exactly when the listing is. *)
Definition selectActivePoolName `{GoRuntime} (namespace : string)
    : prog (result (string * Z * string)) :=
  (listed <- trigger (ListPools namespace) ;;
   match listed with
   | inl err =>
       Ret (inl (ErrWrap ("list DNSUpstreamPools in namespace " +:+ Quote namespace +:+ ": ") err ""))
   | inr items =>
       match sortPoolsForSelection items with
       | [] => Ret (inr ("", 0, ""))
       | first :: _ =>
           let selectionReason :=
             if (1 <? length items)%nat then poolSelectionReasonOldest
             else poolSelectionReasonSingle in
           Ret (inr (pool_name first, Z.of_nat (length items), selectionReason))
       end
   end)%prog.
End Selection.

(** ** The order *)

(** Every pool has a creation time, and pools of one creation time are all
    stamped (with a positive version) or all unstamped. *)
Definition selection_ready (l : list DNSUpstreamPool) : Prop :=
  forall p q, p ∈ l -> q ∈ l ->
    created p <> 0 /\ (created p = created q -> 0 < initialRV p -> 0 < initialRV q).

(** The pools of one creation time are ordered by stamp, then by name. *)
Definition stamp_rank (p : DNSUpstreamPool) : Z := if 0 <? initialRV p then initialRV p else 0.

Definition younger_less (p q : DNSUpstreamPool) : bool :=
  (stamp_rank p <? stamp_rank q)
  || (negb (stamp_rank q <? stamp_rank p) && String.ltb (pool_name p) (pool_name q)).

Lemma Zltb_strict_weak {A} (f : A -> Z) P : StrictWeak (fun x y => f x <? f y) P.
Proof. split; intros; bool_to_prop; rewrite ?Z.ltb_ge, ?Z.ltb_lt; lia. Qed.

Lemma pool_less_ready l p q :
  selection_ready l -> p ∈ l -> q ∈ l ->
  pool_less p q = (created p <? created q) || (negb (created q <? created p) && younger_less p q).
Proof.
  intros Hready Hp Hq. destruct (Hready p q Hp Hq) as [Hcp Hpq], (Hready q p Hq Hp) as [Hcq Hqp].
  unfold pool_less, time_IsZero, time_Equal, time_Before.
  rewrite (proj2 (Z.eqb_neq _ _) Hcp), (proj2 (Z.eqb_neq _ _) Hcq). cbn [negb andb].
  destruct (Z.eqb_spec (created p) (created q)) as [He|He]; cbn [negb].
  - rewrite He, Z.ltb_irrefl. cbn. unfold younger_less, stamp_rank.
    destruct (Z.ltb_spec 0 (initialRV p)), (Z.ltb_spec 0 (initialRV q)); cbn.
    + destruct (Z.eqb_spec (initialRV p) (initialRV q)) as [->|Hne]; cbn; [by rewrite Z.ltb_irrefl|].
      destruct (Z.ltb_spec (initialRV p) (initialRV q)); [done|].
      by rewrite (proj2 (Z.ltb_lt (initialRV q) _)) by lia.
    + specialize (Hpq He). lia.
    + specialize (Hqp (eq_sym He)). lia.
    + done.
  - destruct (Z.ltb_spec (created p) (created q)); [done|].
    by rewrite (proj2 (Z.ltb_lt (created q) _)) by lia.
Qed.

Lemma pool_less_strict_weak l : selection_ready l -> StrictWeak pool_less (.∈ l).
Proof.
  intros Hready.
  apply (lexicographic_strict_weak (fun p q => created p <? created q) younger_less).
  - apply Zltb_strict_weak.
  - apply (lexicographic_strict_weak (fun p q => stamp_rank p <? stamp_rank q)
      (fun p q => String.ltb (pool_name p) (pool_name q))); [apply Zltb_strict_weak| |done].
    split; intros; [by apply (sw_asym (P := fun _ => True) (less := String.ltb))|].
    by apply (sw_cotrans (P := fun _ => True) (less := String.ltb)).
  - intros p q Hp Hq. by apply pool_less_ready with l.
Qed.

(** Ties are broken by the name. *)
Lemma pool_less_tied l p q :
  selection_ready l -> p ∈ l -> q ∈ l ->
  pool_less p q = false -> pool_less q p = false -> pool_name p = pool_name q.
Proof.
  intros Hready Hp Hq H1 H2.
  rewrite (pool_less_ready l) in H1, H2 by done. unfold younger_less in H1, H2.
  bool_to_prop. destruct (Z.ltb_spec (created q) (created p)); [lia|].
  destruct (Z.ltb_spec (created p) (created q)); [lia|]. cbn in *.
  destruct (stamp_rank p <? stamp_rank q), (stamp_rank q <? stamp_rank p); cbn in *;
    repeat match goal with H : _ \/ _ |- _ => destruct H end; bool_to_prop; try done.
  apply string_ltb_total; done.
Qed.

Lemma pool_less_total l p q :
  selection_ready l -> NoDup (pool_name <$> l) -> p ∈ l -> q ∈ l ->
  pool_less p q = false -> pool_less q p = false -> p = q.
Proof.
  intros Hready Hnd Hp Hq H1 H2.
  assert (pool_name p = pool_name q) as Hn by by apply (pool_less_tied l).
  apply list_elem_of_lookup in Hp as [i Hi], Hq as [j Hj].
  assert (i = j) as ->; [|congruence].
  eapply NoDup_lookup; [exact Hnd|..]; rewrite list_lookup_fmap, ?Hi, ?Hj; cbn; [done|by rewrite Hn].
Qed.

#[export] Instance selection_ready_proper : Proper ((≡ₚ) ==> iff) selection_ready.
Proof.
  intros l1 l2 Hp. unfold selection_ready. split; intros Hr p q Hpin Hqin; apply Hr;
    by rewrite ?Hp in *.
Qed.

(** [selectActivePoolName] picks the head of the sorted listing. *)
Lemma selectActivePoolName_exec `{SliceSorter} `{GoRuntime} ns tr r :
  exec (selectActivePoolName ns) tr r ->
  exists listed, tr = [ev (ListPools ns) listed] /\
    r = match listed with
        | inl e => inl (ErrWrap ("list DNSUpstreamPools in namespace " +:+ Quote ns +:+ ": ") e "")
        | inr items =>
            match sortPoolsForSelection items with
            | [] => inr ("", 0, "")
            | p :: _ => inr (pool_name p, Z.of_nat (length items),
                             if (1 <? length items)%nat then "oldest_pool" else "single_pool")
            end
        end.
Proof.
  revert tr r. apply wp_exec. intros [e|items]; cbn; [|destruct (sortPoolsForSelection items) eqn:E];
    eexists; (split; [reflexivity|]); cbn; by rewrite ?E.
Qed.

Lemma sort_pools_unique (S1 S2 : SliceSorter) (l1 l2 : list DNSUpstreamPool) :
  @SliceSorterLaws S1 -> @SliceSorterLaws S2 ->
  selection_ready l1 -> NoDup (pool_name <$> l1) -> l1 ≡ₚ l2 ->
  @sortPoolsForSelection S1 l1 = @sortPoolsForSelection S2 l2.
Proof.
  intros L1 L2 Hready Hnd Hp. unfold sortPoolsForSelection.
  apply (sorted_unique pool_less).
  - intros p q Hpin Hqin. rewrite sort_Slice_perm in Hpin, Hqin. by apply (pool_less_total l1).
  - by rewrite !sort_Slice_perm.
  - by apply sort_Slice_sorted, pool_less_strict_weak.
  - apply sort_Slice_sorted, pool_less_strict_weak. by rewrite <- Hp.
Qed.

(** C21. On the pools of a namespace (distinct names) that are ready for
    selection, the sort has a single result: it does not depend on the order
    the API server lists them in, nor on the sorting algorithm. So any two
    reconciliations that read the same pools select the same active pool, for
    the same reason. *)
Theorem selection_deterministic `{GoRuntime} (S1 S2 : SliceSorter) ns l1 l2 tr1 tr2 r1 r2 :
  @SliceSorterLaws S1 -> @SliceSorterLaws S2 ->
  selection_ready l1 -> NoDup (pool_name <$> l1) -> l1 ≡ₚ l2 ->
  exec (@selectActivePoolName S1 _ ns) tr1 r1 -> exec (@selectActivePoolName S2 _ ns) tr2 r2 ->
  ev (ListPools ns) (inr l1) ∈ tr1 -> ev (ListPools ns) (inr l2) ∈ tr2 ->
  @sortPoolsForSelection S1 l1 = @sortPoolsForSelection S2 l2 /\ r1 = r2.
Proof.
  intros L1 L2 Hready Hnd Hp H1 H2 Hl1 Hl2.
  pose proof (sort_pools_unique S1 S2 l1 l2 L1 L2 Hready Hnd Hp) as Hs. split; [done|].
  apply selectActivePoolName_exec in H1 as (x1 & -> & ->), H2 as (x2 & -> & ->).
  apply list_elem_of_singleton in Hl1, Hl2.
  apply (f_equal (fun e => as_pool_list e)) in Hl1, Hl2. cbn in Hl1, Hl2. simplify_eq.
  rewrite Hs. by rewrite (Permutation_length Hp).
Qed.

(** The head of the sorted pools has none before it. *)
Lemma sort_head_least `{SliceSorterLaws} l p rest :
  selection_ready l -> sortPoolsForSelection l = p :: rest ->
  p ∈ l /\ forall q, q ∈ l -> pool_less q p = false.
Proof.
  intros Hready Hs. unfold sortPoolsForSelection in Hs.
  pose proof (sort_Slice_perm pool_less l) as Hperm. rewrite Hs in Hperm.
  assert (p ∈ l) as Hp by (rewrite <- Hperm; set_solver). split; [done|]. intros q Hq.
  pose proof (sort_Slice_sorted pool_less l (pool_less_strict_weak l Hready)) as Hsort.
  rewrite Hs in Hsort. apply StronglySorted_inv in Hsort as [_ Hall].
  assert (q ∈ p :: rest) as [->|Hin]%elem_of_cons by (by rewrite Hperm).
  - destruct (pool_less p p) eqn:E; [|done].
    by rewrite (sw_asym (StrictWeak := pool_less_strict_weak l Hready) p p Hp Hp E) in E.
  - rewrite Forall_forall in Hall. by apply Hall.
Qed.

(** The selected pool is an oldest one: no pool of the namespace was
    created before it, and among those created in the same second none has a
    smaller stamp. *)
Lemma selection_oldest `{SliceSorterLaws} l p rest :
  selection_ready l -> sortPoolsForSelection l = p :: rest ->
  p ∈ l /\ forall q, q ∈ l ->
    created p <= created q /\
    (created p = created q -> 0 < initialRV p -> initialRV p <= initialRV q).
Proof.
  intros Hready Hs. destruct (sort_head_least l p rest Hready Hs) as [Hp Hleast].
  split; [done|]. intros q Hq. specialize (Hleast q Hq).
  rewrite (pool_less_ready l) in Hleast by done. apply orb_false_iff in Hleast as [Hle H3].
  bool_to_prop. split; [lia|].
  intros He Hpos. destruct (Hready p q Hp Hq) as [_ Hpq]. specialize (Hpq He Hpos).
  destruct H3 as [H3|H3]; bool_to_prop; [lia|].
  unfold younger_less, stamp_rank in H3. rewrite !(proj2 (Z.ltb_lt 0 _)) in H3 by done.
  bool_to_prop. lia.
Qed.

(** ** Without readiness *)

(** Three pools of one creation second, the middle one not stamped yet: [p]
    precedes [r] by stamp, [r] precedes [q] and [q] precedes [p] by name. *)
Record stamp_race (p q r : DNSUpstreamPool) : Prop := {
  sr_created : created p = created q /\ created q = created r;
  sr_stamps : 0 < initialRV p < initialRV r;
  sr_unstamped : initialRV q <= 0;
  sr_names : String.ltb (pool_name r) (pool_name q) = true /\ String.ltb (pool_name q) (pool_name p) = true;
}.

(** Pools of one creation second of which one is unstamped compare by name. *)
Lemma pool_less_unstamped a b :
  created a = created b -> initialRV a <= 0 \/ initialRV b <= 0 ->
  pool_less a b = String.ltb (pool_name a) (pool_name b).
Proof.
  intros Hc Hrv. unfold pool_less, time_Equal. rewrite Hc, Z.eqb_refl, andb_false_r.
  destruct (Z.ltb_spec 0 (initialRV a)), (Z.ltb_spec 0 (initialRV b)); cbn; try done; lia.
Qed.

Lemma pool_less_stamped a b :
  created a = created b -> 0 < initialRV a -> 0 < initialRV b -> initialRV a <> initialRV b ->
  pool_less a b = (initialRV a <? initialRV b).
Proof.
  intros Hc Ha Hb Hne. unfold pool_less, time_Equal. rewrite Hc, Z.eqb_refl, andb_false_r.
  rewrite (proj2 (Z.ltb_lt 0 (initialRV a)) Ha), (proj2 (Z.ltb_lt 0 (initialRV b)) Hb).
  by rewrite (proj2 (Z.eqb_neq _ _) Hne).
Qed.

Lemma string_ltb_asym a b : String.ltb a b = true -> String.ltb b a = false.
Proof. by apply (sw_asym (P := fun _ => True) (less := String.ltb)). Qed.

(** The comparison is a cycle on them. *)
Lemma stamp_race_cycle p q r :
  stamp_race p q r ->
  (pool_less p r = true /\ pool_less r q = true /\ pool_less q p = true) /\
  pool_less r p = false /\ pool_less q r = false /\ pool_less p q = false.
Proof.
  intros [[C1 C2] [S1 S2] U [N1 N2]].
  rewrite !(pool_less_stamped p r), !(pool_less_stamped r p) by (congruence || lia).
  rewrite !(pool_less_unstamped r q), !(pool_less_unstamped q p), !(pool_less_unstamped q r),
    !(pool_less_unstamped p q) by (congruence || lia).
  rewrite N1, N2, (string_ltb_asym _ _ N1), (string_ltb_asym _ _ N2), Z.ltb_lt, Z.ltb_ge. split_and!; done || lia.
Qed.

(** Go's sort of at most twelve elements leaves three in place of which none
    is less than the one before it. *)
Lemma insertion_sort_in_place a b c :
  pool_less b a = false -> pool_less c b = false ->
  @sortPoolsForSelection insertion_sorter [a; b; c] = [a; b; c].
Proof.
  intros H1 H2. unfold sortPoolsForSelection, sort_Slice, insertion_sorter, insertion_sort. cbn.
  rewrite H1. cbn. by rewrite H2.
Qed.

(** C36. Stamping races with selection. Let three pools of one creation second,
    of which the one in the middle of the names is not stamped yet, be ordered
    by stamp against their names. On them the comparison is a cycle, and with
    Go's sort each of the three is the active pool for one order in which the
    API server lists the same pools, although the name is meant as the ultimate
    deterministic tiebreaker. *)
Theorem selection_order_dependent `{GoRuntime} ns p q r :
  stamp_race p q r ->
  (pool_less p r = true /\ pool_less r q = true /\ pool_less q p = true) /\
  forall x, x ∈ [p; q; r] -> exists l, l ≡ₚ [p; q; r] /\
    (exists sel, exec (@selectActivePoolName insertion_sorter _ ns) [ev (ListPools ns) (inr l)] sel) /\
    forall tr sel, exec (@selectActivePoolName insertion_sorter _ ns) tr sel ->
      ev (ListPools ns) (inr l) ∈ tr -> sel = inr (pool_name x, 3, "oldest_pool").
Proof.
  intros Hrace. destruct (stamp_race_cycle p q r Hrace) as (Hcycle & F1 & F2 & F3). split; [done|].
  assert (forall l, exists sel,
    exec (@selectActivePoolName insertion_sorter _ ns) [ev (ListPools ns) (inr l)] sel) as Hruns.
  { intros l. destruct (@sortPoolsForSelection insertion_sorter l) as [|x rest] eqn:E;
      eexists; exists (inr l), []; (split; [reflexivity|]); cbn; rewrite E; by split. }
  assert (forall a b c, pool_less b a = false -> pool_less c b = false ->
    forall tr sel, exec (@selectActivePoolName insertion_sorter _ ns) tr sel ->
      ev (ListPools ns) (inr [a; b; c]) ∈ tr -> sel = inr (pool_name a, 3, "oldest_pool")) as Hsel.
  { intros a b c H1 H2 tr sel (listed & -> & ->)%selectActivePoolName_exec Hin.
    apply list_elem_of_singleton in Hin. apply (f_equal (fun e => as_pool_list e)) in Hin. cbn in Hin. simplify_eq.
    by rewrite insertion_sort_in_place. }
  intros x Hx. repeat (apply elem_of_cons in Hx as [->|Hx]); [..|by apply not_elem_of_nil in Hx].
  - exists [p; r; q]. split; [by rewrite (Permutation_swap r q)|]. split; [done|]. by apply Hsel.
  - exists [q; p; r]. split; [apply Permutation_swap|]. split; [done|]. by apply Hsel.
  - exists [r; q; p]. split; [symmetry; exact (Permutation_rev [p; q; r])|]. split; [done|]. by apply Hsel.
Qed.

(** ** The stamp *)

(** The stamp is written once: a pool that carries the annotation (with
    whatever value) causes no request; any other pool causes a single metadata
    patch that adds the annotation and changes nothing else, and whose value is
    the ResourceVersion the pool has at that moment (its live one, not the one
    it was created with). *)
Lemma stamp_once pool tr r :
  exec (ensureInitialRVAnnotation pool) tr r ->
  match map_lookup (Annotations (pool_meta pool)) initialRVAnnotation with
  | Some _ => tr = [] /\ r = inr pool
  | None =>
      exists patched, tr = [ev (PatchPool (stamp pool) pool) patched] /\
        r = wrap_err "patch initial-resource-version annotation: " patched /\
        map_lookup (Annotations (pool_meta (stamp pool))) initialRVAnnotation
          = Some (ResourceVersion (pool_meta pool)) /\
        forall k, k <> initialRVAnnotation ->
          map_lookup (Annotations (pool_meta (stamp pool))) k
          = map_lookup (Annotations (pool_meta pool)) k
  end.
Proof.
  revert tr r. apply wp_exec. unfold ensureInitialRVAnnotation.
  destruct (map_lookup _ _) eqn:E; cbn; [done|].
  intros patched. exists patched. split_and!; try done.
  - apply lookup_insert_eq.
  - intros k Hk. rewrite lookup_insert_ne by done. by destruct (Annotations (pool_meta pool)).
Qed.
