(* ===== verification/CircuitBreaker.v ===== *)
(** controllers/dnsupstreampool_controller.go, the circuit breaker that guards
    the ConfigMap writes, one per namespace.

    The code keeps two maps under a mutex: consecutive failure counts and the
    instants until which a circuit is open. Each method runs entirely under the
    mutex, so it is a function of the maps and of the readings of the clock it
    takes. The abstract machine [breaker] is what a namespace's circuit is
    meant to be; [circuit_refinement] shows the maps implement one machine per
    namespace. *)
From S2P Require Import Prelude GoStrings Types.

Definition configMapUpdateFailureThreshold : Z := 3.
Definition configMapCircuitOpenInterval : Z := 30 * Second.

(** The fields [configMapFailureCounts] and [configMapCircuitOpenUntil]; both
    maps start out nil. *)
Record Circuit := {
  FailureCounts : option (gmap string Z);
  OpenUntil : option (gmap string time);
}.

Definition new_circuit : Circuit := {| FailureCounts := None; OpenUntil := None |}.

Definition ensureConfigMapCircuitStateLocked (c : Circuit) : Circuit :=
  {| FailureCounts := Some (default ∅ (FailureCounts c));
     OpenUntil := Some (default ∅ (OpenUntil c)) |}.

(** [m[k] = v] on a map that is not nil. *)
Definition map_set {A} (k : string) (v : A) (m : option (gmap string A)) : option (gmap string A) :=
  (fun m => <[k := v]> m) <$> m.

(** [now1] is the clock at the comparison with the open window, [now2] at the
    opening of a new one. *)
Definition recordConfigMapUpdateFailure (now1 now2 : time) (namespace : string) (c : Circuit) : Circuit :=
  let c := ensureConfigMapCircuitStateLocked c in
  let count (openUntil : option (gmap string time)) :=
    let nextFailureCount := int64 (map_get 0 (FailureCounts c) namespace + 1) in
    if configMapUpdateFailureThreshold <=? nextFailureCount then
      {| FailureCounts := map_set namespace 0 (FailureCounts c);
         OpenUntil := map_set namespace (now2 + configMapCircuitOpenInterval) openUntil |}
    else
      {| FailureCounts := map_set namespace nextFailureCount (FailureCounts c);
         OpenUntil := openUntil |} in
  match map_lookup (OpenUntil c) namespace with
  | Some openUntil =>
      if time_Before now1 openUntil then c
      else count (map_delete (OpenUntil c) namespace)
  | None => count (OpenUntil c)
  end.

Definition resetConfigMapUpdateFailures (namespace : string) (c : Circuit) : Circuit :=
  let c := ensureConfigMapCircuitStateLocked c in
  {| FailureCounts := map_delete (FailureCounts c) namespace;
     OpenUntil := map_delete (OpenUntil c) namespace |}.

Definition isConfigMapCircuitOpen (now : time) (namespace : string) (c : Circuit)
    : Circuit * (time * bool) :=
  let c := ensureConfigMapCircuitStateLocked c in
  match map_lookup (OpenUntil c) namespace with
  | None => (c, (0, false))
  | Some openUntil =>
      if time_After now openUntil then
        ({| FailureCounts := FailureCounts c;
            OpenUntil := map_delete (OpenUntil c) namespace |}, (0, false))
      else (c, (openUntil, true))
  end.

(** ** The abstract machine *)

Inductive breaker :=
  | Closed (failures : Z)
  | Open (until : time).

#[global] Instance breaker_eq_dec : EqDecision breaker.
Proof. solve_decision. Defined.

Inductive breaker_op :=
  | Query (now : time)
  | Failure (now1 now2 : time)
  | Success.

(** One more failure of a closed circuit: the third in a row opens it. *)
Definition spec_failure (failures : Z) (now : time) : breaker :=
  if failures + 1 <? 3 then Closed (failures + 1) else Open (now + 30 * Second).

Definition spec_step (op : breaker_op) (b : breaker) : breaker :=
  match op, b with
  | Query now, Open until => if until <? now then Closed 0 else b
  | Query _, Closed _ => b
  | Failure now1 now2, Open until => if now1 <? until then b else spec_failure 0 now2
  | Failure _ now2, Closed n => spec_failure n now2
  | Success, _ => Closed 0
  end.

Definition step_circuit (op : breaker_op) (namespace : string) (c : Circuit) : Circuit :=
  match op with
  | Query now => (isConfigMapCircuitOpen now namespace c).1
  | Failure now1 now2 => recordConfigMapUpdateFailure now1 now2 namespace c
  | Success => resetConfigMapUpdateFailures namespace c
  end.

(** The machine of a namespace. *)
Definition circuit_of (c : Circuit) (namespace : string) : breaker :=
  match map_lookup (OpenUntil c) namespace with
  | Some until => Open until
  | None => Closed (map_get 0 (FailureCounts c) namespace)
  end.

(** The counts stay below the threshold, and an open circuit counts from zero. *)
Definition circuit_ok (c : Circuit) : Prop :=
  forall namespace,
    0 <= map_get 0 (FailureCounts c) namespace < 3 /\
    (map_lookup (OpenUntil c) namespace <> None -> map_get 0 (FailureCounts c) namespace = 0).

Inductive circuit_reachable : Circuit -> Prop :=
  | reachable_new : circuit_reachable new_circuit
  | reachable_step op namespace c :
      circuit_reachable c -> circuit_reachable (step_circuit op namespace c).

(** ** Refinement *)

Lemma ensure_lookup c k :
  map_get 0 (FailureCounts (ensureConfigMapCircuitStateLocked c)) k = map_get 0 (FailureCounts c) k /\
  map_lookup (OpenUntil (ensureConfigMapCircuitStateLocked c)) k = map_lookup (OpenUntil c) k.
Proof. destruct c as [[f|] [o|]]; done. Qed.

Lemma map_get_set {A} (z : A) (m : gmap string A) k v k' :
  map_get z (map_set k v (Some m)) k' = if decide (k = k') then v else map_get z (Some m) k'.
Proof. cbn. rewrite lookup_insert. by case_decide. Qed.

Lemma map_lookup_set {A} (m : gmap string A) k v k' :
  map_lookup (map_set k v (Some m)) k' = if decide (k = k') then Some v else map_lookup (Some m) k'.
Proof. apply lookup_insert. Qed.

Lemma map_lookup_del {A} (m : option (gmap string A)) k k' :
  map_lookup (map_delete m k) k' = if decide (k = k') then None else map_lookup m k'.
Proof. case_decide; subst; [apply map_lookup_delete_eq | by apply map_lookup_delete_ne]. Qed.

Lemma map_get_del {A} (z : A) (m : option (gmap string A)) k k' :
  map_get z (map_delete m k) k' = if decide (k = k') then z else map_get z m k'.
Proof. rewrite !map_get_lookup, map_lookup_del. by case_decide. Qed.

Lemma map_lookup_set_del {A} (m : gmap string A) k v k' :
  map_lookup (map_set k v (map_delete (Some m) k)) k'
  = if decide (k = k') then Some v else map_lookup (Some m) k'.
Proof.
  unfold map_delete. cbn [fmap option_fmap option_map]. rewrite map_lookup_set.
  case_decide; [done|]. by apply (map_lookup_delete_ne (Some m)).
Qed.

Create Rewrite HintDb circuit.
#[local] Hint Rewrite @map_get_set @map_lookup_set @map_lookup_set_del @map_lookup_del @map_get_del : circuit.

(** The methods begin by making the maps, which changes no reading of them. *)
Lemma circuit_of_ensure c ns : circuit_of (ensureConfigMapCircuitStateLocked c) ns = circuit_of c ns.
Proof. unfold circuit_of. by destruct (ensure_lookup c ns) as [-> ->]. Qed.

Lemma circuit_ok_ensure c : circuit_ok (ensureConfigMapCircuitStateLocked c) <-> circuit_ok c.
Proof.
  unfold circuit_ok. split; intros Hok ns; specialize (Hok ns);
    by destruct (ensure_lookup c ns) as [E1 E2]; rewrite ?E1, ?E2 in *.
Qed.

Lemma step_circuit_ensure op ns c :
  step_circuit op ns c = step_circuit op ns (ensureConfigMapCircuitStateLocked c).
Proof. by destruct op, c as [[] []]. Qed.

(** A method leaves the other namespaces alone. *)
Lemma step_circuit_frame op ns f o ns' :
  ns <> ns' ->
  let c := {| FailureCounts := Some f; OpenUntil := Some o |} in
  map_get 0 (FailureCounts (step_circuit op ns c)) ns' = map_get 0 (Some f) ns' /\
  map_lookup (OpenUntil (step_circuit op ns c)) ns' = map_lookup (Some o) ns'.
Proof.
  intros Hne c. unfold step_circuit, isConfigMapCircuitOpen, recordConfigMapUpdateFailure,
    resetConfigMapUpdateFailures. change (ensureConfigMapCircuitStateLocked c) with c.
  destruct op; repeat case_match; cbn [c FailureCounts OpenUntil fst];
    autorewrite with circuit; rewrite ?decide_False by done; done.
Qed.

(** A method on its own namespace. *)
Lemma step_circuit_same op ns f o :
  let c := {| FailureCounts := Some f; OpenUntil := Some o |} in
  circuit_ok c ->
  circuit_of (step_circuit op ns c) ns = spec_step op (circuit_of c ns) /\
  0 <= map_get 0 (FailureCounts (step_circuit op ns c)) ns < 3 /\
  (map_lookup (OpenUntil (step_circuit op ns c)) ns <> None ->
   map_get 0 (FailureCounts (step_circuit op ns c)) ns = 0).
Proof.
  intros c Hok. destruct (Hok ns) as [Hn Hopen].
  assert (int64 (map_get 0 (Some f) ns + 1) = map_get 0 (Some f) ns + 1) as Hint
    by (apply int64_id; unfold in_int64; cbn in *; lia).
  unfold circuit_of, step_circuit, isConfigMapCircuitOpen, recordConfigMapUpdateFailure,
    resetConfigMapUpdateFailures, spec_step, spec_failure, time_Before, time_After,
    configMapUpdateFailureThreshold, configMapCircuitOpenInterval.
  change (ensureConfigMapCircuitStateLocked c) with c.
  cbn [c FailureCounts OpenUntil] in *. rewrite Hint. clear Hok Hint.
  destruct (map_lookup (Some o) ns) as [u|] eqn:Eo; [specialize (Hopen ltac:(done)); rewrite Hopen in *|];
    destruct op as [now|now1 now2|]; cbn [fst FailureCounts OpenUntil].
  - destruct (u <? now); cbn [c fst FailureCounts OpenUntil].
    + autorewrite with circuit. rewrite !decide_True, Hopen by done.
      split; [done|]. split; [lia|done].
    + by rewrite Eo, Hopen.
  - destruct (now1 <? u); cbn [c FailureCounts OpenUntil]; [by rewrite Eo, Hopen|].
    change (3 <=? 0 + 1) with false. change (0 + 1 <? 3) with true.
    cbn [FailureCounts OpenUntil]. autorewrite with circuit. rewrite !decide_True by done.
    split; [done|]. split; [lia|done].
  - autorewrite with circuit. rewrite !decide_True by done. split; [done|]. split; [lia|done].
  - cbn [c OpenUntil FailureCounts]. rewrite Eo. done.
  - rewrite Z.ltb_antisym. destruct (3 <=? _) eqn:E; cbn [negb FailureCounts OpenUntil];
      autorewrite with circuit; rewrite ?decide_True, ?Eo by done; bool_to_prop;
      (split; [done|]; split; [cbn in *; lia|done]).
  - autorewrite with circuit. rewrite !decide_True by done. split; [done|]. split; [lia|done].
Qed.

(** ** Histories *)

(** A history of calls on any namespaces, oldest first, and its effect. *)
Abbreviation history := (list (string * breaker_op)).

Definition run_history (h : history) (c : Circuit) : Circuit :=
  foldl (fun c '(ns, op) => step_circuit op ns c) c h.

Definition ops_of (ns : string) (h : history) : list breaker_op :=
  omap (fun '(ns', op) => if decide (ns' = ns) then Some op else None) h.

Definition is_query (op : breaker_op) : bool :=
  match op with
  | Query _ => true
  | _ => false
  end.

Definition updates (l : list breaker_op) : list breaker_op := List.filter (negb ∘ is_query) l.

Definition spec_run (l : list breaker_op) (b : breaker) : breaker :=
  foldl (fun b op => spec_step op b) b l.

Lemma step_circuit_spec op ns c ns' :
  circuit_ok c ->
  circuit_of (step_circuit op ns c) ns'
  = if decide (ns = ns') then spec_step op (circuit_of c ns) else circuit_of c ns'.
Proof.
  intros Hok. rewrite step_circuit_ensure, <- !(circuit_of_ensure c).
  apply circuit_ok_ensure in Hok. case_decide as Hne; [subst; by apply step_circuit_same|].
  unfold circuit_of, ensureConfigMapCircuitStateLocked.
  by destruct (step_circuit_frame op ns (default ∅ (FailureCounts c)) (default ∅ (OpenUntil c)) ns' Hne)
    as [-> ->].
Qed.

Lemma step_circuit_ok op ns c : circuit_ok c -> circuit_ok (step_circuit op ns c).
Proof.
  intros Hok%circuit_ok_ensure ns'. rewrite step_circuit_ensure.
  destruct (decide (ns = ns')) as [->|Hne]; [by apply step_circuit_same|].
  unfold ensureConfigMapCircuitStateLocked in *.
  destruct (step_circuit_frame op ns (default ∅ (FailureCounts c)) (default ∅ (OpenUntil c)) ns' Hne)
    as [-> ->]. apply Hok.
Qed.

Lemma circuit_reachable_ok c : circuit_reachable c -> circuit_ok c.
Proof. induction 1; [by intros ns | by apply step_circuit_ok]. Qed.
#[export] Hint Resolve circuit_reachable_ok step_circuit_ok : go.

(** A namespace sees only its own part of a history. *)
Lemma run_history_spec h c ns :
  circuit_ok c -> circuit_of (run_history h c) ns = spec_run (ops_of ns h) (circuit_of c ns).
Proof.
  revert c. induction h as [|[ns' op] h IH]; intros c Hok; [done|].
  unfold run_history, ops_of, spec_run in *. cbn. rewrite IH by auto with go.
  rewrite step_circuit_spec by done. case_decide; subst; by cbn.
Qed.

Lemma spec_run_closed l n a b fs :
  updates l = Failure a b :: fs ->
  exists l', updates l' = fs /\ l' ⊆ l /\ spec_run l (Closed n) = spec_run l' (spec_failure n b).
Proof.
  induction l as [|[q|a' b'|] l IH]; intros Hu; [done| | |done].
  - destruct (IH Hu) as (l' & ? & ? & ?). exists l'. split_and!; [done|set_solver|done].
  - cbn in Hu. simplify_eq. exists l. split_and!; [done|set_solver|done].
Qed.

Lemma spec_run_open l u :
  updates l = [] -> (forall q, Query q ∈ l -> q <= u) -> spec_run l (Open u) = Open u.
Proof.
  unfold spec_run. induction l as [|[q|a b|] l IH]; intros Hu Hq; [done| |done|done]. cbn.
  rewrite (proj2 (Z.ltb_ge u q)) by (apply Hq; set_solver). apply IH; [done|]. set_solver.
Qed.

Lemma isConfigMapCircuitOpen_spec now ns c :
  (isConfigMapCircuitOpen now ns c).2 =
    match circuit_of c ns with
    | Open u => if u <? now then (0, false) else (u, true)
    | Closed _ => (0, false)
    end.
Proof.
  unfold isConfigMapCircuitOpen, circuit_of, time_After.
  destruct (ensure_lookup c ns) as [_ ->]. by destruct (map_lookup _ _) as [u|]; [destruct (u <? now)|].
Qed.

(** C22. The two maps implement an independent three-failure breaker for every
    namespace. In every state the methods can reach, each of them acts on its
    own namespace as the abstract machine does and on no other namespace, the
    failure counts stay between 0 and 2 (so they cannot overflow), and an open
    circuit has a zero count. *)
Theorem circuit_refinement op ns c :
  circuit_reachable c ->
  (forall ns', circuit_of (step_circuit op ns c) ns' =
     if decide (ns = ns') then spec_step op (circuit_of c ns) else circuit_of c ns') /\
  circuit_ok (step_circuit op ns c).
Proof. split; [intros; apply step_circuit_spec|]; auto with go. Qed.

(** Three failures in a row, and no fewer, open a circuit for thirty
    seconds. Take any history on any namespaces that starts with the circuit
    of [ns] closed and without failures. If its updates of [ns] are one or two
    failures, [ns] is not open; if they are three failures, and the circuit is
    not asked about later than the end of the window, then [ns] is open until
    thirty seconds after the third failure and not after that. *)
Lemma circuit_trips h c ns a1 b1 a2 b2 a3 b3 now :
  circuit_reachable c ->
  circuit_of c ns = Closed 0 ->
  let until := b3 + 30 * Second in
  let answer := (isConfigMapCircuitOpen now ns (run_history h c)).2 in
  (updates (ops_of ns h) = [Failure a1 b1] -> answer = (0, false)) /\
  (updates (ops_of ns h) = [Failure a1 b1; Failure a2 b2] -> answer = (0, false)) /\
  (updates (ops_of ns h) = [Failure a1 b1; Failure a2 b2; Failure a3 b3] ->
   (forall q, (ns, Query q) ∈ h -> q <= until) ->
   answer = if now <=? until then (until, true) else (0, false)).
Proof.
  intros Hr Hc until answer. subst answer.
  rewrite isConfigMapCircuitOpen_spec, run_history_spec, Hc by auto with go.
  assert (forall l n, updates l = [] -> spec_run l (Closed n) = Closed n) as Hnil.
  { unfold spec_run. induction l as [|[] l IH]; cbn; intros; [done| |done|done]. by apply IH. }
  split_and!; intros Hu; apply (spec_run_closed _ 0) in Hu as (l1 & Hu & Hl1 & ->).
  - change (spec_failure 0 b1) with (Closed 1). by rewrite Hnil.
  - change (spec_failure 0 b1) with (Closed 1). apply (spec_run_closed _ 1) in Hu as (l2 & Hu & _ & ->).
    change (spec_failure 1 b2) with (Closed 2). by rewrite Hnil.
  - intros Hq. change (spec_failure 0 b1) with (Closed 1).
    apply (spec_run_closed _ 1) in Hu as (l2 & Hu & Hl2 & ->).
    change (spec_failure 1 b2) with (Closed 2).
    apply (spec_run_closed _ 2) in Hu as (l3 & Hu & Hl3 & ->).
    change (spec_failure 2 b3) with (Open until). rewrite spec_run_open; [|done|].
    + by rewrite Z.leb_antisym; destruct (until <? now).
    + intros q Hin%Hl3%Hl2%Hl1. unfold ops_of in Hin. rewrite list_elem_of_omap in Hin.
      destruct Hin as ([ns' op] & Hin & Hop). case_decide; simplify_eq. by apply Hq.
Qed.
