(* ===== verification/Metrics.v ===== *)
(** controllers/dnsupstreampool_controller.go, the gauge
    [astradns_active_pool_selected], which shows the pool selected in each
    namespace, and the reconciler's memory of the series it has set.

    The gauge vector is prometheus/client_golang's; [GaugeVec] has the
    operations the code uses. Both functions run under one mutex and the gauge
    is written nowhere else, so a history of calls is a sequence. *)
From S2P Require Import Prelude GoStrings PoolSelection.

(** [WithLabelValues(labels...).Set(v)] and [DeleteLabelValues(labels...)];
    [gauge_value] is what a scrape reads, [gauge_new] a vector without series. *)
Class GaugeVec := {
  gauge : Type;
  gauge_new : gauge;
  gauge_Set : list string -> Z -> gauge -> gauge;
  gauge_Delete : list string -> gauge -> gauge;
  gauge_value : gauge -> list string -> option Z;
}.

Class GaugeVecLaws `{GaugeVec} : Prop := {
  gauge_value_new labels : gauge_value gauge_new labels = None;
  gauge_value_Set labels v g labels' :
    gauge_value (gauge_Set labels v g) labels'
    = if decide (labels = labels') then Some v else gauge_value g labels';
  gauge_value_Delete labels g labels' :
    gauge_value (gauge_Delete labels g) labels'
    = if decide (labels = labels') then None else gauge_value g labels';
}.

#[export] Instance map_gauge : GaugeVec := {|
  gauge := gmap (list string) Z;
  gauge_new := ∅;
  gauge_Set labels v g := <[labels := v]> g;
  gauge_Delete labels g := delete labels g;
  gauge_value g labels := g !! labels;
|}.

#[export] Instance map_gauge_laws : GaugeVecLaws (H := map_gauge).
Proof.
  split; cbn; intros; [done| |]; [rewrite lookup_insert | rewrite lookup_delete]; by case_decide.
Qed.

Record activePoolSelectionState := { poolName : string; reason : string }.

Section Metric.
Context `{GaugeVec}.

(** The field [activePoolMetricState], nil at first, and the gauge. *)
Record Metric := {
  activePoolMetricState : option (gmap string activePoolSelectionState);
  activePoolSelectionGauge : gauge;
}.

Definition new_metric : Metric :=
  {| activePoolMetricState := None; activePoolSelectionGauge := gauge_new |}.

Definition recordActivePoolSelectionMetric (namespace pool_name selectionReason : string)
    (m : Metric) : Metric :=
  if bool_decide (namespace = "") || bool_decide (pool_name = "") then m
  else
    let selectionReason :=
      if bool_decide (TrimSpace selectionReason = "") then poolSelectionReasonSingle
      else selectionReason in
    let states := default ∅ (activePoolMetricState m) in
    let set g := gauge_Set [namespace; pool_name; selectionReason] 1 g in
    let store g :=
      {| activePoolMetricState :=
           Some (<[namespace := {| poolName := pool_name; reason := selectionReason |}]> states);
         activePoolSelectionGauge := set g |} in
    match states !! namespace with
    | Some previous =>
        if bool_decide (poolName previous = pool_name)
           && bool_decide (reason previous = selectionReason)
        then {| activePoolMetricState := Some states;
                activePoolSelectionGauge := set (activePoolSelectionGauge m) |}
        else store (gauge_Delete [namespace; poolName previous; reason previous]
                      (activePoolSelectionGauge m))
    | None => store (activePoolSelectionGauge m)
    end.

Definition clearActivePoolSelectionMetric (namespace : string) (m : Metric) : Metric :=
  if bool_decide (namespace = "") then m
  else
    match activePoolMetricState m with
    | None => m
    | Some states =>
        match states !! namespace with
        | None => m
        | Some previous =>
            {| activePoolMetricState := Some (delete namespace states);
               activePoolSelectionGauge :=
                 gauge_Delete [namespace; poolName previous; reason previous]
                   (activePoolSelectionGauge m) |}
        end
    end.

(** ** The table the gauge shows *)

Inductive metric_op :=
  | Record_selection (namespace pool_name selectionReason : string)
  | Clear (namespace : string).

Definition metric_step (m : Metric) (op : metric_op) : Metric :=
  match op with
  | Record_selection ns p r => recordActivePoolSelectionMetric ns p r m
  | Clear ns => clearActivePoolSelectionMetric ns m
  end.

(** What is meant: a table of one selected pool and reason per namespace. *)
Abbreviation table := (gmap string activePoolSelectionState).

Definition table_step (t : table) (op : metric_op) : table :=
  match op with
  | Record_selection ns p r =>
      if bool_decide (ns = "") || bool_decide (p = "") then t
      else <[ns := {| poolName := p;
                      reason := if bool_decide (TrimSpace r = "") then "single_pool" else r |}]> t
  | Clear ns => if bool_decide (ns = "") then t else delete ns t
  end.

(** The series a scrape sees for a table: 1 for the pool and reason of the
    namespace, nothing else. *)
Definition shows (t : table) (labels : list string) : option Z :=
  match labels with
  | [ns; p; r] =>
      match t !! ns with
      | Some s => if decide (poolName s = p /\ reason s = r) then Some 1 else None
      | None => None
      end
  | _ => None
  end.

Definition represents (t : table) (m : Metric) : Prop :=
  default ∅ (activePoolMetricState m) = t /\
  forall labels, gauge_value (activePoolSelectionGauge m) labels = shows t labels.
End Metric.

(** ** Refinement *)

Section Refinement.
Context `{GaugeVecLaws}.

(** Removing the namespace's series leaves what the other namespaces show. *)
Lemma shows_delete t ns s labels :
  t !! ns = Some s ->
  (if decide ([ns; poolName s; reason s] = labels) then None else shows t labels)
  = shows (delete ns t) labels.
Proof.
  intros Ht. destruct labels as [|ns' [|p [|r [|]]]]; try (by case_decide). cbn.
  destruct (decide (ns = ns')) as [->|Hne].
  - rewrite lookup_delete_eq, Ht. repeat case_decide; naive_solver.
  - rewrite lookup_delete_ne by done. rewrite decide_False by congruence. done.
Qed.

Lemma shows_insert t ns s labels :
  t !! ns = None ->
  (if decide ([ns; poolName s; reason s] = labels) then Some 1 else shows t labels)
  = shows (<[ns := s]> t) labels.
Proof.
  intros Ht. destruct labels as [|ns' [|p [|r [|]]]]; try (by case_decide). cbn.
  destruct (decide (ns = ns')) as [->|Hne].
  - rewrite lookup_insert_eq, Ht. repeat case_decide; naive_solver.
  - rewrite lookup_insert_ne by done. rewrite decide_False by congruence. done.
Qed.

Lemma record_represents ns p r t m :
  represents t m -> represents (table_step t (Record_selection ns p r))
                      (metric_step m (Record_selection ns p r)).
Proof.
  intros [Ht Hg]. unfold metric_step, table_step, recordActivePoolSelectionMetric.
  change poolSelectionReasonSingle with "single_pool".
  set (r' := if bool_decide (TrimSpace r = "") then "single_pool" else r).
  destruct (bool_decide (ns = "") || bool_decide (p = "")); [done|]. rewrite Ht.
  destruct (t !! ns) as [s|] eqn:Es; [|split; cbn; [done|]; intros labels].
  - destruct (bool_decide (poolName s = p) && bool_decide (reason s = r')) eqn:Eb;
      split; cbn; try done; [| |intros labels].
    + bool_to_prop. destruct s; cbn in *; subst. by rewrite insert_id.
    + intros labels. rewrite gauge_value_Set, Hg. bool_to_prop. destruct s; cbn in *; subst.
      rewrite insert_id by done. case_decide; [|done]. subst. cbn. rewrite Es. by rewrite decide_True.
    + rewrite gauge_value_Set, gauge_value_Delete, Hg, shows_delete by done.
      rewrite <- insert_delete_eq. by apply (shows_insert (delete ns t) ns {| poolName := p; reason := r' |}),
        lookup_delete_eq.
  - rewrite gauge_value_Set, Hg. by apply (shows_insert t ns {| poolName := p; reason := r' |}).
Qed.

Lemma clear_represents ns t m :
  represents t m -> represents (table_step t (Clear ns)) (metric_step m (Clear ns)).
Proof.
  intros [Ht Hg]. unfold metric_step, table_step, clearActivePoolSelectionMetric.
  case_bool_decide; [done|]. destruct (activePoolMetricState m) as [states|] eqn:Em; cbn in Ht; subst.
  - destruct (t !! ns) as [s|] eqn:Es; [|by rewrite (delete_id t ns Es); split; rewrite ?Em].
    split; cbn; [done|]. intros labels. rewrite gauge_value_Delete, Hg. by apply shows_delete.
  - rewrite delete_empty. split; [by rewrite Em | done].
Qed.

(** C27. The gauge shows the table of the selected pools. After any history of
    recordings and clearings, a scrape reads 1 for the namespaces' last
    recorded pool and reason (single_pool for a blank one) that has not been
    cleared, and no other series: switching pools leaves no stale series
    behind, and no namespace ever shows two. *)
Theorem gauge_shows_selection ops :
  let t := foldl table_step ∅ ops in
  let m := foldl metric_step new_metric ops in
  represents t m /\
  forall ns p q r s,
    gauge_value (activePoolSelectionGauge m) [ns; p; r] <> None ->
    gauge_value (activePoolSelectionGauge m) [ns; q; s] <> None -> p = q /\ r = s.
Proof.
  intros t m. assert (represents t m) as Hrep.
  { subst t m. assert (forall t m, represents t m ->
      represents (foldl table_step t ops) (foldl metric_step m ops)) as Hall.
    { induction ops as [|[] ops IH]; intros t m Hr; cbn; [done| |]; apply IH;
        [by apply record_represents | by apply clear_represents]. }
    apply Hall. split; [done|]. intros labels. cbn. rewrite gauge_value_new.
    by destruct labels as [|? [|? [|? [|]]]]. }
  split; [done|]. destruct Hrep as [_ Hg]. intros ns p q r s. rewrite !Hg. cbn.
  destruct (t !! ns) as [st|]; [|done]. repeat case_decide; naive_solver.
Qed.
End Refinement.
