(* ===== verification/PoolController.v ===== *)
(** controllers/dnsupstreampool_controller.go, the reconciler of upstream
    pools: it stamps and validates the pool, publishes the configuration of
    the namespace's active pool in the agent's ConfigMap through the circuit
    breaker, and reports in the pool's [Ready] condition.

    [Reconcile] is one long function in the code; here its consecutive parts
    are [Reconcile], [reconcilePool] (validation and selection),
    [reconcileActivePool] (generation, rendering, encoding) and [publish] (the
    ConfigMap and the final status), each the tail of the one before. *)
From S2P Require Import Prelude GoStrings GoErrors Sorting Types Kube Manager.
From S2P Require Import PoolValidation PoolSelection CircuitBreaker Metrics.

Definition agentConfigMapName : string := "astradns-agent-config".
Definition agentConfigMapNameEnv : string := "ASTRADNS_AGENT_CONFIGMAP_NAME".
Definition agentConfigKey : string := "config.json".
Definition defaultCacheProfileName : string := "default".
Definition supersededPoolReason : string := "Superseded".
Definition upstreamPoolReadyCondition : string := "Ready".
Definition configMapObjectSizeLimitBytes : Z := Z.shiftl 1 20.
Definition configMapSafetyOverheadBytes : Z := Z.shiftl 4 10.
Definition maxAgentConfigJSONBytes : Z := configMapObjectSizeLimitBytes - configMapSafetyOverheadBytes.

(** [len(s)]. *)
Definition len (s : string) : Z := Z.of_nat (String.length s).

Definition validateConfigMapPayloadSize (renderedConfig : string) : option error :=
  let payloadSize := int64 (len renderedConfig + len agentConfigKey) in
  if maxAgentConfigJSONBytes <? payloadSize then
    Some (ErrNew ("rendered config payload is " +:+ Itoa payloadSize
                  +:+ " bytes, exceeds safe ConfigMap limit of "
                  +:+ Itoa maxAgentConfigJSONBytes +:+ " bytes"))
  else None.

Definition operatorNamespace (fallback : string) : prog string :=
  (value <- trigger (Getenv "POD_NAMESPACE") ;;
   let namespace := TrimSpace value in
   Ret (if bool_decide (namespace = "") then fallback else namespace))%prog.

Definition resolvedAgentConfigMapName : prog string :=
  (value <- trigger (Getenv agentConfigMapNameEnv) ;;
   let name := TrimSpace value in
   Ret (if bool_decide (name = "") then agentConfigMapName else name))%prog.

(** The mutate functions given to [CreateOrUpdate]. *)
Definition put_config (renderedConfig : string) (cm : ConfigMap) : ConfigMap :=
  {| cm_key := cm_key cm;
     cm_Data := Some (<[agentConfigKey := renderedConfig]> (default ∅ (cm_Data cm))) |}.

Definition drop_config (cm : ConfigMap) : ConfigMap :=
  {| cm_key := cm_key cm;
     cm_Data := match cm_Data cm with
                | None => Some ∅
                | Some _ => map_delete (cm_Data cm) agentConfigKey
                end |}.

Definition upsertConfigMap (namespace renderedConfig : string) : prog (option error) :=
  (configMapName <- resolvedAgentConfigMapName ;;
   let configMap := {| cm_key := {| key_Namespace := namespace; key_Name := configMapName |};
                       cm_Data := None |} in
   err <- trigger (CreateOrUpdate configMap (put_config renderedConfig)) ;;
   match err with
   | Some err =>
       Ret (Some (ErrWrap ("create or update ConfigMap " +:+ namespace +:+ "/" +:+ configMapName
                           +:+ ": ") err ""))
   | None => Ret None
   end)%prog.

Definition removeConfigKey (namespace : string) : prog (option error) :=
  (configMapName <- resolvedAgentConfigMapName ;;
   let text := namespace +:+ "/" +:+ configMapName +:+ ": " in
   got <- trigger (GetConfigMap {| key_Namespace := namespace; key_Name := configMapName |}) ;;
   match got with
   | inl err =>
       if IsNotFound err then Ret None
       else Ret (Some (ErrWrap ("get ConfigMap " +:+ text) err ""))
   | inr configMap =>
       err <- trigger (CreateOrUpdate configMap drop_config) ;;
       match err with
       | Some err => Ret (Some (ErrWrap ("remove config key from ConfigMap " +:+ text) err ""))
       | None => Ret None
       end
   end)%prog.

Definition getDefaultCacheProfile (namespace : string) : prog (result (option DNSCacheProfile)) :=
  (got <- trigger (GetProfile {| key_Namespace := namespace; key_Name := defaultCacheProfileName |}) ;;
   match got with
   | inl err => if IsNotFound err then Ret (inr None) else Ret (inl err)
   | inr profile => Ret (inr (Some profile))
   end)%prog.

(** The pools to reconcile when a cache profile of their namespace changes. *)
Definition mapCacheProfileToPools (obj : ObjectMeta) : prog (list NamespacedName) :=
  (pools <- trigger (ListPools (Namespace obj)) ;;
   match pools with
   | inl _ => Ret []
   | inr items => Ret ((fun pool => meta_key (pool_meta pool)) <$> items)
   end)%prog.

Section Status.
Context `{ApiMachinery}.
Variable Recorder : bool.

Definition recordEvent (object : DNSUpstreamPool) (eventType reason message : string) : prog unit :=
  if negb Recorder then Ret tt
  else trigger (Eventf (pool_meta object) eventType reason message).

Definition ready_condition (pool : DNSUpstreamPool) (status : ConditionStatus)
    (reason message : string) : Condition :=
  {| cond_Type := upstreamPoolReadyCondition; cond_Status := status;
     cond_ObservedGeneration := Generation (pool_meta pool);
     cond_Reason := reason; cond_Message := message |}.

(** The pool with the condition set and the generation observed. *)
Definition with_ready (pool : DNSUpstreamPool) (c : Condition) : DNSUpstreamPool :=
  {| pool_meta := pool_meta pool; pool_spec := pool_spec pool;
     pool_status :=
       {| Conditions := SetStatusCondition (Conditions (pool_status pool)) c;
          ObservedGeneration := Generation (pool_meta pool) |} |}.

Definition setReadyCondition (pool : DNSUpstreamPool) (status : ConditionStatus)
    (reason message : string) : prog (option error) :=
  (let base := pool in
   let pool := with_ready pool (ready_condition pool status reason message) in
   err <- trigger (PatchPoolStatus pool base) ;;
   match err with
   | Some err => Ret (Some (ErrWrap "update DNSUpstreamPool status: " err ""))
   | None => Ret None
   end)%prog.

(** The block that ends most branches of [Reconcile]: an event, the condition
    [Ready=False], and the given results unless the status update fails. *)
Definition refuse (pool : DNSUpstreamPool) (reason message : string)
    (result : ReconcileResult) (err : option error) : prog (ReconcileResult * option error) :=
  (recordEvent pool "Warning" reason message ;;
   statusErr <- setReadyCondition pool ConditionFalse reason message ;;
   match statusErr with
   | Some statusErr => Ret (result, Some statusErr)
   | None => Ret (result, err)
   end)%prog.
End Status.

(** ** The reconciler's fields *)

Section Reconciler.
Context `{GoRuntime} `{SliceSorter} `{GaugeVec} `{ApiMachinery} `{EngineLib}.

(** The fields that change: the circuit breaker's maps and the metric state
    (with the gauge the process registers). *)
Record PoolReconciler := { circuit : Circuit; metric : Metric }.

Definition new_reconciler : PoolReconciler := {| circuit := new_circuit; metric := new_metric |}.

Definition set_circuit (c : Circuit) (s : PoolReconciler) : PoolReconciler :=
  {| circuit := c; metric := metric s |}.

Definition set_metric (f : Metric -> Metric) : state PoolReconciler unit :=
  modify (fun s => ({| circuit := circuit s; metric := f (metric s) |}, tt)).

(** The fields set once: the configuration generator and renderer, which may
    be nil, and whether there is an event recorder. *)
Variable ConfigGen : option ConfigGenerator.
Variable ConfigRend : option ConfigRenderer.
Variable Recorder : bool.

(** The clock is read only where the code reaches [time.Now()]. *)
Definition readClock (reached : bool) : prog time := if reached then trigger Now else Ret 0.

Definition window (namespace : string) (c : Circuit) : option time :=
  map_lookup (OpenUntil c) namespace.

Definition queryCircuit (namespace : string) : state PoolReconciler (time * bool) := fun s =>
  (now <- readClock (bool_decide (is_Some (window namespace (circuit s)))) ;;
   let '(c, answer) := isConfigMapCircuitOpen now namespace (circuit s) in
   Ret (set_circuit c s, answer))%prog.

(** Whether [recordConfigMapUpdateFailure] opens a new window. *)
Definition trips (now1 : time) (namespace : string) (c : Circuit) : bool :=
  negb (match window namespace c with Some openUntil => time_Before now1 openUntil | None => false end)
  && (configMapUpdateFailureThreshold <=? int64 (map_get 0 (FailureCounts c) namespace + 1)).

Definition recordFailure (namespace : string) : state PoolReconciler unit := fun s =>
  (now1 <- readClock (bool_decide (is_Some (window namespace (circuit s)))) ;;
   now2 <- readClock (trips now1 namespace (circuit s)) ;;
   Ret (set_circuit (recordConfigMapUpdateFailure now1 now2 namespace (circuit s)) s, tt))%prog.

Definition resetFailures (namespace : string) : state PoolReconciler unit :=
  modify (fun s => (set_circuit (resetConfigMapUpdateFailures namespace (circuit s)) s, tt)).

(** [fmt.Errorf("%w: namespace %q until %s", errConfigMapCircuitOpen, ...)]. *)
Definition circuit_open_error (namespace : string) (openUntil : time) : error :=
  ErrWrap "" (ErrSentinel errConfigMapCircuitOpen)
    (": namespace " +:+ Quote namespace +:+ " until " +:+ FormatRFC3339 openUntil).

Definition upsertConfigMapWithCircuitBreaker (namespace renderedConfig : string)
    : state PoolReconciler (option error) :=
  (answer <- queryCircuit namespace ;;
   let '(openUntil, open) := answer in
   if (open : bool) then state_ret (Some (circuit_open_error namespace openUntil))
   else
     err <- lift (upsertConfigMap namespace renderedConfig) ;;
     match err with
     | Some err => recordFailure namespace ;; state_ret (Some err)
     | None => resetFailures namespace ;; state_ret None
     end)%state.

(** ** Reconcile *)

Abbreviation reconcile := (state PoolReconciler (ReconcileResult * option error)) (only parsing).

(** From the choice of the namespace to the end. *)
Definition publish (pool : DNSUpstreamPool) (configJSON : string) : reconcile :=
  (namespace <- lift (operatorNamespace (Namespace (pool_meta pool))) ;;
   err <- upsertConfigMapWithCircuitBreaker namespace configJSON ;;
   match err with
   | Some err =>
       let err := ErrWrap "upsert configmap: " err "" in
       let open := errors_Is err errConfigMapCircuitOpen in
       let reason := if open then "ConfigMapCircuitOpen" else "ConfigMapUpdateFailed" in
       let result := if open then {| RequeueAfter := configMapCircuitOpenInterval |} else no_requeue in
       lift (refuse Recorder pool reason (Error err) result (if open then None else Some err))
   | None =>
       lift (recordEvent Recorder pool "Normal" "ConfigRendered" "Rendered engine configuration") ;;
       err <- lift (setReadyCondition pool ConditionTrue "Ready" "Configuration rendered successfully") ;;
       state_ret (no_requeue, err)
   end)%state.

(** From the profile lookup to the encoded configuration. *)
Definition reconcileActivePool (gen : ConfigGenerator) (rend : ConfigRenderer)
    (pool : DNSUpstreamPool) : reconcile :=
  (profile <- lift (getDefaultCacheProfile (Namespace (pool_meta pool))) ;;
   match wrap_err "get default DNSCacheProfile: " profile with
   | inl err => lift (refuse Recorder pool "ProfileLookupFailed" (Error err) no_requeue (Some err))
   | inr profile =>
       match wrap_err "generate engine config: " (Generate gen (Some pool) profile) with
       | inl err => lift (refuse Recorder pool "ConfigGenerationFailed" (Error err) no_requeue None)
       | inr config =>
           match wrap_err "validate engine config: " (Render rend (Some config)) with
           | inl err => lift (refuse Recorder pool "ValidationFailed" (Error err) no_requeue None)
           | inr _ =>
               match wrap_err "marshal engine config: " (MarshalIndent config) with
               | inl err => lift (refuse Recorder pool "MarshalFailed" (Error err) no_requeue None)
               | inr configJSON =>
                   match validateConfigMapPayloadSize configJSON with
                   | Some err => lift (refuse Recorder pool "ConfigTooLarge" (Error err) no_requeue None)
                   | None => publish pool configJSON
                   end
               end
           end
       end
   end)%state.

(** From the validation to the superseded exit. *)
Definition reconcilePool (gen : ConfigGenerator) (rend : ConfigRenderer)
    (pool : DNSUpstreamPool) : reconcile :=
  (match validateDNSUpstreamPool (Some pool) with
   | Some err => lift (refuse Recorder pool "InvalidSpec" (Error err) no_requeue None)
   | None =>
       let namespace := Namespace (pool_meta pool) in
       selected <- lift (selectActivePoolName namespace) ;;
       match selected with
       | inl err => state_ret (no_requeue, Some err)
       | inr (activePoolName, poolCount, selectionReason) =>
           set_metric (recordActivePoolSelectionMetric namespace activePoolName selectionReason) ;;
           if (1 <? poolCount) && negb (bool_decide (pool_name pool = activePoolName)) then
             let message := "pool " +:+ Quote activePoolName +:+ " is active in this namespace" in
             lift (refuse Recorder pool supersededPoolReason message no_requeue None)
           else reconcileActivePool gen rend pool
       end
   end)%state.

(** The end of [reconcileAfterPoolDeletion], from the size check on. *)
Definition publishRemaining (configNamespace : string) (pool : DNSUpstreamPool) (configJSON : string)
    : state PoolReconciler (option error) :=
  let refuse_remaining text reason err : state PoolReconciler (option error) :=
    (lift (recordEvent Recorder pool "Warning" reason (Error err)) ;;
     statusErr <- lift (setReadyCondition pool ConditionFalse reason (Error err)) ;;
     state_ret ((fun statusErr => ErrWrap text statusErr "") <$> statusErr))%state in
  (match validateConfigMapPayloadSize configJSON with
   | Some err => refuse_remaining "update oversized pool status: " "ConfigTooLarge" err
   | None =>
       err <- upsertConfigMapWithCircuitBreaker configNamespace configJSON ;;
       match err with
       | Some err =>
           if errors_Is err errConfigMapCircuitOpen
           then refuse_remaining "update circuit-open pool status: " "ConfigMapCircuitOpen" err
           else state_ret (Some err)
       | None =>
           err <- lift (setReadyCondition pool ConditionTrue "Ready" "Configuration rendered successfully") ;;
           state_ret ((fun err => ErrWrap "update remaining pool status: " err "") <$> err)
       end
   end)%state.

(** After the deletion of a pool: the configuration of the pool that is active
    now, or none. The sort is a permutation, so it is empty exactly when the
    listing is. *)
Definition reconcileAfterPoolDeletion (gen : ConfigGenerator) (rend : ConfigRenderer)
    (poolNamespace : string) : state PoolReconciler (option error) :=
  let fail text err : state PoolReconciler (option error) := state_ret (Some (ErrWrap text err "")) in
  (pools <- lift (trigger (ListPools poolNamespace)) ;;
   match pools with
   | inl err => fail "list remaining DNSUpstreamPools: " err
   | inr items =>
       configNamespace <- lift (operatorNamespace poolNamespace) ;;
       match sortPoolsForSelection items with
       | [] =>
           set_metric (clearActivePoolSelectionMetric poolNamespace) ;;
           lift (removeConfigKey configNamespace)
       | pool :: _ =>
           let selectionReason :=
             if (1 <? length items)%nat then poolSelectionReasonOldest
             else poolSelectionReasonSingle in
           set_metric (recordActivePoolSelectionMetric poolNamespace (pool_name pool) selectionReason) ;;
           profile <- lift (getDefaultCacheProfile poolNamespace) ;;
           match profile with
           | inl err => fail "get default DNSCacheProfile: " err
           | inr profile =>
               match Generate gen (Some pool) profile with
               | inl err => fail "generate engine config from remaining pool: " err
               | inr config =>
                   match Render rend (Some config) with
                   | inl err => fail "validate config from remaining pool: " err
                   | inr _ =>
                       match MarshalIndent config with
                       | inl err => fail "marshal config from remaining pool: " err
                       | inr configJSON => publishRemaining configNamespace pool configJSON
                       end
                   end
               end
           end
       end
   end)%state.

Definition Reconcile (req : NamespacedName) : reconcile :=
  (match ConfigGen, ConfigRend with
   | Some gen, Some rend =>
       got <- lift (trigger (GetPool req)) ;;
       match got with
       | inl err =>
           if IsNotFound err then
             err <- reconcileAfterPoolDeletion gen rend (key_Namespace req) ;;
             state_ret (no_requeue, (fun err => ErrWrap "regenerate config after delete: " err "") <$> err)
           else
             state_ret (no_requeue,
               Some (ErrWrap ("get DNSUpstreamPool " +:+ key_String req +:+ ": ") err ""))
       | inr pool =>
           stamped <- lift (ensureInitialRVAnnotation pool) ;;
           match wrap_err "stamp initial resource version: " stamped with
           | inl err => state_ret (no_requeue, Some err)
           | inr pool => reconcilePool gen rend pool
           end
       end
   | _, _ =>
       state_ret (no_requeue, Some (ErrNew "config generator and renderer must be configured"))
   end)%state.

(** ** Registration *)

Definition reconciler : Reconciler :=
  {| rec_State := PoolReconciler; rec_init := new_reconciler; rec_Reconcile := Reconcile |}.

Definition pool_builder : Builder := Watches KindProfile mapCacheProfileToPools (For KindPool).

Definition SetupWithManager `{ManagerLib} (mgr : Manager) : result Manager :=
  Complete {| ctl_builder := pool_builder; ctl_reconciler := reconciler |} mgr.
End Reconciler.
