(* ===== verification/PoolSpec.v ===== *)
(** What the pool reconciler does, as a relation: [reconcile_outcome] has one
    rule per way a reconciliation can end, with the calls it has then made
    (recorded events aside), their answers, the reconciler's new
    state and the results. [reconcile_refines] shows that every execution of
    [Reconcile] is one of them, whatever the API server, the clock, the
    environment, the generator and the renderer do. *)
From S2P Require Import Prelude GoStrings GoErrors Sorting Types Kube.
From S2P Require Import PoolValidation PoolSelection CircuitBreaker Metrics PoolController.

(** ** Generation as a function *)

Section Build.
Context `{EngineLib}.
Variables (gen : ConfigGenerator) (rend : ConfigRenderer).

(** The configuration published for a pool, or the reason it is refused. *)
Definition build (pool : DNSUpstreamPool) (profile : option DNSCacheProfile)
    : (string * error) + string :=
  match Generate gen (Some pool) profile with
  | inl e => inl ("ConfigGenerationFailed", ErrWrap "generate engine config: " e "")
  | inr config =>
      match Render rend (Some config), MarshalIndent config with
      | inl e, _ => inl ("ValidationFailed", ErrWrap "validate engine config: " e "")
      | inr _, inl e => inl ("MarshalFailed", ErrWrap "marshal engine config: " e "")
      | inr _, inr json =>
          match validateConfigMapPayloadSize json with
          | Some e => inl ("ConfigTooLarge", e)
          | None => inr json
          end
      end
  end.

(** A document is published only after every step has succeeded on it. *)
Lemma build_inr pool profile json :
  build pool profile = inr json <->
  exists config text,
    Generate gen (Some pool) profile = inr config /\ Render rend (Some config) = inr text /\
    MarshalIndent config = inr json /\ validateConfigMapPayloadSize json = None.
Proof.
  unfold build. split.
  - intros Hb. repeat case_match; simplify_eq. eauto 10.
  - by intros (config & text & -> & -> & -> & ->).
Qed.
End Build.

(** The namespace and name of the agent's ConfigMap, from the environment. *)
Definition operator_ns (value fallback : string) : string :=
  if bool_decide (TrimSpace value = "") then fallback else TrimSpace value.

Definition config_map_name (value : string) : string :=
  if bool_decide (TrimSpace value = "") then "astradns-agent-config" else TrimSpace value.

Definition agent_config_map (ns value : string) : ConfigMap :=
  {| cm_key := {| key_Namespace := ns; key_Name := config_map_name value |}; cm_Data := None |}.

Definition upsert_error (ns value : string) (e : error) : error :=
  ErrWrap ("create or update ConfigMap " +:+ ns +:+ "/" +:+ config_map_name value +:+ ": ") e "".

Definition status_error (r : option error) : option error :=
  (fun e => ErrWrap "update DNSUpstreamPool status: " e "") <$> r.

Definition profile_key (ns : string) : NamespacedName :=
  {| key_Namespace := ns; key_Name := "default" |}.

(** The answer of the profile lookup: a missing profile is no profile. *)
Definition found_profile (got : result DNSCacheProfile) : result (option DNSCacheProfile) :=
  match got with
  | inr profile => inr (Some profile)
  | inl e => if IsNotFound e then inr None else inl e
  end.

Section Spec.
Context `{GoRuntime} `{SliceSorter} `{GaugeVec} `{ApiMachinery} `{EngineLib}.
Variables (gen : ConfigGenerator) (rend : ConfigRenderer).

Definition status_event (pool : DNSUpstreamPool) (status : ConditionStatus) (reason message : string)
    (r : option error) : event :=
  ev (PatchPoolStatus (with_ready pool (ready_condition pool status reason message)) pool) r.

Definition ready_event (pool : DNSUpstreamPool) (r : option error) : event :=
  status_event pool ConditionTrue "Ready" "Configuration rendered successfully" r.

Definition env_event (name value : string) : event := ev (Getenv name) value.

(** A reading of the clock, where the code reaches it: to compare it with a
    namespace's open window, or to open one. *)
Definition clock (reached : bool) (now : time) : trace := if reached then [ev Now now] else [].

Definition has_window (ns : string) (c : Circuit) : bool := bool_decide (is_Some (window ns c)).

(** ** The guarded write

    The effect of [upsertConfigMapWithCircuitBreaker] on the circuits, the
    calls it makes, and its answer. *)
Inductive upsert_outcome (ns json : string) (c : Circuit)
    : trace -> Circuit -> option error -> Prop :=
  | upsert_open now c' until :
      isConfigMapCircuitOpen now ns c = (c', (until, true)) ->
      upsert_outcome ns json c (clock (has_window ns c) now) c' (Some (circuit_open_error ns until))
  | upsert_failed now now1 now2 c' until value e :
      isConfigMapCircuitOpen now ns c = (c', (until, false)) ->
      upsert_outcome ns json c
        (clock (has_window ns c) now
         ++ [env_event "ASTRADNS_AGENT_CONFIGMAP_NAME" value;
             ev (CreateOrUpdate (agent_config_map ns value) (put_config json)) (Some e)]
         ++ clock (has_window ns c') now1 ++ clock (trips now1 ns c') now2)
        (recordConfigMapUpdateFailure now1 now2 ns c')
        (Some (upsert_error ns value e))
  | upsert_written now c' until value :
      isConfigMapCircuitOpen now ns c = (c', (until, false)) ->
      upsert_outcome ns json c
        (clock (has_window ns c) now
         ++ [env_event "ASTRADNS_AGENT_CONFIGMAP_NAME" value;
             ev (CreateOrUpdate (agent_config_map ns value) (put_config json)) None])
        (resetConfigMapUpdateFailures ns c') None.

(** ** Reconciling a pool *)

(** The head of the sorted listing, and whether it takes the namespace from
    [pool]. *)
Definition superseded_by (items : list DNSUpstreamPool) (pool : DNSUpstreamPool) : option string :=
  match sortPoolsForSelection items with
  | active :: _ =>
      if (1 <? Z.of_nat (length items)) && negb (bool_decide (pool_name pool = pool_name active))
      then Some (pool_name active) else None
  | [] => None
  end.

Definition selection_reason (items : list DNSUpstreamPool) : string :=
  if (1 <? length items)%nat then "oldest_pool" else "single_pool".

(** The reconciler after a selection: the metric shows the selected pool. *)
Definition select (ns : string) (items : list DNSUpstreamPool) (s : PoolReconciler) : PoolReconciler :=
  match sortPoolsForSelection items with
  | active :: _ =>
      {| circuit := circuit s;
         metric := recordActivePoolSelectionMetric ns (pool_name active) (selection_reason items)
                     (metric s) |}
  | [] => {| circuit := circuit s; metric := recordActivePoolSelectionMetric ns "" "" (metric s) |}
  end.

Inductive pool_outcome (pool : DNSUpstreamPool) (s : PoolReconciler)
    : trace -> PoolReconciler -> ReconcileResult -> option error -> Prop :=
  | pool_invalid e r :
      validateDNSUpstreamPool (Some pool) = Some e ->
      pool_outcome pool s
        [status_event pool ConditionFalse "InvalidSpec" (Error e) r]
        s no_requeue (status_error r)
  | pool_unlisted e :
      validateDNSUpstreamPool (Some pool) = None ->
      pool_outcome pool s [ev (ListPools (Namespace (pool_meta pool))) (inl e)]
        s no_requeue
        (Some (ErrWrap ("list DNSUpstreamPools in namespace "
                        +:+ Quote (Namespace (pool_meta pool)) +:+ ": ") e ""))
  | pool_superseded items active r :
      validateDNSUpstreamPool (Some pool) = None ->
      superseded_by items pool = Some active ->
      pool_outcome pool s
        [ev (ListPools (Namespace (pool_meta pool))) (inr items);
         status_event pool ConditionFalse "Superseded"
           ("pool " +:+ Quote active +:+ " is active in this namespace") r]
        (select (Namespace (pool_meta pool)) items s) no_requeue (status_error r)
  | pool_no_profile items got e r :
      validateDNSUpstreamPool (Some pool) = None ->
      superseded_by items pool = None ->
      found_profile got = inl e ->
      let e := ErrWrap "get default DNSCacheProfile: " e "" in
      pool_outcome pool s
        [ev (ListPools (Namespace (pool_meta pool))) (inr items);
         ev (GetProfile (profile_key (Namespace (pool_meta pool)))) got;
         status_event pool ConditionFalse "ProfileLookupFailed" (Error e) r]
        (select (Namespace (pool_meta pool)) items s) no_requeue
        (Some (default e (status_error r)))
  | pool_refused items got profile reason e r :
      validateDNSUpstreamPool (Some pool) = None ->
      superseded_by items pool = None ->
      found_profile got = inr profile ->
      build gen rend pool profile = inl (reason, e) ->
      pool_outcome pool s
        [ev (ListPools (Namespace (pool_meta pool))) (inr items);
         ev (GetProfile (profile_key (Namespace (pool_meta pool)))) got;
         status_event pool ConditionFalse reason (Error e) r]
        (select (Namespace (pool_meta pool)) items s) no_requeue (status_error r)
  | pool_unpublished items got profile json value tr c e r :
      validateDNSUpstreamPool (Some pool) = None ->
      superseded_by items pool = None ->
      found_profile got = inr profile ->
      build gen rend pool profile = inr json ->
      upsert_outcome (operator_ns value (Namespace (pool_meta pool))) json (circuit s) tr c (Some e) ->
      let e := ErrWrap "upsert configmap: " e "" in
      let open := errors_Is e errConfigMapCircuitOpen in
      pool_outcome pool s
        (ev (ListPools (Namespace (pool_meta pool))) (inr items)
         :: ev (GetProfile (profile_key (Namespace (pool_meta pool)))) got
         :: env_event "POD_NAMESPACE" value
         :: tr ++ [status_event pool ConditionFalse
                     (if open then "ConfigMapCircuitOpen" else "ConfigMapUpdateFailed") (Error e) r])
        (set_circuit c (select (Namespace (pool_meta pool)) items s))
        (if open then {| RequeueAfter := 30 * Second |} else no_requeue)
        (match status_error r with
         | Some e' => Some e'
         | None => if open then None else Some e
         end)
  | pool_published items got profile json value tr c r :
      validateDNSUpstreamPool (Some pool) = None ->
      superseded_by items pool = None ->
      found_profile got = inr profile ->
      build gen rend pool profile = inr json ->
      upsert_outcome (operator_ns value (Namespace (pool_meta pool))) json (circuit s) tr c None ->
      pool_outcome pool s
        (ev (ListPools (Namespace (pool_meta pool))) (inr items)
         :: ev (GetProfile (profile_key (Namespace (pool_meta pool)))) got
         :: env_event "POD_NAMESPACE" value
         :: tr ++ [ready_event pool r])
        (set_circuit c (select (Namespace (pool_meta pool)) items s))
        no_requeue (status_error r).

(** ** After a deletion *)

Definition key_error (ns value text : string) : string :=
  text +:+ ns +:+ "/" +:+ config_map_name value +:+ ": ".

Definition config_map_key (ns value : string) : NamespacedName :=
  {| key_Namespace := ns; key_Name := config_map_name value |}.

(** Removing the configuration. *)
Inductive removal_outcome (ns : string) : trace -> option error -> Prop :=
  | removal_absent value e :
      removal_outcome ns
        [env_event "ASTRADNS_AGENT_CONFIGMAP_NAME" value;
         ev (GetConfigMap (config_map_key ns value)) (inl e)]
        (if IsNotFound e then None else Some (ErrWrap (key_error ns value "get ConfigMap ") e ""))
  | removal_done value cm w :
      removal_outcome ns
        [env_event "ASTRADNS_AGENT_CONFIGMAP_NAME" value;
         ev (GetConfigMap (config_map_key ns value)) (inr cm);
         ev (CreateOrUpdate cm drop_config) w]
        ((fun e => ErrWrap (key_error ns value "remove config key from ConfigMap ") e "") <$> w).

(** Publishing a remaining pool: the effect on the circuits, calls, result. *)
Inductive remaining_outcome (ns : string) (pool : DNSUpstreamPool) (json : string) (c : Circuit)
    : trace -> Circuit -> option error -> Prop :=
  | remaining_too_large e r :
      validateConfigMapPayloadSize json = Some e ->
      remaining_outcome ns pool json c
        [status_event pool ConditionFalse "ConfigTooLarge" (Error e) r] c
        ((fun e => ErrWrap "update oversized pool status: " e "") <$> status_error r)
  | remaining_open tr c' e r :
      validateConfigMapPayloadSize json = None ->
      upsert_outcome ns json c tr c' (Some e) -> errors_Is e errConfigMapCircuitOpen = true ->
      remaining_outcome ns pool json c
        (tr ++ [status_event pool ConditionFalse "ConfigMapCircuitOpen" (Error e) r]) c'
        ((fun e => ErrWrap "update circuit-open pool status: " e "") <$> status_error r)
  | remaining_failed tr c' e :
      validateConfigMapPayloadSize json = None ->
      upsert_outcome ns json c tr c' (Some e) -> errors_Is e errConfigMapCircuitOpen = false ->
      remaining_outcome ns pool json c tr c' (Some e)
  | remaining_published tr c' r :
      validateConfigMapPayloadSize json = None ->
      upsert_outcome ns json c tr c' None ->
      remaining_outcome ns pool json c (tr ++ [ready_event pool r]) c'
        ((fun e => ErrWrap "update remaining pool status: " e "") <$> status_error r).

(** The document of a remaining pool, or the error returned. *)
Definition build_remaining (pool : DNSUpstreamPool) (got : result DNSCacheProfile) : result string :=
  (profile <- wrap_err "get default DNSCacheProfile: " (found_profile got) ;;
   config <- wrap_err "generate engine config from remaining pool: " (Generate gen (Some pool) profile) ;;
   _ <- wrap_err "validate config from remaining pool: " (Render rend (Some config)) ;;
   wrap_err "marshal config from remaining pool: " (MarshalIndent config))%result.

Inductive deletion_outcome (ns : string) (s : PoolReconciler)
    : trace -> PoolReconciler -> option error -> Prop :=
  | deletion_unlisted e :
      deletion_outcome ns s [ev (ListPools ns) (inl e)] s
        (Some (ErrWrap "list remaining DNSUpstreamPools: " e ""))
  | deletion_last items value tr err :
      sortPoolsForSelection items = [] ->
      removal_outcome (operator_ns value ns) tr err ->
      deletion_outcome ns s
        (ev (ListPools ns) (inr items) :: env_event "POD_NAMESPACE" value :: tr)
        {| circuit := circuit s; metric := clearActivePoolSelectionMetric ns (metric s) |} err
  | deletion_unbuilt items pool rest value got err :
      sortPoolsForSelection items = pool :: rest ->
      build_remaining pool got = inl err ->
      deletion_outcome ns s
        [ev (ListPools ns) (inr items); env_event "POD_NAMESPACE" value;
         ev (GetProfile (profile_key ns)) got]
        (select ns items s) (Some err)
  | deletion_remaining items pool rest value got json tr c err :
      sortPoolsForSelection items = pool :: rest ->
      build_remaining pool got = inr json ->
      remaining_outcome (operator_ns value ns) pool json (circuit s) tr c err ->
      deletion_outcome ns s
        (ev (ListPools ns) (inr items) :: env_event "POD_NAMESPACE" value
         :: ev (GetProfile (profile_key ns)) got :: tr)
        (set_circuit c (select ns items s)) err.

(** ** Reconcile *)

(** The stamp: the pool to go on with, or an error. *)
Inductive stamp_outcome (pool : DNSUpstreamPool) : trace -> result DNSUpstreamPool -> Prop :=
  | stamp_present v :
      map_lookup (Annotations (pool_meta pool)) initialRVAnnotation = Some v ->
      stamp_outcome pool [] (inr pool)
  | stamp_written r :
      map_lookup (Annotations (pool_meta pool)) initialRVAnnotation = None ->
      stamp_outcome pool [ev (PatchPool (stamp pool) pool) r] r.

Inductive reconcile_outcome (req : NamespacedName) (s : PoolReconciler)
    : trace -> PoolReconciler -> ReconcileResult -> option error -> Prop :=
  | reconcile_unread e :
      IsNotFound e = false ->
      reconcile_outcome req s [ev (GetPool req) (inl e)] s no_requeue
        (Some (ErrWrap ("get DNSUpstreamPool " +:+ key_String req +:+ ": ") e ""))
  | reconcile_deleted e tr s' err :
      IsNotFound e = true ->
      deletion_outcome (key_Namespace req) s tr s' err ->
      reconcile_outcome req s (ev (GetPool req) (inl e) :: tr) s' no_requeue
        ((fun e => ErrWrap "regenerate config after delete: " e "") <$> err)
  | reconcile_unstamped pool tr e :
      stamp_outcome pool tr (inl e) ->
      reconcile_outcome req s (ev (GetPool req) (inr pool) :: tr) s no_requeue
        (Some (ErrWrap "stamp initial resource version: "
                 (ErrWrap "patch initial-resource-version annotation: " e "") ""))
  | reconcile_pool pool stamped tr tr' s' res err :
      stamp_outcome pool tr (inr stamped) ->
      pool_outcome stamped s tr' s' res err ->
      reconcile_outcome req s (ev (GetPool req) (inr pool) :: tr ++ tr') s' res err.
End Spec.

(** ** Refinement *)

Section Refinement.
Context `{GoRuntime} `{SliceSorter} `{GaugeVec} `{ApiMachinery} `{EngineLib}.
Variable Recorder : bool.

Lemma wp_recordPoolEvent object eventType reason message :
  wp (recordEvent Recorder object eventType reason message) (fun tr _ => loud tr = []).
Proof. unfold recordEvent. by destruct Recorder. Qed.

Lemma wp_setReadyCondition pool status reason message :
  wp (setReadyCondition pool status reason message)
    (fun tr err => exists r, loud tr = [status_event pool status reason message r] /\
                             err = status_error r).
Proof. intros [e|]; cbn; [exists (Some e) | exists None]; done. Qed.

Lemma wp_refuse pool reason message res err :
  wp (refuse Recorder pool reason message res err)
    (fun tr '(res', err') => exists r,
       loud tr = [status_event pool ConditionFalse reason message r] /\ res' = res /\
       err' = match status_error r with Some e => Some e | None => err end).
Proof.
  unfold refuse. eapply wp_seq; [apply wp_recordPoolEvent|]. intros tr [] Htr.
  eapply wp_seq; [apply wp_setReadyCondition|]. intros tr' ? (r & Hr & ->).
  destruct r as [e|]; cbn; rewrite app_nil_r, loud_app, Htr, Hr; eexists; done.
Qed.

Lemma wp_readClock b : wp (readClock b) (fun tr now => loud tr = clock b now).
Proof. by destruct b. Qed.

Lemma wp_queryCircuit ns s :
  wp (queryCircuit ns s) (fun tr '(s', answer) => exists now c,
    loud tr = clock (has_window ns (circuit s)) now /\
    isConfigMapCircuitOpen now ns (circuit s) = (c, answer) /\ s' = set_circuit c s).
Proof.
  unfold queryCircuit. eapply wp_seq; [apply wp_readClock|]. intros tr now Htr.
  destruct (isConfigMapCircuitOpen _ _ _) as [c answer] eqn:E.
  apply wp_ret. rewrite app_nil_r. by exists now, c.
Qed.

Lemma wp_recordFailure ns s :
  wp (recordFailure ns s) (fun tr '(s', _) => exists now1 now2,
    loud tr = clock (has_window ns (circuit s)) now1 ++ clock (trips now1 ns (circuit s)) now2 /\
    s' = set_circuit (recordConfigMapUpdateFailure now1 now2 ns (circuit s)) s).
Proof.
  unfold recordFailure. eapply wp_seq; [apply wp_readClock|]. intros tr now1 Htr.
  eapply wp_seq; [apply wp_readClock|]. intros tr' now2 Htr'. apply wp_ret.
  exists now1, now2. by rewrite app_nil_r, loud_app, Htr, Htr'.
Qed.

Lemma wp_upsertConfigMap ns json :
  wp (upsertConfigMap ns json) (fun tr err => exists value w,
    loud tr = [env_event "ASTRADNS_AGENT_CONFIGMAP_NAME" value;
               ev (CreateOrUpdate (agent_config_map ns value) (put_config json)) w] /\
    err = upsert_error ns value <$> w).
Proof. intros value [e|]; exists value; [exists (Some e) | exists None]; done. Qed.

Lemma wp_upsert ns json s :
  wp (upsertConfigMapWithCircuitBreaker ns json s)
    (fun tr '(s', err) => exists c, s' = set_circuit c s /\
       upsert_outcome ns json (circuit s) (loud tr) c err).
Proof.
  unfold upsertConfigMapWithCircuitBreaker. eapply wp_state_seq; [apply wp_queryCircuit|].
  intros tr s1 [until open] (now & c & Htr & Hq & ->). destruct open.
  { apply wp_ret. rewrite app_nil_r, Htr. exists c. split; [done|]. by apply upsert_open. }
  eapply wp_lift_seq; [apply wp_upsertConfigMap|]. intros tr1 err (value & w & Htr1 & ->).
  destruct w as [e|].
  - eapply wp_state_seq; [apply wp_recordFailure|]. intros tr2 s2 [] (now1 & now2 & Htr2 & ->).
    apply wp_ret. exists (recordConfigMapUpdateFailure now1 now2 ns c). split; [done|].
    rewrite app_nil_r, !loud_app, Htr, Htr1, Htr2. by eapply upsert_failed.
  - apply wp_state_bind. apply wp_ret. apply wp_ret.
    exists (resetConfigMapUpdateFailures ns c). split; [done|].
    rewrite !app_nil_r, !loud_app, Htr, Htr1. by eapply upsert_written.
Qed.

Variables (gen : ConfigGenerator) (rend : ConfigRenderer).

(** The publication of a built document, for a reconciler [s1] whose circuits
    are those of [s]. *)
Lemma wp_publish pool json s1 :
  wp (publish Recorder pool json s1) (fun tr '(s', (res, err)) =>
    exists value tr' c err', upsert_outcome (operator_ns value (Namespace (pool_meta pool))) json
                          (circuit s1) tr' c err' /\
      s' = set_circuit c s1 /\ exists r,
      match err' with
      | None =>
          loud tr = env_event "POD_NAMESPACE" value :: tr' ++ [ready_event pool r] /\
          res = no_requeue /\ err = status_error r
      | Some e =>
          let e := ErrWrap "upsert configmap: " e "" in
          let open := errors_Is e errConfigMapCircuitOpen in
          loud tr = env_event "POD_NAMESPACE" value :: tr' ++
            [status_event pool ConditionFalse
               (if open then "ConfigMapCircuitOpen" else "ConfigMapUpdateFailed") (Error e) r] /\
          res = (if open then {| RequeueAfter := 30 * Second |} else no_requeue) /\
          err = match status_error r with
                | Some e' => Some e'
                | None => if open then None else Some e
                end
      end).
Proof.
  intros value. eapply wp_state_seq; [apply wp_upsert|]. intros tr s2 [e|] (c & -> & Hup).
  - apply wp_lift. eapply wp_mono; [|apply wp_refuse]. intros tr' [res err] (r & Hr & -> & ->).
    exists value, (loud tr), c, (Some e). split; [done|]. split; [done|]. exists r.
    cbn [loud List.filter is_loud projT1 ev]. rewrite loud_app, Hr. done.
  - eapply wp_lift_seq; [apply wp_recordPoolEvent|]. intros tr1 [] Htr1.
    eapply wp_lift_seq; [apply wp_setReadyCondition|]. intros tr2 err (r & Hr & ->).
    exists value, (loud tr), c, None.
    split; [done|]. split; [done|]. exists r. split; [|done].
    change (loud (ev (Getenv "POD_NAMESPACE") value :: ?t)) with (ev (Getenv "POD_NAMESPACE") value :: loud t).
    rewrite !loud_app, Htr1, Hr, app_nil_r. done.
Qed.

Lemma wp_getDefaultCacheProfile ns :
  wp (getDefaultCacheProfile ns) (fun tr r => exists got,
    tr = [ev (GetProfile (profile_key ns)) got] /\ r = found_profile got).
Proof.
  intros [e|p]; cbn; [destruct (IsNotFound e) eqn:E|]; eexists; (split; [reflexivity|]);
    cbn; by rewrite ?E.
Qed.

Lemma circuit_select ns items s : circuit (select ns items s) = circuit s.
Proof. unfold select. by destruct (sortPoolsForSelection items). Qed.

Lemma wp_reconcileActivePool pool items s :
  validateDNSUpstreamPool (Some pool) = None ->
  superseded_by items pool = None ->
  wp (reconcileActivePool Recorder gen rend pool (select (Namespace (pool_meta pool)) items s))
    (fun tr '(s', (res, err)) => pool_outcome gen rend pool s
       (ev (ListPools (Namespace (pool_meta pool))) (inr items) :: loud tr) s' res err).
Proof.
  intros Hv Hsup. unfold reconcileActivePool.
  eapply wp_lift_seq; [apply wp_getDefaultCacheProfile|]. intros tr r (got & -> & ->).
  destruct (found_profile got) as [e|profile] eqn:Hgot; cbn [wrap_err].
  { apply wp_lift. eapply wp_mono; [|apply wp_refuse]. intros tr' [res err] (r & Hr & -> & ->).
    rewrite loud_app, Hr. apply (pool_no_profile gen rend pool s items got e r) in Hgot; [|done..].
    destruct r; exact Hgot. }
  assert (forall reason e, build gen rend pool profile = inl (reason, e) ->
    wp (lift (refuse Recorder pool reason (Error e) no_requeue None)
          (select (Namespace (pool_meta pool)) items s))
      (fun tr '(s', (res, err)) => pool_outcome gen rend pool s
         (ev (ListPools (Namespace (pool_meta pool))) (inr items)
          :: loud ([ev (GetProfile (profile_key (Namespace (pool_meta pool)))) got] ++ tr)) s' res err))
    as Hrefuse.
  { intros reason e Hb. apply wp_lift. eapply wp_mono; [|apply wp_refuse].
    intros tr' [res err] (r & Hr & -> & ->). rewrite loud_app, Hr.
    apply (pool_refused gen rend pool s items got profile reason e r) in Hb; [|done..].
    destruct r; exact Hb. }
  assert (forall json, build gen rend pool profile = inr json ->
    wp (publish Recorder pool json (select (Namespace (pool_meta pool)) items s))
      (fun tr '(s', (res, err)) => pool_outcome gen rend pool s
         (ev (ListPools (Namespace (pool_meta pool))) (inr items)
          :: loud ([ev (GetProfile (profile_key (Namespace (pool_meta pool)))) got] ++ tr)) s' res err))
    as Hpublish.
  { intros json Hb. eapply wp_mono; [|apply wp_publish].
    intros tr' [s' [res err]] (value & tr1 & c & [e|] & Hup & -> & r & Hr & -> & ->);
      rewrite loud_app, Hr; rewrite circuit_select in Hup.
    - by apply (pool_unpublished gen rend pool s items got profile json value tr1 c e r).
    - by apply (pool_published gen rend pool s items got profile json value tr1 c r). }
  unfold build in Hrefuse, Hpublish.
  destruct (Generate gen (Some pool) profile) as [e|config]; cbn [wrap_err]; [by apply Hrefuse|].
  destruct (Render rend (Some config)) as [e|text]; cbn [wrap_err]; [by apply Hrefuse|].
  destruct (MarshalIndent config) as [e|json]; cbn [wrap_err]; [by apply Hrefuse|].
  destruct (validateConfigMapPayloadSize json) as [e|] eqn:Hsize; [by apply Hrefuse|].
  by apply Hpublish.
Qed.

Lemma wp_selectActivePoolName ns :
  wp (selectActivePoolName ns) (fun tr r => exists listed, tr = [ev (ListPools ns) listed] /\
    r = match listed with
        | inl e => inl (ErrWrap ("list DNSUpstreamPools in namespace " +:+ Quote ns +:+ ": ") e "")
        | inr items =>
            match sortPoolsForSelection items with
            | [] => inr ("", 0, "")
            | active :: _ => inr (pool_name active, Z.of_nat (length items), selection_reason items)
            end
        end).
Proof. apply wp_exec. apply selectActivePoolName_exec. Qed.

Lemma wp_reconcilePool pool s :
  wp (reconcilePool Recorder gen rend pool s)
    (fun tr '(s', (res, err)) => pool_outcome gen rend pool s (loud tr) s' res err).
Proof.
  unfold reconcilePool. destruct (validateDNSUpstreamPool (Some pool)) as [e|] eqn:Hv.
  { apply wp_lift. eapply wp_mono; [|apply wp_refuse]. intros tr [res err] (r & -> & -> & ->).
    apply (pool_invalid gen rend pool s e r) in Hv. by destruct r. }
  eapply wp_lift_seq; [apply wp_selectActivePoolName|]. intros tr sel (listed & -> & ->).
  destruct listed as [e|items]; [by apply pool_unlisted|].
  assert (forall active count reason,
    select (Namespace (pool_meta pool)) items s =
      {| circuit := circuit s;
         metric := recordActivePoolSelectionMetric (Namespace (pool_meta pool)) active reason (metric s) |} ->
    superseded_by items pool =
      (if (1 <? count) && negb (bool_decide (pool_name pool = active)) then Some active else None) ->
    wp ((set_metric (recordActivePoolSelectionMetric (Namespace (pool_meta pool)) active reason) ;;
         if (1 <? count) && negb (bool_decide (pool_name pool = active)) then
           lift (refuse Recorder pool supersededPoolReason
                   ("pool " +:+ Quote active +:+ " is active in this namespace") no_requeue None)
         else reconcileActivePool Recorder gen rend pool)%state s)
      (fun tr '(s', (res, err)) => pool_outcome gen rend pool s
         (ev (ListPools (Namespace (pool_meta pool))) (inr items) :: loud tr) s' res err)) as Hgo.
  { intros active count reason Hsel Hsup. apply wp_state_bind. unfold set_metric, modify.
    apply wp_ret. rewrite <- Hsel. destruct (_ && _).
    - apply wp_lift. eapply wp_mono; [|apply wp_refuse]. intros tr [res err] (r & Hr & -> & ->).
      rewrite loud_app, Hr. apply (pool_superseded gen rend pool s items active r) in Hsup; [|done].
      by destruct r.
    - by apply wp_reconcileActivePool. }
  unfold select, superseded_by in Hgo.
  destruct (sortPoolsForSelection items) as [|active rest].
  - exact (Hgo "" 0 "" eq_refl eq_refl).
  - exact (Hgo (pool_name active) (Z.of_nat (length items)) (selection_reason items) eq_refl eq_refl).
Qed.

Lemma wp_removeConfigKey ns :
  wp (removeConfigKey ns) (fun tr err => removal_outcome ns (loud tr) err).
Proof.
  intros value [e|cm].
  - cbn. pose proof (removal_absent ns value e) as Ha. by destruct (IsNotFound e).
  - intros w. pose proof (removal_done ns value cm w) as Hd. by destruct w.
Qed.

Lemma wp_publishRemaining ns pool json s :
  wp (publishRemaining Recorder ns pool json s) (fun tr '(s', err) => exists c,
    s' = set_circuit c s /\ remaining_outcome ns pool json (circuit s) (loud tr) c err).
Proof.
  unfold publishRemaining.
  destruct (validateConfigMapPayloadSize json) as [e|] eqn:Hsize.
  { eapply wp_lift_seq; [apply wp_recordPoolEvent|]. intros tr [] Htr.
    eapply wp_lift_seq; [apply wp_setReadyCondition|]. intros tr' err (r & Hr & ->).
    exists (circuit s). rewrite !loud_app, Htr, Hr. split; [by destruct s|]. by constructor. }
  eapply wp_state_seq; [apply wp_upsert|]. intros tr s' [e|] (c & -> & Hup).
  - destruct (errors_Is e errConfigMapCircuitOpen) eqn:Ho.
    + eapply wp_lift_seq; [apply wp_recordPoolEvent|]. intros tr1 [] Htr1.
      eapply wp_lift_seq; [apply wp_setReadyCondition|]. intros tr2 err (r & Hr & ->).
      exists c. rewrite !loud_app, Htr1, Hr. split; [done|]. by apply remaining_open.
    + exists c. rewrite loud_app, app_nil_r. split; [done|]. by apply remaining_failed.
  - eapply wp_lift_seq; [apply wp_setReadyCondition|]. intros tr2 err (r & Hr & ->).
    exists c. rewrite !loud_app, Hr. split; [done|]. by apply remaining_published.
Qed.

Lemma wp_reconcileAfterPoolDeletion ns s :
  wp (reconcileAfterPoolDeletion Recorder gen rend ns s)
    (fun tr '(s', err) => deletion_outcome gen rend ns s (loud tr) s' err).
Proof.
  intros [e|items]; [by constructor|]. intros value. cbn [fst snd]. fold (operator_ns value ns).
  destruct (sortPoolsForSelection items) as [|pool rest] eqn:Hsort.
  { apply wp_state_bind. apply wp_ret. apply wp_lift. eapply wp_mono; [|apply wp_removeConfigKey].
    intros tr err Hr. by apply (deletion_last gen rend ns s items value (loud tr) err). }
  apply wp_state_bind. apply wp_ret.
  replace ({| circuit := circuit s; metric := _ |}) with (select ns items s)
    by (unfold select; by rewrite Hsort).
  eapply wp_lift_seq; [apply wp_getDefaultCacheProfile|]. intros tr r (got & -> & ->).
  assert (forall err, build_remaining gen rend pool got = inl err ->
    deletion_outcome gen rend ns s
      [ev (ListPools ns) (inr items); env_event "POD_NAMESPACE" value;
       ev (GetProfile (profile_key ns)) got] (select ns items s) (Some err)) as Hunbuilt
    by (intros; by eapply deletion_unbuilt).
  assert (forall json, build_remaining gen rend pool got = inr json ->
    wp (publishRemaining Recorder (operator_ns value ns) pool json (select ns items s))
      (fun tr '(s', err) => deletion_outcome gen rend ns s
         (ev (ListPools ns) (inr items) :: env_event "POD_NAMESPACE" value
          :: ev (GetProfile (profile_key ns)) got :: loud tr) s' err)) as Hpublish.
  { intros json Hj. eapply wp_mono; [|apply wp_publishRemaining].
    intros tr [s' err] (c & -> & Hr). rewrite circuit_select in Hr.
    by eapply deletion_remaining. }
  unfold build_remaining in Hunbuilt, Hpublish.
  destruct (found_profile got) as [e|profile]; [by apply Hunbuilt|]. cbn [wrap_err result_bind] in *.
  destruct (Generate gen (Some pool) profile) as [e|config]; [by apply Hunbuilt|].
  cbn [wrap_err result_bind] in *.
  destruct (Render rend (Some config)) as [e|text]; [by apply Hunbuilt|]. cbn [wrap_err result_bind] in *.
  destruct (MarshalIndent config) as [e|json]; [by apply Hunbuilt|]. cbn [wrap_err] in *.
  by apply Hpublish.
Qed.

Lemma wp_ensureInitialRVAnnotation pool :
  wp (ensureInitialRVAnnotation pool) (fun tr r => exists stamped,
    r = wrap_err "patch initial-resource-version annotation: " stamped /\
    stamp_outcome pool (loud tr) stamped).
Proof.
  unfold ensureInitialRVAnnotation. destruct (map_lookup _ _) eqn:E.
  - exists (inr pool). split; [done|]. by econstructor.
  - intros r. exists r. split; [done|]. by constructor.
Qed.

Lemma reconcile_refines req s tr s' res err :
  exec (Reconcile (Some gen) (Some rend) Recorder req s) tr (s', (res, err)) ->
  reconcile_outcome gen rend req s (loud tr) s' res err.
Proof.
  assert (wp (Reconcile (Some gen) (Some rend) Recorder req s)
    (fun tr '(s', (res, err)) => reconcile_outcome gen rend req s (loud tr) s' res err)) as Hwp.
  { eapply wp_lift_seq; [apply wp_trigger|]. intros tr1 [e|pool] ->.
    - destruct (IsNotFound e) eqn:He; [|by constructor].
      eapply wp_state_seq; [apply wp_reconcileAfterPoolDeletion|]. intros tr1 s1 err1 Hd.
      apply wp_ret. rewrite app_nil_r. by apply reconcile_deleted.
    - eapply wp_lift_seq; [apply wp_ensureInitialRVAnnotation|]. intros tr1 r (stamped & -> & Hst).
      destruct stamped as [e|stamped].
      + apply wp_ret. rewrite app_nil_r. by apply reconcile_unstamped.
      + eapply wp_mono; [|apply wp_reconcilePool]. intros tr2 [s2 [res2 err2]] Hout.
        rewrite !loud_app.
        exact (reconcile_pool gen rend req s pool stamped _ _ _ _ _ Hst Hout). }
  rewrite wp_exec in Hwp. intros Hx. exact (Hwp tr (s', (res, err)) Hx).
Qed.
End Refinement.
