(* ===== verification/PoolComplete.v ===== *)
(** The specification of the pool reconciler is exact: every outcome that
    [reconcile_outcome] allows is one of an execution of [Reconcile], for some
    answers of the world. *)
From S2P Require Import Prelude GoStrings GoErrors Sorting Types Kube.
From S2P Require Import PoolValidation PoolSelection CircuitBreaker Metrics PoolController PoolSpec.

(** ** Executions up to recorded events *)

Definition execs {A} (p : prog A) (tr : trace) (a : A) : Prop := exists tr', loud tr' = tr /\ exec p tr' a.

Lemma execs_ret {A} (a : A) : execs (Ret a) [] a.
Proof. by exists []. Qed.

Lemma execs_bind {A B} (p : prog A) (f : A -> prog B) tr1 tr2 a b :
  execs p tr1 a -> execs (f a) tr2 b -> execs (bind p f) (tr1 ++ tr2) b.
Proof.
  intros (t1 & <- & H1) (t2 & <- & H2). exists (t1 ++ t2). split; [apply loud_app|].
  apply exec_bind. by exists t1, t2, a.
Qed.

Lemma execs_bind_ret {A B} (p : prog A) (f : A -> prog B) tr a b :
  execs p tr a -> f a = Ret b -> execs (bind p f) tr b.
Proof. intros Hp Hf. rewrite <- (app_nil_r tr). eapply execs_bind; [done|]. rewrite Hf. apply execs_ret. Qed.

Lemma execs_trigger c r : is_loud (ev c r) = true -> execs (trigger c) [ev c r] r.
Proof. intros Hl. exists [ev c r]. split; [|by exists r, []]. unfold loud. cbn -[is_loud]. by rewrite Hl. Qed.

Lemma execs_state_bind {S A B} (m : state S A) (f : A -> state S B) s s1 tr1 tr2 a b :
  execs (m s) tr1 (s1, a) -> execs (f a s1) tr2 b -> execs (state_bind m f s) (tr1 ++ tr2) b.
Proof. intros Hm Hf. by apply (execs_bind _ _ _ _ (s1, a)). Qed.

Lemma execs_modify {S A B} (g : S -> S * A) (f : A -> state S B) s tr b :
  execs (f (g s).2 (g s).1) tr b -> execs (state_bind (modify g) f s) tr b.
Proof. unfold state_bind, modify. cbn. by destruct (g s). Qed.

Lemma execs_lift {S A} (p : prog A) (s : S) tr a : execs p tr a -> execs (lift p s) tr (s, a).
Proof. intros Hp. by eapply execs_bind_ret. Qed.

Lemma execs_lift_bind {S A B} (p : prog A) (f : A -> state S B) s tr1 tr2 a b :
  execs p tr1 a -> execs (f a s) tr2 b -> execs (state_bind (lift p) f s) (tr1 ++ tr2) b.
Proof. intros Hp Hf. eapply execs_state_bind; [by apply execs_lift|done]. Qed.

Section Complete.
Context `{GoRuntime} `{SliceSorter} `{GaugeVec} `{ApiMachinery} `{EngineLib}.
Variables (gen : ConfigGenerator) (rend : ConfigRenderer) (Recorder : bool).

Lemma execs_recordEvent object t r m : execs (recordEvent Recorder object t r m) [] tt.
Proof. unfold recordEvent. destruct Recorder; [|apply execs_ret]. exists [ev (Eventf (pool_meta object) t r m) tt]. split; [done|]. by exists tt, []. Qed.

Lemma execs_setReadyCondition pool st reason m r :
  execs (setReadyCondition pool st reason m) [status_event pool st reason m r] (status_error r).
Proof. eapply execs_bind_ret; [by apply execs_trigger|]. by destruct r. Qed.

Lemma execs_refuse pool reason m res err r :
  execs (refuse Recorder pool reason m res err) [status_event pool ConditionFalse reason m r]
    (res, match status_error r with Some e => Some e | None => err end).
Proof.
  apply (execs_bind _ _ [] _ tt); [apply execs_recordEvent|].
  eapply execs_bind_ret; [apply execs_setReadyCondition|]. by destruct (status_error r).
Qed.

Lemma execs_readClock b t : execs (readClock b) (clock b t) (if b then t else 0).
Proof. destruct b; [by apply execs_trigger|apply execs_ret]. Qed.

(** A reading of the clock that is not taken does not matter. *)
Lemma query_unread now ns c :
  isConfigMapCircuitOpen (if has_window ns c then now else 0) ns c = isConfigMapCircuitOpen now ns c.
Proof.
  destruct (has_window ns c) eqn:Hw; [done|]. unfold has_window, window in Hw. bool_to_prop.
  apply eq_None_not_Some in Hw. unfold isConfigMapCircuitOpen.
  destruct (ensure_lookup c ns) as [_ ->]. by rewrite Hw.
Qed.

Lemma failure_unread now1 now2 ns c :
  let n1 := if has_window ns c then now1 else 0 in
  let n2 := if trips n1 ns c then now2 else 0 in
  trips n1 ns c = trips now1 ns c /\
  recordConfigMapUpdateFailure n1 n2 ns c = recordConfigMapUpdateFailure now1 now2 ns c.
Proof.
  intros n1 n2. assert (trips n1 ns c = trips now1 ns c) as Ht.
  { subst n1. unfold trips, has_window. by destruct (window ns c). }
  split; [done|]. subst n2. rewrite Ht.
  unfold recordConfigMapUpdateFailure, trips, window in *. destruct (ensure_lookup c ns) as [-> ->].
  subst n1. unfold has_window, window. destruct (map_lookup (OpenUntil c) ns) as [u|]; cbn.
  - destruct (time_Before now1 u); [done|]. cbn. by destruct (configMapUpdateFailureThreshold <=? _).
  - by destruct (configMapUpdateFailureThreshold <=? _).
Qed.

Lemma execs_upsertConfigMap ns json value r :
  execs (upsertConfigMap ns json)
    [env_event "ASTRADNS_AGENT_CONFIGMAP_NAME" value;
     ev (CreateOrUpdate (agent_config_map ns value) (put_config json)) r]
    (upsert_error ns value <$> r).
Proof.
  apply (execs_bind _ _ [env_event "ASTRADNS_AGENT_CONFIGMAP_NAME" value] _ (config_map_name value)).
  - eapply execs_bind_ret; [by apply execs_trigger|done].
  - eapply execs_bind_ret; [by apply execs_trigger|]. by destruct r.
Qed.

Lemma execs_upsert ns json s tr c err :
  upsert_outcome ns json (circuit s) tr c err ->
  execs (upsertConfigMapWithCircuitBreaker ns json s) tr (set_circuit c s, err).
Proof.
  assert (forall now c' answer, isConfigMapCircuitOpen now ns (circuit s) = (c', answer) ->
    execs (queryCircuit ns s) (clock (has_window ns (circuit s)) now) (set_circuit c' s, answer)) as Hquery.
  { intros now c' answer Hq. eapply execs_bind_ret; [apply execs_readClock|].
    fold (has_window ns (circuit s)). by rewrite query_unread, Hq. }
  destruct 1 as [now c' until Hq|now now1 now2 c' until value e Hq|now c' until value Hq].
  - rewrite <- (app_nil_r (clock _ _)). eapply execs_state_bind; [by apply Hquery|]. apply execs_ret.
  - eapply execs_state_bind; [by apply Hquery|].
    apply (execs_lift_bind _ _ _ _ _ _ _ (execs_upsertConfigMap ns json value (Some e))). cbn [fmap option_fmap option_map].
    rewrite <- (app_nil_r (clock _ now1 ++ _)). eapply execs_state_bind; [|apply execs_ret].
    destruct (failure_unread now1 now2 ns c') as [Ht Hf].
    unfold recordFailure. eapply execs_bind; [apply execs_readClock|].
    eapply execs_bind_ret; [rewrite <- Ht; apply execs_readClock|]. cbn [circuit set_circuit].
    fold (has_window ns c'). by rewrite Hf.
  - eapply execs_state_bind; [by apply Hquery|]. rewrite <- (app_nil_r [_; _]).
    apply (execs_lift_bind _ _ _ _ _ _ _ (execs_upsertConfigMap ns json value None)). cbn [fmap option_fmap option_map].
    apply execs_modify. apply execs_ret.
Qed.

Lemma execs_getDefaultCacheProfile ns got :
  execs (getDefaultCacheProfile ns) [ev (GetProfile (profile_key ns)) got] (found_profile got).
Proof.
  eapply execs_bind_ret; [by apply execs_trigger|]. destruct got as [e|p]; [|done]. cbn. by destruct (IsNotFound e).
Qed.

Lemma execs_selectActivePoolName ns items :
  execs (selectActivePoolName ns) [ev (ListPools ns) (inr items)]
    (match sortPoolsForSelection items with
     | [] => inr ("", 0, "")
     | active :: _ => inr (pool_name active, Z.of_nat (length items), selection_reason items)
     end).
Proof.
  eapply execs_bind_ret; [by apply execs_trigger|]. cbn. by destruct (sortPoolsForSelection items).
Qed.

Lemma execs_publish pool json s value tr c err r :
  upsert_outcome (operator_ns value (Namespace (pool_meta pool))) json (circuit s) tr c err ->
  execs (publish Recorder pool json s)
    (env_event "POD_NAMESPACE" value :: tr ++
       [match err with
        | None => ready_event pool r
        | Some e =>
            let e := ErrWrap "upsert configmap: " e "" in
            status_event pool ConditionFalse
              (if errors_Is e errConfigMapCircuitOpen then "ConfigMapCircuitOpen" else "ConfigMapUpdateFailed")
              (Error e) r
        end])
    (set_circuit c s,
     match err with
     | None => (no_requeue, status_error r)
     | Some e =>
         let e := ErrWrap "upsert configmap: " e "" in
         let open := errors_Is e errConfigMapCircuitOpen in
         (if open then {| RequeueAfter := 30 * Second |} else no_requeue,
          match status_error r with
          | Some e' => Some e'
          | None => if open then None else Some e
          end)
     end).
Proof.
  intros Hup. unfold publish.
  assert (execs (operatorNamespace (Namespace (pool_meta pool))) [env_event "POD_NAMESPACE" value]
            (operator_ns value (Namespace (pool_meta pool)))) as Hns
    by (eapply execs_bind_ret; [by apply execs_trigger|done]).
  apply (execs_lift_bind _ _ _ _ _ _ _ Hns).
  eapply execs_state_bind; [by apply execs_upsert|]. destruct err as [e|].
  - apply execs_lift, execs_refuse.
  - apply (execs_lift_bind _ _ _ [] _ tt); [apply execs_recordEvent|].
    rewrite <- (app_nil_r [_]). eapply execs_lift_bind; [apply execs_setReadyCondition|]. apply execs_ret.
Qed.

(** A program that only refuses. *)
Lemma execs_lift_refuse pool reason m res err r (s : PoolReconciler) :
  execs (lift (refuse Recorder pool reason m res err) s) [status_event pool ConditionFalse reason m r]
    (s, (res, match status_error r with Some e => Some e | None => err end)).
Proof. apply execs_lift, execs_refuse. Qed.

Lemma execs_refused pool reason m res r (s : PoolReconciler) :
  execs (lift (refuse Recorder pool reason m res None) s) [status_event pool ConditionFalse reason m r]
    (s, (res, status_error r)).
Proof. pose proof (execs_lift_refuse pool reason m res None r s) as Hx. by destruct r. Qed.

(** From the selection on. *)
Lemma execs_select pool items s tr out :
  validateDNSUpstreamPool (Some pool) = None ->
  execs (match superseded_by items pool with
         | Some active =>
             lift (refuse Recorder pool "Superseded" ("pool " +:+ Quote active +:+ " is active in this namespace")
                     no_requeue None)
         | None => reconcileActivePool Recorder gen rend pool
         end (select (Namespace (pool_meta pool)) items s)) tr out ->
  execs (reconcilePool Recorder gen rend pool s)
    (ev (ListPools (Namespace (pool_meta pool))) (inr items) :: tr) out.
Proof.
  intros Hv Hx. unfold reconcilePool. rewrite Hv.
  apply (execs_lift_bind _ _ _ [ev _ _] tr _ _ (execs_selectActivePoolName _ items)).
  unfold superseded_by, select in Hx. destruct (sortPoolsForSelection items) as [|active rest]; apply execs_modify.
  - exact Hx.
  - cbn [fst snd]. by destruct (_ && _).
Qed.

(** From the profile on, for a document [build] makes or refuses. *)
Lemma execs_active pool s got profile tr out :
  found_profile got = inr profile ->
  match build gen rend pool profile with
  | inl (reason, e) => execs (lift (refuse Recorder pool reason (Error e) no_requeue None) s) tr out
  | inr json => execs (publish Recorder pool json s) tr out
  end ->
  execs (reconcileActivePool Recorder gen rend pool s)
    (ev (GetProfile (profile_key (Namespace (pool_meta pool)))) got :: tr) out.
Proof.
  intros Hgot Hx. unfold reconcileActivePool.
  apply (execs_lift_bind _ _ _ [ev _ _] tr _ _ (execs_getDefaultCacheProfile _ got)). rewrite Hgot.
  unfold build in Hx. cbn [wrap_err].
  destruct (Generate gen (Some pool) profile) as [e|config]; cbn [wrap_err]; [done|].
  destruct (Render rend (Some config)) as [e|text]; cbn [wrap_err]; [done|].
  destruct (MarshalIndent config) as [e|json]; cbn [wrap_err]; [done|].
  by destruct (validateConfigMapPayloadSize json).
Qed.

Lemma execs_reconcilePool pool s tr s' res err :
  pool_outcome gen rend pool s tr s' res err ->
  execs (reconcilePool Recorder gen rend pool s) tr (s', (res, err)).
Proof.
  destruct 1 as [e r Hv|e Hv|items active r Hv Hsup|items got e r Hv Hsup Hgot
    |items got profile reason e r Hv Hsup Hgot Hb|items got profile json value tr c e r Hv Hsup Hgot Hb Hup
    |items got profile json value tr c r Hv Hsup Hgot Hb Hup];
    try (apply execs_select; [done|]; rewrite Hsup).
  - unfold reconcilePool. rewrite Hv. apply execs_refused.
  - unfold reconcilePool. rewrite Hv. rewrite <- (app_nil_r [_]).
    assert (execs (selectActivePoolName (Namespace (pool_meta pool)))
              [ev (ListPools (Namespace (pool_meta pool))) (inl e)]
              (inl (ErrWrap ("list DNSUpstreamPools in namespace "
                             +:+ Quote (Namespace (pool_meta pool)) +:+ ": ") e ""))) as Hsel
      by (by eapply execs_bind_ret; [by apply execs_trigger|]).
    eapply (execs_lift_bind _ _ _ _ _ _ _ Hsel). apply execs_ret.
  - apply execs_refused.
  - unfold reconcileActivePool.
    apply (execs_lift_bind _ _ _ [ev _ _] _ _ _ (execs_getDefaultCacheProfile _ got)). rewrite Hgot.
    pose proof (execs_lift_refuse pool "ProfileLookupFailed" (Error (ErrWrap "get default DNSCacheProfile: " e ""))
      no_requeue (Some (ErrWrap "get default DNSCacheProfile: " e "")) r
      (select (Namespace (pool_meta pool)) items s)) as Hx. by destruct r.
  - apply (execs_active _ _ _ profile); [done|]. rewrite Hb. apply execs_refused.
  - apply (execs_active _ _ _ profile); [done|]. rewrite Hb. rewrite <- (circuit_select (Namespace (pool_meta pool)) items) in Hup.
    apply (execs_publish _ _ _ _ _ _ _ r Hup).
  - apply (execs_active _ _ _ profile); [done|]. rewrite Hb. rewrite <- (circuit_select (Namespace (pool_meta pool)) items) in Hup.
    apply (execs_publish _ _ _ _ _ _ _ r Hup).
Qed.

(** ** After a deletion *)

Lemma execs_removeConfigKey ns tr err : removal_outcome ns tr err -> execs (removeConfigKey ns) tr err.
Proof.
  destruct 1 as [value e|value cm w];
    apply (execs_bind _ _ [env_event "ASTRADNS_AGENT_CONFIGMAP_NAME" value] _ (config_map_name value));
    try (by eapply execs_bind_ret; [by apply execs_trigger|]).
  - eapply execs_bind_ret; [by apply execs_trigger|]. cbn. by destruct (IsNotFound e).
  - apply (execs_bind _ _ [ev _ _] _ (inr cm)); [by apply execs_trigger|].
    eapply execs_bind_ret; [by apply execs_trigger|]. by destruct w.
Qed.

Lemma execs_publishRemaining ns pool json s tr c err :
  remaining_outcome ns pool json (circuit s) tr c err ->
  execs (publishRemaining Recorder ns pool json s) tr (set_circuit c s, err).
Proof.
  destruct 1 as [e r Hs|tr c' e r Hs Hup Ho|tr c' e Hs Hup Ho|tr c' r Hs Hup]; unfold publishRemaining; rewrite Hs.
  - replace (set_circuit (circuit s) s) with s by by destruct s.
    apply (execs_lift_bind _ _ _ [] _ tt); [apply execs_recordEvent|]. rewrite <- (app_nil_r [_]).
    eapply execs_lift_bind; [apply execs_setReadyCondition|]. apply execs_ret.
  - eapply execs_state_bind; [by apply execs_upsert|]. cbv beta iota. rewrite Ho.
    apply (execs_lift_bind _ _ _ [] _ tt); [apply execs_recordEvent|]. rewrite <- (app_nil_r [_]).
    eapply execs_lift_bind; [apply execs_setReadyCondition|]. apply execs_ret.
  - rewrite <- (app_nil_r tr). eapply execs_state_bind; [by apply execs_upsert|]. cbv beta iota. rewrite Ho. apply execs_ret.
  - eapply execs_state_bind; [by apply execs_upsert|]. rewrite <- (app_nil_r [_]).
    eapply execs_lift_bind; [apply execs_setReadyCondition|]. apply execs_ret.
Qed.

Lemma execs_reconcileAfterPoolDeletion ns s tr s' err :
  deletion_outcome gen rend ns s tr s' err ->
  execs (reconcileAfterPoolDeletion Recorder gen rend ns s) tr (s', err).
Proof.
  assert (forall value, execs (operatorNamespace ns) [env_event "POD_NAMESPACE" value] (operator_ns value ns)) as Hns
    by (intros; by eapply execs_bind_ret; [by apply execs_trigger|]).
  destruct 1 as [e|items value tr err Hsort Hr|items pool rest value got err Hsort Hb
                |items pool rest value got json tr c err Hsort Hb Hr].
  - rewrite <- (app_nil_r [_]). eapply execs_lift_bind; [by apply execs_trigger|]. apply execs_ret.
  - apply (execs_lift_bind _ _ _ [ev _ _] _ (inr items)); [by apply execs_trigger|].
    apply (execs_lift_bind _ _ _ _ _ _ _ (Hns value)). rewrite Hsort. apply execs_modify.
    by apply execs_lift, execs_removeConfigKey.
  - apply (execs_lift_bind _ _ _ [ev _ _] _ (inr items)); [by apply execs_trigger|].
    apply (execs_lift_bind _ _ _ [env_event _ _] [ev _ _] _ _ (Hns value)). rewrite Hsort. apply execs_modify.
    rewrite <- (app_nil_r [_]). eapply execs_lift_bind; [apply execs_getDefaultCacheProfile|].
    unfold select. rewrite Hsort. unfold build_remaining in Hb.
    destruct (found_profile got) as [e|profile]; cbn [wrap_err result_bind] in Hb; [simplify_eq; apply execs_ret|].
    destruct (Generate gen (Some pool) profile) as [e|config]; cbn [wrap_err result_bind] in Hb;
      [simplify_eq; apply execs_ret|].
    destruct (Render rend (Some config)) as [e|text]; cbn [wrap_err result_bind] in Hb;
      [simplify_eq; apply execs_ret|].
    destruct (MarshalIndent config) as [e|json]; cbn [wrap_err] in Hb; simplify_eq. apply execs_ret.
  - apply (execs_lift_bind _ _ _ [ev _ _] _ (inr items)); [by apply execs_trigger|].
    apply (execs_lift_bind _ _ _ [env_event _ _] _ _ _ (Hns value)). rewrite Hsort. apply execs_modify.
    apply (execs_lift_bind _ _ _ [ev _ _] _ _ _ (execs_getDefaultCacheProfile _ got)).
    assert (execs (publishRemaining Recorder (operator_ns value ns) pool json (select ns items s)) tr
              (set_circuit c (select ns items s), err)) as Hx
      by (apply execs_publishRemaining; by rewrite circuit_select).
    unfold select in Hx at 1. rewrite Hsort in Hx. unfold build_remaining in Hb.
    destruct (found_profile got) as [e|profile]; cbn [wrap_err result_bind] in Hb; [done|].
    destruct (Generate gen (Some pool) profile) as [e|config]; cbn [wrap_err result_bind] in Hb; [done|].
    destruct (Render rend (Some config)) as [e|text]; cbn [wrap_err result_bind] in Hb; [done|].
    destruct (MarshalIndent config) as [e|json']; cbn [wrap_err] in Hb; [done|]. simplify_eq. exact Hx.
Qed.

(** Every outcome is reached. *)
Lemma reconcile_reaches req s tr s' res err :
  reconcile_outcome gen rend req s tr s' res err ->
  execs (Reconcile (Some gen) (Some rend) Recorder req s) tr (s', (res, err)).
Proof.
  destruct 1 as [e He|e tr s' err He Hd|pool tr e Hst|pool stamped tr tr' s' res err Hst Hp]; unfold Reconcile.
  - rewrite <- (app_nil_r [_]). eapply execs_lift_bind; [by apply execs_trigger|]. cbn. rewrite He. apply execs_ret.
  - apply (execs_lift_bind _ _ _ [ev _ _] _ (inl e)); [by apply execs_trigger|]. rewrite He.
    rewrite <- (app_nil_r tr). eapply execs_state_bind; [by apply execs_reconcileAfterPoolDeletion|]. apply execs_ret.
  - apply (execs_lift_bind _ _ _ [ev _ _] _ (inr pool)); [by apply execs_trigger|].
    rewrite <- (app_nil_r tr).
    apply (execs_lift_bind _ _ _ tr _ (inl (ErrWrap "patch initial-resource-version annotation: " e ""))).
    + inversion Hst as [|r Hann]; subst. unfold ensureInitialRVAnnotation. rewrite Hann.
      by eapply execs_bind_ret; [by apply execs_trigger|].
    + apply execs_ret.
  - apply (execs_lift_bind _ _ _ [ev _ _] _ (inr pool)); [by apply execs_trigger|].
    apply (execs_lift_bind _ _ _ tr _ (inr stamped)).
    + unfold ensureInitialRVAnnotation. inversion Hst as [v Hann|r Hann]; subst; rewrite Hann.
      * apply execs_ret.
      * by eapply execs_bind_ret; [by apply execs_trigger|].
    + by apply execs_reconcilePool.
Qed.

(** C16. The reconciler is exactly its specification: up to recorded events, the
    executions of a reconciliation with a generator and a renderer, over all
    answers of the API server, the clock and the environment, are the outcomes
    that [reconcile_outcome] lists, each with its calls, its new state and its
    results; no outcome is impossible. *)
Theorem reconcile_refinement req s tr s' res err :
  (exists tr', loud tr' = tr /\
     exec (Reconcile (Some gen) (Some rend) Recorder req s) tr' (s', (res, err))) <->
  reconcile_outcome gen rend req s tr s' res err.
Proof.
  split; [|apply reconcile_reaches]. intros (tr' & <- & Hx). by eapply reconcile_refines.
Qed.
End Complete.
