(* ===== verification/PoolProperties.v ===== *)
(** The correctness of the pool reconciler: what it writes to the agent's
    ConfigMap and when, what it reports, and how it uses its circuit breaker.
    All theorems hold for every execution of [Reconcile], with any API server,
    environment, clock, generator and renderer. *)
From S2P Require Import Prelude GoStrings GoErrors Sorting Types Kube.
From S2P Require Import PoolValidation PoolSelection CircuitBreaker Metrics PoolController PoolSpec.

(** ** Reading the outcomes *)

Lemma config_clock b t : omap as_config_write (clock b t) = [].
Proof. by destruct b. Qed.
Lemma status_clock b t : omap as_pool_status (clock b t) = [].
Proof. by destruct b. Qed.

Create Rewrite HintDb traces.
Lemma list_clock b t : omap as_pool_list (clock b t) = [].
Proof. by destruct b. Qed.
#[local] Hint Rewrite @omap_app config_clock status_clock list_clock : traces.

(** A document that passed the size check. *)
Lemma size_ok json :
  validateConfigMapPayloadSize json = None <-> int64 (len json + 11) <= 1044480.
Proof.
  unfold validateConfigMapPayloadSize. change (len agentConfigKey) with 11.
  change maxAgentConfigJSONBytes with 1044480.
  destruct (Z.ltb_spec 1044480 (int64 (len json + 11))); split; intros; try done; lia.
Qed.

Section Readers.
Context `{GoRuntime} `{SliceSorter} `{GaugeVec} `{ApiMachinery} `{EngineLib}.
Variables (gen : ConfigGenerator) (rend : ConfigRenderer).

(** The guarded write: no status, and either an open circuit and no write, or
    a single write that decides the result. *)
Lemma upsert_reads ns json c tr c' err :
  upsert_outcome ns json c tr c' err ->
  omap as_pool_status tr = [] /\
  ((omap as_config_write tr = [] /\
    exists now until, (isConfigMapCircuitOpen now ns c).2 = (until, true) /\
      c' = (isConfigMapCircuitOpen now ns c).1 /\
      tr = clock (has_window ns c) now /\ err = Some (circuit_open_error ns until)) \/
   (exists value w now until, (isConfigMapCircuitOpen now ns c).2 = (until, false) /\
      omap as_config_write tr = [(agent_config_map ns value, put_config json, w)] /\
      err = upsert_error ns value <$> w /\
      (exists tr', tr = clock (has_window ns c) now ++ tr') /\
      match w with
      | None => c' = resetConfigMapUpdateFailures ns (isConfigMapCircuitOpen now ns c).1
      | Some _ => exists now1 now2,
          c' = recordConfigMapUpdateFailure now1 now2 ns (isConfigMapCircuitOpen now ns c).1
      end)).
Proof.
  intros [now c1 until Hq|now now1 now2 c1 until value e Hq|now c1 until value Hq];
    autorewrite with traces; cbn; autorewrite with traces; (split; [done|]).
  - left. split; [done|]. exists now, until. by rewrite Hq.
  - right. exists value, (Some e), now, until. rewrite Hq. split_and!; eauto.
  - right. exists value, None, now, until. rewrite Hq. split_and!; eauto.
Qed.

(** A successful upsert wrote, and wrote the document. *)
Lemma upsert_success ns json c tr c' :
  upsert_outcome ns json c tr c' None ->
  exists value, omap as_config_write tr = [(agent_config_map ns value, put_config json, None)].
Proof.
  intros [_ [(_ & ? & ? & _ & _ & _ & ?)|(value & w & now & until & _ & Hw & He & _)]]%upsert_reads;
    [done|]. destruct w; [done|]. eauto.
Qed.

(** A failed one did not write successfully. *)
Lemma upsert_failure ns json c tr c' e cm f :
  upsert_outcome ns json c tr c' (Some e) -> omap as_config_write tr <> [(cm, f, None)].
Proof.
  intros [_ [(Hw & _)|(value & w & now & until & _ & Hw & He & _)]]%upsert_reads; rewrite Hw; [done|].
  destruct w; [congruence|done].
Qed.

(** ** What is published

    A publication for the namespace [ns] by a reconciler in state [s]: the
    document is the encoding of a configuration that the generator made for
    [pool] and the renderer could render, small enough for a ConfigMap; it goes
    under the agent's key of the agent's ConfigMap, and the circuit of that
    namespace was not open. *)
Record publication (s : PoolReconciler) (ns : string) (pool : DNSUpstreamPool)
    (cm : ConfigMap) (mutate : ConfigMap -> ConfigMap) : Prop := {
  pub_document : exists profile config text json,
    Generate gen (Some pool) profile = inr config /\ Render rend (Some config) = inr text /\
    MarshalIndent config = inr json /\ int64 (len json + 11) <= 2 ^ 20 - 2 ^ 12 /\
    mutate = put_config json;
  pub_target : exists value name now until,
    cm = agent_config_map (operator_ns value ns) name /\
    (isConfigMapCircuitOpen now (operator_ns value ns) (circuit s)).2 = (until, false);
}.

Lemma upsert_publication s ns value pool json tr c err profile config text :
  Generate gen (Some pool) profile = inr config -> Render rend (Some config) = inr text ->
  MarshalIndent config = inr json -> validateConfigMapPayloadSize json = None ->
  upsert_outcome (operator_ns value ns) json (circuit s) tr c err ->
  omap as_config_write tr = [] \/
  exists cm f w, omap as_config_write tr = [(cm, f, w)] /\ publication s ns pool cm f.
Proof.
  intros Hg Hr Hm Hs [_ [(Hw & _)|(name & w & now & until & Hq & Hw & _)]]%upsert_reads;
    [by left|right]. eexists _, _, _. split; [exact Hw|]. split; [|by eauto 10].
  exists profile, config, text, json. apply size_ok in Hs. by split_and!.
Qed.

Lemma build_remaining_inr pool got json :
  build_remaining gen rend pool got = inr json ->
  exists profile config text, found_profile got = inr profile /\
    Generate gen (Some pool) profile = inr config /\ Render rend (Some config) = inr text /\
    MarshalIndent config = inr json.
Proof.
  unfold build_remaining, wrap_err, result_bind. intros Hb. repeat case_match; simplify_eq. eauto 10.
Qed.

Lemma pool_outcome_writes pool s tr s' res err :
  pool_outcome gen rend pool s tr s' res err ->
  omap as_config_write tr = [] \/
  exists items cm f w, omap as_config_write tr = [(cm, f, w)] /\
    ev (ListPools (Namespace (pool_meta pool))) (inr items) ∈ tr /\
    validateDNSUpstreamPool (Some pool) = None /\ superseded_by items pool = None /\
    publication s (Namespace (pool_meta pool)) pool cm f.
Proof.
  destruct 1 as [| | | | |items got profile json value tr c e r Hv Hsup _ Hb Hup
                         |items got profile json value tr c r Hv Hsup _ Hb Hup];
    try (by left);
    apply build_inr in Hb as (config & text & Hg & Hr & Hm & Hs);
    cbn; autorewrite with traces; cbn; rewrite app_nil_r;
    destruct (upsert_publication _ _ _ pool _ _ _ _ _ _ _ Hg Hr Hm Hs Hup)
      as [?|(cm & f & w & Hw & Hp)]; try (by left); right;
    exists items, cm, f, w; split_and!; try done; by left.
Qed.

Lemma deletion_outcome_writes ns s tr s' err :
  deletion_outcome gen rend ns s tr s' err ->
  omap as_config_write tr = [] \/
  exists items cm f w, omap as_config_write tr = [(cm, f, w)] /\
    ev (ListPools ns) (inr items) ∈ tr /\
    match sortPoolsForSelection items with
    | pool :: _ => publication s ns pool cm f
    | [] => f = drop_config /\ exists key, ev (GetConfigMap key) (inr cm) ∈ tr
    end.
Proof.
  destruct 1 as [|items value tr err Hsort Hr| |items pool rest value got json tr c err Hsort Hb Hr];
    try (by left).
  - destruct Hr as [|name cm w]; [by left|]. right. exists items, cm, drop_config, w.
    rewrite Hsort. split_and!; try done; [by left|]. eexists. cbn. right. right. right. by left.
  - apply build_remaining_inr in Hb as (profile & config & text & _ & Hg & Hren & Hm).
    assert (omap as_config_write tr = [] \/ exists cm f w, omap as_config_write tr = [(cm, f, w)] /\
      publication s ns pool cm f) as Hw.
    { destruct Hr as [|? ? ? ? Hs Hup|? ? ? Hs Hup|? ? ? Hs Hup]; [by left|..];
        autorewrite with traces; cbn; rewrite ?app_nil_r; by eapply upsert_publication. }
    destruct Hw as [?|(cm & f & w & Hw & Hp)]; [by left|]. right.
    exists items, cm, f, w. rewrite Hsort. split_and!; try done. by left.
Qed.
End Readers.

(** ** The theorems *)

Section Theorems.
Context `{GoRuntime} `{SliceSorter} `{GaugeVec} `{ApiMachinery} `{EngineLib}.
Variables (gen : ConfigGenerator) (rend : ConfigRenderer) (Recorder : bool).

Abbreviation executes req s tr s' res err :=
  (exec (Reconcile (Some gen) (Some rend) Recorder req s) tr (s', (res, err))) (only parsing).

(** The writes of a reconciliation. *)
Lemma config_write_facts req s tr s' res err :
  executes req s tr s' res err ->
  omap as_config_write tr = [] \/
  exists ns items cm f w,
    omap as_config_write tr = [(cm, f, w)] /\ ev (ListPools ns) (inr items) ∈ tr /\
    ((exists pool pre stamped,
        ev (GetPool req) (inr pool) ∈ tr /\ stamp_outcome pool pre (inr stamped) /\
        ns = Namespace (pool_meta stamped) /\
        validateDNSUpstreamPool (Some stamped) = None /\ superseded_by items stamped = None /\
        publication gen rend s ns stamped cm f)
     \/
     (exists e,
        ev (GetPool req) (inl e) ∈ tr /\ IsNotFound e = true /\ ns = key_Namespace req /\
        match sortPoolsForSelection items with
        | pool :: _ => publication gen rend s ns pool cm f
        | [] => f = drop_config /\ exists key, ev (GetConfigMap key) (inr cm) ∈ tr
        end)).
Proof.
  intros Hr%reconcile_refines. rewrite <- omap_config_loud.
  assert (forall e, e ∈ loud tr -> e ∈ tr) as Hin by (intros e; rewrite elem_of_loud; tauto).
  inversion Hr as [|e tr1 s1 err1 He Hd Htr|pool0 pre0 e0 Hst Htr|pool stamped pre tr1 s1 res1 err1 Hst Hp Htr]; subst.
  - by left.
  - apply deletion_outcome_writes in Hd as [Hw|(items & cm & f & w & Hw & Hl & Hd)]; [by left|right].
    exists (key_Namespace req), items, cm, f, w. cbn. split; [done|].
    rewrite <- Htr in Hin. split; [apply Hin; by right|]. right. exists e.
    split; [apply Hin; by left|]. split_and!; [done..|].
    destruct (sortPoolsForSelection items); [|done]. destruct Hd as [-> [key Hk]].
    split; [done|]. exists key. apply Hin. by right.
  - left. inversion Hst; subst. done.
  - assert (omap as_config_write pre = []) as Hpre by (by inversion Hst).
    cbn. rewrite omap_app, Hpre. cbn.
    apply pool_outcome_writes in Hp as [Hw|(items & cm & f & w & Hw & Hl & Hp)]; [by left|right].
    exists (Namespace (pool_meta stamped)), items, cm, f, w. rewrite <- Htr in Hin.
    split; [done|]. split; [apply Hin; right; set_solver|]. left. exists pool, pre, stamped.
    split; [apply Hin; by left|]. done.
Qed.


(** The server answers with the object that was asked for or patched. *)
Definition names_kept (tr : trace) : Prop :=
  (forall key p, ev (GetPool key) (inr p) ∈ tr -> meta_key (pool_meta p) = key) /\
  (forall obj base p, ev (PatchPool obj base) (inr p) ∈ tr ->
     meta_key (pool_meta p) = meta_key (pool_meta obj)).

(** The same, read off the trace. *)
Lemma names_kept_read tr :
  Forall (fun '(key, r) => match r with
                           | inr p => meta_key (pool_meta p) = key
                           | inl _ => True
                           end) (omap as_pool_get tr) ->
  Forall (fun '(obj, _, r) => match r with
                              | inr p => meta_key (pool_meta p) = meta_key (pool_meta obj)
                              | inl _ => True
                              end) (omap as_pool_patch tr) ->
  names_kept tr.
Proof.
  rewrite !Forall_forall. intros Hg Hp. split.
  - intros key p Hin. apply (Hg (key, inr p)), list_elem_of_omap. by eexists.
  - intros obj base p Hin. apply (Hp (obj, base, inr p)), list_elem_of_omap. by eexists.
Qed.

(** The pool was found. *)
Definition reads_pool (req : NamespacedName) (tr : trace) (pool : DNSUpstreamPool) : Prop :=
  omap as_pool_get tr = [(req, inr pool)].

Lemma stamp_outcome_key req pool pre stamped tr :
  names_kept tr -> ev (GetPool req) (inr pool) ∈ tr -> (forall e, e ∈ pre -> e ∈ tr) ->
  stamp_outcome pool pre (inr stamped) -> meta_key (pool_meta stamped) = req.
Proof.
  intros [Hget Hpatch] Hp Hpre Hst. apply Hget in Hp. inversion Hst; subst; [done|].
  apply (Hpatch (stamp pool) pool), Hpre. by left.
Qed.

Lemma upsert_lists ns json c tr c' err :
  upsert_outcome ns json c tr c' err -> omap as_pool_list tr = [].
Proof. destruct 1; autorewrite with traces; cbn; by autorewrite with traces. Qed.

(** A pool that was found goes through the stamp and [pool_outcome]. *)
Lemma found_outcome req s tr s' res err pool :
  executes req s tr s' res err -> reads_pool req tr pool ->
  (exists pre e, stamp_outcome pool pre (inl e) /\ s' = s /\ res = no_requeue /\
     loud tr = ev (GetPool req) (inr pool) :: pre /\
     err = Some (ErrWrap "stamp initial resource version: "
                   (ErrWrap "patch initial-resource-version annotation: " e "") "")) \/
  (exists pre tr' stamped, stamp_outcome pool pre (inr stamped) /\
     pool_outcome gen rend stamped s tr' s' res err /\
     loud tr = ev (GetPool req) (inr pool) :: pre ++ tr').
Proof.
  unfold reads_pool. intros Hr%reconcile_refines. rewrite <- omap_get_loud.
  inversion Hr as [|e tr1 s1 err1 He Hd Htr|pool0 pre0 e0 Hst Htr
                  |pool1 stamped pre tr1 s1 res1 err1 Hst Hp Htr]; subst;
    cbn; intros Hget; simplify_eq; eauto 15.
Qed.

(** A pool that publishes was selected in the listing of its namespace. *)
Lemma publisher_selected req s tr s' res err pool :
  executes req s tr s' res err -> names_kept tr ->
  reads_pool req tr pool -> omap as_config_write tr <> [] ->
  exists items stamped, omap as_pool_list tr = [(key_Namespace req, inr items)] /\
    superseded_by items stamped = None /\ pool_name stamped = key_Name req.
Proof.
  intros Hx Hkept Hget. rewrite <- omap_config_loud, <- omap_list_loud.
  assert (forall e, e ∈ loud tr -> e ∈ tr) as Hin by (intros e; rewrite elem_of_loud; tauto).
  destruct (found_outcome _ _ _ _ _ _ _ Hx Hget)
    as [(pre & e & Hst & _ & _ & Hl & _)|(pre & tr' & stamped & Hst & Hp & Hl)]; rewrite Hl in *.
  { by inversion Hst. }
  assert (meta_key (pool_meta stamped) = req) as Hkey.
  { eapply stamp_outcome_key; [done| | |done]; [apply Hin; by left|].
    intros e' He'. apply Hin. right. set_solver. }
  assert (omap as_config_write pre = [] /\ omap as_pool_list pre = []) as [Hpre1 Hpre2]
    by (by inversion Hst).
  cbn. rewrite !omap_app, Hpre1, Hpre2. cbn. subst req.
  assert (forall ns json c tr c' err, upsert_outcome ns json c tr c' err -> omap as_pool_list tr = [])
    as Hlists by apply upsert_lists.
  destruct Hp as [| | | | |items got profile json value tr1 c e r Hv Hsup _ Hb Hup
                         |items got profile json value tr1 c r Hv Hsup _ Hb Hup]; try done;
    intros _; exists items, stamped; cbn; autorewrite with traces;
    (split; [|done]); by rewrite (Hlists _ _ _ _ _ _ Hup).
Qed.

(** C4. One publisher. Two reconciliations of existing pools of a namespace
    that see the same pools, in any order, more than one of them, distinctly
    named and ready for selection, cannot both write the configuration unless
    they are reconciliations of the same pool. *)
Theorem one_publisher (L : SliceSorterLaws) ns n1 n2 s1 tr1 o1 s2 tr2 o2 pool1 pool2 items1 items2 :
  let req1 := {| key_Namespace := ns; key_Name := n1 |} in
  let req2 := {| key_Namespace := ns; key_Name := n2 |} in
  exec (Reconcile (Some gen) (Some rend) Recorder req1 s1) tr1 o1 ->
  exec (Reconcile (Some gen) (Some rend) Recorder req2 s2) tr2 o2 ->
  names_kept tr1 -> names_kept tr2 ->
  reads_pool req1 tr1 pool1 -> reads_pool req2 tr2 pool2 ->
  omap as_pool_list tr1 = [(ns, inr items1)] -> omap as_pool_list tr2 = [(ns, inr items2)] ->
  items1 ≡ₚ items2 -> (1 < length items1)%nat ->
  selection_ready items1 -> NoDup (pool_name <$> items1) ->
  omap as_config_write tr1 <> [] -> omap as_config_write tr2 <> [] ->
  n1 = n2.
Proof.
  intros req1 req2 Hx1 Hx2 Hk1 Hk2 Hp1 Hp2 Hl1 Hl2 Hperm Hlen Hready Hnd Hw1 Hw2.
  destruct o1 as [s1' [res1 err1]], o2 as [s2' [res2 err2]].
  destruct (publisher_selected _ _ _ _ _ _ _ Hx1 Hk1 Hp1 Hw1) as (i1 & p1 & Hi1 & Hs1 & Hn1).
  destruct (publisher_selected _ _ _ _ _ _ _ Hx2 Hk2 Hp2 Hw2) as (i2 & p2 & Hi2 & Hs2 & Hn2).
  cbn in *. assert (i1 = items1) as -> by congruence. assert (i2 = items2) as -> by congruence.
  unfold superseded_by in Hs1, Hs2.
  rewrite <- (sort_pools_unique _ _ items1 items2) in Hs2 by done.
  rewrite <- (Permutation_length Hperm) in Hs2.
  destruct (sortPoolsForSelection items1) as [|active rest] eqn:Hsort.
  { pose proof (sort_Slice_perm pool_less items1) as Hp. unfold sortPoolsForSelection in Hsort.
    rewrite Hsort in Hp. apply Permutation_nil_l in Hp. subst. cbn in Hlen. lia. }
  rewrite (proj2 (Z.ltb_lt 1 _)) in Hs1, Hs2 by lia. cbn in Hs1, Hs2.
  repeat case_bool_decide; cbn in *; congruence.
Qed.

(** ** What is reported *)

(** The report of a reconciliation with config writes [writes], results [res]
    and [err], about [pool]: the condition [Ready] with the given status and
    reason, observed at the pool's generation, and nothing else of the pool.
    It is true exactly if the configuration was just written. A failed report
    is the error; otherwise there is an error (and so a retry) exactly for the
    transient reasons, and a delayed retry exactly for an open circuit. *)
Record report (pool : DNSUpstreamPool)
    (writes : list (ConfigMap * (ConfigMap -> ConfigMap) * option error))
    (obj base : DNSUpstreamPool) (r : option error)
    (res : ReconcileResult) (err : option error) (status : ConditionStatus) (reason message : string)
    : Prop := {
  report_object : obj = with_ready pool (ready_condition pool status reason message) /\ base = pool;
  report_status : status = ConditionTrue \/ status = ConditionFalse;
  report_ready : status = ConditionTrue <-> exists cm f, writes = [(cm, f, None)];
  report_delay : res = if bool_decide (reason = "ConfigMapCircuitOpen")
                       then {| RequeueAfter := 30 * Second |} else no_requeue;
  report_error : match r with
                 | Some e => err = Some (ErrWrap "update DNSUpstreamPool status: " e "")
                 | None => err <> None <-> reason = "ProfileLookupFailed" \/ reason = "ConfigMapUpdateFailed"
                 end;
}.

Lemma build_reason pool profile reason e :
  build gen rend pool profile = inl (reason, e) ->
  reason ∈ ["ConfigGenerationFailed"; "ValidationFailed"; "MarshalFailed"; "ConfigTooLarge"].
Proof. unfold build. intros Hb. repeat case_match; simplify_eq; set_solver. Qed.

(** A report of a refusal that needs no retry, without a write. *)
Lemma report_refusal pool reason message r :
  reason ∈ ["InvalidSpec"; "Superseded"; "ConfigGenerationFailed"; "ValidationFailed";
            "MarshalFailed"; "ConfigTooLarge"] ->
  report pool [] (with_ready pool (ready_condition pool ConditionFalse reason message)) pool r
    no_requeue (status_error r) ConditionFalse reason message.
Proof.
  intros Hin. assert (reason <> "ConfigMapCircuitOpen" /\ reason <> "ProfileLookupFailed" /\
    reason <> "ConfigMapUpdateFailed") as (N1 & N2 & N3)
    by (split_and!; intros ->; revert Hin; by apply (bool_decide_unpack _); vm_compute).
  split; [done|by right| | |].
  - split; [done|]. by intros (? & ? & ?).
  - by rewrite bool_decide_false.
  - destruct r; cbn; [done|]. split; [done|]. by intros [?|?].
Qed.

Lemma pool_outcome_report pool s tr s' res err :
  pool_outcome gen rend pool s tr s' res err ->
  (omap as_pool_status tr = [] /\ omap as_config_write tr = [] /\ res = no_requeue /\
   exists e, tr = [ev (ListPools (Namespace (pool_meta pool))) (inl e)] /\ err <> None) \/
  exists obj base r status reason message,
    omap as_pool_status tr = [(obj, base, r)] /\
    report pool (omap as_config_write tr) obj base r res err status reason message.
Proof.
  destruct 1 as [e r Hv|e Hv|items active r Hv Hsup|items got e r Hv Hsup Hgot
                |items got profile reason e r Hv Hsup Hgot Hb
                |items got profile json value tr c e r Hv Hsup Hgot Hb Hup
                |items got profile json value tr c r Hv Hsup Hgot Hb Hup];
    [right| left; by eauto 10|right..].
  - do 6 eexists. split; [reflexivity|]. apply report_refusal. set_solver.
  - do 6 eexists. split; [reflexivity|]. apply report_refusal. set_solver.
  - do 6 eexists. split; [reflexivity|]. split; [done|by right|by split; [|intros (? & ? & ?)]|done|].
    destruct r; cbn; [done|]. split; [by left|done].
  - do 6 eexists. split; [reflexivity|]. apply report_refusal. apply build_reason in Hb. set_solver.
  - pose proof (upsert_reads _ _ _ _ _ _ Hup) as [Hst _].
    pose proof (fun cm f => upsert_failure _ _ _ _ _ _ cm f Hup) as Hw.
    do 6 eexists. cbn. autorewrite with traces. rewrite Hst. split; [reflexivity|].
    cbn. rewrite app_nil_r. split; [done|by right| | |].
    + split; [done|]. by intros (cm & f & ?%Hw).
    + subst open e0. cbn. by destruct (errors_Is e errConfigMapCircuitOpen).
    + subst open e0. cbn. destruct r; cbn; [done|].
      destruct (errors_Is e errConfigMapCircuitOpen).
      * split; [done|]. by intros [?|?].
      * split; [by right|done].
  - pose proof (upsert_reads _ _ _ _ _ _ Hup) as [Hst _].
    destruct (upsert_success _ _ _ _ _ Hup) as [name Hw].
    do 6 eexists. cbn. autorewrite with traces. rewrite Hst, Hw. split; [reflexivity|].
    cbn. split; [done|by left|split; [by eauto|done]|done|]. destruct r; cbn; [done|]. split; [done|]. by intros [?|?].
Qed.

(** C5. Every reconciliation of an existing pool reports on it exactly once,
    after the writing, unless the stamp or the listing failed, which writes
    nothing and is returned as an error. [Ready] is reported true exactly when
    the configuration has just been written. Without a failure of the report,
    an error is returned for a failed profile lookup or ConfigMap write only,
    a retry after 30 seconds is asked for an open circuit only, and an invalid,
    superseded or unrenderable pool is not retried. *)
Theorem ready_report req s tr s' res err pool :
  executes req s tr s' res err -> reads_pool req tr pool ->
  match omap as_pool_status tr with
  | [] =>
      omap as_config_write tr = [] /\ res = no_requeue /\ err <> None /\
      exists e, (exists obj base, ev (PatchPool obj base) (inl e) ∈ tr) \/
                (exists ns, ev (ListPools ns) (inl e) ∈ tr)
  | [(obj, base, r)] =>
      exists pre stamped status reason message, stamp_outcome pool pre (inr stamped) /\
        report stamped (omap as_config_write tr) obj base r res err status reason message
  | _ => False
  end.
Proof.
  intros Hx Hget. rewrite <- omap_config_loud, <- omap_status_loud.
  assert (forall e, e ∈ loud tr -> e ∈ tr) as Hin by (intros e; rewrite elem_of_loud; tauto).
  destruct (found_outcome _ _ _ _ _ _ _ Hx Hget)
    as [(pre & e & Hst & _ & -> & Hl & ->)|(pre & tr' & stamped & Hst & Hp & Hl)]; rewrite Hl in *.
  - inversion Hst; subst. cbn. split_and!; try done. exists e. left. eexists _, _. apply Hin.
    right. by left.
  - assert (omap as_config_write pre = [] /\ omap as_pool_status pre = []) as [Hpre1 Hpre2]
      by (by inversion Hst).
    cbn. rewrite !omap_app, Hpre1, Hpre2. cbn.
    apply pool_outcome_report in Hp as [(-> & -> & -> & e & -> & He)
                                       |(obj & base & r & status & reason & message & -> & Hrep)].
    + split_and!; try done. exists e. right. eexists. apply Hin. right. apply elem_of_app. right. by left.
    + by eauto 10.
Qed.

(** ** The circuit breaker in use *)

(** How a document write that answered [w] changes its namespace's breaker,
    which counted [n] failures: a success resets it, a failure counts, and the
    third opens it for thirty seconds from a reading of the clock. *)
Inductive resolve (tr : trace) : option error -> Z -> breaker -> Prop :=
  | resolve_success n : resolve tr None n (Closed 0)
  | resolve_failure e n : n + 1 < 3 -> resolve tr (Some e) n (Closed (n + 1))
  | resolve_trip e n t :
      n + 1 = 3 -> ev Now t ∈ tr -> resolve tr (Some e) n (Open (t + 30 * Second)).

(** A document is written through a closed breaker, or through an open one
    once the clock has been read later than the end of its window. *)
Inductive attempt (tr : trace) (w : option error) : breaker -> breaker -> Prop :=
  | attempt_closed n b : resolve tr w n b -> attempt tr w (Closed n) b
  | attempt_expired u now b :
      ev Now now ∈ tr -> u < now -> resolve tr w 0 b -> attempt tr w (Open u) b.

(** What a reconciliation does to the breakers: it concerns at most one
    namespace [ns]; either no document is written and nothing changes, or one
    is written in [ns] and its breaker makes the step above. *)
Definition breaker_effect (c c' : Circuit) (tr : trace) : Prop :=
  exists ns, (forall ns', ns' <> ns -> circuit_of c' ns' = circuit_of c ns') /\
    ((circuit_of c' ns = circuit_of c ns /\
      forall cm f w, (cm, f, w) ∈ omap as_config_write tr -> f = drop_config) \/
     exists value json w,
       omap as_config_write tr = [(agent_config_map ns value, put_config json, w)] /\
       attempt tr w (circuit_of c ns) (circuit_of c' ns)).

Lemma query_breaker now ns c c1 until open :
  circuit_ok c -> isConfigMapCircuitOpen now ns c = (c1, (until, open)) ->
  circuit_ok c1 /\ (forall ns', ns' <> ns -> circuit_of c1 ns' = circuit_of c ns') /\
  if (open : bool) then circuit_of c1 ns = circuit_of c ns
  else exists n, circuit_of c1 ns = Closed n /\
         (circuit_of c ns = Closed n \/ exists u, n = 0 /\ circuit_of c ns = Open u /\ u < now).
Proof.
  intros Hok Hq. pose proof (f_equal snd Hq) as Ha. rewrite isConfigMapCircuitOpen_spec in Ha. cbn in Ha.
  assert (c1 = step_circuit (Query now) ns c) as -> by (cbn; by rewrite Hq).
  split; [by apply step_circuit_ok|]. split.
  { intros ns' Hne. rewrite step_circuit_spec, decide_False; done. }
  rewrite step_circuit_spec, decide_True by done. cbn.
  destruct (circuit_of c ns) as [n|u]; simplify_eq; [by eauto|].
  destruct (Z.ltb_spec u now); simplify_eq; [|done]. eauto 10.
Qed.

Lemma window_open ns c u : circuit_of c ns = Open u -> has_window ns c = true.
Proof. unfold circuit_of, has_window, window. by destruct (map_lookup (OpenUntil c) ns). Qed.

(** A closed breaker trips exactly at its third failure. *)
Lemma trips_closed now1 ns c n :
  circuit_ok c -> circuit_of c ns = Closed n -> 0 <= n < 3 /\ trips now1 ns c = negb (n + 1 <? 3).
Proof.
  intros Hok Hc. destruct (Hok ns) as [Hn _]. unfold circuit_of in Hc. unfold trips, window.
  destruct (map_lookup (OpenUntil c) ns); [done|]. injection Hc as <-. split; [done|].
  rewrite int64_id by (unfold in_int64; lia). cbn. by rewrite Z.ltb_antisym, negb_involutive.
Qed.

(** The guarded write makes that step, or finds the circuit open. *)
Lemma upsert_breaker ns json c tr c' err :
  circuit_ok c -> upsert_outcome ns json c tr c' err ->
  circuit_ok c' /\ (forall ns', ns' <> ns -> circuit_of c' ns' = circuit_of c ns') /\
  ((circuit_of c' ns = circuit_of c ns /\ omap as_config_write tr = []) \/
   exists value w, omap as_config_write tr = [(agent_config_map ns value, put_config json, w)] /\
     attempt tr w (circuit_of c ns) (circuit_of c' ns)).
Proof.
  intros Hok Hup.
  assert (forall op c1, circuit_ok c1 -> (forall ns', ns' <> ns -> circuit_of c1 ns' = circuit_of c ns') ->
    circuit_ok (step_circuit op ns c1) /\
    forall ns', ns' <> ns -> circuit_of (step_circuit op ns c1) ns' = circuit_of c ns') as Hframe.
  { intros op c1 Hok1 Hne. split; [by apply step_circuit_ok|]. intros ns' Hns.
    rewrite step_circuit_spec, decide_False; auto. }
  assert (forall now l w n b, ev Now now ∈ clock (has_window ns c) now ++ l \/ has_window ns c = false ->
    (circuit_of c ns = Closed n \/ exists u, n = 0 /\ circuit_of c ns = Open u /\ u < now) ->
    resolve (clock (has_window ns c) now ++ l) w n b ->
    attempt (clock (has_window ns c) now ++ l) w (circuit_of c ns) b) as Hattempt.
  { intros now l w n b Hnow [->|(u & -> & Hu & Hlt)] Hr; [by constructor|].
    rewrite Hu. destruct Hnow as [Hnow|Hf]; [by econstructor|]. by rewrite (window_open _ _ _ Hu) in Hf. }
  assert (forall now l, ev Now now ∈ clock (has_window ns c) now ++ l \/ has_window ns c = false) as Hclock.
  { intros now l. destruct (has_window ns c); [left; set_solver|by right]. }
  destruct Hup as [now c1 until Hq|now now1 now2 c1 until value e Hq|now c1 until value Hq];
    apply query_breaker in Hq as (Hok1 & Hne & Hc); try done.
  - split; [done|]. split; [done|]. left. by rewrite config_clock.
  - destruct Hc as (n & Hn & Hc). destruct (trips_closed now1 ns c1 n Hok1 Hn) as [Hr Ht].
    destruct (Hframe (Failure now1 now2) c1 Hok1 Hne) as [? ?].
    split; [done|]. split; [done|]. right. exists value, (Some e).
    autorewrite with traces. cbn. autorewrite with traces. split; [done|].
    apply (Hattempt _ _ _ n); [apply Hclock|done|].
    change (recordConfigMapUpdateFailure now1 now2 ns c1) with (step_circuit (Failure now1 now2) ns c1).
    rewrite step_circuit_spec, decide_True, Hn, Ht by done. cbn. unfold spec_failure.
    destruct (Z.ltb_spec (n + 1) 3); cbn; constructor; try lia.
    rewrite !elem_of_app. set_solver.
  - destruct Hc as (n & Hn & Hc). destruct (Hframe Success c1 Hok1 Hne) as [? ?].
    split; [done|]. split; [done|]. right. exists value, None.
    autorewrite with traces. split; [done|]. apply (Hattempt _ _ _ n); [apply Hclock|done|].
    change (resetConfigMapUpdateFailures ns c1) with (step_circuit Success ns c1).
    rewrite step_circuit_spec, decide_True, Hn by done. constructor.
Qed.

Lemma attempt_mono tr tr' w b b' : tr ⊆ tr' -> attempt tr w b b' -> attempt tr' w b b'.
Proof.
  assert (forall n d, tr ⊆ tr' -> resolve tr w n d -> resolve tr' w n d) as Hres.
  { intros n d Hsub Hr. destruct Hr; constructor; auto. }
  intros Hsub [n d Hr|u now d Hnow Hlt Hr]; econstructor; eauto.
Qed.

(** The effect of a reconciliation that keeps the counts in range. *)
Definition breaker_step (c c' : Circuit) (tr : trace) : Prop :=
  circuit_ok c -> circuit_ok c' /\ breaker_effect c c' tr.

Lemma breaker_none c tr :
  (forall cm f w, (cm, f, w) ∈ omap as_config_write tr -> f = drop_config) -> breaker_step c c tr.
Proof. intros Hw Hok. split; [done|]. exists "". auto. Qed.

(** Calls around that write nothing, or that are only seen in a log, do not
    matter. *)
Lemma breaker_widen c c' tr tr' :
  tr ⊆ tr' -> omap as_config_write tr' = omap as_config_write tr ->
  breaker_step c c' tr -> breaker_step c c' tr'.
Proof.
  intros Hsub Hw Hstep Hok. destruct (Hstep Hok) as (? & ns & ? & Heff). split; [done|]. exists ns.
  split; [done|]. rewrite Hw. destruct Heff as [?|(value & json & w & ? & ?)]; [by left|right].
  exists value, json, w. split; [done|]. by eapply attempt_mono.
Qed.

Lemma breaker_upsert ns json c tr c' err : upsert_outcome ns json c tr c' err -> breaker_step c c' tr.
Proof.
  intros Hup Hok. destruct (upsert_breaker _ _ _ _ _ _ Hok Hup) as (? & ? & Heff).
  split; [done|]. exists ns. split; [done|].
  destruct Heff as [[? ->]|(value & w & ? & ?)]; [left; split; [done|set_solver]|right; eauto].
Qed.

(** A guarded write between calls that do not write. *)
Lemma breaker_around pre post ns json c tr c' err :
  upsert_outcome ns json c tr c' err ->
  omap as_config_write pre = [] -> omap as_config_write post = [] ->
  breaker_step c c' (pre ++ tr ++ post).
Proof.
  intros Hup%breaker_upsert Hpre Hpost. apply (breaker_widen _ _ tr); [set_solver| |done].
  by rewrite !omap_app, Hpre, Hpost, app_nil_r.
Qed.

Lemma pool_outcome_breaker pool s tr s' res err :
  pool_outcome gen rend pool s tr s' res err -> breaker_step (circuit s) (circuit s') tr.
Proof.
  destruct 1 as [| | | | |items got profile json value tr c e r Hv Hsup _ Hb Hup
                         |items got profile json value tr c r Hv Hsup _ Hb Hup];
    rewrite ?circuit_select; try (apply breaker_none; cbn; set_solver);
    by refine (breaker_around [_; _; _] [_] _ _ _ _ _ _ Hup _ _).
Qed.

Lemma deletion_outcome_breaker ns s tr s' err :
  deletion_outcome gen rend ns s tr s' err -> breaker_step (circuit s) (circuit s') tr.
Proof.
  destruct 1 as [|items value tr err Hsort Hr| |items pool rest value got json tr c err Hsort Hb Hr];
    rewrite ?circuit_select; try (apply breaker_none; cbn; set_solver).
  - apply breaker_none. destruct Hr; cbn; set_solver.
  - destruct Hr as [|? ? ? ? Hs Hup|? ? ? Hs Hup|? ? ? Hs Hup]; cbn.
    + apply breaker_none. cbn. set_solver.
    + by refine (breaker_around [_; _; _] [_] _ _ _ _ _ _ Hup _ _).
    + rewrite <- (app_nil_r tr). by refine (breaker_around [_; _; _] [] _ _ _ _ _ _ Hup _ _).
    + by refine (breaker_around [_; _; _] [_] _ _ _ _ _ _ Hup _ _).
Qed.

Lemma executes_breaker req s tr s' res err :
  executes req s tr s' res err -> breaker_step (circuit s) (circuit s') tr.
Proof.
  intros Hr%reconcile_refines. apply (breaker_widen _ _ (loud tr)).
  { by intros e [_ ?]%elem_of_loud. }
  { by rewrite omap_config_loud. }
  destruct Hr as [|e tr1 s1 err1 He Hd|pool pre e Hst|pool stamped pre tr1 s1 res1 err1 Hst Hp].
  - apply breaker_none. cbn. set_solver.
  - apply (breaker_widen _ _ tr1); [set_solver|done|]. by eapply deletion_outcome_breaker.
  - apply breaker_none. inversion Hst; cbn; set_solver.
  - apply (breaker_widen _ _ tr1); [set_solver| |by eapply pool_outcome_breaker].
    cbn. rewrite omap_app. by inversion Hst.
Qed.

(** The breaker guards the documents. A reconciliation concerns the breaker
    of at most one namespace, the one it writes a document to. The document
    goes through a closed breaker, or an open one once the clock has been read
    later than the end of its window; its success resets the breaker, its
    failure counts, and the third failure opens it for thirty seconds from a
    reading of the clock. An attempt that was not made, because the breaker is
    open, leaves every breaker as it was. *)
Lemma reconcile_circuits req s tr s' res err :
  executes req s tr s' res err -> circuit_ok (circuit s) ->
  circuit_ok (circuit s') /\ breaker_effect (circuit s) (circuit s') tr.
Proof. apply executes_breaker. Qed.

(** ** The metric *)

(** What a reconciliation should record, from the pools it has listed: the
    selected pool, or, after a deletion that leaves none, nothing. *)
Definition metric_ops (tr : trace) : list metric_op :=
  match omap as_pool_list tr with
  | [(ns, inr items)] =>
      match sortPoolsForSelection items, omap as_pool_get tr with
      | active :: _, _ => [Record_selection ns (pool_name active) (selection_reason items)]
      | [], [(_, inl _)] => [Clear ns]
      | [], _ => []
      end
  | _ => []
  end.

Lemma metric_select ns items s :
  metric (select ns items s) =
    match sortPoolsForSelection items with
    | active :: _ =>
        metric_step (metric s) (Record_selection ns (pool_name active) (selection_reason items))
    | [] => metric s
    end.
Proof.
  unfold select. destruct (sortPoolsForSelection items); [|done]. cbn.
  unfold recordActivePoolSelectionMetric. by rewrite orb_true_r.
Qed.

Lemma pool_outcome_listing pool s tr s' res err :
  pool_outcome gen rend pool s tr s' res err ->
  let ns := Namespace (pool_meta pool) in
  (exists items, omap as_pool_list tr = [(ns, inr items)] /\ metric s' = metric (select ns items s)) \/
  ((omap as_pool_list tr = [] \/ exists e, omap as_pool_list tr = [(ns, inl e)]) /\ s' = s).
Proof.
  intros Hp ns. destruct Hp; [by right; eauto|by right; eauto|left; exists items..];
    cbn; rewrite ?omap_app; cbn; try done;
    repeat match goal with Hup : upsert_outcome _ _ _ _ _ _ |- _ =>
      rewrite (upsert_lists _ _ _ _ _ _ Hup); clear Hup end; done.
Qed.

(** The metric follows the selection: a reconciliation records exactly the
    pool that its listing selects in the namespace, whatever happens to it
    afterwards, clears the namespace when a deletion has left no pool, and
    leaves the metric alone when it could not list. *)
Lemma metric_follows_selection req s tr s' res err :
  executes req s tr s' res err ->
  metric s' = foldl metric_step (metric s) (metric_ops tr).
Proof.
  intros Hr%reconcile_refines. unfold metric_ops. rewrite <- omap_list_loud, <- omap_get_loud.
  destruct Hr as [|e tr1 s1 err1 He Hd|pool pre e Hst|pool stamped pre tr1 s1 res1 err1 Hst Hp].
  - done.
  - destruct Hd as [|items value tr1 err Hsort Hr|items pool rest value got err Hsort Hb
                   |items pool rest value got json tr1 c err Hsort Hb Hr];
      cbn -[metric_step]; rewrite ?metric_select, ?Hsort; try done.
    + assert (omap as_pool_list tr1 = [] /\ omap as_pool_get tr1 = []) as [-> ->] by (by destruct Hr).
      done.
    + assert (omap as_pool_list tr1 = []) as ->; [|done].
      destruct Hr; rewrite ?omap_app; cbn; try done;
        by repeat match goal with Hup : upsert_outcome _ _ _ _ _ _ |- _ =>
          rewrite (upsert_lists _ _ _ _ _ _ Hup); clear Hup end.
  - by inversion Hst.
  - assert (omap as_pool_list pre = []) as Hpre by (by inversion Hst).
    cbn -[metric_step]. rewrite (omap_app as_pool_list), Hpre. cbn -[metric_step].
    apply pool_outcome_listing in Hp as [(items & -> & ->)|[[->|[e ->]] ->]]; [|done..].
    rewrite metric_select. destruct (sortPoolsForSelection items); [|done].
    by destruct (omap as_pool_get (pre ++ tr1)).
Qed.

(** ** The ConfigMap's other keys *)

(** The functions that change the ConfigMap touch the key config.json
    only: publishing sets it and can be repeated, removing deletes it, and
    every other key, whoever owns it, keeps its value. *)
Lemma config_map_frame json cm :
  (forall k, map_lookup (cm_Data (put_config json cm)) k
             = if decide (k = "config.json") then Some json else map_lookup (cm_Data cm) k) /\
  (forall k, map_lookup (cm_Data (drop_config cm)) k
             = if decide (k = "config.json") then None else map_lookup (cm_Data cm) k) /\
  put_config json (put_config json cm) = put_config json cm /\
  cm_key (put_config json cm) = cm_key cm /\ cm_key (drop_config cm) = cm_key cm.
Proof.
  unfold put_config, drop_config. destruct cm as [key [m|]]; cbn; split_and!; try done;
    try (by rewrite insert_insert_eq); intros k; unfold agentConfigKey;
    rewrite ?lookup_insert, ?lookup_delete, ?lookup_empty; repeat case_decide; congruence.
Qed.
End Theorems.
