(* ===== verification/PoolHistory.v ===== *)
(** The pool reconciler over time: sequences of reconciliations, as its one
    worker runs them, and what the circuit breaker does across them. Nothing
    relates the answers of the API server in one reconciliation to those in
    another, so the theorems hold whatever happens in between. *)
From S2P Require Import Prelude GoStrings GoErrors Sorting Types Kube.
From S2P Require Import PoolValidation PoolSelection CircuitBreaker Metrics PoolController PoolSpec.
From S2P Require Import PoolProperties.

(** ** Document writes *)

(** The answers to the writes of a document in the namespace: a write whose
    result holds the configuration. *)
Definition attempts (ns : string) (tr : trace) : list (option error) :=
  omap (fun '(cm, f, w) =>
          if bool_decide (key_Namespace (cm_key cm) = ns)
             && bool_decide (is_Some (map_lookup (cm_Data (f cm)) agentConfigKey))
          then Some w else None) (omap as_config_write tr).

Definition writes (ns : string) (trs : list trace) : list (option error) := concat (attempts ns <$> trs).

(** The failures since the last success. *)
Definition streak (l : list (option error)) : Z :=
  foldl (fun n w => match w with
                    | None => 0
                    | Some _ => n + 1
                    end) 0 l.

Lemma writes_snoc ns trs tr : writes ns (trs ++ [tr]) = writes ns trs ++ attempts ns tr.
Proof. unfold writes. rewrite fmap_app, concat_app. cbn. by rewrite app_nil_r. Qed.

Lemma writes_app ns trs trs' : writes ns (trs ++ trs') = writes ns trs ++ writes ns trs'.
Proof. unfold writes. by rewrite fmap_app, concat_app. Qed.

Lemma writes_nil ns trs tr : writes ns trs = [] -> tr ∈ trs -> attempts ns tr = [].
Proof.
  unfold writes. induction trs as [|tr' trs IH]; [set_solver|]. cbn.
  intros [Hh Ht]%app_nil Hin. set_solver.
Qed.

(** The last trace with a write is unique. *)
Lemma last_write_unique ns pre tr post pre' tr' post' :
  pre ++ tr :: post = pre' ++ tr' :: post' ->
  writes ns post = [] -> writes ns post' = [] -> attempts ns tr <> [] -> attempts ns tr' <> [] ->
  tr = tr'.
Proof.
  intros Heq Hpost Hpost' Htr Htr'.
  apply app_eq_app in Heq as (k & [[-> Heq]|[-> Heq]]); (destruct k as [|x k]; cbn in Heq; simplify_eq; [done|]).
  - destruct Htr. apply (writes_nil _ _ _ Hpost'). set_solver.
  - destruct Htr'. apply (writes_nil _ _ _ Hpost). set_solver.
Qed.

Lemma streak_snoc l w : streak (l ++ [w]) = match w with None => 0 | Some _ => streak l + 1 end.
Proof. unfold streak. by rewrite foldl_app. Qed.

Lemma streak_nonneg l : 0 <= streak l.
Proof.
  induction l as [|w l IH] using rev_ind; [done|]. rewrite streak_snoc. destruct w; lia.
Qed.

(** One reconciliation, seen from any namespace. *)
Lemma breaker_effect_attempts c c' tr ns :
  breaker_effect c c' tr ->
  (attempts ns tr = [] /\ circuit_of c' ns = circuit_of c ns) \/
  exists w, attempts ns tr = [w] /\ attempt tr w (circuit_of c ns) (circuit_of c' ns).
Proof.
  intros (ns' & Hframe & [[Hsame Hdrop]|(value & json & w & Hw & Ha)]).
  - left. split; [|by destruct (decide (ns = ns')); subst; auto].
    unfold attempts. induction (omap as_config_write tr) as [|[[cm f] w] l IH]; [done|].
    cbn. rewrite (Hdrop cm f w) by set_solver. rewrite (bool_decide_false (is_Some _)), andb_false_r.
    + apply IH. intros cm' f' w' Hin. apply (Hdrop cm' f' w'). set_solver.
    + unfold drop_config. cbn. intros [v Hv]. destruct (cm_Data cm); cbn in Hv;
        [by rewrite lookup_delete_eq in Hv|by rewrite lookup_empty in Hv].
  - unfold attempts. rewrite Hw. cbn. rewrite lookup_insert_eq, (bool_decide_true (is_Some _)) by done.
    rewrite andb_true_r. case_bool_decide as Hns; cbn; subst; [right; eauto|left; auto].
Qed.

Section History.
Context `{GoRuntime} `{SliceSorter} `{GaugeVec} `{ApiMachinery} `{EngineLib}.
Variables (gen : ConfigGenerator) (rend : ConfigRenderer) (Recorder : bool).

(** The traces of reconciliations run one after the other. *)
Inductive reconciliations (s : PoolReconciler) : list trace -> PoolReconciler -> Prop :=
  | no_reconciliation : reconciliations s [] s
  | next_reconciliation trs s1 req tr s2 res err :
      reconciliations s trs s1 ->
      exec (Reconcile (Some gen) (Some rend) Recorder req s1) tr (s2, (res, err)) ->
      reconciliations s (trs ++ [tr]) s2.

(** The breaker of a namespace, from the writes alone: it counts the failures
    modulo three, and has been opened by the last write when they are a
    positive multiple of three. *)
Definition breaker_after (ns : string) (trs : list trace) (b : breaker) : Prop :=
  match b with
  | Closed n => n = streak (writes ns trs) `mod` 3 /\ (n = 0 -> streak (writes ns trs) = 0)
  | Open u =>
      0 < streak (writes ns trs) /\ streak (writes ns trs) `mod` 3 = 0 /\
      exists pre failed post t, trs = pre ++ failed :: post /\ attempts ns failed <> [] /\
        writes ns post = [] /\ ev Now t ∈ failed /\ u = t + 30 * Second
  end.

Lemma breaker_after_attempt ns trs tr w b b' :
  attempts ns tr = [w] -> attempt tr w b b' -> breaker_after ns trs b -> breaker_after ns (trs ++ [tr]) b'.
Proof.
  intros Hw Ha Hb.
  assert (exists n, resolve tr w n b' /\ n = streak (writes ns trs) `mod` 3) as (n & Hr & Hn).
  { destruct Ha as [n b' Hr|u now b' _ _ Hr]; [by exists n; destruct Hb|].
    exists 0. by destruct Hb as (_ & -> & _). }
  clear Ha Hb. pose proof (streak_nonneg (writes ns trs)).
  pose proof (Z.mod_pos_bound (streak (writes ns trs)) 3 ltac:(lia)).
  pose proof (Z.div_mod (streak (writes ns trs)) 3 ltac:(lia)) as Hdiv.
  unfold breaker_after. rewrite writes_snoc, Hw, streak_snoc.
  destruct Hr as [|e n Hlt|e n t Heq Ht]; [done| |].
  - split; [|lia]. apply (Z.mod_unique _ _ (streak (writes ns trs) / 3)); lia.
  - split; [lia|]. split.
    + symmetry. apply (Z.mod_unique _ _ (streak (writes ns trs) / 3 + 1)); lia.
    + exists trs, tr, [], t. by rewrite Hw.
Qed.

Lemma breaker_after_idle ns trs tr b :
  attempts ns tr = [] -> breaker_after ns trs b -> breaker_after ns (trs ++ [tr]) b.
Proof.
  intros Hw. unfold breaker_after. rewrite writes_snoc, Hw, app_nil_r. destruct b as [n|u]; [done|].
  intros (? & ? & pre & failed & post & t & -> & ? & Hpost & ? & ?). split; [done|]. split; [done|].
  exists pre, failed, (post ++ [tr]), t. rewrite <- app_assoc, writes_snoc, Hpost, Hw. by split_and!.
Qed.

Lemma breaker_after_history trs s ns :
  reconciliations new_reconciler trs s ->
  circuit_ok (circuit s) /\ breaker_after ns trs (circuit_of (circuit s) ns).
Proof.
  induction 1 as [|trs s1 req tr s2 res err Hrs [Hok Hb] Hx]; [done|].
  destruct (executes_breaker _ _ _ _ _ _ _ _ _ Hx Hok) as [? Heff]. split; [done|].
  destruct (breaker_effect_attempts _ _ _ ns Heff) as [[Hw ->]|(w & Hw & Ha)].
  - by apply breaker_after_idle.
  - by eapply breaker_after_attempt.
Qed.

(** C13. The breaker over time. After any sequence of reconciliations of a new
    reconciler, on any namespaces, whether the next one finds the circuit of
    [ns] open depends on the document writes in [ns] alone: it does exactly if
    the failures since the last success are a positive multiple of three and
    it asks no later than thirty seconds after a reading of the clock in the
    reconciliation of the last of them. *)
Theorem breaker_over_time trs s ns :
  reconciliations new_reconciler trs s ->
  let n := streak (writes ns trs) in
  (n = 0 \/ n `mod` 3 <> 0 -> forall now, (isConfigMapCircuitOpen now ns (circuit s)).2 = (0, false)) /\
  (0 < n -> n `mod` 3 = 0 ->
   exists pre failed post t, trs = pre ++ failed :: post /\ attempts ns failed <> [] /\
     writes ns post = [] /\ ev Now t ∈ failed /\
     let until := t + 30 * Second in
     forall now, (isConfigMapCircuitOpen now ns (circuit s)).2
                 = if now <=? until then (until, true) else (0, false)).
Proof.
  intros [_ Hb]%(breaker_after_history _ _ ns) n. subst n. unfold breaker_after in Hb.
  split.
  - intros Hn now. rewrite isConfigMapCircuitOpen_spec. destruct (circuit_of _ _); [done|]. lia.
  - intros Hpos Hmod. destruct (circuit_of (circuit s) ns) as [n|u] eqn:E; [lia|].
    destruct Hb as (_ & _ & pre & failed & post & t & -> & Hf & Hpost & Ht & ->).
    exists pre, failed, post, t. split_and!; try done. intros until now.
    rewrite isConfigMapCircuitOpen_spec, E, Z.leb_antisym. subst until. by destruct (_ <? now).
Qed.

(** C14. Writes are suspended. When a failed write in [ns] is the third since the
    last success (or the sixth, the ninth, ...), then whatever reconciliations
    follow, on any namespaces, the next one that writes a document in [ns] does
    so only after it has read the clock more than thirty seconds later than a
    reading of the clock in the failed one. *)
Theorem writes_suspended pre failed mid tr s ns :
  reconciliations new_reconciler (pre ++ failed :: mid ++ [tr]) s ->
  let n := streak (writes ns (pre ++ [failed])) in
  attempts ns failed <> [] -> 0 < n -> n `mod` 3 = 0 ->
  writes ns mid = [] -> attempts ns tr <> [] ->
  exists t now, ev Now t ∈ failed /\ ev Now now ∈ tr /\ t + 30 * Second < now.
Proof.
  intros Hrs n Hfailed Hpos Hmod Hmid Htr.
  assert (exists s1 req res err, reconciliations new_reconciler (pre ++ failed :: mid) s1 /\
    exec (Reconcile (Some gen) (Some rend) Recorder req s1) tr (s, (res, err)))
    as (s1 & req & res & err & Hrs1 & Hx).
  { remember (pre ++ failed :: mid ++ [tr]) as trs eqn:E.
    destruct Hrs as [|trs s1 req tr' s res err Hrs Hx]; [by destruct pre|].
    change (failed :: mid ++ [tr]) with ((failed :: mid) ++ [tr]) in E. rewrite app_assoc in E.
    apply app_inj_tail in E as [-> ->]. eauto 10. }
  apply (breaker_after_history _ _ ns) in Hrs1 as [Hok Hb].
  assert (writes ns (pre ++ failed :: mid) = writes ns (pre ++ [failed])) as Hw.
  { rewrite cons_middle, !writes_app, Hmid. by rewrite app_nil_r. }
  destruct (executes_breaker _ _ _ _ _ _ _ _ _ Hx Hok) as [_ Heff].
  destruct (breaker_effect_attempts _ _ _ ns Heff) as [[? _]|(w & _ & Ha)]; [done|].
  unfold breaker_after in Hb. rewrite Hw in Hb. fold n in Hb.
  destruct Ha as [k b _|u now b Hnow Hlt _]; [lia|].
  destruct Hb as (_ & _ & pre' & failed' & post & t & Heq & Hf & Hpost & Ht & ->).
  rewrite (last_write_unique _ _ _ _ _ _ _ Heq Hmid Hpost Hfailed Hf). eauto.
Qed.
End History.
