(* ===== verification/PoolConvergence.v ===== *)
(** The pool reconciler on a working API server, over time: once every pool of
    a namespace is stamped, one reconciliation of each, in any order, brings the
    namespace to a state that the pools and the cache profile determine. *)
From S2P Require Import Prelude GoStrings GoErrors Sorting Types Kube ApiServer Generator.
From S2P Require Import PoolValidation PoolSelection CircuitBreaker Metrics PoolController PoolSpec.

(** ** What a reconciliation keeps of a pool *)

Record kept (p q : DNSUpstreamPool) : Prop := {
  kept_key : meta_key (pool_meta q) = meta_key (pool_meta p);
  kept_spec : pool_spec q = pool_spec p;
  kept_created : created q = created p;
  kept_generation : Generation (pool_meta q) = Generation (pool_meta p);
  kept_stamp v : map_lookup (Annotations (pool_meta p)) initialRVAnnotation = Some v ->
                 map_lookup (Annotations (pool_meta q)) initialRVAnnotation = Some v;
}.

#[export] Instance kept_preorder : PreOrder kept.
Proof.
  split; [by split|]. intros p q r [K1 K2 K3 K4 K5] [L1 L2 L3 L4 L5]. split; try congruence. auto.
Qed.

Definition stamped (p : DNSUpstreamPool) : Prop :=
  is_Some (map_lookup (Annotations (pool_meta p)) initialRVAnnotation).

Lemma kept_name p q : kept p q -> pool_name q = pool_name p.
Proof. intros [[= _ K] _ _ _ _]. done. Qed.

Lemma kept_namespace p q : kept p q -> Namespace (pool_meta q) = Namespace (pool_meta p).
Proof. by intros [[= K _] _ _ _ _]. Qed.

Lemma kept_stamped p q : kept p q -> stamped p -> stamped q.
Proof. intros K [v Hv]. exists v. by apply (kept_stamp p q). Qed.

Lemma initialRV_lookup p :
  initialRV p = match ParseInt (default "" (map_lookup (Annotations (pool_meta p)) initialRVAnnotation)) with
                | None => 0
                | Some v => v
                end.
Proof. unfold initialRV. by destruct (Annotations (pool_meta p)). Qed.

Lemma kept_initialRV p q : kept p q -> stamped p -> initialRV q = initialRV p.
Proof.
  intros K [v Hv]. rewrite !initialRV_lookup, Hv. by rewrite (kept_stamp p q K v Hv).
Qed.

(** Validation and generation read the specification only. *)
Lemma validate_spec_only `{GoRuntime} `{ApiMachinery} p q :
  pool_spec p = pool_spec q -> validateDNSUpstreamPool (Some p) = validateDNSUpstreamPool (Some q).
Proof. unfold validateDNSUpstreamPool. by intros ->. Qed.

Lemma generate_spec_only `{GoRuntime} p q profile :
  pool_spec p = pool_spec q -> generate (Some p) profile = generate (Some q) profile.
Proof. unfold generate. by intros ->. Qed.

(** ** What a namespace converges to *)

Section Convergence.
Context `{GoRuntime} `{SliceSorter} `{GaugeVec} `{ApiMachinery} `{EngineLib}.
Variables (rend : ConfigRenderer) (Recorder : bool) (ns : string).

Abbreviation built := (build DefaultConfigGenerator rend) (only parsing).

(** The condition [Ready] of a pool, when [active] is the name of the active
    pool. *)
Definition desired (active : string) (profile : option DNSCacheProfile) (p : DNSUpstreamPool) : Condition :=
  match validateDNSUpstreamPool (Some p) with
  | Some e => ready_condition p ConditionFalse "InvalidSpec" (Error e)
  | None =>
      if bool_decide (pool_name p = active) then
        match built p profile with
        | inl (reason, e) => ready_condition p ConditionFalse reason (Error e)
        | inr _ => ready_condition p ConditionTrue "Ready" "Configuration rendered successfully"
        end
      else ready_condition p ConditionFalse "Superseded"
             ("pool " +:+ Quote active +:+ " is active in this namespace")
  end.

(** The document that a pool publishes. *)
Definition publishes (active : string) (profile : option DNSCacheProfile) (p : DNSUpstreamPool)
    : option string :=
  match validateDNSUpstreamPool (Some p) with
  | Some _ => None
  | None =>
      if bool_decide (pool_name p = active) then
        match built p profile with
        | inl _ => None
        | inr json => Some json
        end
      else None
  end.

Lemma desired_kept active profile p q :
  kept p q -> desired active profile q = desired active profile p.
Proof.
  intros K. unfold desired. rewrite (validate_spec_only q p) by apply (kept_spec _ _ K).
  rewrite (kept_name _ _ K). unfold built, ready_condition. cbn [Generate DefaultConfigGenerator].
  rewrite (generate_spec_only q p) by apply (kept_spec _ _ K). by rewrite (kept_generation _ _ K).
Qed.

Lemma publishes_kept active profile p q :
  kept p q -> publishes active profile q = publishes active profile p.
Proof.
  intros K. unfold publishes. rewrite (validate_spec_only q p) by apply (kept_spec _ _ K).
  rewrite (kept_name _ _ K). unfold built. cbn [Generate DefaultConfigGenerator].
  by rewrite (generate_spec_only q p) by apply (kept_spec _ _ K).
Qed.

(** Where the configuration goes. *)
Definition target_ns (v : View) : string := operator_ns (v_env v "POD_NAMESPACE") ns.

Definition target (v : View) : ConfigMap :=
  agent_config_map (target_ns v) (v_env v "ASTRADNS_AGENT_CONFIGMAP_NAME").

(** The document in the agent's ConfigMap. *)
Definition published_document (v : View) : option string :=
  cm ← v_configs v !! cm_key (target v); map_lookup (cm_Data cm) agentConfigKey.

(** The view after the publication of a document. *)
Definition publish_in (json : string) (v : View) : View :=
  set_configs (<[cm_key (target v) := put_config json (default (target v) (v_configs v !! cm_key (target v)))]>
                 (v_configs v)) v.

Lemma published_publish json v : published_document (publish_in json v) = Some json.
Proof.
  unfold published_document, publish_in. cbn. rewrite lookup_insert_eq. cbn. apply lookup_insert_eq.
Qed.

(** Publication looks at the ConfigMaps and the environment only, and a second
    one of the same document changes nothing. *)
Lemma publish_in_configs json u v :
  v_configs u = v_configs v -> v_env u = v_env v -> v_configs (publish_in json u) = v_configs (publish_in json v).
Proof. intros Hc He. unfold publish_in, target, target_ns. cbn. by rewrite Hc, He. Qed.

Lemma publish_in_twice json v : v_configs (publish_in json (publish_in json v)) = v_configs (publish_in json v).
Proof.
  unfold publish_in. cbn. change (target (set_configs _ v)) with (target v).
  rewrite lookup_insert_eq, insert_insert_eq. cbn. unfold put_config. cbn. by rewrite insert_insert_eq.
Qed.

(** The view after the publication of what a pool publishes. *)
Definition after_publication (active : string) (p : DNSUpstreamPool) (v : View) : View :=
  match publishes active (v_profiles v !! profile_key ns) p with
  | Some json => publish_in json v
  | None => v
  end.

(** The pools of the namespace. *)
Definition pools_at (v : View) : list DNSUpstreamPool :=
  values_in (fun k => key_Namespace k = ns) (v_pools v).

Lemma elem_of_pools_at v p :
  p ∈ pools_at v <-> exists key, key_Namespace key = ns /\ v_pools v !! key = Some p.
Proof. apply elem_of_values_in. Qed.

(** The pools are stored under their keys, have a creation time and a numeric
    version, and their stamps, if any, are positive. *)
Definition settled (v : View) : Prop :=
  forall key p, v_pools v !! key = Some p -> key_Namespace key = ns ->
    meta_key (pool_meta p) = key /\ created p <> 0 /\ version_ok (ResourceVersion (pool_meta p)) /\
    (stamped p -> 0 < initialRV p).

Definition all_stamped (v : View) : Prop := forall p, p ∈ pools_at v -> stamped p.

(** The circuit of the target is closed. *)
Definition circuit_closed (v : View) (s : PoolReconciler) : Prop :=
  exists n, circuit_of (circuit s) (target_ns v) = Closed n.

(** From a view to a later one: nothing but the pools and the agent's ConfigMap
    changes, and the pools are kept. *)
Record evolves (v v' : View) : Prop := {
  ev_profiles : v_profiles v' = v_profiles v;
  ev_policies : v_policies v' = v_policies v;
  ev_namespaces : v_namespaces v' = v_namespaces v;
  ev_env : v_env v' = v_env v;
  ev_configs key : key <> cm_key (target v) -> v_configs v' !! key = v_configs v !! key;
  ev_kept key p : v_pools v !! key = Some p -> exists q, v_pools v' !! key = Some q /\ kept p q;
  ev_none key : v_pools v !! key = None -> v_pools v' !! key = None;
}.

#[export] Instance evolves_preorder : PreOrder evolves.
Proof.
  split.
  - intros v. split; try done. intros key p Hp. by exists p.
  - intros v1 v2 v3 [P1 Po1 Na1 E1 C1 K1 N1] [P2 Po2 Na2 E2 C2 K2 N2]. split; try congruence; [| |auto].
    { intros key Hk. rewrite C2; [auto|]. unfold target, target_ns in *. by rewrite E1. }
    intros key p (q & Hq & ?)%K1. destruct (K2 _ _ Hq) as (r & ? & ?). exists r. split; [done|]. by etrans.
Qed.

(** ** One reconciliation *)

Lemma reset_closed c namespace : circuit_of (resetConfigMapUpdateFailures namespace c) namespace = Closed 0.
Proof.
  unfold circuit_of, resetConfigMapUpdateFailures. cbn [OpenUntil FailureCounts].
  by rewrite map_lookup_del, map_get_del, !decide_True.
Qed.

Lemma upsert_closed json c n v tr c' err v' :
  circuit_of c (target_ns v) = Closed n ->
  upsert_outcome (target_ns v) json c tr c' err -> replay v tr v' ->
  err = None /\ circuit_of c' (target_ns v) = Closed 0 /\ v' = publish_in json v.
Proof.
  intros Hc Hup Hr.
  assert (has_window (target_ns v) c = false) as Hw.
  { unfold has_window, window, circuit_of in *. by destruct (map_lookup (OpenUntil c) (target_ns v)). }
  assert (forall now, (isConfigMapCircuitOpen now (target_ns v) c).2 = (0, false)) as Hq
    by (intros; by rewrite isConfigMapCircuitOpen_spec, Hc).
  destruct Hup as [now c1 until E|now now1 now2 c1 until value e E|now c1 until value E];
    specialize (Hq now); rewrite E in Hq; simplify_eq/=; rewrite Hw in Hr; cbn in Hr.
  - by destruct Hr as (? & [_ ?] & ? & [? _] & _).
  - destruct Hr as (v1 & [-> ->] & v2 & [_ ->] & ->). split; [done|].
    by rewrite reset_closed.
Qed.

Lemma set_pools_id key p v : v_pools v !! key = Some p -> set_pools (<[key := p]> (v_pools v)) v = v.
Proof. intros Hp. rewrite insert_id by done. by destruct v. Qed.

Lemma set_pools_twice key p q v :
  set_pools (<[key := q]> (v_pools (set_pools (<[key := p]> (v_pools v)) v))) (set_pools (<[key := p]> (v_pools v)) v)
  = set_pools (<[key := q]> (v_pools v)) v.
Proof. unfold set_pools. cbn. by rewrite insert_insert_eq. Qed.

Context `{!ApiMachineryLaws}.

(** A status update of a stored pool. *)
Lemma status_effect v pool status reason message r v' :
  v_pools v !! meta_key (pool_meta pool) = Some pool ->
  step v (status_event pool status reason message r) v' ->
  exists p', r = None /\ v' = set_pools (<[meta_key (pool_meta pool) := p']> (v_pools v)) v /\
    kept pool p' /\ version_ok (ResourceVersion (pool_meta p')) /\
    find_condition "Ready" (Conditions (pool_status p')) = Some (ready_condition pool status reason message).
Proof.
  intros Hp Hs. cbn in Hs. rewrite Hp in Hs. destruct Hs as (rv & Hrv & -> & ->).
  eexists. split_and!; [done..| |].
  - exact Hrv.
  - cbn [patched_pool_status pool_status with_ready]. rewrite merge_status_fresh. cbn [Conditions].
    exact (SetStatusCondition_same _ (ready_condition pool status reason message)).
Qed.

(** The stamp of a stored pool. *)
Lemma stamp_effect v pool tr r v' :
  v_pools v !! meta_key (pool_meta pool) = Some pool ->
  version_ok (ResourceVersion (pool_meta pool)) -> (stamped pool -> 0 < initialRV pool) ->
  stamp_outcome pool tr r -> replay v tr v' ->
  exists p1, r = inr p1 /\ v' = set_pools (<[meta_key (pool_meta pool) := p1]> (v_pools v)) v /\
    kept pool p1 /\ version_ok (ResourceVersion (pool_meta p1)) /\ stamped p1 /\ 0 < initialRV p1.
Proof.
  intros Hp Hrv0 Hst [ann Hann|r' Hann] Hr.
  { exists pool. cbn in Hr. subst. rewrite set_pools_id by done. split_and!; try done; [by exists ann|].
    apply Hst. by exists ann. }
  destruct Hr as (v1 & Hs & ->). unfold step, ev, answers in Hs.
  change (meta_key (pool_meta (stamp pool))) with (meta_key (pool_meta pool)) in Hs.
  rewrite Hp in Hs. destruct Hs as (rv & Hrv & -> & ->).
  eexists. split_and!; [done|done| |exact Hrv| |].
  - split; try done. congruence.
  - exists (ResourceVersion (pool_meta pool)). cbn. rewrite lookup_merge_fresh. apply lookup_insert_eq.
  - destruct Hrv0 as (n & Hn & ?). rewrite initialRV_lookup. cbn. rewrite lookup_merge_fresh. cbn.
    rewrite lookup_insert_eq. cbn. by rewrite Hn.
Qed.

Context `{!SliceSorterLaws}.

Lemma found_is (o : option DNSCacheProfile) got : found o got -> found_profile got = inr o.
Proof. destruct o; cbn; [by intros ->|]. intros (e & -> & He). cbn. by rewrite He. Qed.

(** The pool at the head of the sorted listing. *)
Definition first_of (items : list DNSUpstreamPool) : string :=
  default "" (pool_name <$> head (sortPoolsForSelection items)).

(** A pool that has been listed is superseded exactly when it is not the one
    with the name of the first. *)
Lemma superseded_first items pool :
  pool ∈ items ->
  superseded_by items pool
  = if bool_decide (pool_name pool = first_of items) then None else Some (first_of items).
Proof.
  intros Hin. unfold superseded_by, first_of.
  pose proof (sort_Slice_perm pool_less items) as Hperm. fold (sortPoolsForSelection items) in Hperm.
  destruct (sortPoolsForSelection items) as [|a rest].
  { apply Permutation_nil in Hperm. subst. by apply not_elem_of_nil in Hin. }
  cbn. destruct (Z.ltb_spec 1 (Z.of_nat (length items))) as [_|Hlen]; cbn; [by case_bool_decide|].
  rewrite <- Hperm in Hin, Hlen. destruct rest; cbn in Hlen; [|lia].
  apply list_elem_of_singleton in Hin as ->. by rewrite bool_decide_true.
Qed.

(** The end of a reconciliation of the stored, stamped pool [pool], with the
    listing it reads: the condition [Ready] is the desired one, and the document
    is published if there is one to publish. *)
Lemma pool_effect v pool s tr s' res err v' :
  v_pools v !! meta_key (pool_meta pool) = Some pool -> Namespace (pool_meta pool) = ns ->
  circuit_closed v s -> pool_outcome DefaultConfigGenerator rend pool s tr s' res err -> replay v tr v' ->
  exists p' items, items ≡ₚ pools_at v /\ kept pool p' /\ version_ok (ResourceVersion (pool_meta p')) /\
    circuit_closed v s' /\
    find_condition "Ready" (Conditions (pool_status p'))
    = Some (desired (first_of items) (v_profiles v !! profile_key ns) pool) /\
    v' = set_pools (<[meta_key (pool_meta pool) := p']> (v_pools v))
           (match publishes (first_of items) (v_profiles v !! profile_key ns) pool with
            | Some json => publish_in json v
            | None => v
            end).
Proof.
  intros Hp Hns [n Hn] Hout Hr. unfold desired, publishes.
  assert (forall items, items ≡ₚ pools_at v -> pool ∈ items) as Hin.
  { intros items ->. apply elem_of_pools_at. by exists (meta_key (pool_meta pool)). }
  assert (forall items, circuit_closed v (select ns items s)) as Hsel
    by (intros items; exists n; by rewrite circuit_select).
  assert (forall v0 st reason message r, v_pools v0 !! meta_key (pool_meta pool) = Some pool ->
    replay v0 [status_event pool st reason message r] v' ->
    exists p', v' = set_pools (<[meta_key (pool_meta pool) := p']> (v_pools v0)) v0 /\
      kept pool p' /\ version_ok (ResourceVersion (pool_meta p')) /\
      find_condition "Ready" (Conditions (pool_status p')) = Some (ready_condition pool st reason message))
    as Hstatus.
  { intros v0 st reason message r Hp0 (v1 & Hs & [= ->]).
    destruct (status_effect _ _ _ _ _ _ _ Hp0 Hs) as (p' & _ & Hrest). exists p'. exact Hrest. }
  destruct Hout as [e r Hv|e Hv|items active r Hv Hsup|items got e r Hv Hsup Hgot
    |items got profile reason e r Hv Hsup Hgot Hb|items got profile json value tr c e r Hv Hsup Hgot Hb Hup
    |items got profile json value tr c r Hv Hsup Hgot Hb Hup];
    rewrite ?Hv, ?Hns; try rewrite !Hns in Hr; try rewrite !Hns in Hup.
  - destruct (Hstatus _ _ _ _ _ Hp Hr) as (p' & ? & ? & ? & ?). exists p', (pools_at v).
    split_and!; try done. by exists n.
  - by destruct Hr as (v1 & [_ (l & ? & _)] & _).
  - destruct Hr as (v1 & [-> (l & [= <-] & Hl)] & Hr).
    rewrite (superseded_first _ _ (Hin _ Hl)) in Hsup. case_bool_decide as Hname; [done|]. injection Hsup as <-.
    destruct (Hstatus _ _ _ _ _ Hp Hr) as (p' & ? & ? & ? & ?). exists p', items.
    rewrite !bool_decide_false by done. by split_and!; auto.
  - destruct Hr as (v1 & [-> _] & v2 & [-> Hf] & _). by rewrite (found_is _ _ Hf) in Hgot.
  - destruct Hr as (v1 & [-> (l & [= <-] & Hl)] & v2 & [-> Hf] & Hr).
    rewrite (superseded_first _ _ (Hin _ Hl)) in Hsup. case_bool_decide as Hname; [|done].
    rewrite (found_is _ _ Hf) in Hgot. injection Hgot as <-.
    destruct (Hstatus _ _ _ _ _ Hp Hr) as (p' & ? & ? & ? & ?). exists p', items.
    rewrite !bool_decide_true, Hb by done. by split_and!; auto.
  - destruct Hr as (v1 & [-> _] & v2 & [-> _] & v3 & [-> ->] & Hr).
    apply replay_app in Hr as (v4 & Hr & _).
    by destruct (upsert_closed _ _ _ _ _ _ _ _ Hn Hup Hr).
  - destruct Hr as (v1 & [-> (l & [= <-] & Hl)] & v2 & [-> Hf] & v3 & [-> ->] & Hr).
    rewrite (superseded_first _ _ (Hin _ Hl)) in Hsup. case_bool_decide as Hname; [|done].
    rewrite (found_is _ _ Hf) in Hgot. injection Hgot as <-.
    apply replay_app in Hr as (v4 & Hup' & Hr).
    destruct (upsert_closed _ _ _ _ _ _ _ _ Hn Hup Hup') as (_ & Hc & ->).
    destruct (Hstatus (publish_in json v) _ _ _ _ Hp Hr) as (p' & ? & ? & ? & ?). exists p', items.
    rewrite !bool_decide_true, Hb by done. split_and!; try done. by exists 0.
Qed.

(** ** The active pool of a view *)

Definition is_active (v : View) (active : string) : Prop :=
  exists p, p ∈ pools_at v /\ pool_name p = active /\ forall q, q ∈ pools_at v -> pool_less q p = false.

Lemma settled_ready v : settled v -> all_stamped v -> selection_ready (pools_at v).
Proof.
  intros Hv Hst p q Hp Hq. pose proof (Hst q Hq) as Hsq.
  apply elem_of_pools_at in Hp as (kp & ? & Hkp), Hq as (kq & ? & Hkq).
  destruct (Hv _ _ Hkp) as (_ & ? & _); [done|]. destruct (Hv _ _ Hkq) as (_ & _ & _ & ?); auto.
Qed.

Lemma first_active v items p :
  settled v -> all_stamped v -> items ≡ₚ pools_at v -> p ∈ items -> is_active v (first_of items).
Proof.
  intros Hv Hst Hitems Hp. pose proof (settled_ready v Hv Hst) as Hready. rewrite <- Hitems in Hready.
  pose proof (sort_Slice_perm pool_less items) as Hperm. fold (sortPoolsForSelection items) in Hperm.
  unfold first_of. destruct (sortPoolsForSelection items) as [|a rest] eqn:E.
  { apply Permutation_nil in Hperm. subst. by apply not_elem_of_nil in Hp. }
  destruct (sort_head_least items a rest Hready E) as [Ha Hleast].
  exists a. split; [by rewrite <- Hitems|]. split; [done|]. intros q. rewrite <- Hitems. apply Hleast.
Qed.

Lemma is_active_unique v a b :
  settled v -> all_stamped v -> is_active v a -> is_active v b -> a = b.
Proof.
  intros Hv Hst (p & Hp & <- & Hlp) (q & Hq & <- & Hlq).
  apply (pool_less_tied (pools_at v)); auto using settled_ready.
Qed.

Lemma pool_less_kept p p' q q' :
  kept p p' -> kept q q' -> stamped p -> stamped q -> pool_less p' q' = pool_less p q.
Proof.
  intros Kp Kq Sp Sq. unfold pool_less.
  rewrite (kept_created _ _ Kp), (kept_created _ _ Kq), (kept_initialRV _ _ Kp Sp), (kept_initialRV _ _ Kq Sq).
  by rewrite (kept_name _ _ Kp), (kept_name _ _ Kq).
Qed.

(** The pools of a later view are those of the earlier one, kept. *)
Lemma evolves_back v v' key q :
  evolves v v' -> v_pools v' !! key = Some q -> exists p, v_pools v !! key = Some p /\ kept p q.
Proof.
  intros E Hq. destruct (v_pools v !! key) as [p|] eqn:Hp.
  - destruct (ev_kept _ _ E _ _ Hp) as (q' & Hq' & K). exists p. split; [done|]. congruence.
  - by rewrite (ev_none _ _ E _ Hp) in Hq.
Qed.

Lemma all_stamped_evolves v v' : evolves v v' -> all_stamped v -> all_stamped v'.
Proof.
  intros E Hst q (key & Hns & Hq)%elem_of_pools_at.
  destruct (evolves_back _ _ _ _ E Hq) as (p & Hp & K). apply (kept_stamped p); [done|].
  apply Hst, elem_of_pools_at. eauto.
Qed.

Lemma is_active_evolves v v' a : evolves v v' -> all_stamped v -> is_active v a -> is_active v' a.
Proof.
  intros E Hst (p & Hp & <- & Hl). pose proof (Hst _ Hp) as Sp.
  apply elem_of_pools_at in Hp as (key & Hns & Hp).
  destruct (ev_kept _ _ E _ _ Hp) as (p' & Hp' & Kp). exists p'. split_and!.
  - apply elem_of_pools_at. eauto.
  - by apply kept_name.
  - intros q' (kq & Hnq & Hq')%elem_of_pools_at.
    destruct (evolves_back _ _ _ _ E Hq') as (q & Hq & Kq).
    assert (q ∈ pools_at v) as Hin by (apply elem_of_pools_at; eauto).
    rewrite (pool_less_kept q q' p p'); auto.
Qed.

Lemma evolves_put v key p q :
  v_pools v !! key = Some p -> kept p q -> evolves v (set_pools (<[key := q]> (v_pools v)) v).
Proof.
  intros Hp K. split; try done.
  - intros key' p' Hp'. cbn. destruct (decide (key = key')) as [<-|Hne].
    + exists q. rewrite lookup_insert_eq. split; [done|]. congruence.
    + exists p'. by rewrite lookup_insert_ne.
  - intros key' Hn. cbn. rewrite lookup_insert_ne; congruence.
Qed.

Lemma evolves_publish json v : evolves v (publish_in json v).
Proof.
  split; try done.
  - intros key Hk. cbn. by rewrite lookup_insert_ne.
  - intros key p Hp. by exists p.
Qed.

Lemma settled_put v key p q :
  settled v -> v_pools v !! key = Some p -> kept p q -> version_ok (ResourceVersion (pool_meta q)) ->
  (stamped q -> 0 < initialRV q) -> settled (set_pools (<[key := q]> (v_pools v)) v).
Proof.
  intros Hv Hp K Hrv Hst key' p' Hp' Hns. cbn in Hp'. destruct (decide (key = key')) as [<-|Hne].
  - rewrite lookup_insert_eq in Hp'. injection Hp' as <-. destruct (Hv _ _ Hp Hns) as (? & ? & _).
    rewrite (kept_key _ _ K), (kept_created _ _ K). auto.
  - rewrite lookup_insert_ne in Hp' by done. by apply Hv.
Qed.

Lemma settled_pools v v' : v_pools v = v_pools v' -> settled v -> settled v'.
Proof. unfold settled. by intros ->. Qed.

(** ** A whole reconciliation *)

(** What the reconciliation of the pool at [req] gives: the pool is stamped,
    the others are as they were, and if all were stamped before, its condition
    and the document are the desired ones. *)
Record reconciled (req : NamespacedName) (v v' : View) (s' : PoolReconciler) : Prop := {
  rd_evolves : evolves v v';
  rd_settled : settled v';
  rd_closed : circuit_closed v' s';
  rd_found : is_Some (v_pools v' !! req);
  rd_stamped q : v_pools v' !! req = Some q -> stamped q;
  rd_others key : key <> req -> v_pools v' !! key = v_pools v !! key;
  rd_condition active q :
    all_stamped v -> is_active v active -> v_pools v' !! req = Some q ->
    find_condition "Ready" (Conditions (pool_status q))
    = Some (desired active (v_profiles v !! profile_key ns) q);
  rd_document active q :
    all_stamped v -> is_active v active -> v_pools v' !! req = Some q ->
    published_document v' = match publishes active (v_profiles v !! profile_key ns) q with
                            | Some json => Some json
                            | None => published_document v
                            end;
  rd_configs active q :
    all_stamped v -> is_active v active -> v_pools v' !! req = Some q ->
    v_configs v' = v_configs (after_publication active q v);
}.

Lemma reconcile_effect req s tr s' res err v v' p :
  exec (Reconcile (Some DefaultConfigGenerator) (Some rend) Recorder req s) tr (s', (res, err)) ->
  replay v tr v' ->
  settled v -> circuit_closed v s -> v_pools v !! req = Some p -> key_Namespace req = ns ->
  reconciled req v v' s'.
Proof.
  intros Hx Hr%replay_loud Hv Hclosed Hp Hns. apply reconcile_refines in Hx.
  destruct (Hv _ _ Hp Hns) as (Hkey & Hc & Hrv & Hst). subst req. rename Hns into Hpns.
  destruct Hx as [e|e tr' s' err'|pool tr' e Hstamp|pool p1' tr1 tr2 s' res err Hstamp Hout];
    destruct Hr as (v0 & [-> Hf] & Hr); rewrite Hp in Hf; simplify_eq/=.
  { destruct (stamp_effect _ _ _ _ _ Hp Hrv Hst Hstamp Hr) as (? & ? & _). done. }
  apply replay_app in Hr as (v1 & Hr1 & Hr2).
  destruct (stamp_effect _ _ _ _ _ Hp Hrv Hst Hstamp Hr1) as (p1 & [= <-] & -> & K1 & Hrv1 & S1 & Hpos1).
  set (key := meta_key (pool_meta p)) in *. set (v1 := set_pools _ v) in *.
  assert (v_pools v1 !! meta_key (pool_meta p1') = Some p1') as Hp1.
  { rewrite (kept_key _ _ K1). apply lookup_insert_eq. }
  assert (settled v1) as Hv1 by (eapply settled_put; eauto).
  assert (evolves v v1) as E1 by (by eapply evolves_put).
  destruct (pool_effect v1 p1' s tr2 s' res err v' Hp1) as
    (p' & items & Hitems & K & Hrv' & Hclosed' & Hcond & ->); [by rewrite (kept_namespace _ _ K1)|done..|].
  rewrite (kept_key _ _ K1) in *. fold key in Hp1 |- *.
  set (v2 := match publishes _ _ _ with Some _ => _ | None => _ end).
  assert (evolves v1 v2) as E12 by (unfold v2; case_match; [apply evolves_publish|done]).
  assert (v_pools v2 = v_pools v1) as EP by (unfold v2; by case_match).
  assert (evolves v1 (set_pools (<[key := p']> (v_pools v1)) v2)) as E2.
  { etrans; [exact E12|]. rewrite <- EP. apply (evolves_put v2 key p1'); [by rewrite EP|done]. }
  assert (p1' ∈ items) as Hin.
  { rewrite Hitems. apply elem_of_pools_at. by exists key. }
  assert (forall active, all_stamped v -> is_active v active -> first_of items = active) as Hfirst.
  { intros active Hall Ha. apply (is_active_unique v1); [done|by eapply all_stamped_evolves| |].
    - eapply first_active; eauto. by eapply all_stamped_evolves.
    - by eapply is_active_evolves. }
  split.
  - by etrans.
  - apply (settled_pools (set_pools (<[key := p']> (v_pools v1)) v1)); [done|].
    eapply settled_put; [done..|]. intros _. by rewrite (kept_initialRV _ _ K S1).
  - destruct Hclosed' as [n Hn]. exists n. unfold target_ns in *. cbn. by rewrite (ev_env _ _ E12).
  - cbn. by rewrite lookup_insert_eq.
  - cbn. rewrite lookup_insert_eq. intros q [= <-]. by eapply kept_stamped.
  - intros k Hk. cbn. rewrite !lookup_insert_ne by done. done.
  - intros active q Hall Ha. cbn. rewrite lookup_insert_eq. intros [= <-].
    rewrite Hcond, (Hfirst active Hall Ha). by rewrite (desired_kept _ _ _ _ K).
  - intros active q Hall Ha. cbn. rewrite lookup_insert_eq. intros [= <-].
    rewrite (publishes_kept _ _ _ _ K). unfold v2. rewrite (Hfirst active Hall Ha).
    destruct (publishes active _ p1'); [|done]. apply published_publish.
  - intros active q Hall Ha. cbn. rewrite lookup_insert_eq. intros [= <-]. unfold after_publication.
    rewrite (publishes_kept _ _ _ _ K). unfold v2. rewrite (Hfirst active Hall Ha). change (v_profiles v1) with (v_profiles v).
    by destruct (publishes active _ p1'); [apply publish_in_configs|].
Qed.

(** ** Many reconciliations *)

(** Reconciliations one after the other, each on what the one before left. *)
Fixpoint reconcile_all {W} `{ApiServer W} (reqs : list NamespacedName) (w : W) (s : PoolReconciler)
    : W * PoolReconciler :=
  match reqs with
  | [] => (w, s)
  | req :: reqs =>
      let '(w, (s, _)) :=
        run serve (Reconcile (Some DefaultConfigGenerator) (Some rend) Recorder req s) w in
      reconcile_all reqs w s
  end.

Context {W : Type} `{HS : ApiServer W} `{!ApiServerLaws W}.
Implicit Types (w : W) (v : View).

Lemma reconcile_all_app reqs1 reqs2 w s :
  reconcile_all (reqs1 ++ reqs2) w s
  = let '(w1, s1) := reconcile_all reqs1 w s in reconcile_all reqs2 w1 s1.
Proof.
  revert w s. induction reqs1 as [|req reqs1 IH]; intros w s; cbn [reconcile_all app]; [done|].
  destruct (run _ _ _) as [w1 [s1 out]]. apply IH.
Qed.

(** Requests for pools of the namespace. *)
Definition requests_in (v : View) (reqs : list NamespacedName) : Prop :=
  forall req, req ∈ reqs -> key_Namespace req = ns /\ is_Some (v_pools v !! req).

Lemma requests_evolve v v' reqs : evolves v v' -> requests_in v reqs -> requests_in v' reqs.
Proof.
  intros E Hr req Hin. destruct (Hr req Hin) as [? [p Hp]]. split; [done|].
  destruct (ev_kept _ _ E _ _ Hp) as (q & Hq & _). eauto.
Qed.

(** An invariant of the views, indexed by the requests done, that each
    reconciliation preserves, holds at the end. *)
Lemma reconcile_all_inv (I : list NamespacedName -> View -> Prop) reqs done w s w' s' :
  (forall req done v v' s', I done v -> key_Namespace req = ns -> reconciled req v v' s' -> I (req :: done) v') ->
  settled (view w) -> circuit_closed (view w) s -> requests_in (view w) reqs -> I done (view w) ->
  reconcile_all reqs w s = (w', s') ->
  I (reverse reqs ++ done) (view w') /\ evolves (view w) (view w') /\ settled (view w') /\
  circuit_closed (view w') s'.
Proof.
  intros Hstep. revert done w s. induction reqs as [|req reqs IH]; intros done w s Hv Hc Hreqs HI Hrun.
  { by injection Hrun as <- <-. }
  cbn [reconcile_all] in Hrun. destruct (Hreqs req) as [Hns [p Hp]]; [by left|].
  pose proof (run_replay (Reconcile (Some DefaultConfigGenerator) (Some rend) Recorder req s) w) as Hrr.
  destruct (run_trace _ _ _) as [[w1 tr] [s1 [res err]]] eqn:E. destruct Hrr as [Hx Hr].
  apply run_trace_exec in E as [_ Hrun1]. rewrite Hrun1 in Hrun.
  pose proof (reconcile_effect _ _ _ _ _ _ _ _ _ Hx Hr Hv Hc Hp Hns) as Hrec.
  destruct (IH (req :: done) w1 s1) as (HI' & E' & ? & ?); [apply Hrec|apply Hrec| | |done|].
  - eapply requests_evolve; [apply Hrec|]. intros r Hin. apply Hreqs. by right.
  - by eapply Hstep.
  - rewrite reverse_cons, <- app_assoc. split; [done|]. split; [|done]. etrans; [apply Hrec|done].
Qed.

(** The pools at [done] are as they should be. *)
Record converged_on (active : string) (done : list NamespacedName) (v : View) : Prop := {
  co_active : is_active v active;
  co_settled : settled v;
  co_stamped : all_stamped v;
  co_keys key : key ∈ done -> key_Namespace key = ns;
  co_ready key q :
    key ∈ done -> v_pools v !! key = Some q ->
    find_condition "Ready" (Conditions (pool_status q))
    = Some (desired active (v_profiles v !! profile_key ns) q);
  co_document key q json :
    key ∈ done -> v_pools v !! key = Some q ->
    publishes active (v_profiles v !! profile_key ns) q = Some json -> published_document v = Some json;
}.

Lemma publishes_active active profile p json :
  publishes active profile p = Some json -> pool_name p = active.
Proof. unfold publishes. intros Hp. repeat case_match; try done. by bool_to_prop. Qed.

Lemma converged_step active req done v v' s' :
  converged_on active done v -> key_Namespace req = ns -> reconciled req v v' s' ->
  converged_on active (req :: done) v'.
Proof.
  intros [Ha Hv Hst Hkeys Hready Hdoc] Hns [E Hv' Hc [q0 Hq0] Hs Ho Hcond Hd].
  assert (forall key, key ∈ req :: done -> key_Namespace key = ns) as Hkeys'.
  { intros key [->|?]%elem_of_cons; auto. }
  split; [by eapply is_active_evolves|done|by eapply all_stamped_evolves|done|..].
  - intros key q Hin Hq. rewrite (ev_profiles _ _ E). destruct (decide (key = req)) as [->|Hne]; [by apply Hcond|].
    rewrite Ho in Hq by done. apply (Hready key); [|done]. set_solver.
  - intros key q json Hin Hq Hp. rewrite (ev_profiles _ _ E) in Hp.
    destruct (decide (key = req)) as [->|Hne]; [by rewrite (Hd active q Hst Ha Hq), Hp|].
    rewrite (Hd active q0 Hst Ha Hq0).
    destruct (publishes active _ q0) as [json0|] eqn:Hp0.
    + destruct Hne. destruct (Hv' key q Hq (Hkeys' key Hin)) as [<- _], (Hv' req q0 Hq0 Hns) as [<- _].
      apply publishes_active in Hp, Hp0. unfold meta_key, pool_name in *.
      specialize (Hkeys' _ Hin). cbn in Hkeys', Hns. congruence.
    + rewrite Ho in Hq by done. apply (Hdoc key q); [|done..]. set_solver.
Qed.

(** The pools at [done] are stamped. *)
Definition stamped_on (done : list NamespacedName) (v : View) : Prop :=
  forall key q, key ∈ done -> v_pools v !! key = Some q -> stamped q.

Lemma stamped_step req done v v' s' :
  stamped_on done v -> reconciled req v v' s' -> stamped_on (req :: done) v'.
Proof.
  intros Hst [E _ _ _ Hs Ho _ _] key q Hin Hq. destruct (decide (key = req)) as [->|Hne]; [by apply Hs|].
  rewrite Ho in Hq by done. apply (Hst key); [|done]. set_solver.
Qed.

Lemma active_exists v p : settled v -> all_stamped v -> p ∈ pools_at v -> exists a, is_active v a.
Proof. intros Hv Hst Hp. exists (first_of (pools_at v)). by eapply first_active. Qed.

(** The state a namespace converges to. *)
Record converged (v : View) (active : string) : Prop := {
  cv_active : is_active v active;
  cv_ready key p :
    v_pools v !! key = Some p -> key_Namespace key = ns ->
    find_condition "Ready" (Conditions (pool_status p))
    = Some (desired active (v_profiles v !! profile_key ns) p);
  cv_document key p json :
    v_pools v !! key = Some p -> key_Namespace key = ns ->
    publishes active (v_profiles v !! profile_key ns) p = Some json -> published_document v = Some json;
}.

Lemma converges first second w s w' s' :
  settled (view w) -> circuit_closed (view w) s ->
  requests_in (view w) (first ++ second) ->
  (exists p, p ∈ pools_at (view w)) ->
  (forall key p, v_pools (view w) !! key = Some p -> key_Namespace key = ns ->
     key ∈ second /\ (stamped p \/ key ∈ first)) ->
  reconcile_all (first ++ second) w s = (w', s') ->
  evolves (view w) (view w') /\ exists active, converged (view w') active.
Proof.
  intros Hv Hc Hreqs [p0 Hp0] Hcover Hrun. rewrite reconcile_all_app in Hrun.
  destruct (reconcile_all first w s) as [w1 s1] eqn:Hrun1.
  destruct (reconcile_all_inv stamped_on first [] w s w1 s1) as (Hst1 & E1 & Hv1 & Hc1);
    [intros; by eapply stamped_step|done|done|intros r Hr; apply Hreqs; set_solver| |done|].
  { intros key q Hin. by apply not_elem_of_nil in Hin. }
  assert (all_stamped (view w1)) as Hall.
  { intros q (key & Hns & Hq)%elem_of_pools_at. destruct (evolves_back _ _ _ _ E1 Hq) as (p & Hp & K).
    destruct (Hcover key p Hp Hns) as [_ [Hs|Hin]]; [by eapply kept_stamped|].
    apply (Hst1 key); [|done]. rewrite app_nil_r. by apply elem_of_reverse. }
  assert (exists p1, p1 ∈ pools_at (view w1)) as [p1 Hp1].
  { apply elem_of_pools_at in Hp0 as (key & Hns & Hp). destruct (ev_kept _ _ E1 _ _ Hp) as (q & Hq & _).
    exists q. apply elem_of_pools_at. eauto. }
  destruct (active_exists _ _ Hv1 Hall Hp1) as [active Ha].
  destruct (reconcile_all_inv (converged_on active) second [] w1 s1 w' s') as (Hco & E2 & _ & _);
    [intros; by eapply converged_step|done|done| | |done|].
  { eapply requests_evolve; [exact E1|]. intros r Hr. apply Hreqs. set_solver. }
  { split; try done; intros; exfalso; by eapply not_elem_of_nil. }
  split; [by etrans|]. exists active. rewrite app_nil_r in Hco. destruct Hco as [Ha' _ _ _ Hready Hdoc].
  assert (forall key p, v_pools (view w') !! key = Some p -> key_Namespace key = ns -> key ∈ reverse second)
    as Hin.
  { intros key p Hp Hns. apply elem_of_reverse.
    destruct (evolves_back (view w) (view w') key p) as (q & Hq & _); [by etrans|done|].
    by destruct (Hcover key q Hq Hns). }
  split; eauto.
Qed.

(** C1. Convergence. On a working API server and with the circuit of the target
    ConfigMap closed, let every pool of a namespace be reconciled once, and
    before that once more if it was not stamped, in any order and as often as
    one likes. Then one pool is active, which none precedes; it is reported
    ready, with its document in the agent's ConfigMap, or with the reason why
    its document cannot be made; every invalid pool is reported as invalid and
    every other one as superseded by it; no other ConfigMap, profile, policy or
    namespace has changed, and every pool has kept its name, spec,
    creation time, generation and stamp. *)
Theorem pools_converge first second w s w' s' :
  settled (view w) -> circuit_closed (view w) s ->
  requests_in (view w) (first ++ second) ->
  (exists p, p ∈ pools_at (view w)) ->
  (forall key p, v_pools (view w) !! key = Some p -> key_Namespace key = ns ->
     key ∈ second /\ (stamped p \/ key ∈ first)) ->
  reconcile_all (first ++ second) w s = (w', s') ->
  evolves (view w) (view w') /\ exists active, converged (view w') active.
Proof. apply converges. Qed.

(** With all the pools stamped, the order of the reconciliations does not
    matter. *)
Lemma converged_unique v v1 v2 a1 a2 :
  settled v1 -> all_stamped v -> evolves v v1 -> evolves v v2 -> (exists a, is_active v a) ->
  converged v1 a1 -> converged v2 a2 -> settled v2 ->
  a1 = a2 /\
  (forall key p1 p2, v_pools v1 !! key = Some p1 -> v_pools v2 !! key = Some p2 -> key_Namespace key = ns ->
     find_condition "Ready" (Conditions (pool_status p1)) = find_condition "Ready" (Conditions (pool_status p2))).
Proof.
  intros Hv1 Hst E1 E2 [a Ha] C1 C2 Hv2.
  assert (a1 = a) as ->.
  { apply (is_active_unique v1); [done|by eapply all_stamped_evolves|apply C1|by eapply is_active_evolves]. }
  assert (a2 = a) as ->.
  { apply (is_active_unique v2); [done|by eapply all_stamped_evolves|apply C2|by eapply is_active_evolves]. }
  split; [done|]. intros key p1 p2 Hp1 Hp2 Hns.
  rewrite (cv_ready _ _ C1 _ _ Hp1 Hns), (cv_ready _ _ C2 _ _ Hp2 Hns).
  rewrite (ev_profiles _ _ E1), (ev_profiles _ _ E2).
  destruct (evolves_back _ _ _ _ E1 Hp1) as (p & Hp & K1).
  destruct (evolves_back _ _ _ _ E2 Hp2) as (p' & Hp' & K2). simplify_eq.
  by rewrite (desired_kept _ _ _ _ K1), (desired_kept _ _ _ _ K2).
Qed.

(** ** The ConfigMaps at the end *)

(** The ConfigMaps are those of the start, and once the active pool [p0] has
    been reconciled, those after its publication. *)
Record configs_on (v0 : View) (active : string) (p0 : DNSUpstreamPool) (done : list NamespacedName) (v : View)
    : Prop := {
  cf_evolves : evolves v0 v;
  cf_settled : settled v;
  cf_configs :
    v_configs v = v_configs (if decide (meta_key (pool_meta p0) ∈ done) then after_publication active p0 v0 else v0);
}.

Lemma after_publication_same active p q u v :
  kept p q -> v_profiles u = v_profiles v -> v_env u = v_env v ->
  v_configs u = v_configs v \/ v_configs u = v_configs (after_publication active p v) ->
  v_configs (after_publication active q u) = v_configs (after_publication active p v).
Proof.
  intros K Hp He Hc. unfold after_publication in *. rewrite Hp, (publishes_kept _ _ _ _ K).
  destruct (publishes active _ p) as [json|]; [|by destruct Hc].
  destruct Hc as [Hc|Hc]; [by apply publish_in_configs|].
  etrans; [apply (publish_in_configs _ _ (publish_in json v)); [done|by rewrite He]|]. apply publish_in_twice.
Qed.

Lemma configs_step v0 active p0 key0 req done v v' s' :
  settled v0 -> all_stamped v0 -> v_pools v0 !! key0 = Some p0 -> key_Namespace key0 = ns ->
  pool_name p0 = active -> is_active v0 active ->
  configs_on v0 active p0 done v -> key_Namespace req = ns -> reconciled req v v' s' ->
  configs_on v0 active p0 (req :: done) v'.
Proof.
  intros Hv0 Hst0 Hp0 Hns0 Hname Ha [E Hv Hc] Hns [E' Hv' _ [q Hq] _ _ _ _ Hcfg].
  destruct (Hv0 _ _ Hp0 Hns0) as [Hkey _]. rewrite Hkey in *.
  specialize (Hcfg active q (all_stamped_evolves _ _ E Hst0) (is_active_evolves _ _ _ E Hst0 Ha) Hq).
  split; [by etrans|done|]. rewrite Hkey, Hcfg. destruct (decide (req = key0)) as [->|Hne].
  - rewrite (decide_True (P := key0 ∈ key0 :: done)) by left.
    destruct (evolves_back v0 v' key0 q) as (p & Hp & K); [by etrans|done|]. simplify_eq.
    apply after_publication_same; [done|apply E..|]. rewrite Hc. case_decide; auto.
  - assert (publishes active (v_profiles v !! profile_key ns) q = None) as Hno.
    { destruct (publishes _ _ q) eqn:Hpub; [|done]. apply publishes_active in Hpub. destruct Hne.
      destruct (Hv' req q Hq Hns) as [<- _]. rewrite <- Hkey in *. unfold meta_key, pool_name in *. cbn in *. congruence. }
    unfold after_publication at 1. rewrite Hno, Hc.
    destruct (decide (key0 ∈ done)), (decide (key0 ∈ req :: done)); try done; set_solver.
Qed.

(** Where the ConfigMaps end is determined by the start. *)
Lemma configs_end v0 active p0 key0 reqs w s w' s' :
  view w = v0 -> settled v0 -> circuit_closed v0 s -> all_stamped v0 ->
  v_pools v0 !! key0 = Some p0 -> key_Namespace key0 = ns -> pool_name p0 = active -> is_active v0 active ->
  requests_in v0 reqs -> key0 ∈ reqs -> reconcile_all reqs w s = (w', s') ->
  v_configs (view w') = v_configs (after_publication active p0 v0).
Proof.
  intros Hw Hv Hc Hst Hp0 Hns0 Hname Ha Hreqs Hin Hrun. subst v0.
  destruct (reconcile_all_inv (configs_on (view w) active p0) reqs [] w s w' s') as ([_ _ Hend] & _);
    [intros; by eapply configs_step|done..| |done|].
  { by split. }
  rewrite app_nil_r, decide_True in Hend; [done|]. apply elem_of_reverse.
  destruct (Hv _ _ Hp0 Hns0) as [-> _]. done.
Qed.

(** C12. The outcome does not depend on the order. When all the pools of the
    namespace are stamped, two histories of reconciliations that each cover
    them leave the same active pool, the same [Ready] conditions, and the same
    ConfigMaps: the document of the active pool if it has one, and otherwise
    whatever was there at the start. *)
Theorem convergence_order_independent first second w s w1 s1 w2 s2 :
  settled (view w) -> circuit_closed (view w) s -> all_stamped (view w) ->
  (forall reqs, reqs = first \/ reqs = second -> requests_in (view w) reqs /\
     forall key p, v_pools (view w) !! key = Some p -> key_Namespace key = ns -> key ∈ reqs) ->
  (exists p, p ∈ pools_at (view w)) ->
  reconcile_all first w s = (w1, s1) -> reconcile_all second w s = (w2, s2) ->
  (exists active, converged (view w1) active /\ converged (view w2) active /\
    forall key p1 p2,
      v_pools (view w1) !! key = Some p1 -> v_pools (view w2) !! key = Some p2 -> key_Namespace key = ns ->
      find_condition "Ready" (Conditions (pool_status p1))
      = find_condition "Ready" (Conditions (pool_status p2))) /\
  v_configs (view w1) = v_configs (view w2) /\
  published_document (view w1) = published_document (view w2).
Proof.
  intros Hv Hc Hst Hcover [p0 Hp0] Hrun1 Hrun2.
  assert (forall reqs w' s', reqs = first \/ reqs = second -> reconcile_all reqs w s = (w', s') ->
    evolves (view w) (view w') /\ settled (view w') /\ exists active, converged (view w') active) as Hgo.
  { intros reqs w' s' Hor Hrun. destruct (Hcover reqs Hor) as [Hr Hin].
    destruct (converges [] reqs w s w' s') as [? ?]; [done..|by exists p0| |done|].
    - intros key p Hp Hns. split; [by eapply Hin|]. left. apply Hst, elem_of_pools_at. eauto.
    - split; [done|]. split; [|done].
      by destruct (reconcile_all_inv (fun _ _ => True) reqs [] w s w' s') as (_ & _ & ? & _). }
  destruct (Hgo first w1 s1) as (E1 & Hv1 & a1 & C1); [by left|done|].
  destruct (Hgo second w2 s2) as (E2 & Hv2 & a2 & C2); [by right|done|].
  destruct (active_exists _ _ Hv Hst Hp0) as [active Ha].
  destruct (converged_unique (view w) (view w1) (view w2) a1 a2) as [-> Heq]; try done; [by exists active|].
  destruct Ha as (p & (key & Hns & Hp)%elem_of_pools_at & Hname & Hleast).
  assert (is_active (view w) active) as Ha by (exists p; rewrite elem_of_pools_at; eauto).
  assert (forall reqs w' s', reqs = first \/ reqs = second -> reconcile_all reqs w s = (w', s') ->
    v_configs (view w') = v_configs (after_publication active p (view w))) as Hend.
  { intros reqs w' s' Hor Hrun. destruct (Hcover reqs Hor) as [Hr Hin].
    apply (configs_end (view w) active p key reqs w s w' s'); try done. by eapply Hin. }
  assert (v_configs (view w1) = v_configs (view w2)) as Hcfg.
  { rewrite (Hend first w1 s1), (Hend second w2 s2); auto. }
  split; [by exists a2|]. split; [done|]. unfold published_document, target, target_ns.
  by rewrite Hcfg, (ev_env _ _ E1), (ev_env _ _ E2).
Qed.
End Convergence.
