(* ===== verification/PoolDeletion.v ===== *)
(** The deletion of a pool on a working API server: the configuration of the
    pool that is active among those that remain is published, whether that pool
    is valid or not. *)
From S2P Require Import Prelude GoStrings GoErrors Sorting Types Kube ApiServer Generator.
From S2P Require Import PoolValidation PoolSelection CircuitBreaker Metrics PoolController PoolSpec PoolConvergence.

Section Deletion.
Context `{GoRuntime} `{SliceSorter} `{GaugeVec} `{ApiMachinery} `{EngineLib}.
Variables (rend : ConfigRenderer) (Recorder : bool) (ns : string).

Abbreviation built := (build DefaultConfigGenerator rend) (only parsing).

(** What is built for a remaining pool is what its own reconciliation builds,
    the check of the size apart, which comes later. *)
Lemma build_remaining_built pool got profile json :
  found_profile got = inr profile -> built pool profile = inr json ->
  build_remaining DefaultConfigGenerator rend pool got = inr json /\ validateConfigMapPayloadSize json = None.
Proof.
  intros Hf (config & text & Hg & Hr & Hm & Hsize)%build_inr. split; [|done].
  unfold build_remaining. rewrite Hf. change (Generate DefaultConfigGenerator) with generate in *.
  cbn -[generate]. rewrite Hg. cbn -[generate]. rewrite Hr. cbn. by rewrite Hm.
Qed.

Context `{!ApiMachineryLaws} `{!SliceSorterLaws}.
Implicit Types v : View.

(** The pool at the head of the listing is the stored one of that name. *)
Lemma first_is_active v items a rest key p :
  settled ns v -> all_stamped ns v -> items ≡ₚ pools_at ns v -> sortPoolsForSelection items = a :: rest ->
  v_pools v !! key = Some p -> key_Namespace key = ns -> is_active ns v (pool_name p) -> a = p.
Proof.
  intros Hv Hst Hitems Hsort Hp Hns Hact.
  assert (a ∈ items) as Ha.
  { pose proof (sort_Slice_perm pool_less items) as Hperm. unfold sortPoolsForSelection in Hsort.
    rewrite <- Hperm, Hsort. by left. }
  pose proof (first_active ns v items a Hv Hst Hitems Ha) as Hfirst.
  unfold first_of in Hfirst. rewrite Hsort in Hfirst. cbn in Hfirst.
  pose proof (is_active_unique ns v _ _ Hv Hst Hfirst Hact) as Hname.
  rewrite Hitems in Ha. apply elem_of_pools_at in Ha as (ka & Hnsa & Hka).
  destruct (Hv _ _ Hka Hnsa) as [Hk1 _], (Hv _ _ Hp Hns) as [Hk2 _].
  assert (ka = key) as ->; [|congruence].
  subst. unfold meta_key, pool_name in *. cbn in *. congruence.
Qed.

(** The reconciliation of a deleted pool, when the configuration of the active
    one of those that remain can be built: that document is published, and the
    pool reported ready. *)
Lemma deletion_effect req s tr s' res err v v' key p json :
  exec (Reconcile (Some DefaultConfigGenerator) (Some rend) Recorder req s) tr (s', (res, err)) ->
  replay v tr v' -> settled ns v -> all_stamped ns v -> circuit_closed ns v s ->
  key_Namespace req = ns -> v_pools v !! req = None ->
  v_pools v !! key = Some p -> key_Namespace key = ns -> is_active ns v (pool_name p) ->
  built p (v_profiles v !! profile_key ns) = inr json ->
  exists p', err = None /\ circuit_closed ns v' s' /\ kept p p' /\ version_ok (ResourceVersion (pool_meta p')) /\
    find_condition "Ready" (Conditions (pool_status p'))
    = Some (ready_condition p ConditionTrue "Ready" "Configuration rendered successfully") /\
    v' = set_pools (<[key := p']> (v_pools v)) (publish_in ns json v).
Proof.
  intros Hx Hr%replay_loud Hv Hst [n Hclosed] Hreq Hgone Hp Hns Hact Hb. apply reconcile_refines in Hx.
  destruct Hx as [e He|e tr' s' err' He Hd|pool tr' e Hstamp|pool p1' tr1 tr2 s' res err Hstamp Hout];
    destruct Hr as (v0 & [-> Hf] & Hr); rewrite Hgone in Hf; cbn in Hf; destruct Hf as (e' & [= <-] & He');
    try done; [congruence|]. rewrite Hreq in Hd.
  assert (forall items a rest, items ≡ₚ pools_at ns v -> sortPoolsForSelection items = a :: rest -> a = p) as Hfirst
    by (intros; by eapply first_is_active).
  destruct (Hv _ _ Hp Hns) as [Hkey _].
  destruct Hd as [e0|items value tr0 err0 Hsort Hrm|items a rest value got err0 Hsort Hbuild
                 |items a rest value got json0 tr0 c err0 Hsort Hbuild Hout].
  - by destruct Hr as (v1 & [_ (l & ? & _)] & _).
  - destruct Hr as (v1 & [-> (l & [= <-] & Hl)] & _).
    pose proof (sort_Slice_perm pool_less items) as Hperm. unfold sortPoolsForSelection in Hsort.
    rewrite Hsort in Hperm. apply Permutation_nil_l in Hperm.
    assert (p ∈ pools_at ns v) as Hin by (apply elem_of_pools_at; eauto).
    change (values_in _ _) with (pools_at ns v) in Hl. rewrite <- Hl, <- Hperm in Hin. by apply not_elem_of_nil in Hin.
  - destruct Hr as (v1 & [-> (l & [= <-] & Hl)] & v2 & [-> _] & v3 & [-> Hgot] & _).
    rewrite (Hfirst items a rest) in Hbuild by done.
    destruct (build_remaining_built p got _ json (found_is _ _ Hgot) Hb). congruence.
  - destruct Hr as (v1 & [-> (l & [= <-] & Hl)] & v2 & [-> ->] & v3 & [-> Hgot] & Hr).
    rewrite (Hfirst items a rest) in Hbuild, Hout by done.
    destruct (build_remaining_built p got _ json (found_is _ _ Hgot) Hb) as [Hb' Hsize].
    rewrite Hb' in Hbuild. injection Hbuild as <-.
    destruct Hout as [e1 r Hs|tr1 c e1 r _ Hup _|tr1 c e1 _ Hup _|tr1 c r _ Hup]; [congruence| | |].
    + apply replay_app in Hr as (v4 & Hr & _). by destruct (upsert_closed ns _ _ _ _ _ _ _ _ Hclosed Hup Hr).
    + by destruct (upsert_closed ns _ _ _ _ _ _ _ _ Hclosed Hup Hr).
    + apply replay_app in Hr as (v4 & Hr1 & v5 & Hs & ->).
      destruct (upsert_closed ns _ _ _ _ _ _ _ _ Hclosed Hup Hr1) as (_ & Hc & ->).
      rewrite <- Hkey in Hp.
      destruct (status_effect (publish_in ns json v) p _ _ _ r v5 Hp Hs) as (p' & -> & -> & K & Hrv & Hcond).
      exists p'. rewrite <- Hkey. split_and!; try done. by exists 0.
Qed.

(** C38. The deletion of a pool skips the validation. On a working API server, let
    a pool be gone, and let the active pool among those that remain be one that
    the validation rejects but whose configuration can be built. The
    reconciliation of the deleted pool publishes that configuration and reports
    the pool as ready, without an error. The next reconciliation of the pool
    itself reports it as invalid, and leaves the published document in place. *)
Theorem deletion_skips_validation req s tr s' res err v v' key p e json :
  exec (Reconcile (Some DefaultConfigGenerator) (Some rend) Recorder req s) tr (s', (res, err)) ->
  replay v tr v' -> settled ns v -> all_stamped ns v -> circuit_closed ns v s ->
  key_Namespace req = ns -> v_pools v !! req = None ->
  v_pools v !! key = Some p -> key_Namespace key = ns -> is_active ns v (pool_name p) ->
  validateDNSUpstreamPool (Some p) = Some e -> built p (v_profiles v !! profile_key ns) = inr json ->
  err = None /\ published_document ns v' = Some json /\
  (exists p', v_pools v' !! key = Some p' /\
     find_condition "Ready" (Conditions (pool_status p'))
     = Some (ready_condition p ConditionTrue "Ready" "Configuration rendered successfully")) /\
  forall tr2 s2 res2 err2 v2,
    exec (Reconcile (Some DefaultConfigGenerator) (Some rend) Recorder key s') tr2 (s2, (res2, err2)) ->
    replay v' tr2 v2 ->
    published_document ns v2 = Some json /\
    exists p2, v_pools v2 !! key = Some p2 /\
      find_condition "Ready" (Conditions (pool_status p2))
      = Some (ready_condition p ConditionFalse "InvalidSpec" (Error e)).
Proof.
  intros Hx Hr Hv Hst Hclosed Hreq Hgone Hp Hns Hact Hbad Hb.
  destruct (deletion_effect _ _ _ _ _ _ _ _ _ _ _ Hx Hr Hv Hst Hclosed Hreq Hgone Hp Hns Hact Hb)
    as (p' & -> & Hclosed' & K & Hrv & Hcond & Hv').
  assert (v_pools v' !! key = Some p') as Hp' by (subst v'; apply lookup_insert_eq).
  assert (published_document ns v' = Some json) as Hdoc by (subst v'; apply published_publish).
  split; [done|]. split; [done|]. split; [by exists p'|]. intros tr2 s2 res2 err2 v2 Hx2 Hr2.
  assert (evolves ns v v') as E.
  { subst v'. etrans; [apply (evolves_publish ns json)|]. by apply (evolves_put ns (publish_in ns json v) key p). }
  assert (stamped p) as Sp by (apply Hst, elem_of_pools_at; eauto).
  assert (settled ns v') as Hv2.
  { destruct (Hv _ _ Hp Hns) as (_ & _ & _ & Hpos).
    apply (settled_pools ns (set_pools (<[key := p']> (v_pools v)) v)); [by subst v'|].
    eapply settled_put; [done..|]. intros _. rewrite (kept_initialRV _ _ K Sp). by apply Hpos. }
  destruct (reconcile_effect rend Recorder ns key s' tr2 s2 res2 err2 v' v2 p' Hx2 Hr2 Hv2 Hclosed' Hp' Hns)
    as [E2 _ _ [q Hq] _ _ Hc2 Hd2 _].
  pose proof (all_stamped_evolves _ _ _ E Hst) as Hst'. pose proof (is_active_evolves _ _ _ _ E Hst Hact) as Ha'.
  assert (kept p q) as Kq.
  { destruct (evolves_back _ _ _ _ _ E2 Hq) as (p0 & Hp0 & K0). rewrite Hp' in Hp0. injection Hp0 as <-. by etrans. }
  split.
  - rewrite (Hd2 _ q Hst' Ha' Hq), (publishes_kept _ _ _ p q Kq). unfold publishes. by rewrite Hbad.
  - exists q. split; [done|]. rewrite (Hc2 _ q Hst' Ha' Hq), (desired_kept _ _ _ p q Kq).
    unfold desired. by rewrite Hbad.
Qed.
End Deletion.
