(* ===== verification/PolicyController.v ===== *)
(** controllers/externaldnspolicy_controller.go: the reconciler of
    ExternalDNSPolicy objects. A policy claims the namespaces its selector
    names by four annotations, holds a finalizer while it may have claims, and
    reports in its [Validated] condition.

    A pointer the code tests for nil is an [option]. The selected namespaces
    are visited in the order of a Go map, which is the answer to [MapRange]. *)
From S2P Require Import Prelude GoStrings GoErrors Types Kube Manager.

Definition externalPolicyValidatedCondition : string := "Validated".
Definition externalPolicyFinalizer : string := "dns.astradns.com/external-policy-finalizer".
Definition namespacePolicyOwnerUIDAnnotation : string := "dns.astradns.com/external-policy-owner-uid".
Definition namespacePolicyNameAnnotation : string := "dns.astradns.com/external-policy-name".
Definition namespacePolicyUpstreamRefAnnotation : string :=
  "dns.astradns.com/external-policy-upstream-pool".
Definition namespacePolicyCacheRefAnnotation : string :=
  "dns.astradns.com/external-policy-cache-profile".

(** ** Watches *)

(** The loops of the three functions that turn an event on an object into
    requests: the policies that [refers] selects. *)
Definition policy_requests (refers : ExternalDNSPolicy -> bool) (items : list ExternalDNSPolicy)
    : list NamespacedName :=
  (fun policy => meta_key (policy_meta policy)) <$> List.filter refers items.

Definition mapUpstreamPoolToPolicies (obj : ObjectMeta) : prog (list NamespacedName) :=
  (policies <- trigger (ListPolicies (Some (Namespace obj))) ;;
   match policies with
   | inl _ => Ret []
   | inr items =>
       Ret (policy_requests
              (fun policy => String.eqb (TrimSpace (UpstreamPoolRef (policy_spec policy))) (Name obj)) items)
   end)%prog.

Definition mapCacheProfileToPolicies (obj : ObjectMeta) : prog (list NamespacedName) :=
  (policies <- trigger (ListPolicies (Some (Namespace obj))) ;;
   match policies with
   | inl _ => Ret []
   | inr items =>
       Ret (policy_requests
              (fun policy => String.eqb (TrimSpace (CacheProfileRef (policy_spec policy))) (Name obj)) items)
   end)%prog.

Definition mapNamespaceToPolicies (obj : ObjectMeta) : prog (list NamespacedName) :=
  (policies <- trigger (ListPolicies None) ;;
   match policies with
   | inl _ => Ret []
   | inr items =>
       Ret (policy_requests
              (fun policy => existsb (fun namespace => String.eqb (TrimSpace namespace) (Name obj))
                               (SelectorNamespaces (policy_spec policy))) items)
   end)%prog.

Section Reconciler.
Context `{GoRuntime} `{ApiMachinery}.
Variable Recorder : bool.

(** ** Validation *)

Definition selector_error (i : nat) (text : string) : error :=
  ErrNew ("spec.selector.namespaces[" +:+ Itoa (Z.of_nat i) +:+ "]" +:+ text).

(** The body of the loop over the selector, with the set of names seen. *)
Definition validate_selector_namespace (i : nat) (namespace : string) (seen : gset string)
    : result (gset string) :=
  let trimmed := TrimSpace namespace in
  (reject bool_decide (trimmed = "") with selector_error i " must not be empty" ;;
   reject negb (bool_decide (namespace = trimmed))
     with selector_error i " must not include leading or trailing whitespace" ;;
   reject negb (bool_decide (IsDNS1123Label trimmed = []))
     with selector_error i (" " +:+ Quote namespace +:+ " is not a valid namespace name") ;;
   reject bool_decide (trimmed ∈ seen)
     with selector_error i (" " +:+ Quote namespace +:+ " is duplicated") ;;
   inr ({[ trimmed ]} ∪ seen))%result.

Definition validate_selector (namespaces : list string) : result (gset string) :=
  range_err validate_selector_namespace 0 namespaces ∅.

Definition validatePolicyRefName (raw fieldPath : string) (required : bool) : result string :=
  (let trimmed := TrimSpace raw in
   if bool_decide (trimmed = "") then
     reject required with ErrNew (fieldPath +:+ " is required") ;;
     reject negb (bool_decide (raw = "")) with ErrNew (fieldPath +:+ " must not be whitespace") ;;
     inr ""
   else
     reject negb (bool_decide (raw = trimmed))
       with ErrNew (fieldPath +:+ " must not include leading or trailing whitespace") ;;
     reject negb (bool_decide (IsDNS1123Subdomain trimmed = []))
       with ErrNew (fieldPath +:+ " " +:+ Quote raw +:+ " is not a valid resource name") ;;
     inr trimmed)%result.

Definition validateReferences (policy : option ExternalDNSPolicy) : prog (option error) :=
  (match policy with
   | None => Ret (Some (ErrNew "external dns policy is nil"))
   | Some policy =>
       let spec := policy_spec policy in
       let namespace := Namespace (policy_meta policy) in
       if (length (SelectorNamespaces spec) =? 0)%nat then
         Ret (Some (ErrNew "spec.selector.namespaces must contain at least one namespace"))
       else
         match validate_selector (SelectorNamespaces spec) with
         | inl err => Ret (Some err)
         | inr _ =>
             match validatePolicyRefName (UpstreamPoolRef spec) "spec.upstreamPoolRef.name" true with
             | inl err => Ret (Some err)
             | inr upstreamPoolName =>
                 got <- trigger (GetPool {| key_Namespace := namespace; key_Name := upstreamPoolName |}) ;;
                 match got with
                 | inl err =>
                     if IsNotFound err then
                       Ret (Some (ErrNew ("referenced upstream pool " +:+ Quote upstreamPoolName
                                          +:+ " does not exist")))
                     else
                       Ret (Some (ErrWrap ("get referenced upstream pool "
                                           +:+ Quote upstreamPoolName +:+ ": ") err ""))
                 | inr _ =>
                     match validatePolicyRefName (CacheProfileRef spec) "spec.cacheProfileRef.name" false with
                     | inl err => Ret (Some err)
                     | inr cacheProfileName =>
                         if bool_decide (cacheProfileName = "") then Ret None
                         else
                           got <- trigger (GetProfile {| key_Namespace := namespace;
                                                         key_Name := cacheProfileName |}) ;;
                           match got with
                           | inl err =>
                               if IsNotFound err then
                                 Ret (Some (ErrNew ("referenced cache profile " +:+ Quote cacheProfileName
                                                    +:+ " does not exist")))
                               else
                                 Ret (Some (ErrWrap ("get referenced cache profile "
                                                     +:+ Quote cacheProfileName +:+ ": ") err ""))
                           | inr _ => Ret None
                           end
                     end
                 end
             end
         end
   end)%prog.

(** ** Claims on namespaces *)

(** [namespace.Annotations[key] != value], then the assignment. *)
Definition set_annotation (key value : string) (st : gmap string string * bool)
    : gmap string string * bool :=
  let '(annotations, changed) := st in
  if bool_decide (default "" (annotations !! key) = value) then st
  else (<[key := value]> annotations, true).

(** [_, exists := namespace.Annotations[key]], then the deletion. *)
Definition drop_annotation (key : string) (st : gmap string string * bool)
    : gmap string string * bool :=
  let '(annotations, changed) := st in
  match annotations !! key with
  | Some _ => (delete key annotations, true)
  | None => st
  end.

Definition namespace_name (namespace : CoreNamespace) : string := Name (namespace_meta namespace).

Definition with_annotations (annotations : option (gmap string string)) (namespace : CoreNamespace)
    : CoreNamespace :=
  {| namespace_meta := set_Annotations annotations (namespace_meta namespace) |}.

Definition policyName (policy : ExternalDNSPolicy) : string :=
  Namespace (policy_meta policy) +:+ "/" +:+ Name (policy_meta policy).

(** The annotations after the assignments, and whether one of them changed. *)
Definition claim_annotations (policy : ExternalDNSPolicy) (annotations : gmap string string)
    : gmap string string * bool :=
  let spec := policy_spec policy in
  let st := (annotations, false) in
  let st := set_annotation namespacePolicyOwnerUIDAnnotation (UID (policy_meta policy)) st in
  let st := set_annotation namespacePolicyNameAnnotation (policyName policy) st in
  let st := set_annotation namespacePolicyUpstreamRefAnnotation (UpstreamPoolRef spec) st in
  let trimmedCacheRef := TrimSpace (CacheProfileRef spec) in
  if bool_decide (trimmedCacheRef = "") then drop_annotation namespacePolicyCacheRefAnnotation st
  else set_annotation namespacePolicyCacheRefAnnotation trimmedCacheRef st.

Definition updateNamespacePolicyAnnotations (namespace : option CoreNamespace)
    (policy : option ExternalDNSPolicy) : prog (option error) :=
  (match namespace, policy with
   | Some namespace, Some policy =>
       let base := namespace in
       let annotations := default ∅ (Annotations (namespace_meta namespace)) in
       let policyUID := UID (policy_meta policy) in
       let existingUID := default "" (annotations !! namespacePolicyOwnerUIDAnnotation) in
       if negb (bool_decide (existingUID = "")) && negb (bool_decide (existingUID = policyUID)) then
         let existingPolicy := default "" (annotations !! namespacePolicyNameAnnotation) in
         let existingPolicy := if bool_decide (existingPolicy = "") then existingUID else existingPolicy in
         Ret (Some (ErrWrap "" (ErrSentinel errNamespacePolicyConflict)
                      (": namespace " +:+ Quote (namespace_name namespace)
                       +:+ " already managed by policy " +:+ Quote existingPolicy)))
       else
         let '(annotations, changed) := claim_annotations policy annotations in
         if negb changed then Ret None
         else
           let namespace := with_annotations (Some annotations) namespace in
           err <- trigger (PatchNamespace namespace base) ;;
           match err with
           | Some err =>
               Ret (Some (ErrWrap ("patch namespace " +:+ Quote (namespace_name namespace)
                                   +:+ " annotations: ") err ""))
           | None => Ret None
           end
   | _, _ => Ret None
   end)%prog.

Definition policy_keys : list string :=
  [namespacePolicyOwnerUIDAnnotation; namespacePolicyNameAnnotation;
   namespacePolicyUpstreamRefAnnotation; namespacePolicyCacheRefAnnotation].

(** The loop over the four keys. *)
Definition clear_annotations (annotations : gmap string string) : gmap string string * bool :=
  foldl (fun st key => drop_annotation key st) (annotations, false) policy_keys.

Definition removeNamespacePolicyAnnotations (namespace : option CoreNamespace)
    : prog (option error) :=
  (match namespace with
   | None => Ret None
   | Some namespace =>
       match Annotations (namespace_meta namespace) with
       | None => Ret None
       | Some annotations =>
           let base := namespace in
           let '(annotations, changed) := clear_annotations annotations in
           if negb changed then Ret None
           else
             let namespace :=
               with_annotations (if (size annotations =? 0)%nat then None else Some annotations) namespace in
             err <- trigger (PatchNamespace namespace base) ;;
             match err with
             | Some err =>
                 Ret (Some (ErrWrap ("remove policy annotations from namespace "
                                     +:+ Quote (namespace_name namespace) +:+ ": ") err ""))
             | None => Ret None
             end
       end
   end)%prog.

Definition managed_by (policyUID : string) (namespace : CoreNamespace) : bool :=
  match Annotations (namespace_meta namespace) with
  | None => false
  | Some annotations => String.eqb (default "" (annotations !! namespacePolicyOwnerUIDAnnotation)) policyUID
  end.

Definition listManagedPolicyNamespaces (policyUID : string) : prog (result (list CoreNamespace)) :=
  (namespaces <- trigger ListNamespaces ;;
   match namespaces with
   | inl err => Ret (inl (ErrWrap "list namespaces: " err ""))
   | inr items => Ret (inr (List.filter (managed_by policyUID) items))
   end)%prog.

(** ** Enforcement *)

Definition selected_namespaces (policy : ExternalDNSPolicy) : gset string :=
  list_to_set (TrimSpace <$> SelectorNamespaces (policy_spec policy)).

Definition enforcePolicy (policy : ExternalDNSPolicy) : prog (result Z) :=
  (let selectedNamespaces := selected_namespaces policy in
   managed <- listManagedPolicyNamespaces (UID (policy_meta policy)) ;;
   match managed with
   | inl err => Ret (inl err)
   | inr managedNamespaces =>
       err <- for_each (fun namespace =>
                if bool_decide (namespace_name namespace ∈ selectedNamespaces) then Ret None
                else removeNamespacePolicyAnnotations (Some namespace)) managedNamespaces ;;
       match err with
       | Some err => Ret (inl err)
       | None =>
           order <- trigger (MapRange selectedNamespaces) ;;
           for_fold (fun namespaceName appliedNamespaces =>
             got <- trigger (GetNamespace namespaceName) ;;
             match got with
             | inl err =>
                 if IsNotFound err then Ret (inr appliedNamespaces)
                 else Ret (inl (ErrWrap ("get target namespace " +:+ Quote namespaceName +:+ ": ") err ""))
             | inr namespace =>
                 err <- updateNamespacePolicyAnnotations (Some namespace) (Some policy) ;;
                 match err with
                 | Some err => Ret (inl err)
                 | None => Ret (inr (int32 (appliedNamespaces + 1)))
                 end
             end) (`order) 0
       end
   end)%prog.

Definition clearPolicyEnforcement (policy : ExternalDNSPolicy) : prog (option error) :=
  (managed <- listManagedPolicyNamespaces (UID (policy_meta policy)) ;;
   match managed with
   | inl err => Ret (Some err)
   | inr managedNamespaces =>
       for_each (fun namespace => removeNamespacePolicyAnnotations (Some namespace)) managedNamespaces
   end)%prog.

(** ** Status and events *)

Definition recordEvent (object : ExternalDNSPolicy) (eventType reason message : string) : prog unit :=
  if negb Recorder then Ret tt
  else trigger (Eventf (policy_meta object) eventType reason message).

Definition validated_condition (policy : ExternalDNSPolicy) (status : ConditionStatus)
    (reason message : string) : Condition :=
  {| cond_Type := externalPolicyValidatedCondition; cond_Status := status;
     cond_ObservedGeneration := Generation (policy_meta policy);
     cond_Reason := reason; cond_Message := message |}.

Definition with_validated (policy : ExternalDNSPolicy) (c : Condition) (appliedNodes : Z)
    : ExternalDNSPolicy :=
  {| policy_meta := policy_meta policy; policy_spec := policy_spec policy;
     policy_status :=
       {| Conditions := SetStatusCondition (Conditions (policy_status policy)) c;
          ObservedGeneration := Generation (policy_meta policy) |};
     AppliedNodes := appliedNodes |}.

Definition setValidatedCondition (policy : ExternalDNSPolicy) (status : ConditionStatus)
    (reason message : string) (appliedNodes : Z) : prog (option error) :=
  (let base := policy in
   let policy := with_validated policy (validated_condition policy status reason message) appliedNodes in
   err <- trigger (PatchPolicyStatus policy base) ;;
   match err with
   | Some err => Ret (Some (ErrWrap "update ExternalDNSPolicy status: " err ""))
   | None => Ret None
   end)%prog.

(** ** Reconcile *)

Definition with_finalizers (finalizers : list string) (policy : ExternalDNSPolicy) : ExternalDNSPolicy :=
  {| policy_meta := set_Finalizers finalizers (policy_meta policy);
     policy_spec := policy_spec policy; policy_status := policy_status policy;
     AppliedNodes := AppliedNodes policy |}.

Definition has_finalizer (policy : ExternalDNSPolicy) : bool :=
  ContainsFinalizer (Finalizers (policy_meta policy)) externalPolicyFinalizer.

(** [!policy.DeletionTimestamp.IsZero()]. *)
Definition deleting (policy : ExternalDNSPolicy) : bool :=
  match DeletionTimestamp (policy_meta policy) with
  | None => false
  | Some t => negb (time_IsZero t)
  end.

(** The branch of a policy that is being deleted. *)
Definition reconcileDeletion (policy : ExternalDNSPolicy) : prog (ReconcileResult * option error) :=
  (if negb (has_finalizer policy) then Ret (no_requeue, None)
   else
     err <- clearPolicyEnforcement policy ;;
     match err with
     | Some err => Ret (no_requeue, Some (ErrWrap "clear policy enforcement: " err ""))
     | None =>
         let base := policy in
         let policy := with_finalizers
           (RemoveFinalizer (Finalizers (policy_meta policy)) externalPolicyFinalizer) policy in
         patched <- trigger (PatchPolicy policy base) ;;
         match patched with
         | inl err => Ret (no_requeue, Some (ErrWrap "remove policy finalizer: " err ""))
         | inr _ => Ret (no_requeue, None)
         end
     end)%prog.

(** The finalizer of a live policy; the value is [policy] afterwards. *)
Definition ensureFinalizer (policy : ExternalDNSPolicy) : prog (result ExternalDNSPolicy) :=
  (if negb (has_finalizer policy) then
     let base := policy in
     let policy := with_finalizers
       (AddFinalizer (Finalizers (policy_meta policy)) externalPolicyFinalizer) policy in
     patched <- trigger (PatchPolicy policy base) ;;
     Ret (wrap_err "add policy finalizer: " patched)
   else Ret (inr policy))%prog.

(** From the validation of a live policy with its finalizer to the end. *)
Definition reconcileLive (policy : ExternalDNSPolicy) : prog (ReconcileResult * option error) :=
  (err <- validateReferences (Some policy) ;;
   match err with
   | Some err =>
       recordEvent policy "Warning" "ValidationFailed" (Error err) ;;
       statusErr <- setValidatedCondition policy ConditionFalse "ValidationFailed" (Error err) 0 ;;
       Ret (no_requeue, statusErr)
   | None =>
       applied <- enforcePolicy policy ;;
       match applied with
       | inl err =>
           recordEvent policy "Warning" "EnforcementFailed" (Error err) ;;
           statusErr <- setValidatedCondition policy ConditionFalse "EnforcementFailed" (Error err) 0 ;;
           match statusErr with
           | Some statusErr => Ret (no_requeue, Some statusErr)
           | None =>
               if errors_Is err errNamespacePolicyConflict then Ret (no_requeue, None)
               else Ret (no_requeue, Some err)
           end
       | inr appliedNamespaces =>
           recordEvent policy "Normal" "Enforced" "Validated and enforced ExternalDNSPolicy" ;;
           err <- setValidatedCondition policy ConditionTrue "Enforced"
                    "References are valid and policy is enforced" appliedNamespaces ;;
           Ret (no_requeue, err)
       end
   end)%prog.

Definition Reconcile (req : NamespacedName) : prog (ReconcileResult * option error) :=
  (got <- trigger (GetPolicy req) ;;
   match got with
   | inl err =>
       if IsNotFound err then Ret (no_requeue, None)
       else Ret (no_requeue, Some (ErrWrap ("get ExternalDNSPolicy " +:+ key_String req +:+ ": ") err ""))
   | inr policy =>
       if deleting policy then reconcileDeletion policy
       else
         finalized <- ensureFinalizer policy ;;
         match finalized with
         | inl err => Ret (no_requeue, Some err)
         | inr policy => reconcileLive policy
         end
   end)%prog.

(** ** Registration *)

Definition policy_builder : Builder :=
  Watches KindNamespace mapNamespaceToPolicies
    (Watches KindProfile mapCacheProfileToPolicies
       (Watches KindPool mapUpstreamPoolToPolicies (For KindPolicy))).

Definition SetupWithManager `{ManagerLib} (mgr : Manager) : result Manager :=
  Complete {| ctl_builder := policy_builder; ctl_reconciler := stateless Reconcile |} mgr.
End Reconciler.
