(* ===== verification/PolicySpec.v ===== *)
(** What the policy reconciler does, as relations: the outcomes of the two
    functions that patch a namespace, of the validation, of the enforcement
    and the clearing (loops over namespaces), and [policy_outcome], one rule
    per way a reconciliation can end. Every execution is one of them
    ([policy_outcome_of]), whatever the API server answers. *)
From S2P Require Import Prelude GoStrings GoErrors Types Kube PolicyController.

(** ** Claims *)

(** The value of an annotation; the code reads an absent one as empty. *)
Definition annotation (key : string) (namespace : CoreNamespace) : string :=
  map_get "" (Annotations (namespace_meta namespace)) key.

Definition owner (namespace : CoreNamespace) : string :=
  annotation "dns.astradns.com/external-policy-owner-uid" namespace.

(** The namespace carries the claim of the policy. *)
Record claimed_by (policy : ExternalDNSPolicy) (namespace : CoreNamespace) : Prop := {
  claim_owner : owner namespace = UID (policy_meta policy);
  claim_name : annotation "dns.astradns.com/external-policy-name" namespace
               = Namespace (policy_meta policy) +:+ "/" +:+ Name (policy_meta policy);
  claim_upstream : annotation "dns.astradns.com/external-policy-upstream-pool" namespace
                   = UpstreamPoolRef (policy_spec policy);
  claim_cache : map_lookup (Annotations (namespace_meta namespace))
                  "dns.astradns.com/external-policy-cache-profile"
                = if bool_decide (TrimSpace (CacheProfileRef (policy_spec policy)) = "") then None
                  else Some (TrimSpace (CacheProfileRef (policy_spec policy)));
}.

(** No trace of a policy is left. *)
Definition unclaimed (namespace : CoreNamespace) : Prop :=
  forall key, key ∈ policy_keys -> map_lookup (Annotations (namespace_meta namespace)) key = None.

(** Nothing but the annotations of the policies differs. *)
Definition same_otherwise (base namespace : CoreNamespace) : Prop :=
  namespace_meta namespace = set_Annotations (Annotations (namespace_meta namespace)) (namespace_meta base) /\
  forall key, key ∉ policy_keys ->
    map_lookup (Annotations (namespace_meta namespace)) key
    = map_lookup (Annotations (namespace_meta base)) key.

(** ** The annotation maps *)

Lemma set_annotation_spec key value m changed m' changed' :
  set_annotation key value (m, changed) = (m', changed') ->
  default "" (m' !! key) = value /\ (value <> "" -> m' !! key = Some value) /\
  (forall k, k <> key -> m' !! k = m !! k) /\
  (changed' = false -> m' = m /\ changed = false) /\
  (default "" (m !! key) = value -> m' = m /\ changed' = changed).
Proof.
  unfold set_annotation. case_bool_decide as Hv; intros; simplify_eq.
  - split_and!; try done. intros Hne. by destruct (m' !! key).
  - rewrite lookup_insert_eq. split_and!; try done. intros k Hk. by rewrite lookup_insert_ne.
Qed.

Lemma drop_annotation_spec key m changed m' changed' :
  drop_annotation key (m, changed) = (m', changed') ->
  m' !! key = None /\ (forall k, k <> key -> m' !! k = m !! k) /\
  (changed' = false -> m' = m /\ changed = false) /\
  (m !! key = None -> m' = m /\ changed' = changed) /\
  (is_Some (m !! key) -> changed' = true).
Proof.
  unfold drop_annotation. destruct (m !! key) eqn:E; intros; simplify_eq.
  - rewrite lookup_delete_eq. split_and!; try done. intros k Hk. by rewrite lookup_delete_ne.
  - split_and!; try done.
Qed.

Lemma not_policy_key k :
  k ∉ policy_keys ->
  k <> namespacePolicyOwnerUIDAnnotation /\ k <> namespacePolicyNameAnnotation /\
  k <> namespacePolicyUpstreamRefAnnotation /\ k <> namespacePolicyCacheRefAnnotation.
Proof. unfold policy_keys. rewrite !not_elem_of_cons. intros (? & ? & ? & ? & _). done. Qed.

(** The claim of a policy on a map of annotations. *)
Definition map_claim (policy : ExternalDNSPolicy) (m : gmap string string) : Prop :=
  default "" (m !! namespacePolicyOwnerUIDAnnotation) = UID (policy_meta policy) /\
  default "" (m !! namespacePolicyNameAnnotation) = policyName policy /\
  default "" (m !! namespacePolicyUpstreamRefAnnotation) = UpstreamPoolRef (policy_spec policy) /\
  m !! namespacePolicyCacheRefAnnotation
  = if bool_decide (TrimSpace (CacheProfileRef (policy_spec policy)) = "") then None
    else Some (TrimSpace (CacheProfileRef (policy_spec policy))).

Lemma claim_annotations_spec policy m m' changed :
  claim_annotations policy m = (m', changed) ->
  map_claim policy m' /\ (forall k, k ∉ policy_keys -> m' !! k = m !! k) /\
  (changed = false -> m' = m) /\ (map_claim policy m -> m' = m /\ changed = false).
Proof.
  unfold claim_annotations.
  destruct (set_annotation namespacePolicyOwnerUIDAnnotation _ _) as [m1 c1] eqn:E1.
  destruct (set_annotation namespacePolicyNameAnnotation _ _) as [m2 c2] eqn:E2.
  destruct (set_annotation namespacePolicyUpstreamRefAnnotation _ _) as [m3 c3] eqn:E3.
  apply set_annotation_spec in E1 as (V1 & _ & F1 & U1 & I1).
  apply set_annotation_spec in E2 as (V2 & _ & F2 & U2 & I2).
  apply set_annotation_spec in E3 as (V3 & _ & F3 & U3 & I3).
  intros E4.
  assert ((m' !! namespacePolicyCacheRefAnnotation =
            if bool_decide (TrimSpace (CacheProfileRef (policy_spec policy)) = "") then None
            else Some (TrimSpace (CacheProfileRef (policy_spec policy)))) /\
          (forall k, k <> namespacePolicyCacheRefAnnotation -> m' !! k = m3 !! k) /\
          (changed = false -> m' = m3 /\ c3 = false) /\
          (m3 !! namespacePolicyCacheRefAnnotation =
             (if bool_decide (TrimSpace (CacheProfileRef (policy_spec policy)) = "") then None
              else Some (TrimSpace (CacheProfileRef (policy_spec policy)))) ->
           m' = m3 /\ changed = c3)) as (V4 & F4 & U4 & I4).
  { case_bool_decide as Hc.
    - apply drop_annotation_spec in E4 as (? & ? & ? & ? & _). done.
    - apply set_annotation_spec in E4 as (? & Hs & ? & ? & Hi). split_and!; auto.
      intros Hl. apply Hi. by rewrite Hl. }
  unfold map_claim. split_and!.
  - rewrite F4, F3, F2 by done. done.
  - by rewrite F4, F3 by done.
  - by rewrite F4 by done.
  - done.
  - intros k (? & ? & ? & ?)%not_policy_key. by rewrite F4, F3, F2, F1.
  - intros Hc. destruct (U4 Hc) as [-> Hc3], (U3 Hc3) as [-> Hc2], (U2 Hc2) as [-> Hc1].
    by destruct (U1 Hc1).
  - intros (C1 & C2 & C3 & C4). destruct (I1 C1) as [-> ->]. destruct (I2 C2) as [-> ->].
    destruct (I3 C3) as [-> ->]. by apply I4.
Qed.

Lemma clear_annotations_spec m m' changed :
  clear_annotations m = (m', changed) ->
  (forall k, m' !! k = if decide (k ∈ policy_keys) then None else m !! k) /\
  (changed = false -> m' = m) /\
  (is_Some (m !! namespacePolicyOwnerUIDAnnotation) -> changed = true).
Proof.
  unfold clear_annotations. cbn [foldl policy_keys].
  destruct (drop_annotation namespacePolicyOwnerUIDAnnotation _) as [m1 c1] eqn:E1.
  destruct (drop_annotation namespacePolicyNameAnnotation _) as [m2 c2] eqn:E2.
  destruct (drop_annotation namespacePolicyUpstreamRefAnnotation _) as [m3 c3] eqn:E3.
  intros E4.
  apply drop_annotation_spec in E1 as (V1 & F1 & U1 & I1 & T1).
  apply drop_annotation_spec in E2 as (V2 & F2 & U2 & I2 & T2).
  apply drop_annotation_spec in E3 as (V3 & F3 & U3 & I3 & T3).
  apply drop_annotation_spec in E4 as (V4 & F4 & U4 & I4 & T4).
  split_and!.
  - intros k. case_decide as Hk.
    + unfold policy_keys in Hk. repeat (apply elem_of_cons in Hk as [->|Hk]);
        [rewrite F4, F3, F2 by done; done|rewrite F4, F3 by done; done|rewrite F4 by done; done|done|].
      by apply not_elem_of_nil in Hk.
    + apply not_policy_key in Hk as (? & ? & ? & ?). by rewrite F4, F3, F2, F1.
  - intros Hc. destruct (U4 Hc) as [-> Hc3], (U3 Hc3) as [-> Hc2], (U2 Hc2) as [-> Hc1].
    by destruct (U1 Hc1).
  - intros Hs. destruct changed; [done|].
    destruct (U4 eq_refl) as [_ Hc3], (U3 Hc3) as [_ Hc2], (U2 Hc2) as [_ Hc1].
    by rewrite (T1 Hs) in Hc1.
Qed.

(** Clearing undoes claiming: it leaves what was there beside the claims. *)
Lemma claim_clear_roundtrip policy m :
  (clear_annotations (claim_annotations policy m).1).1 = (clear_annotations m).1 /\
  ((forall k, k ∈ policy_keys -> m !! k = None) -> (clear_annotations (claim_annotations policy m).1).1 = m).
Proof.
  destruct (claim_annotations policy m) as [m1 c1] eqn:E1. destruct (clear_annotations m1) as [m2 c2] eqn:E2.
  destruct (clear_annotations m) as [m3 c3] eqn:E3. cbn [fst]. rewrite E2. cbn [fst].
  apply claim_annotations_spec in E1 as (_ & Hframe & _).
  apply clear_annotations_spec in E2 as (Hl2 & _), E3 as (Hl3 & _).
  assert (m2 = m3) as ->.
  { apply map_eq. intros k. rewrite Hl2, Hl3. case_decide; auto. }
  split; [done|]. intros Hno. apply map_eq. intros k. rewrite Hl3. case_decide; [|done]. symmetry. auto.
Qed.

(** ** Patches of namespaces *)

(** [namespace] is [base] with the policy's claim, written only if nobody
    else has claimed [base]. *)
Record claim_patch (policy : ExternalDNSPolicy) (base namespace : CoreNamespace) : Prop := {
  cp_free : owner base = "" \/ owner base = UID (policy_meta policy);
  cp_claimed : claimed_by policy namespace;
  cp_same : same_otherwise base namespace;
}.

(** [namespace] is [base] without claim; an empty annotation map is dropped. *)
Record clear_patch (base namespace : CoreNamespace) : Prop := {
  cl_unclaimed : unclaimed namespace;
  cl_same : same_otherwise base namespace;
  cl_empty : Annotations (namespace_meta namespace) <> Some ∅;
}.

Lemma map_claim_claimed policy namespace :
  map_claim policy (default ∅ (Annotations (namespace_meta namespace))) <-> claimed_by policy namespace.
Proof.
  unfold map_claim. destruct (Annotations (namespace_meta namespace)) as [m|] eqn:E; cbn;
    (split; [intros (H1 & H2 & H3 & H4); split | intros [H1 H2 H3 H4]; split_and!]);
    unfold owner, annotation in *; rewrite ?E in *; done.
Qed.

Lemma owner_default namespace :
  owner namespace
  = default "" (default ∅ (Annotations (namespace_meta namespace)) !! namespacePolicyOwnerUIDAnnotation).
Proof. unfold owner, annotation. by destruct (Annotations (namespace_meta namespace)). Qed.

(** Who holds a namespace against [policy]. *)
Definition held_by_other (policy : ExternalDNSPolicy) (namespace : CoreNamespace) : Prop :=
  owner namespace <> "" /\ owner namespace <> UID (policy_meta policy).

Section Programs.
Context `{GoRuntime}.

(** The outcome of [updateNamespacePolicyAnnotations]. *)
Definition update_outcome (policy : ExternalDNSPolicy) (namespace : CoreNamespace)
    (tr : trace) (err : option error) : Prop :=
  (held_by_other policy namespace /\ tr = [] /\
   exists e, err = Some e /\ errors_Is e errNamespacePolicyConflict = true) \/
  (claimed_by policy namespace /\ tr = [] /\ err = None) \/
  (~ claimed_by policy namespace /\ exists obj r,
     tr = [ev (PatchNamespace obj namespace) r] /\ claim_patch policy namespace obj /\
     err = (fun e => ErrWrap ("patch namespace " +:+ Quote (namespace_name namespace)
                              +:+ " annotations: ") e "") <$> r).

Lemma wp_update policy namespace :
  wp (updateNamespacePolicyAnnotations (Some namespace) (Some policy)) (update_outcome policy namespace).
Proof.
  unfold updateNamespacePolicyAnnotations. rewrite <- owner_default.
  destruct (negb (bool_decide (owner namespace = ""))
            && negb (bool_decide (owner namespace = UID (policy_meta policy)))) eqn:Hheld.
  { left. bool_to_prop. unfold held_by_other. split_and!; try done. by eexists. }
  assert (owner namespace = "" \/ owner namespace = UID (policy_meta policy)) as Hfree.
  { repeat case_bool_decide; cbn in Hheld; auto; done. }
  destruct (claim_annotations policy _) as [m changed] eqn:Hclaim.
  apply claim_annotations_spec in Hclaim as (Hm & Hframe & Hsame & Hidem).
  destruct changed; cbn [negb].
  - assert (~ claimed_by policy namespace) as Hnot.
    { intros [_ Hc]%map_claim_claimed%Hidem. done. }
    assert (claim_patch policy namespace (with_annotations (Some m) namespace)) as Hp.
    { split; [done| |split; [done|]].
      - by apply map_claim_claimed.
      - intros k Hk. cbn. rewrite Hframe by done. by destruct (Annotations (namespace_meta namespace)). }
    intros r. assert (update_outcome policy namespace
      [ev (PatchNamespace (with_annotations (Some m) namespace) namespace) r]
      ((fun e => ErrWrap ("patch namespace " +:+ Quote (namespace_name namespace) +:+ " annotations: ") e "")
         <$> r)) as Hout by (right; right; eauto 10).
    by destruct r.
  - right. left. split; [|done]. apply map_claim_claimed. by rewrite <- Hsame.
Qed.

(** The outcome of [removeNamespacePolicyAnnotations] on a namespace that has
    an owner annotation. *)
Definition remove_outcome (namespace : CoreNamespace) (tr : trace) (err : option error) : Prop :=
  (tr = [] /\ err = None /\
   map_lookup (Annotations (namespace_meta namespace)) namespacePolicyOwnerUIDAnnotation = None) \/
  (exists obj r, tr = [ev (PatchNamespace obj namespace) r] /\ clear_patch namespace obj /\
     err = (fun e => ErrWrap ("remove policy annotations from namespace "
                              +:+ Quote (namespace_name namespace) +:+ ": ") e "") <$> r).

Lemma wp_remove namespace :
  wp (removeNamespacePolicyAnnotations (Some namespace)) (remove_outcome namespace).
Proof.
  unfold removeNamespacePolicyAnnotations.
  destruct (Annotations (namespace_meta namespace)) as [m|] eqn:Em; [|left; by rewrite Em].
  destruct (clear_annotations m) as [m' changed] eqn:Hclear.
  apply clear_annotations_spec in Hclear as (Hlook & Hsame & Howner).
  destruct changed; cbn [negb].
  - set (obj := with_annotations _ _). assert (forall k, map_lookup (Annotations (namespace_meta obj)) k = m' !! k) as Hobj.
    { intros k. unfold obj. cbn. destruct (size m' =? 0)%nat eqn:Hs; [|done].
      apply Nat.eqb_eq, map_size_empty_inv in Hs. by rewrite Hs, lookup_empty. }
    assert (clear_patch namespace obj) as Hp; [split; [|split; [done|]|]|].
    + intros k Hk. by rewrite Hobj, Hlook, decide_True.
    + intros k Hk. by rewrite Hobj, Hlook, decide_False, Em.
    + unfold obj. cbn. destruct (size m' =? 0)%nat eqn:Hs; [done|].
      by intros ?; simplify_eq.
    + intros r. assert (remove_outcome namespace [ev (PatchNamespace obj namespace) r]
        ((fun e => ErrWrap ("remove policy annotations from namespace "
                            +:+ Quote (namespace_name namespace) +:+ ": ") e "") <$> r)) as Hout
        by (right; eauto 10).
      by destruct r.
  - left. split_and!; [done..|]. rewrite Em. cbn.
    destruct (m !! namespacePolicyOwnerUIDAnnotation) eqn:E; [|done]. by pose proof (Howner (mk_is_Some _ _ eq_refl)).
Qed.

Lemma managed_by_owner uid namespace :
  managed_by uid namespace = true <->
  Annotations (namespace_meta namespace) <> None /\ owner namespace = uid.
Proof.
  unfold managed_by, owner, annotation. destruct (Annotations _); [|by split; [|intros []]].
  rewrite String.eqb_eq. naive_solver.
Qed.

Lemma wp_listManaged uid :
  wp (listManagedPolicyNamespaces uid) (fun tr r => exists listed, tr = [ev ListNamespaces listed] /\
    r = match listed with
        | inl e => inl (ErrWrap "list namespaces: " e "")
        | inr items => inr (List.filter (managed_by uid) items)
        end).
Proof. intros [e|items]; eexists; (split; [reflexivity|]); done. Qed.

(** ** Enforcement *)

(** One iteration over the namespaces the policy manages already. *)
Definition keep_or_clear (policy : ExternalDNSPolicy) (namespace : CoreNamespace)
    (tr : trace) (err : option error) : Prop :=
  (namespace_name namespace ∈ selected_namespaces policy /\ tr = [] /\ err = None) \/
  (namespace_name namespace ∉ selected_namespaces policy /\ remove_outcome namespace tr err).

(** One iteration over the selected namespaces. *)
Definition claim_selected (policy : ExternalDNSPolicy) (name : string) (count : Z)
    (tr : trace) (r : error + Z) : Prop :=
  (exists e, tr = [ev (GetNamespace name) (inl e)] /\
     (if IsNotFound e then r = inr count
      else exists e', r = inl e' /\
             errors_Is e' errNamespacePolicyConflict = errors_Is e errNamespacePolicyConflict)) \/
  (exists namespace tr' err, tr = ev (GetNamespace name) (inr namespace) :: tr' /\
     update_outcome policy namespace tr' err /\
     r = match err with
         | Some e => inl e
         | None => inr (int32 (count + 1))
         end).

Inductive enforce_outcome (policy : ExternalDNSPolicy) : trace -> result Z -> Prop :=
  | enforce_unlisted e :
      enforce_outcome policy [ev ListNamespaces (inl e)] (inl (ErrWrap "list namespaces: " e ""))
  | enforce_uncleared items tr e :
      each_runs (keep_or_clear policy) (List.filter (managed_by (UID (policy_meta policy))) items)
        tr (Some e) ->
      enforce_outcome policy (ev ListNamespaces (inr items) :: tr) (inl e)
  | enforce_claims items tr order tr' r :
      each_runs (keep_or_clear policy) (List.filter (managed_by (UID (policy_meta policy))) items)
        tr None ->
      fold_runs (claim_selected policy) (`order) 0 tr' r ->
      enforce_outcome policy
        (ev ListNamespaces (inr items) :: tr ++ ev (MapRange (selected_namespaces policy)) order :: tr') r.

Lemma wp_enforcePolicy policy : wp (enforcePolicy policy) (enforce_outcome policy).
Proof.
  unfold enforcePolicy. eapply wp_seq; [apply wp_listManaged|].
  intros tr r (listed & -> & ->). destruct listed as [e|items]; [by constructor|].
  eapply wp_seq; [apply (wp_for_each _ (keep_or_clear policy))|].
  { intros namespace _. case_bool_decide as Hs; [by left|].
    eapply wp_mono; [|apply wp_remove]. intros tr err Hr. by right. }
  intros tr [e|] Heach; [apply wp_ret; rewrite app_nil_r; by constructor|].
  eapply wp_seq; [apply wp_trigger|]. intros tr0 order ->.
  eapply wp_mono; [|apply (wp_for_fold _ (claim_selected policy))].
  { intros tr' r Hr. cbn. by constructor. }
  intros name count _. eapply wp_seq; [apply wp_trigger|]. intros tr0 [e|namespace] ->.
  - destruct (IsNotFound e) eqn:He; apply wp_ret; left; exists e; rewrite He; (split; [done|]); eauto.
  - eapply wp_seq; [apply wp_update|]. intros tr0 err Hu.
    assert (claim_selected policy name count (ev (GetNamespace name) (inr namespace) :: tr0)
      match err with Some e => inl e | None => inr (int32 (count + 1)) end) as Hc by (right; eauto 10).
    destruct err; apply wp_ret; by rewrite app_nil_r.
Qed.
End Programs.

(** ** Validation of the references *)

Section Validation.
Context `{GoRuntime} `{ApiMachinery}.

(** A selector without mistakes. *)
Record selector_valid (namespaces : list string) : Prop := {
  sv_some : namespaces <> [];
  sv_names : Forall (fun n => n <> "" /\ TrimSpace n = n /\ IsDNS1123Label n = []) namespaces;
  sv_distinct : NoDup namespaces;
}.

(** A reference without mistakes; an optional one may be empty. *)
Definition ref_valid (required : bool) (raw : string) : Prop :=
  (raw = "" /\ required = false) \/ (raw <> "" /\ TrimSpace raw = raw /\ IsDNS1123Subdomain raw = []).

Lemma validatePolicyRefName_ok raw path required v :
  validatePolicyRefName raw path required = inr v <-> ref_valid required raw /\ v = raw.
Proof.
  unfold validatePolicyRefName, ref_valid. split.
  - intros Hv. repeat case_match; simplify_eq; bool_to_prop; subst; split; auto.
    right. split_and!; congruence.
  - intros [[[-> ->]|(Hne & Ht & Hs)] ->]; [done|].
    rewrite Ht, Hs, (bool_decide_false (raw = "")) by done. by rewrite !bool_decide_true.
Qed.

Lemma validate_selector_loop l i seen :
  (exists seen', range_err validate_selector_namespace i l seen = inr seen')
  <-> Forall (fun n => n <> "" /\ TrimSpace n = n /\ IsDNS1123Label n = []) l /\ NoDup l /\
      forall n, n ∈ l -> n ∉ seen.
Proof.
  revert i seen. induction l as [|n l IH]; intros i seen; cbn [range_err].
  { split; [|eauto]. intros _. split_and!; [constructor|constructor|set_solver]. }
  rewrite Forall_cons, NoDup_cons. unfold validate_selector_namespace at 1. cbn zeta.
  case_bool_decide as Ht; [split; [by intros []|intros ((( ? & ? & _) & _) & _); congruence]|].
  case_bool_decide as Hn; cbn [negb]; [|split; [by intros []|intros (((_ & ? & _) & _) & _); congruence]].
  rewrite <- Hn in *.
  case_bool_decide as Hl; cbn [negb]; [|split; [by intros []|intros (((_ & _ & ?) & _) & _); done]].
  case_bool_decide as Hs; [split; [by intros []|intros (_ & _ & Hd); by destruct (Hd n); [left|]]|].
  rewrite IH. split.
  - intros (Hf & Hnd & Hd). split_and!; try done; [|set_solver]. intros Hin. apply (Hd n Hin). set_solver.
  - intros ((_ & Hf) & (Hnin & Hnd) & Hd). split_and!; try done.
    intros k Hk [->%elem_of_singleton|Hks]%elem_of_union; [done|]. by apply (Hd k); [right|].
Qed.

Lemma validate_selector_ok l :
  (exists seen, validate_selector l = inr seen)
  <-> Forall (fun n => n <> "" /\ TrimSpace n = n /\ IsDNS1123Label n = []) l /\ NoDup l.
Proof. unfold validate_selector. rewrite validate_selector_loop. set_solver. Qed.

(** The reads of a validation that finds everything in place. *)
Definition references_found (policy : ExternalDNSPolicy) (tr : trace) : Prop :=
  let ns := Namespace (policy_meta policy) in
  let upstream := UpstreamPoolRef (policy_spec policy) in
  let cache := CacheProfileRef (policy_spec policy) in
  exists pool,
    (cache = "" /\ tr = [ev (GetPool {| key_Namespace := ns; key_Name := upstream |}) (inr pool)]) \/
    (cache <> "" /\ exists profile,
       tr = [ev (GetPool {| key_Namespace := ns; key_Name := upstream |}) (inr pool);
             ev (GetProfile {| key_Namespace := ns; key_Name := cache |}) (inr profile)]).

(** The reads of a validation that does not find an object. *)
Definition reference_missing (policy : ExternalDNSPolicy) (tr : trace) : Prop :=
  let ns := Namespace (policy_meta policy) in
  let upstream := UpstreamPoolRef (policy_spec policy) in
  let cache := CacheProfileRef (policy_spec policy) in
  exists e,
    tr = [ev (GetPool {| key_Namespace := ns; key_Name := upstream |}) (inl e)] \/
    (cache <> "" /\ exists pool,
       tr = [ev (GetPool {| key_Namespace := ns; key_Name := upstream |}) (inr pool);
             ev (GetProfile {| key_Namespace := ns; key_Name := cache |}) (inl e)]).

(** The selector and the references are well formed. *)
Definition references_valid (policy : ExternalDNSPolicy) : Prop :=
  selector_valid (SelectorNamespaces (policy_spec policy)) /\
  ref_valid true (UpstreamPoolRef (policy_spec policy)) /\
  ref_valid false (CacheProfileRef (policy_spec policy)).

Definition validate_outcome (policy : ExternalDNSPolicy) (tr : trace) (err : option error) : Prop :=
  (List.filter is_write tr = [] /\ loud tr = tr /\ omap as_policy_get tr = []) /\
  (err = None -> references_valid policy /\ references_found policy tr) /\
  (err <> None -> ~ references_valid policy \/ reference_missing policy tr).

Lemma not_found_and_missing policy tr : references_found policy tr -> reference_missing policy tr -> False.
Proof.
  intros (pool & [[Hc ->]|(Hc & profile & ->)]) (e & [Htr|(Hc' & pool' & Htr)]);
    pose proof (f_equal (omap as_pool_get) Htr); pose proof (f_equal (omap as_profile_get) Htr); by simplify_eq/=.
Qed.

Lemma wp_validateReferences policy :
  wp (validateReferences (Some policy)) (validate_outcome policy).
Proof.
  assert (forall e, ~ references_valid policy -> validate_outcome policy [] (Some e)) as Hbad.
  { intros e Hbad. split; [done|]. split; [done|]. by left. }
  unfold validateReferences.
  destruct (length _ =? 0)%nat eqn:Hlen.
  { apply Nat.eqb_eq, nil_length_inv in Hlen. apply Hbad. by intros ([] & _). }
  apply Nat.eqb_neq in Hlen.
  destruct (validate_selector _) as [e|seen] eqn:Hsel.
  { apply Hbad. intros ([_ ? ?] & _).
    destruct (proj2 (validate_selector_ok (SelectorNamespaces (policy_spec policy)))) as [? Hs]; [done|].
    by rewrite Hs in Hsel. }
  assert (selector_valid (SelectorNamespaces (policy_spec policy))) as Hvalid.
  { destruct (proj1 (validate_selector_ok (SelectorNamespaces (policy_spec policy)))) as [? ?]; [eauto|].
    split; [|done..]. intros Hnil. by rewrite Hnil in Hlen. }
  destruct (validatePolicyRefName (UpstreamPoolRef (policy_spec policy)) _ true) as [e|v] eqn:Hup.
  { apply Hbad. intros (_ & Hr & _).
    by rewrite (proj2 (validatePolicyRefName_ok _ _ _ _) (conj Hr eq_refl)) in Hup. }
  apply validatePolicyRefName_ok in Hup as [Hup ->].
  eapply wp_seq; [apply wp_trigger|]. intros tr0 [e|pool] ->.
  { destruct (IsNotFound e); apply wp_ret; (split; [done|]); (split; [done|]); right; exists e; by left. }
  destruct (validatePolicyRefName (CacheProfileRef (policy_spec policy)) _ false) as [e|v] eqn:Hc.
  { apply wp_ret. split; [done|]. split; [done|]. left. intros (_ & _ & Hr).
    by rewrite (proj2 (validatePolicyRefName_ok _ _ _ _) (conj Hr eq_refl)) in Hc. }
  apply validatePolicyRefName_ok in Hc as [Hc ->].
  case_bool_decide as Hempty.
  { apply wp_ret. split; [done|]. split; [|done]. intros _. split; [done|]. exists pool. by left. }
  eapply wp_seq; [apply wp_trigger|]. intros tr0 [e|profile] ->.
  - destruct (IsNotFound e); apply wp_ret; (split; [done|]); (split; [done|]); right; exists e; right; eauto.
  - apply wp_ret. split; [done|]. split; [|done]. intros _. split; [done|]. exists pool. right. eauto.
Qed.

(** C28. A policy's references are accepted exactly if the selector is a
    non-empty list of distinct namespace names, the pool reference is a
    resource name, the profile reference is empty or a resource name (all
    without surrounding white space), and the objects referred to were found
    in the policy's namespace. Validation only reads. *)
Theorem validate_references_iff policy tr err :
  exec (validateReferences (Some policy)) tr err ->
  List.filter is_write tr = [] /\
  (err = None <->
   selector_valid (SelectorNamespaces (policy_spec policy)) /\
   ref_valid true (UpstreamPoolRef (policy_spec policy)) /\
   ref_valid false (CacheProfileRef (policy_spec policy)) /\
   references_found policy tr).
Proof.
  intros Hx. destruct (proj1 (wp_exec _ _) (wp_validateReferences policy) tr err Hx) as ((? & _) & Hok & Hbad).
  split; [done|]. split.
  - intros [(? & ? & ?) ?]%Hok. done.
  - intros (? & ? & ? & Hfound). destruct err as [e|]; [|done].
    destruct Hbad as [Hr|Hm]; [done|by destruct Hr|]. by destruct (not_found_and_missing _ _ Hfound Hm).
Qed.
End Validation.

(** ** What the reconciler does *)

Section Outcomes.
Context `{GoRuntime} `{ApiMachinery}.
Variable Recorder : bool.

Definition policy_status_event (policy : ExternalDNSPolicy) (status : ConditionStatus)
    (reason message : string) (appliedNodes : Z) (r : option error) : event :=
  ev (PatchPolicyStatus
        (with_validated policy (validated_condition policy status reason message) appliedNodes) policy) r.

Definition policy_status_error (r : option error) : option error :=
  (fun e => ErrWrap "update ExternalDNSPolicy status: " e "") <$> r.

(** A live policy that holds the finalizer. *)
Inductive live_outcome (policy : ExternalDNSPolicy) : trace -> option error -> Prop :=
  | live_invalid tr e r :
      validate_outcome policy tr (Some e) ->
      live_outcome policy
        (tr ++ [policy_status_event policy ConditionFalse "ValidationFailed" (Error e) 0 r])
        (policy_status_error r)
  | live_unenforced tr tr' e r :
      validate_outcome policy tr None -> enforce_outcome policy tr' (inl e) ->
      live_outcome policy
        (tr ++ tr' ++ [policy_status_event policy ConditionFalse "EnforcementFailed" (Error e) 0 r])
        (match policy_status_error r with
         | Some e' => Some e'
         | None => if errors_Is e errNamespacePolicyConflict then None else Some e
         end)
  | live_enforced tr tr' n r :
      validate_outcome policy tr None -> enforce_outcome policy tr' (inr n) ->
      live_outcome policy
        (tr ++ tr' ++ [policy_status_event policy ConditionTrue "Enforced"
                         "References are valid and policy is enforced" n r])
        (policy_status_error r).

(** Clearing the claims of a policy. *)
Inductive clear_outcome (policy : ExternalDNSPolicy) : trace -> option error -> Prop :=
  | clear_unlisted e :
      clear_outcome policy [ev ListNamespaces (inl e)] (Some (ErrWrap "list namespaces: " e ""))
  | clear_each items tr r :
      each_runs remove_outcome (List.filter (managed_by (UID (policy_meta policy))) items) tr r ->
      clear_outcome policy (ev ListNamespaces (inr items) :: tr) r.

(** The policy as it is once it holds the finalizer. *)
Inductive finalizer_outcome (policy : ExternalDNSPolicy) : trace -> result ExternalDNSPolicy -> Prop :=
  | finalizer_present : has_finalizer policy = true -> finalizer_outcome policy [] (inr policy)
  | finalizer_added r :
      has_finalizer policy = false ->
      finalizer_outcome policy
        [ev (PatchPolicy (with_finalizers
              (AddFinalizer (Finalizers (policy_meta policy)) externalPolicyFinalizer) policy) policy) r] r.

Inductive policy_outcome (req : NamespacedName) : trace -> option error -> Prop :=
  | policy_unread e :
      policy_outcome req [ev (GetPolicy req) (inl e)]
        (if IsNotFound e then None
         else Some (ErrWrap ("get ExternalDNSPolicy " +:+ key_String req +:+ ": ") e ""))
  | policy_released policy :
      deleting policy = true -> has_finalizer policy = false ->
      policy_outcome req [ev (GetPolicy req) (inr policy)] None
  | policy_uncleared policy tr e :
      deleting policy = true -> has_finalizer policy = true ->
      clear_outcome policy tr (Some e) ->
      policy_outcome req (ev (GetPolicy req) (inr policy) :: tr)
        (Some (ErrWrap "clear policy enforcement: " e ""))
  | policy_cleared policy tr r :
      deleting policy = true -> has_finalizer policy = true ->
      clear_outcome policy tr None ->
      policy_outcome req
        (ev (GetPolicy req) (inr policy) :: tr
         ++ [ev (PatchPolicy (with_finalizers
                   (RemoveFinalizer (Finalizers (policy_meta policy)) externalPolicyFinalizer) policy)
                   policy) r])
        (match r with
         | inl e => Some (ErrWrap "remove policy finalizer: " e "")
         | inr _ => None
         end)
  | policy_unfinalized policy pre e :
      deleting policy = false ->
      finalizer_outcome policy pre (inl e) ->
      policy_outcome req (ev (GetPolicy req) (inr policy) :: pre)
        (Some (ErrWrap "add policy finalizer: " e ""))
  | policy_live policy pre live tr err :
      deleting policy = false ->
      finalizer_outcome policy pre (inr live) ->
      live_outcome live tr err ->
      policy_outcome req (ev (GetPolicy req) (inr policy) :: pre ++ tr) err.

Lemma loud_id tr : Forall (fun e => is_loud e = true) tr -> loud tr = tr.
Proof. unfold loud. induction 1 as [|e tr He _ IH]; cbn; [done|]. by rewrite He, IH. Qed.

Lemma update_loud policy ns tr err :
  update_outcome policy ns tr err -> Forall (fun e => is_loud e = true) tr.
Proof.
  intros [(_ & -> & _)|[(_ & -> & _)|(_ & obj & r & -> & _)]]; [constructor..|by repeat constructor].
Qed.

Lemma remove_loud ns tr err : remove_outcome ns tr err -> Forall (fun e => is_loud e = true) tr.
Proof. intros [(-> & _)|(obj & r & -> & _)]; [constructor|by repeat constructor]. Qed.

Lemma enforce_loud policy tr r : enforce_outcome policy tr r -> loud tr = tr.
Proof.
  intros Hr. apply loud_id.
  assert (forall l tr r, each_runs (keep_or_clear policy) l tr r ->
    Forall (fun e => is_loud e = true) tr) as Heach.
  { intros l tr0 r0. apply each_runs_Forall.
    intros ns t r1 _ [(_ & -> & _)|[_ Hrem]]; [constructor|by eapply remove_loud]. }
  assert (forall l s tr r, fold_runs (claim_selected policy) l s tr r ->
    Forall (fun e => is_loud e = true) tr) as Hfold.
  { intros l s tr0 r0. apply fold_runs_Forall.
    intros name c t r1 _ [(e & -> & _)|(ns & tr' & err & -> & Hu & _)];
      [by repeat constructor|constructor; [done|by eapply update_loud]]. }
  destruct Hr; (constructor; [done|]); [constructor|by eauto|].
  apply Forall_app. split; [by eauto|]. constructor; [done|by eauto].
Qed.

Lemma clear_loud policy tr r : clear_outcome policy tr r -> loud tr = tr.
Proof.
  intros Hr. apply loud_id. destruct Hr as [|items tr r Hr]; (constructor; [done|]); [constructor|].
  revert Hr. apply each_runs_Forall. intros ns t r1 _. apply remove_loud.
Qed.

Lemma wp_recordPolicyEvent object eventType reason message :
  wp (recordEvent Recorder object eventType reason message) (fun tr _ => loud tr = []).
Proof. unfold recordEvent. by destruct Recorder. Qed.

Lemma wp_setValidatedCondition policy status reason message n :
  wp (setValidatedCondition policy status reason message n)
    (fun tr err => exists r, loud tr = [policy_status_event policy status reason message n r] /\
                             err = policy_status_error r).
Proof. intros [e|]; cbn; [exists (Some e) | exists None]; done. Qed.

Lemma wp_reconcileLive policy :
  wp (reconcileLive Recorder policy)
    (fun tr '(res, err) => res = no_requeue /\ live_outcome policy (loud tr) err).
Proof.
  unfold reconcileLive. eapply wp_seq; [apply wp_validateReferences|].
  intros tr [e|] Hv; pose proof Hv as ((_ & Hl & _) & _).
  - eapply wp_seq; [apply wp_recordPolicyEvent|]. intros tr1 [] Htr1.
    eapply wp_seq; [apply wp_setValidatedCondition|]. intros tr2 err (r & Htr2 & ->).
    apply wp_ret. rewrite app_nil_r, !loud_app, Hl, Htr1, Htr2. split; [done|]. by constructor.
  - eapply wp_seq; [apply wp_enforcePolicy|]. intros tr1 [e|n] He; pose proof (enforce_loud _ _ _ He) as Hl1;
      (eapply wp_seq; [apply wp_recordPolicyEvent|]); intros tr2 [] Htr2;
      (eapply wp_seq; [apply wp_setValidatedCondition|]); intros tr3 err (r & Htr3 & ->).
    + pose proof (live_unenforced policy tr tr1 e r Hv He) as Ho.
      destruct r as [e'|]; [|cbn in Ho; destruct (errors_Is e errNamespacePolicyConflict)];
        apply wp_ret; rewrite app_nil_r, !loud_app, Hl, Hl1, Htr2, Htr3; done.
    + apply wp_ret. rewrite app_nil_r, !loud_app, Hl, Hl1, Htr2, Htr3. split; [done|]. by constructor.
Qed.

Lemma wp_clearPolicyEnforcement policy :
  wp (clearPolicyEnforcement policy) (clear_outcome policy).
Proof.
  unfold clearPolicyEnforcement. eapply wp_seq; [apply wp_listManaged|].
  intros tr r (listed & -> & ->). destruct listed as [e|items]; [by constructor|].
  eapply wp_mono; [|apply (wp_for_each _ remove_outcome); intros; apply wp_remove].
  intros tr r Hr. by constructor.
Qed.

Lemma wp_ensureFinalizer policy :
  wp (ensureFinalizer policy) (fun tr r => exists live,
    r = wrap_err "add policy finalizer: " live /\ finalizer_outcome policy (loud tr) live).
Proof.
  unfold ensureFinalizer. destruct (has_finalizer policy) eqn:Hf; cbn [negb].
  - exists (inr policy). split; [done|]. by constructor.
  - intros r. exists r. split; [done|]. by constructor.
Qed.

Lemma policy_outcome_of req tr res err :
  exec (Reconcile Recorder req) tr (res, err) ->
  res = no_requeue /\ policy_outcome req (loud tr) err.
Proof.
  assert (wp (Reconcile Recorder req)
    (fun tr '(res, err) => res = no_requeue /\ policy_outcome req (loud tr) err)) as Hwp.
  { unfold Reconcile. eapply wp_seq; [apply wp_trigger|]. intros tr0 [e|policy] ->.
    { pose proof (policy_unread req e) as Ho.
      destruct (IsNotFound e); apply wp_ret; (split; [done|]); exact Ho. }
    destruct (deleting policy) eqn:Hdel.
    - unfold reconcileDeletion. destruct (has_finalizer policy) eqn:Hf; cbn [negb];
        [|apply wp_ret; split; [done|]; by constructor].
      eapply wp_seq; [apply wp_clearPolicyEnforcement|]. intros tr1 [e|] Hc;
        pose proof (clear_loud _ _ _ Hc) as Hl.
      + apply wp_ret. split; [done|]. rewrite app_nil_r, loud_app, Hl. by apply policy_uncleared.
      + eapply wp_seq; [apply wp_trigger|]. intros tr2 r ->.
        pose proof (policy_cleared req policy tr1 r Hdel Hf Hc) as Ho.
        destruct r; apply wp_ret; (split; [done|]); rewrite app_nil_r, !loud_app, Hl; exact Ho.
    - eapply wp_seq; [apply wp_ensureFinalizer|]. intros tr1 r (live & -> & Hfin).
      destruct live as [e|live].
      + apply wp_ret. split; [done|]. rewrite app_nil_r, loud_app. by apply policy_unfinalized.
      + eapply wp_mono; [|apply wp_reconcileLive]. intros tr2 [res2 err2] [-> Hlive].
        split; [done|]. rewrite !loud_app. by eapply (policy_live req policy (loud tr1) live). }
  rewrite wp_exec in Hwp. intros Hx. exact (Hwp tr (res, err) Hx).
Qed.
End Outcomes.
