(* ===== verification/PolicyProperties.v ===== *)
(** The correctness of the policy reconciler: who may claim a namespace, when
    the finalizer goes, what an enforced policy means, what is reported. All
    theorems hold for every execution, with any API server. *)
From S2P Require Import Prelude GoStrings GoErrors Types Kube PolicyController PolicySpec.

(** ** Reading the outcomes *)

Lemma omap_ns_loud tr : omap as_namespace_patch (loud tr) = omap as_namespace_patch tr.
Proof. apply omap_loud. by intros [[] ?]. Qed.
Lemma omap_policy_patch_loud tr : omap as_policy_patch (loud tr) = omap as_policy_patch tr.
Proof. apply omap_loud. by intros [[] ?]. Qed.
Lemma omap_policy_status_loud tr : omap as_policy_status (loud tr) = omap as_policy_status tr.
Proof. apply omap_loud. by intros [[] ?]. Qed.

(** A trace without writes patches nothing. *)
Lemma no_write_omap {B} (f : event -> option B) tr :
  (forall e, is_write e = false -> f e = None) -> List.filter is_write tr = [] -> omap f tr = [].
Proof.
  intros Hf. induction tr as [|e tr IH]; cbn; [done|]. destruct (is_write e) eqn:E; [done|].
  intros Hw. by rewrite (Hf e E), IH.
Qed.

Section Properties.
Context `{GoRuntime} `{ApiMachinery}.
Variable Recorder : bool.

Lemma validate_patches policy tr err :
  validate_outcome policy tr err ->
  omap as_namespace_patch tr = [] /\ omap as_policy_patch tr = [] /\ omap as_policy_status tr = [].
Proof. intros ((Hw & _) & _). split_and!; apply no_write_omap; try done; by intros [[] ?]. Qed.

(** The policy's own objects are not touched by enforcement and clearing. *)
Definition quiet_event (e : event) : Prop := as_policy_patch e = None /\ as_policy_status e = None.

Lemma quiet_omap tr :
  Forall quiet_event tr -> omap as_policy_patch tr = [] /\ omap as_policy_status tr = [].
Proof.
  induction 1 as [|e tr [H1 H2] _ [IH1 IH2]]; cbn; [done|]. by rewrite H1, H2.
Qed.

Lemma update_quiet policy ns tr err : update_outcome policy ns tr err -> Forall quiet_event tr.
Proof.
  intros [(_ & -> & _)|[(_ & -> & _)|(_ & obj & r & -> & _)]]; [constructor..|by repeat constructor].
Qed.

Lemma remove_quiet ns tr err : remove_outcome ns tr err -> Forall quiet_event tr.
Proof. intros [(-> & _)|(obj & r & -> & _)]; [constructor|by repeat constructor]. Qed.

Lemma claim_quiet policy name c tr r : claim_selected policy name c tr r -> Forall quiet_event tr.
Proof.
  intros [(e & -> & _)|(ns & tr' & err & -> & Hu & _)]; (constructor; [done|]);
    [constructor|by eapply update_quiet].
Qed.

Lemma enforce_quiet policy tr r : enforce_outcome policy tr r -> Forall quiet_event tr.
Proof.
  assert (forall l tr r, each_runs (keep_or_clear policy) l tr r -> Forall quiet_event tr) as Heach.
  { intros l tr0 r0. apply each_runs_Forall.
    intros ns t r1 _ [(_ & -> & _)|[_ Hrem]]; [constructor|by eapply remove_quiet]. }
  assert (forall l s tr r, fold_runs (claim_selected policy) l s tr r -> Forall quiet_event tr) as Hfold.
  { intros l s tr0 r0. apply fold_runs_Forall. intros name c t r1 _. apply claim_quiet. }
  destruct 1; (constructor; [done|]); [constructor|by eauto|].
  apply Forall_app. split; [by eauto|]. constructor; [done|by eauto].
Qed.

Lemma clear_quiet policy tr r : clear_outcome policy tr r -> Forall quiet_event tr.
Proof.
  destruct 1 as [|items tr r Hr]; (constructor; [done|]); [constructor|].
  revert Hr. apply each_runs_Forall. intros ns t r1 _. apply remove_quiet.
Qed.

(** ** Ownership *)

(** The patches a policy may make on a namespace: its claim, on a namespace
    its selector names that is free or its own; or the removal of its own
    claim, if it is being deleted or does not select the namespace. *)
Definition patch_allowed (policy : ExternalDNSPolicy) (tr : trace)
    (patch : CoreNamespace * CoreNamespace * option error) : Prop :=
  let '(obj, base, _) := patch in
  (deleting policy = false /\ claim_patch policy base obj /\
   exists name, name ∈ selected_namespaces policy /\ ev (GetNamespace name) (inr base) ∈ tr) \/
  (owner base = UID (policy_meta policy) /\ clear_patch base obj /\
   (deleting policy = true \/ namespace_name base ∉ selected_namespaces policy)).

Definition event_allowed (policy : ExternalDNSPolicy) (tr : trace) (e : event) : Prop :=
  forall patch, as_namespace_patch e = Some patch -> patch_allowed policy tr patch.

Lemma events_allowed policy tr l :
  Forall (event_allowed policy tr) l -> Forall (patch_allowed policy tr) (omap as_namespace_patch l).
Proof.
  induction 1 as [|e l He _ IH]; cbn; [constructor|].
  destruct (as_namespace_patch e) as [p|] eqn:E; [constructor; [by apply He|done]|done].
Qed.

Lemma remove_allowed policy tr ns t err :
  managed_by (UID (policy_meta policy)) ns = true ->
  (deleting policy = true \/ namespace_name ns ∉ selected_namespaces policy) ->
  remove_outcome ns t err -> Forall (event_allowed policy tr) t.
Proof.
  intros [_ Ho]%managed_by_owner Hwhy [(-> & _)|(obj & r & -> & Hc & _)]; [constructor|].
  constructor; [|constructor]. intros patch ?; simplify_eq/=. right. by split_and!.
Qed.

Lemma claim_allowed policy full name c t r :
  deleting policy = false -> name ∈ selected_namespaces policy ->
  claim_selected policy name c t r -> (forall e, e ∈ t -> e ∈ full) ->
  Forall (event_allowed policy full) t.
Proof.
  intros Hdel Hsel [(e0 & -> & _)|(ns & tr' & err & -> & Hu & He)] Hin; [by repeat constructor|].
  constructor; [done|]. destruct Hu as [(_ & -> & _)|[(_ & -> & _)|(_ & obj & r2 & -> & Hp & _)]];
    [constructor..|]. constructor; [|constructor]. intros patch ?; simplify_eq/=.
  left. split_and!; try done. exists name. split; [done|]. apply Hin. by left.
Qed.

Lemma enforce_allowed policy tr r :
  deleting policy = false -> enforce_outcome policy tr r -> Forall (event_allowed policy tr) tr.
Proof.
  intros Hdel Hr.
  assert (forall items full tr r,
    each_runs (keep_or_clear policy) (List.filter (managed_by (UID (policy_meta policy))) items) tr r ->
    Forall (event_allowed policy full) tr) as Heach.
  { intros items full tr0 r0. apply each_runs_Forall. intros ns t r1 Hin.
    apply list_elem_of_In, List.filter_In in Hin as [_ Hin].
    intros [(_ & -> & _)|[Hns Hrem]]; [constructor|]. eapply remove_allowed; eauto. }
  assert (forall order full t s r, (forall x, x ∈ order -> x ∈ selected_namespaces policy) ->
    fold_runs (claim_selected policy) order s t r -> (forall e, e ∈ t -> e ∈ full) ->
    Forall (event_allowed policy full) t) as Hfold.
  { intros order full t s r0 Hsel Hf Hin. induction Hf as [s|x l s t e Hx|x l s t s' t' r1 Hx Hf IH].
    - constructor.
    - eapply claim_allowed; eauto. apply Hsel. by left.
    - apply Forall_app. split.
      + eapply claim_allowed; eauto; [apply Hsel; by left|]. intros e He. apply Hin. set_solver.
      + apply IH; [set_solver|]. intros e He. apply Hin. set_solver. }
  destruct Hr as [e|items tr0 e Hr|items tr0 order tr1 r Hr Hf]; (constructor; [done|]);
    [constructor|by eauto|].
  apply Forall_app. split; [by eauto|]. constructor; [done|].
  eapply Hfold; [|exact Hf|].
  - intros x Hx. rewrite (proj2_sig order) in Hx. by apply elem_of_elements.
  - intros e He. right. apply elem_of_app. right. by right.
Qed.

Lemma clear_allowed policy full tr r :
  deleting policy = true -> clear_outcome policy tr r -> Forall (event_allowed policy full) tr.
Proof.
  destruct 2 as [|items tr r Hr]; (constructor; [done|]); [constructor|].
  revert Hr. apply each_runs_Forall. intros ns t r1 Hin.
  apply list_elem_of_In, List.filter_In in Hin as [_ Hin]. apply remove_allowed; auto.
Qed.

Lemma finalizer_no_patch policy pre r :
  finalizer_outcome policy pre r ->
  omap as_namespace_patch pre = [] /\ omap as_policy_status pre = [].
Proof. by destruct 1. Qed.

Lemma validate_allowed policy full t r :
  validate_outcome policy t r -> Forall (event_allowed policy full) t.
Proof.
  intros (Hp & _)%validate_patches. apply Forall_forall. intros e He patch Hpatch. exfalso.
  assert (patch ∈ omap as_namespace_patch t) as Hin by (apply list_elem_of_omap; eauto).
  rewrite Hp in Hin. by apply not_elem_of_nil in Hin.
Qed.

Lemma events_allowed_mono policy l full1 full2 :
  (forall e, e ∈ full1 -> e ∈ full2) ->
  Forall (event_allowed policy full1) l -> Forall (event_allowed policy full2) l.
Proof.
  intros Hsub Hall. eapply Forall_impl; [exact Hall|]. intros e He patch Hp. specialize (He patch Hp).
  destruct patch as [[obj base] r]. destruct He as [(? & ? & name & ? & ?)|?]; [left|by right].
  split_and!; try done. exists name. auto.
Qed.


(** ** The finalizer *)


(** ** Enforcement *)

(** The namespace was read and carries the claim, as read or after the patch. *)
Definition claim_holds (policy : ExternalDNSPolicy) (tr : trace) (name : string) : Prop :=
  exists ns, ev (GetNamespace name) (inr ns) ∈ tr /\
    (claimed_by policy ns \/
     exists obj, ev (PatchNamespace obj ns) None ∈ tr /\ claimed_by policy obj /\ same_otherwise ns obj).

Definition absent (tr : trace) (name : string) : Prop :=
  exists e, ev (GetNamespace name) (inl e) ∈ tr /\ IsNotFound e = true.

(** The loop over the selected namespaces counts those it claims. *)
Lemma fold_claims policy order c t n :
  fold_runs (claim_selected policy) order c t (inr n) ->
  0 <= c -> c + Z.of_nat (length order) < 2 ^ 31 ->
  exists claimed missing, order ≡ₚ claimed ++ missing /\ n = c + Z.of_nat (length claimed) /\
    Forall (claim_holds policy t) claimed /\ Forall (absent t) missing.
Proof.
  intros Hr. remember (inr n) as r eqn:Er in Hr.
  induction Hr as [c|x l c t e Hx|x l c t c' t' r Hx Hr IH]; intros Hc Hlen; simplify_eq.
  - exists [], []. split_and!; try done; cbn; try lia; constructor.
  - assert (forall name, claim_holds policy t' name -> claim_holds policy (t ++ t') name) as Hm1.
    { intros name (ns & ? & [?|(obj & ? & ?)]); exists ns; (split; [set_solver|]); [by left|].
      right. exists obj. split; [set_solver|done]. }
    assert (forall name, absent t' name -> absent (t ++ t') name) as Hm2.
    { intros name (e & ? & ?). exists e. split; [set_solver|done]. }
    cbn in Hlen.
    destruct Hx as [(e & -> & He)|(ns & tr' & err & -> & Hu & He)].
    + destruct (IsNotFound e) eqn:Hn; [|destruct He as (? & ? & ?); done].
      simplify_eq. destruct (IH eq_refl) as (claimed & missing & Hp & -> & H1 & H2); [lia..|].
      exists claimed, (x :: missing). split_and!; [by rewrite Hp, Permutation_middle|done| |].
      * eapply Forall_impl; [exact H1|apply Hm1].
      * constructor; [exists e; set_solver|]. eapply Forall_impl; [exact H2|apply Hm2].
    + destruct err as [e|]; simplify_eq.
      rewrite int32_id in IH by (unfold in_int32; lia).
      destruct (IH eq_refl) as (claimed & missing & Hp & -> & H1 & H2); [lia..|].
      exists (x :: claimed), missing. split_and!; [by rewrite Hp|cbn; lia| |].
      * constructor; [|eapply Forall_impl; [exact H1|apply Hm1]].
        exists ns. split; [set_solver|].
        destruct Hu as [(_ & _ & ? & ? & _)|[(? & _)|(_ & obj & r2 & -> & [_ ? ?] & Hr2)]]; [done|by left|].
        right. exists obj. destruct r2; [done|]. split; [|done]. right. left.
      * eapply Forall_impl; [exact H2|apply Hm2].
Qed.

Lemma claim_holds_mono policy tr1 tr2 name :
  (forall e, e ∈ tr1 -> is_loud e = true -> e ∈ tr2) -> claim_holds policy tr1 name -> claim_holds policy tr2 name.
Proof.
  intros Hsub (ns & ? & Hc). exists ns. split; [by apply Hsub|].
  destruct Hc as [?|(obj & ? & ?)]; [by left|right]. exists obj. split; [by apply Hsub|done].
Qed.

Lemma absent_mono tr1 tr2 name :
  (forall e, e ∈ tr1 -> is_loud e = true -> e ∈ tr2) -> absent tr1 name -> absent tr2 name.
Proof. intros Hsub (e & ? & ?). exists e. split; [by apply Hsub|done]. Qed.

(** With a valid selector, the Go map ranges over the selector's names. *)
Lemma selected_valid policy :
  selector_valid (SelectorNamespaces (policy_spec policy)) ->
  elements (selected_namespaces policy) ≡ₚ SelectorNamespaces (policy_spec policy).
Proof.
  intros [_ Hnames Hnd]. unfold selected_namespaces.
  assert (TrimSpace <$> SelectorNamespaces (policy_spec policy) = SelectorNamespaces (policy_spec policy))
    as ->.
  { clear Hnd. induction Hnames as [|n l (_ & Hn & _) _ IH]; cbn; [done|]. by rewrite Hn, IH. }
  by apply elements_list_to_set.
Qed.

(** A namespace that was listed as owned and not selected is cleared. *)
Lemma keep_or_clear_cleared policy ns tr :
  UID (policy_meta policy) <> "" -> owner ns = UID (policy_meta policy) ->
  namespace_name ns ∉ selected_namespaces policy -> keep_or_clear policy ns tr None ->
  exists cleared, ev (PatchNamespace cleared ns) None ∈ tr /\ clear_patch ns cleared.
Proof.
  intros Huid Hown Hns [(? & _)|[_ [(_ & _ & Hnone)|(cleared & r & -> & Hc & He)]]]; [done| |].
  - exfalso. apply Huid. rewrite <- Hown. unfold owner, annotation. rewrite map_get_lookup.
    unfold namespacePolicyOwnerUIDAnnotation in Hnone. by rewrite Hnone.
  - destruct r; [done|]. exists cleared. split; [by left|done].
Qed.

(** The enforcement of a validated policy, in the namespaces it selects. *)
Lemma enforced_claims policy tr n :
  selector_valid (SelectorNamespaces (policy_spec policy)) ->
  Z.of_nat (length (SelectorNamespaces (policy_spec policy))) < 2 ^ 31 ->
  enforce_outcome policy tr (inr n) ->
  (exists claimed missing,
     SelectorNamespaces (policy_spec policy) ≡ₚ claimed ++ missing /\ n = Z.of_nat (length claimed) /\
     Forall (claim_holds policy tr) claimed /\ Forall (absent tr) missing) /\
  exists items, ev ListNamespaces (inr items) ∈ tr /\
    forall ns, ns ∈ items -> UID (policy_meta policy) <> "" -> owner ns = UID (policy_meta policy) ->
      namespace_name ns ∉ SelectorNamespaces (policy_spec policy) ->
      exists cleared, ev (PatchNamespace cleared ns) None ∈ tr /\ clear_patch ns cleared.
Proof.
  intros Hvalid Hlen Hr. pose proof (selected_valid policy Hvalid) as Hsel.
  inversion Hr as [| |items t1 order t2 r Heach Hfold]; subst. split.
  - assert (`order ≡ₚ SelectorNamespaces (policy_spec policy)) as Horder
      by (rewrite <- Hsel; exact (proj2_sig order)).
    destruct (fold_claims policy (`order) 0 t2 n Hfold) as (claimed & missing & Hp & -> & H1 & H2);
      [lia|by rewrite Horder|].
    assert (forall e, e ∈ t2 -> is_loud e = true -> e ∈ ev ListNamespaces (inr items) :: t1 ++
      ev (MapRange (selected_namespaces policy)) order :: t2) as Hsub.
    { intros e He _. right. apply elem_of_app. right. by right. }
    exists claimed, missing. split_and!; [by rewrite <- Horder|lia| |].
    + eapply Forall_impl; [exact H1|]. intros name. by apply claim_holds_mono.
    + eapply Forall_impl; [exact H2|]. intros name. by apply absent_mono.
  - exists items. split; [by left|]. intros ns Hns Huid Hown Hname.
    assert (ns ∈ List.filter (managed_by (UID (policy_meta policy))) items) as Hm.
    { apply list_elem_of_In, List.filter_In. rewrite <- list_elem_of_In. split; [done|].
      apply managed_by_owner. split; [|done]. intros Hn. apply Huid. rewrite <- Hown.
      unfold owner, annotation. by rewrite Hn. }
    destruct (each_runs_all _ _ _ Heach ns Hm) as (t & Hk & Hin).
    apply keep_or_clear_cleared in Hk as (cleared & Hc & Hp); [|done..|].
    + exists cleared. split; [|done]. right. apply elem_of_app. left. by apply Hin.
    + intros Hin'. apply Hname. rewrite <- Hsel. by apply elem_of_elements.
Qed.

(** The only status patch of a reconciliation. *)
Lemma policy_status_patch req tr err obj base r :
  policy_outcome req tr err -> (obj, base, r) ∈ omap as_policy_status tr ->
  exists pre, pre ⊆ tr /\ live_outcome base pre err /\ (obj, base, r) ∈ omap as_policy_status pre.
Proof.
  intros Ho Hin.
  destruct Ho as [e|policy Hd Hf|policy t e Hd Hf Hc|policy t r0 Hd Hf Hc|policy pre e Hd Hfin
                 |policy pre live t err Hd Hfin Hlive]; cbn in Hin;
    try (destruct (quiet_omap _ (clear_quiet _ _ _ Hc)) as [_ Hq]);
    try (destruct (finalizer_no_patch _ _ _ Hfin) as [_ Hq]);
    rewrite ?omap_app, ?Hq in Hin; try (by apply not_elem_of_nil in Hin).
  exists t. assert (base = live) as ->; [|split_and!; [set_solver|done..]].
  destruct Hlive as [t e r1 Hv|t t' e r1 Hv He|t t' n r1 Hv He];
    destruct (validate_patches _ _ _ Hv) as (_ & _ & Hv2);
    try (destruct (quiet_omap _ (enforce_quiet _ _ _ He)) as [_ Hq']);
    cbn in Hin; rewrite ?omap_app, ?Hv2, ?Hq' in Hin; cbn in Hin;
    apply list_elem_of_singleton in Hin; by simplify_eq.
Qed.


(** Enforcement is idempotent: a namespace as the enforcement of a policy
    left it is not patched again, and is reported as claimed. *)
Lemma claim_idempotent policy ns obj r tr1 err1 tr2 err2 :
  exec (updateNamespacePolicyAnnotations (Some ns) (Some policy)) tr1 err1 ->
  (obj, ns, r) ∈ omap as_namespace_patch tr1 ->
  exec (updateNamespacePolicyAnnotations (Some obj) (Some policy)) tr2 err2 ->
  tr2 = [] /\ err2 = None.
Proof.
  intros Hx1 Hin Hx2.
  pose proof (proj1 (wp_exec _ _) (wp_update policy ns) _ _ Hx1) as U1.
  pose proof (proj1 (wp_exec _ _) (wp_update policy obj) _ _ Hx2) as U2.
  destruct U1 as [(_ & -> & _)|[(_ & -> & _)|(_ & obj' & r' & -> & [_ Hc _] & _)]];
    [by apply not_elem_of_nil in Hin..|]. apply list_elem_of_singleton in Hin. simplify_eq/=.
  destruct U2 as [([_ Hne] & _)|[(_ & -> & ->)|(Hn & _)]]; [|done|done].
  by destruct Hc as [Ho _ _ _].
Qed.

(** ** Reports and watches *)

(** C29. What is reported and retried. A reconciliation never asks for a delayed
    retry. The status it reports, of the policy as it last read it, is either
    true and enforced, or false with a count of zero. A failed report is
    returned; otherwise nothing is returned for an enforced or an invalid
    policy, and an enforcement that failed is returned, and so retried, unless
    the failure is a conflict with another policy. *)
Theorem policy_report req tr res err obj base r :
  exec (Reconcile Recorder req) tr (res, err) ->
  (obj, base, r) ∈ omap as_policy_status tr ->
  res = no_requeue /\
  exists status reason message n,
    obj = with_validated base (validated_condition base status reason message) n /\
    (status = ConditionTrue /\ reason = "Enforced" \/
     status = ConditionFalse /\ n = 0 /\ (reason = "ValidationFailed" \/ reason = "EnforcementFailed")) /\
    match r with
    | Some e => err = Some (ErrWrap "update ExternalDNSPolicy status: " e "")
    | None =>
        match err with
        | Some e => reason = "EnforcementFailed" /\ message = Error e /\
                    errors_Is e errNamespacePolicyConflict = false
        | None => reason = "EnforcementFailed" ->
                  exists e, message = Error e /\ errors_Is e errNamespacePolicyConflict = true
        end
    end.
Proof.
  intros [-> Ho]%policy_outcome_of. rewrite <- omap_policy_status_loud. intros Hin. split; [done|].
  destruct (policy_status_patch _ _ _ _ _ _ Ho Hin) as (pre & _ & Hlive & Hin').
  destruct Hlive as [t e r1 Hv|t t' e r1 Hv He|t t' n r1 Hv He];
    destruct (validate_patches _ _ _ Hv) as (_ & _ & Hv2);
    try (destruct (quiet_omap _ (enforce_quiet _ _ _ He)) as [_ Hq']);
    rewrite ?omap_app, ?Hv2, ?Hq' in Hin'; cbn in Hin';
    apply list_elem_of_singleton in Hin'; injection Hin' as -> ->;
    do 4 eexists; (split; [reflexivity|]).
  - split; [right; auto|]. by destruct r1.
  - split; [right; auto|]. destruct r1; cbn; [done|].
    destruct (errors_Is e errNamespacePolicyConflict) eqn:Hconf; [|done]. intros _. by exists e.
  - split; [left; auto|]. by destruct r1.
Qed.

(** The requests are for the policies that refer to the object. *)
Lemma policy_requests_spec refers (Q : ExternalDNSPolicy -> Prop) items key :
  (forall p, refers p = true <-> Q p) ->
  key ∈ policy_requests refers items
  <-> exists p, p ∈ items /\ Q p /\ key = meta_key (policy_meta p).
Proof.
  intros HQ. unfold policy_requests. rewrite list_elem_of_fmap. split.
  - intros (p & -> & Hp). apply list_elem_of_In, List.filter_In in Hp as [Hp ?%HQ].
    exists p. rewrite list_elem_of_In. done.
  - intros (p & Hp & Hq & ->). exists p. split; [done|]. apply list_elem_of_In, List.filter_In.
    rewrite <- list_elem_of_In. split; [done|]. by apply HQ.
Qed.

Lemma watch_spec ns refers (Q : ExternalDNSPolicy -> Prop) items tr reqs :
  (forall p, refers p = true <-> Q p) ->
  exec (policies <- trigger (ListPolicies ns) ;;
        match policies with
        | inl _ => Ret []
        | inr items => Ret (policy_requests refers items)
        end)%prog tr reqs ->
  ev (ListPolicies ns) (inr items) ∈ tr ->
  forall key, key ∈ reqs <-> exists p, p ∈ items /\ Q p /\ key = meta_key (policy_meta p).
Proof.
  intros HQ (listed & tr' & -> & Hx) Hin key.
  assert (listed = inr items /\ tr' = []) as [-> ->].
  { destruct listed; destruct Hx as [-> _]; apply list_elem_of_singleton in Hin;
      apply (f_equal as_policy_list) in Hin; by simplify_eq/=. }
  destruct Hx as [_ ->]. by apply policy_requests_spec.
Qed.

(** The watches are complete: when a pool, a profile or a namespace
    changes and the policies can be listed (those of its namespace, for a pool
    or a profile), a reconciliation is requested for exactly the policies that
    refer to its name, and a reference that the validation accepts counts
    exactly if it is that name. *)
Lemma watches_complete obj items tr reqs :
  let keys refers := forall key, key ∈ reqs <-> exists p, p ∈ items /\ refers p /\ key = meta_key (policy_meta p) in
  (exec (mapUpstreamPoolToPolicies obj) tr reqs ->
   ev (ListPolicies (Some (Namespace obj))) (inr items) ∈ tr ->
   keys (fun p => TrimSpace (UpstreamPoolRef (policy_spec p)) = Name obj)) /\
  (exec (mapCacheProfileToPolicies obj) tr reqs ->
   ev (ListPolicies (Some (Namespace obj))) (inr items) ∈ tr ->
   keys (fun p => TrimSpace (CacheProfileRef (policy_spec p)) = Name obj)) /\
  (exec (mapNamespaceToPolicies obj) tr reqs ->
   ev (ListPolicies None) (inr items) ∈ tr ->
   keys (fun p => Name obj ∈ TrimSpace <$> SelectorNamespaces (policy_spec p))) /\
  (forall required raw, ref_valid required raw -> TrimSpace raw = raw) /\
  (forall l, selector_valid l -> TrimSpace <$> l = l).
Proof.
  intros keys. split_and!.
  - exact (watch_spec (Some (Namespace obj)) _ _ _ _ _ (fun p => String.eqb_eq _ _)).
  - exact (watch_spec (Some (Namespace obj)) _ _ _ _ _ (fun p => String.eqb_eq _ _)).
  - refine (watch_spec None _ _ _ _ _ _). intros p. rewrite existsb_exists, list_elem_of_fmap. split.
    + intros (n & ? & <-%String.eqb_eq). exists n. by rewrite list_elem_of_In.
    + intros (n & Hn & ?). exists n. rewrite <- list_elem_of_In, String.eqb_eq. done.
  - intros required raw [[-> _]|(_ & ? & _)]; done.
  - intros l [_ Hn _]. induction Hn as [|n l (_ & Ht & _) _ IH]; cbn; [done|]. by rewrite Ht, IH.
Qed.
End Properties.
