(* ===== verification/PolicyConvergence.v ===== *)
(** The policy reconciler on a working API server: what a reconciliation does
    to the namespaces of the cluster, that it respects the claims of others,
    that it reaches a fixed point, and that a deletion releases everything. *)
From S2P Require Import Prelude GoStrings GoErrors Types Kube ApiServer.
From S2P Require Import PolicyController PolicySpec PolicyProperties.

(** ** Namespaces *)

(** Nothing but the claim annotations and the resource version may differ. *)
Definition same_but_claim (n n' : CoreNamespace) : Prop :=
  namespace_name n' = namespace_name n /\
  forall k, k ∉ policy_keys ->
    map_lookup (Annotations (namespace_meta n')) k = map_lookup (Annotations (namespace_meta n)) k.

#[export] Instance same_but_claim_preorder : PreOrder same_but_claim.
Proof.
  split; [by split|]. intros n1 n2 n3 [? H1] [? H2]. split; [congruence|]. intros k Hk. by rewrite H2, H1.
Qed.

Definition claimed_to (policy : ExternalDNSPolicy) (n n' : CoreNamespace) : Prop :=
  claimed_by policy n' /\ same_but_claim n n'.

(** A namespace that carries the claim already is left alone. *)
Definition reclaimed_to (policy : ExternalDNSPolicy) (n n' : CoreNamespace) : Prop :=
  (n' = n /\ claimed_by policy n) \/ (~ claimed_by policy n /\ claimed_to policy n n').

Definition cleared_to (n n' : CoreNamespace) : Prop := unclaimed n' /\ same_but_claim n n'.

(** Claims are read by lookups only. *)
Lemma claimed_by_lookup policy n n' :
  (forall k, map_lookup (Annotations (namespace_meta n')) k = map_lookup (Annotations (namespace_meta n)) k) ->
  claimed_by policy n -> claimed_by policy n'.
Proof.
  intros Hk [H1 H2 H3 H4]. unfold owner, annotation in *.
  split; unfold owner, annotation; rewrite ?map_get_lookup, ?Hk in *; done.
Qed.

Lemma unclaimed_lookup n n' :
  (forall k, map_lookup (Annotations (namespace_meta n')) k = map_lookup (Annotations (namespace_meta n)) k) ->
  unclaimed n -> unclaimed n'.
Proof. intros Hk Hu k Hin. rewrite Hk. by apply Hu. Qed.

Lemma claimed_owner policy n : claimed_by policy n -> owner n = UID (policy_meta policy).
Proof. by intros []. Qed.

Lemma unclaimed_owner n : unclaimed n -> owner n = "".
Proof.
  intros Hu. unfold owner, annotation. rewrite map_get_lookup.
  rewrite (Hu "dns.astradns.com/external-policy-owner-uid"); [done|]. by left.
Qed.

Lemma owner_lookup n :
  map_lookup (Annotations (namespace_meta n)) namespacePolicyOwnerUIDAnnotation = None -> owner n = "".
Proof. intros Hl. unfold owner, annotation. rewrite map_get_lookup. by unfold namespacePolicyOwnerUIDAnnotation in Hl; rewrite Hl. Qed.

(** Namespaces are stored under their names. *)
Definition named (v : View) : Prop :=
  forall name n, v_namespaces v !! name = Some n -> namespace_name n = name.

(** The views before and after, with [P] what may happen to a namespace. *)
Record namespaces_step (P : string -> CoreNamespace -> CoreNamespace -> Prop) (v v' : View) : Prop := {
  ns_rest : v' = set_namespaces (v_namespaces v') v;
  ns_some name n : v_namespaces v !! name = Some n -> exists n', v_namespaces v' !! name = Some n' /\ P name n n';
  ns_none name : v_namespaces v !! name = None -> v_namespaces v' !! name = None;
}.

Lemma namespaces_step_refl (P : string -> CoreNamespace -> CoreNamespace -> Prop) v :
  (forall name n, v_namespaces v !! name = Some n -> P name n n) -> namespaces_step P v v.
Proof. intros HP. split; [by destruct v|eauto|done]. Qed.

Lemma namespaces_step_trans (P Q R : string -> CoreNamespace -> CoreNamespace -> Prop) v1 v2 v3 :
  namespaces_step P v1 v2 -> namespaces_step Q v2 v3 ->
  (forall name n n1 n2, v_namespaces v1 !! name = Some n -> P name n n1 -> Q name n1 n2 -> R name n n2) ->
  namespaces_step R v1 v3.
Proof.
  intros [R1 S1 N1] [R2 S2 N2] HR. split.
  - rewrite R2, R1. by destruct v1.
  - intros name n Hn. destruct (S1 _ _ Hn) as (n1 & Hn1 & HP), (S2 _ _ Hn1) as (n2 & Hn2 & HQ). eauto.
  - auto.
Qed.

Lemma namespaces_step_mono (P Q : string -> CoreNamespace -> CoreNamespace -> Prop) v v' :
  (forall name n n', v_namespaces v !! name = Some n -> P name n n' -> Q name n n') ->
  namespaces_step P v v' -> namespaces_step Q v v'.
Proof.
  intros HPQ [R S N]. split; [done| |done]. intros name n Hn. destruct (S _ _ Hn) as (n' & ? & ?). eauto.
Qed.

Lemma named_step P v v' :
  namespaces_step P v v' ->
  (forall name n n', v_namespaces v !! name = Some n -> P name n n' -> namespace_name n' = namespace_name n) ->
  named v -> named v'.
Proof.
  intros Hs HP Hnamed name n' Hn'. destruct (v_namespaces v !! name) as [n|] eqn:Hn;
    [|by rewrite (ns_none _ _ _ Hs _ Hn) in Hn'].
  destruct (ns_some _ _ _ Hs _ _ Hn) as (m & Hm & Hp). rewrite Hn' in Hm. injection Hm as <-.
  rewrite (HP _ _ _ Hn Hp). by apply Hnamed.
Qed.

(** A patch computed from the stored namespace. *)
Lemma patch_effect v obj base r v' :
  v_namespaces v !! namespace_name obj = Some base -> namespace_name base = namespace_name obj ->
  step v (ev (PatchNamespace obj base) r) v' ->
  exists n, r = None /\ v' = set_namespaces (<[namespace_name obj := n]> (v_namespaces v)) v /\
    namespace_name n = namespace_name obj /\
    forall k, map_lookup (Annotations (namespace_meta n)) k = map_lookup (Annotations (namespace_meta obj)) k.
Proof.
  intros Hb Hname Hs. cbn in Hs. unfold namespace_name in Hb. rewrite Hb in Hs.
  destruct Hs as (rv & _ & -> & ->). eexists. split; [done|]. split; [done|]. split; [exact Hname|].
  intros k. apply lookup_merge_fresh.
Qed.

Lemma same_otherwise_name base n : same_otherwise base n -> namespace_name n = namespace_name base.
Proof. intros [Hm _]. unfold namespace_name. by rewrite Hm. Qed.

Lemma patch_step (Q : CoreNamespace -> CoreNamespace -> Prop) v obj base r v' :
  v_namespaces v !! namespace_name base = Some base -> same_otherwise base obj ->
  step v (ev (PatchNamespace obj base) r) v' ->
  (forall n, (forall k, map_lookup (Annotations (namespace_meta n)) k
                        = map_lookup (Annotations (namespace_meta obj)) k) ->
     same_but_claim base n -> Q base n) ->
  r = None /\
  namespaces_step (fun name n n' => if decide (name = namespace_name base) then Q n n' else n' = n) v v'.
Proof.
  intros Hb Hsame Hs HQ. pose proof (same_otherwise_name _ _ Hsame) as Hname.
  destruct (patch_effect v obj base r v') as (n & -> & -> & Hn & Hl); [by rewrite Hname|done|done|].
  split; [done|]. assert (Q base n) as Hq.
  { apply HQ; [done|]. split; [congruence|]. intros k Hk. rewrite Hl. by apply Hsame. }
  rewrite Hname. split; cbn.
  - by destruct v.
  - intros name m Hm. case_decide as Heq.
    + subst. exists n. rewrite lookup_insert_eq. split; [done|]. congruence.
    + exists m. by rewrite lookup_insert_ne.
  - intros name Hm. rewrite lookup_insert_ne; congruence.
Qed.

Section Loops.
Context `{GoRuntime}.

(** A namespace that satisfies [touched] is changed by [P], no other is. *)
Definition change_where (touched : string -> Prop) `{forall name, Decision (touched name)}
    (P : CoreNamespace -> CoreNamespace -> Prop) (name : string) (n n' : CoreNamespace) : Prop :=
  if decide (touched name) then P n n' else n' = n.

Lemma change_where_cases touched `{forall name, Decision (touched name)} P name n n' :
  change_where touched P name n n' -> (touched name /\ P n n') \/ (~ touched name /\ n' = n).
Proof. unfold change_where. case_decide; auto. Qed.

Lemma remove_step v base tr err v' :
  v_namespaces v !! namespace_name base = Some base -> owner base <> "" ->
  remove_outcome base tr err -> replay v tr v' ->
  err = None /\ namespaces_step (change_where (fun name => name = namespace_name base) cleared_to) v v'.
Proof.
  intros Hb Ho [(_ & _ & Hl)|(obj & r & -> & [Hu Hsame _] & ->)] Hr.
  - by destruct Ho; apply owner_lookup.
  - destruct Hr as (v1 & Hs & [= ->]).
    destruct (patch_step cleared_to _ _ _ _ _ Hb Hsame Hs) as [-> ?]; [|done].
    intros n Hk Hn. split; [|done]. by eapply unclaimed_lookup.
Qed.

Lemma update_step policy v base tr err v' :
  v_namespaces v !! namespace_name base = Some base -> update_outcome policy base tr err -> replay v tr v' ->
  (held_by_other policy base /\ v' = v /\
   exists e, err = Some e /\ errors_Is e errNamespacePolicyConflict = true) \/
  (~ held_by_other policy base /\ err = None /\
   namespaces_step (change_where (fun name => name = namespace_name base) (reclaimed_to policy)) v v').
Proof.
  intros Hb Hu Hr. destruct Hu as [(Hh & -> & He)|[(Hc & -> & ->)|(Hn & obj & r & -> & [Hfree Hc Hsame] & ->)]].
  - left. by cbn in Hr; subst.
  - right. cbn in Hr; subst v'. split; [|split; [done|]].
    + intros [_ Hne]. by apply Hne, claimed_owner.
    + apply namespaces_step_refl. intros name n Hn. unfold change_where. case_decide; [|done]. subst.
      rewrite Hb in Hn. injection Hn as <-. by left.
  - right. destruct Hr as (v1 & Hs & [= ->]).
    destruct (patch_step (reclaimed_to policy) _ _ _ _ _ Hb Hsame Hs) as [-> ?].
    { intros n Hk Hkept. right. split; [done|]. split; [|done]. by eapply claimed_by_lookup. }
    split; [|done]. by intros [? ?]; destruct Hfree.
Qed.

(** A loop over listed namespaces that clears those not to be skipped. *)
Lemma clear_loop (O : CoreNamespace -> trace -> option error -> Prop) (skip : string -> Prop)
    `{forall name, Decision (skip name)} l tr r v v' :
  (forall n tr err v v', O n tr err -> v_namespaces v !! namespace_name n = Some n -> owner n <> "" ->
     replay v tr v' ->
     err = None /\
     namespaces_step (change_where (fun name => name = namespace_name n /\ ~ skip name) cleared_to) v v') ->
  each_runs O l tr r -> NoDup (namespace_name <$> l) ->
  (forall n, n ∈ l -> v_namespaces v !! namespace_name n = Some n /\ owner n <> "") -> replay v tr v' ->
  r = None /\
  namespaces_step (change_where (fun name => name ∈ namespace_name <$> l /\ ~ skip name) cleared_to) v v'.
Proof.
  intros HO Hr. revert v. induction Hr as [|x l t e Hx|x l t t' r Hx Hr IH]; intros v Hnd Hl Hrep.
  - cbn in Hrep; subst v'. split; [done|]. apply namespaces_step_refl. intros name n _.
    unfold change_where. rewrite decide_False; [done|]. set_solver.
  - destruct (Hl x) as [Hx1 Hx2]; [by left|]. by destruct (HO x t (Some e) v v' Hx Hx1 Hx2 Hrep).
  - apply replay_app in Hrep as (v1 & Hr1 & Hr2). destruct (Hl x) as [Hx1 Hx2]; [by left|].
    destruct (HO x t None v v1 Hx Hx1 Hx2 Hr1) as [_ Hs1]. apply NoDup_cons in Hnd as [Hni Hnd].
    destruct (IH v1 Hnd) as [-> Hs2]; [|done|].
    { intros n Hn. destruct (Hl n) as [Hn1 ?]; [by right|]. split; [|done].
      destruct (ns_some _ _ _ Hs1 _ _ Hn1) as (n' & Hn' & Hc). unfold change_where in Hc.
      rewrite decide_False in Hc; [congruence|]. intros [Heq _]. apply Hni. rewrite <- Heq.
      by apply list_elem_of_fmap_2. }
    split; [done|]. eapply namespaces_step_trans; [exact Hs1|exact Hs2|].
    intros name n n1 n2 _ H1 H2. unfold change_where in *.
    rewrite fmap_cons. repeat case_decide; subst; try set_solver.
Qed.

(** What the loop over the selected names may do to a namespace. *)
Definition claims_or_keeps (policy : ExternalDNSPolicy) (P : string -> Prop) (name : string) (n n' : CoreNamespace)
    : Prop :=
  n' = n \/ (P name /\ ~ held_by_other policy n /\ ~ claimed_by policy n /\ claimed_to policy n n').

Lemma claims_or_keeps_named policy P v v' : namespaces_step (claims_or_keeps policy P) v v' -> named v -> named v'.
Proof.
  intros Hs. apply (named_step _ _ _ Hs). intros name n n' _ [->|(_ & _ & _ & _ & [? _])]; congruence.
Qed.

(** One iteration that does not stop the loop. *)
Lemma claim_one policy x c tr c' v v' :
  claim_selected policy x c tr (inr c') -> named v -> replay v tr v' ->
  namespaces_step (claims_or_keeps policy (eq x)) v v' /\
  forall n, v_namespaces v' !! x = Some n -> claimed_by policy n.
Proof.
  intros Hx Hnamed Hr.
  destruct Hx as [(e0 & -> & Hx)|(n & tr' & err & -> & Hu & He)];
    destruct Hr as (v2 & [-> Hf] & Hr); destruct (v_namespaces v !! x) as [n'|] eqn:Hn; try done;
    try by destruct Hf as (? & ? & _).
  - cbn in Hr; subst v'. split; [apply namespaces_step_refl; by left|congruence].
  - injection Hf as ->. destruct err as [e|]; [done|]. pose proof (Hnamed _ _ Hn) as <-.
    destruct (update_step policy v n' tr' None v' Hn Hu Hr) as [(_ & _ & ? & ? & _)|(Hnh & _ & Hs)]; [done|].
    split.
    + eapply namespaces_step_mono; [|exact Hs]. unfold change_where. intros name m m' Hm.
      case_decide; [|by left]. subst. rewrite Hn in Hm. injection Hm as <-.
      intros [[-> _]|[? ?]]; [by left|by right].
    + intros m Hm. destruct (ns_some _ _ _ Hs _ _ Hn) as (m' & Hm' & Hc). rewrite Hm in Hm'.
      injection Hm' as <-. unfold change_where in Hc. rewrite decide_True in Hc by done.
      by destruct Hc as [[-> ?]|[_ [? _]]].
Qed.

(** The loop over the selected names. *)
Lemma claim_loop policy order c tr r v v' :
  fold_runs (claim_selected policy) order c tr r -> named v -> replay v tr v' ->
  namespaces_step (claims_or_keeps policy (fun name => name ∈ order)) v v' /\
  match r with
  | inr _ => forall name n, name ∈ order -> v_namespaces v' !! name = Some n -> claimed_by policy n
  | inl e => errors_Is e errNamespacePolicyConflict = true /\
             exists name n, name ∈ order /\ v_namespaces v !! name = Some n /\ held_by_other policy n
  end.
Proof.
  intros Hr. revert v. induction Hr as [c|x l c t e Hx|x l c t c' t' r Hx Hr IH]; intros v Hnamed Hrep.
  - cbn in Hrep; subst v'. split; [|set_solver]. apply namespaces_step_refl. by left.
  - destruct Hx as [(e0 & -> & Hx)|(n & tr' & err & -> & Hu & He)].
    + destruct Hrep as (v1 & [-> Hf] & _). destruct (v_namespaces v !! x); [done|].
      destruct Hf as (? & [= <-] & Hnf). by rewrite Hnf in Hx.
    + destruct Hrep as (v1 & [-> Hf] & Hrep). destruct (v_namespaces v !! x) as [n'|] eqn:Hn; [|by destruct Hf as (? & ? & _)].
      injection Hf as ->. pose proof (Hnamed _ _ Hn) as <-.
      destruct (update_step policy v n' tr' err v' Hn Hu Hrep) as [(Hh & -> & e' & -> & Hc)|(_ & -> & _)]; [|done].
      injection He as ->. split; [apply namespaces_step_refl; by left|]. split; [done|].
      exists (namespace_name n'), n'. set_solver.
  - apply replay_app in Hrep as (v1 & Hr1 & Hr2).
    destruct (claim_one _ _ _ _ _ _ _ Hx Hnamed Hr1) as [Hs1 Hc1].
    pose proof (claims_or_keeps_named _ _ _ _ Hs1 Hnamed) as Hnamed1.
    destruct (IH v1 Hnamed1 Hr2) as [Hs2 Hres]. split.
    + eapply namespaces_step_trans; [exact Hs1|exact Hs2|]. intros name n n1 n2 _.
      intros [->|(<- & Hh1 & N1 & C1 & F1)] [->|(Hin & Hh2 & N2 & C2 & F2)]; [by left|right|right|done].
      * split; [by right|done].
      * split; [by left|done].
    + destruct r as [e|k].
      * destruct Hres as (He & name & n1 & Hin & Hn1 & Hh). split; [done|]. exists name.
        destruct (v_namespaces v !! name) as [n|] eqn:Hn; [|by rewrite (ns_none _ _ _ Hs1 _ Hn) in Hn1].
        exists n. split; [by right|]. split; [done|].
        destruct (ns_some _ _ _ Hs1 _ _ Hn) as (m & Hm & Hc). rewrite Hn1 in Hm. injection Hm as <-.
        destruct Hc as [->|(_ & _ & _ & Hcl & _)]; [done|]. destruct Hh as [_ Hne]. by destruct Hne; apply claimed_owner.
      * intros name n Hin Hn. destruct (decide (name ∈ l)) as [?|Hni]; [by apply (Hres name)|].
        assert (name = x) as -> by set_solver. destruct (v_namespaces v1 !! x) as [n1|] eqn:Hn1;
          [|by rewrite (ns_none _ _ _ Hs2 _ Hn1) in Hn].
        destruct (ns_some _ _ _ Hs2 _ _ Hn1) as (m & Hm & Hc). rewrite Hn in Hm. injection Hm as <-.
        destruct Hc as [->|(? & _)]; [|done]. by apply Hc1.
Qed.

(** ** Enforcement *)

(** What enforcing a policy may do to a namespace: nothing; put its claim on a
    selected one that nobody else holds; clear its claim from one that is not
    selected. *)
Definition enforced_to (policy : ExternalDNSPolicy) (name : string) (n n' : CoreNamespace) : Prop :=
  n' = n \/
  (name ∈ selected_namespaces policy /\ ~ held_by_other policy n /\ ~ claimed_by policy n /\
   claimed_to policy n n') \/
  (name ∉ selected_namespaces policy /\ owner n = UID (policy_meta policy) /\ cleared_to n n').

Lemma listed_names v items :
  named v -> items ≡ₚ (map_to_list (v_namespaces v)).*2 ->
  NoDup (namespace_name <$> items) /\
  forall n, n ∈ items <-> v_namespaces v !! namespace_name n = Some n.
Proof.
  intros Hnamed Hitems. split.
  - rewrite Hitems, <- list_fmap_compose.
    rewrite (list_fmap_ext _ fst).
    + apply NoDup_fst_map_to_list.
    + intros i [name n] Hi. cbn. apply Hnamed, elem_of_map_to_list. by eapply list_elem_of_lookup_2.
  - intros n. rewrite Hitems, list_elem_of_fmap. split.
    + intros ([name n'] & -> & Hin%elem_of_map_to_list). cbn. by rewrite (Hnamed _ _ Hin).
    + intros Hn. exists (namespace_name n, n). by rewrite elem_of_map_to_list.
Qed.

Lemma NoDup_fmap_filter {A B} (f : A -> B) P (l : list A) : NoDup (f <$> l) -> NoDup (f <$> List.filter P l).
Proof.
  induction l as [|a l IH]; cbn; [done|]. intros [Hni Hnd]%NoDup_cons. destruct (P a); [|by apply IH].
  apply NoDup_cons. split; [|by apply IH]. intros (b & Hab & Hb)%list_elem_of_fmap. apply Hni.
  rewrite Hab. apply list_elem_of_fmap_2. apply list_elem_of_In, List.filter_In in Hb as [? _]. by apply list_elem_of_In.
Qed.

(** The namespaces that the policy manages, as it lists them. *)
Lemma managed_listed policy v items :
  named v -> UID (policy_meta policy) <> "" -> items ≡ₚ (map_to_list (v_namespaces v)).*2 ->
  let l := List.filter (managed_by (UID (policy_meta policy))) items in
  NoDup (namespace_name <$> l) /\
  (forall n, n ∈ l -> v_namespaces v !! namespace_name n = Some n /\ owner n <> "") /\
  (forall name n, v_namespaces v !! name = Some n ->
     name ∈ namespace_name <$> l <-> owner n = UID (policy_meta policy)).
Proof.
  intros Hnamed Huid Hitems l. destruct (listed_names v items Hnamed Hitems) as [Hnd Hin].
  assert (forall n, n ∈ l <-> v_namespaces v !! namespace_name n = Some n /\ owner n = UID (policy_meta policy)) as Hl.
  { intros n. unfold l. rewrite list_elem_of_In, List.filter_In, <- list_elem_of_In, Hin, managed_by_owner.
    split; [by intros (? & _ & ?)|]. intros [? Ho]. split; [done|]. split; [|done].
    intros Hnone. destruct Huid. rewrite <- Ho. unfold owner, annotation. by rewrite Hnone. }
  split_and!.
  - by apply NoDup_fmap_filter.
  - intros n [? ->]%Hl. done.
  - intros name n Hn. rewrite list_elem_of_fmap. split.
    + intros (m & -> & [Hm ?]%Hl). congruence.
    + intros Ho. exists n. pose proof (Hnamed _ _ Hn). split; [done|]. apply Hl. by subst.
Qed.

Lemma keep_or_clear_step policy n tr err v v' :
  keep_or_clear policy n tr err -> v_namespaces v !! namespace_name n = Some n -> owner n <> "" -> replay v tr v' ->
  err = None /\
  namespaces_step (change_where (fun name => name = namespace_name n /\ ~ name ∈ selected_namespaces policy)
                     cleared_to) v v'.
Proof.
  intros [(Hs & -> & ->)|[Hs Ho]] Hn Hne Hr.
  - cbn in Hr. subst v'. split; [done|]. apply namespaces_step_refl. intros name m _. unfold change_where.
    rewrite decide_False; [done|]. intros [-> ?]. done.
  - destruct (remove_step v n tr err v' Hn Hne Ho Hr) as [-> Hs']. split; [done|].
    eapply namespaces_step_mono; [|exact Hs']. unfold change_where. intros name m m' _.
    repeat case_decide; subst; tauto.
Qed.

Lemma enforce_step policy tr r v v' :
  UID (policy_meta policy) <> "" -> named v -> enforce_outcome policy tr r -> replay v tr v' ->
  namespaces_step (enforced_to policy) v v' /\
  match r with
  | inr _ => forall name n, v_namespaces v' !! name = Some n ->
      (name ∈ selected_namespaces policy -> claimed_by policy n) /\
      (name ∉ selected_namespaces policy -> owner n <> UID (policy_meta policy))
  | inl e => errors_Is e errNamespacePolicyConflict = true /\
      exists name n, name ∈ selected_namespaces policy /\ v_namespaces v !! name = Some n /\
                     held_by_other policy n
  end.
Proof.
  intros Huid Hnamed Ho Hr. destruct Ho as [e|items t e Heach|items t order t' r Heach Hfold];
    destruct Hr as (v0 & [-> (l & Hl & Hitems)] & Hr); [done|..]; injection Hl as <-;
    destruct (managed_listed policy v items Hnamed Huid Hitems) as (Hnd & Hst & Hown).
  { by destruct (clear_loop _ (fun name => name ∈ selected_namespaces policy) _ _ _ _ _
      (keep_or_clear_step policy) Heach Hnd Hst Hr). }
  apply replay_app in Hr as (v1 & Hr1 & v2 & Hs & Hr2). cbn in Hs. subst v2.
  destruct (clear_loop _ (fun name => name ∈ selected_namespaces policy) _ _ _ _ _
    (keep_or_clear_step policy) Heach Hnd Hst Hr1) as [_ Hs1].
  assert (named v1) as Hnamed1.
  { apply (named_step _ _ _ Hs1); [|done]. unfold change_where. intros name n n' _.
    case_decide; [by intros [_ [? _]]|by intros ->]. }
  destruct (claim_loop policy _ _ _ _ _ _ Hfold Hnamed1 Hr2) as [Hs2 Hres].
  destruct order as [ord Hperm]. cbn in Hs2, Hres.
  assert (forall name, name ∈ ord <-> name ∈ selected_namespaces policy) as Horder.
  { intros name. rewrite <- elem_of_elements. apply (elem_of_Permutation_proper name _ _ Hperm). }
  assert (forall name n n1, v_namespaces v !! name = Some n ->
    change_where (fun name => name ∈ namespace_name <$> List.filter (managed_by (UID (policy_meta policy))) items
                              /\ ~ name ∈ selected_namespaces policy) cleared_to name n n1 ->
    (n1 = n /\ (name ∉ selected_namespaces policy -> owner n <> UID (policy_meta policy))) \/
    (name ∉ selected_namespaces policy /\ owner n = UID (policy_meta policy) /\ cleared_to n n1)) as Hfirst.
  { intros name n n1 Hn [[[Hin Hns] Hc]|[Hno ->]]%change_where_cases.
    - right. by rewrite (Hown name n Hn) in Hin.
    - left. split; [done|]. intros Hns Ho. apply Hno. by rewrite (Hown name n Hn). }
  split.
  - eapply namespaces_step_trans; [exact Hs1|exact Hs2|]. intros name n n1 n2 Hn H1 H2. unfold enforced_to.
    unfold claims_or_keeps in H2. rewrite Horder in H2. destruct (Hfirst name n n1 Hn H1) as [[-> _]|(? & ? & ?)]; [tauto|].
    destruct H2 as [->|(? & _)]; tauto.
  - destruct r as [e|k].
    + destruct Hres as (? & name & n1 & Hsel & Hn1 & Hh). split; [done|]. apply Horder in Hsel.
      destruct (v_namespaces v !! name) as [n|] eqn:Hn; [|by rewrite (ns_none _ _ _ Hs1 _ Hn) in Hn1].
      destruct (ns_some _ _ _ Hs1 _ _ Hn) as (m & Hm & Hc). rewrite Hn1 in Hm. injection Hm as <-.
      destruct (Hfirst name n n1 Hn Hc) as [[-> _]|(? & _)]; [|done]. eauto.
    + intros name n2 Hn2. split; [intros Hsel; by apply (Hres name); [apply Horder|]|].
      intros Hns. destruct (v_namespaces v1 !! name) as [n1|] eqn:Hn1;
        [|by rewrite (ns_none _ _ _ Hs2 _ Hn1) in Hn2].
      destruct (v_namespaces v !! name) as [n|] eqn:Hn; [|by rewrite (ns_none _ _ _ Hs1 _ Hn) in Hn1].
      destruct (ns_some _ _ _ Hs1 _ _ Hn) as (m & Hm & Hc). rewrite Hn1 in Hm. injection Hm as <-.
      destruct (ns_some _ _ _ Hs2 _ _ Hn1) as (m & Hm & Hc2). rewrite Hn2 in Hm. injection Hm as <-.
      destruct Hc2 as [->|(Hin & _)]; [|by rewrite Horder in Hin].
      destruct (Hfirst name n n1 Hn Hc) as [[-> ?]|(_ & Ho & [Hu _])]; [auto|].
      rewrite (unclaimed_owner _ Hu). congruence.
Qed.

(** ** Clearing *)

Lemma clear_step policy tr r v v' :
  UID (policy_meta policy) <> "" -> named v -> clear_outcome policy tr r -> replay v tr v' ->
  r = None /\
  namespaces_step (fun _ n n' => (owner n <> UID (policy_meta policy) /\ n' = n) \/
                                 (owner n = UID (policy_meta policy) /\ cleared_to n n')) v v'.
Proof.
  intros Huid Hnamed Ho Hr. destruct Ho as [e|items t r Heach];
    destruct Hr as (v0 & [-> (l & Hl & Hitems)] & Hr); [done|]; injection Hl as <-.
  destruct (managed_listed policy v items Hnamed Huid Hitems) as (Hnd & Hst & Hown).
  assert (forall n t e v v', remove_outcome n t e -> v_namespaces v !! namespace_name n = Some n ->
    owner n <> "" -> replay v t v' ->
    e = None /\ namespaces_step (change_where (fun name => name = namespace_name n /\ ~ False) cleared_to) v v')
    as Hremove.
  { intros n t0 e v0 v1 O Hn Hne Hr0. destruct (remove_step v0 n t0 e v1 Hn Hne O Hr0) as [-> Hs].
    split; [done|]. eapply namespaces_step_mono; [|exact Hs]. unfold change_where. intros name m m' _.
    repeat case_decide; tauto. }
  destruct (clear_loop remove_outcome (fun _ => False) _ _ _ _ _ Hremove Heach Hnd Hst Hr) as [-> Hs].
  split; [done|]. eapply namespaces_step_mono; [|exact Hs]. intros name n n' Hn Hc%change_where_cases.
  rewrite (Hown name n Hn) in Hc. tauto.
Qed.
End Loops.

(** ** Whole reconciliations *)

Section Reconciliations.
Context `{GoRuntime} `{ApiMachineryLaws}.
Variable Recorder : bool.

(** What may happen to the namespaces, whatever happens to the policies. *)
Definition namespaces_change (P : string -> CoreNamespace -> CoreNamespace -> Prop) (v v' : View) : Prop :=
  (forall name, v_namespaces v !! name = None -> v_namespaces v' !! name = None) /\
  forall name n, v_namespaces v !! name = Some n ->
    exists n', v_namespaces v' !! name = Some n' /\ P name n n'.

Lemma change_of_step P Q v v1 v' :
  v_namespaces v1 = v_namespaces v -> namespaces_step P v1 v' ->
  (forall name n n', v_namespaces v !! name = Some n -> P name n n' -> Q name n n') ->
  namespaces_change Q v v'.
Proof.
  intros Heq [_ Hs Hn] HPQ. rewrite Heq in *. split; [done|].
  intros name n Hin. destruct (Hs name n Hin) as (n' & ? & ?). eauto.
Qed.

Lemma change_id (P : string -> CoreNamespace -> CoreNamespace -> Prop) v v' :
  v_namespaces v' = v_namespaces v -> (forall name n, v_namespaces v !! name = Some n -> P name n n) ->
  namespaces_change P v v'.
Proof. intros Heq HP. unfold namespaces_change. rewrite Heq. split; eauto. Qed.

(** The same policy, up to its finalizers, status and version. *)
Record same_policy (p q : ExternalDNSPolicy) : Prop := {
  sp_key : meta_key (policy_meta q) = meta_key (policy_meta p);
  sp_uid : UID (policy_meta q) = UID (policy_meta p);
  sp_spec : policy_spec q = policy_spec p;
  sp_deletion : DeletionTimestamp (policy_meta q) = DeletionTimestamp (policy_meta p);
}.

#[export] Instance same_policy_preorder : PreOrder same_policy.
Proof. split; [by split|]. intros p q r [] []. split; congruence. Qed.

Lemma same_policy_names p q :
  same_policy p q -> Namespace (policy_meta q) = Namespace (policy_meta p) /\ Name (policy_meta q) = Name (policy_meta p).
Proof. by intros [[= -> ->] _ _ _]. Qed.

Lemma same_policy_claimed p q n : same_policy p q -> claimed_by q n <-> claimed_by p n.
Proof.
  intros Hs. destruct (same_policy_names _ _ Hs) as [Hns Hname]. destruct Hs as [_ Hu Hsp _].
  split; intros [C1 C2 C3 C4]; split; rewrite ?Hns, ?Hname, ?Hu, ?Hsp in *; done.
Qed.

Lemma same_policy_held p q n : same_policy p q -> held_by_other q n <-> held_by_other p n.
Proof. intros [_ Hu _ _]. unfold held_by_other. by rewrite Hu. Qed.

Lemma same_policy_selected p q : same_policy p q -> selected_namespaces q = selected_namespaces p.
Proof. intros [_ _ Hsp _]. unfold selected_namespaces. by rewrite Hsp. Qed.

Lemma same_policy_references p q : same_policy p q -> references_valid q <-> references_valid p.
Proof. intros [_ _ Hsp _]. unfold references_valid. by rewrite Hsp. Qed.

Lemma enforced_to_same p q name n n' : same_policy p q -> enforced_to q name n n' -> enforced_to p name n n'.
Proof.
  intros Hs. unfold enforced_to, claimed_to. rewrite (same_policy_selected _ _ Hs), (same_policy_held _ _ n Hs).
  rewrite !(same_policy_claimed _ _ _ Hs), (sp_uid _ _ Hs). done.
Qed.

(** The finalizer of a stored policy. *)
Lemma finalizer_step policy pre r v v1 :
  v_policies v !! meta_key (policy_meta policy) = Some policy ->
  finalizer_outcome policy pre r -> replay v pre v1 ->
  exists live, r = inr live /\ same_policy policy live /\ has_finalizer live = true /\
    v1 = set_policies (<[meta_key (policy_meta policy) := live]> (v_policies v)) v.
Proof.
  intros Hp [Hf|r' Hf] Hr.
  - cbn in Hr. subst v1. exists policy. split_and!; try done. rewrite insert_id by done. by destruct v.
  - destruct Hr as (v2 & Hs & [= ->]). unfold step, ev, answers in Hs.
    change (meta_key (policy_meta (with_finalizers ?l policy))) with (meta_key (policy_meta policy)) in Hs.
    rewrite Hp in Hs. destruct Hs as (rv & _ & -> & ->). eexists. split; [done|].
    assert (forall obj, Finalizers (policy_meta (patched_policy policy obj policy rv)) = Finalizers (policy_meta obj))
      as Hfin by (intros; apply merge_field_fresh).
    set (live := patched_policy _ _ _ _).
    assert (has_finalizer live = true) as Hl.
    { unfold has_finalizer, live. rewrite Hfin. apply ContainsFinalizer_spec. cbn.
      apply AddFinalizer_spec. by left. }
    split_and!; [done..|]. unfold put_policy. rewrite decide_False; [done|]. intros [_ Hnil].
    unfold has_finalizer in Hl. rewrite Hnil in Hl. apply ContainsFinalizer_spec in Hl.
    by apply not_elem_of_nil in Hl.
Qed.

Lemma status_step live status reason message n r v v' :
  step v (policy_status_event live status reason message n r) v' -> v_namespaces v' = v_namespaces v.
Proof.
  cbn. unfold patched. case_match; [by intros (rv & _ & _ & ->)|by intros [-> _]].
Qed.

Lemma validate_step policy tr err v v' : validate_outcome policy tr err -> replay v tr v' -> v' = v.
Proof. intros ((Hw & _) & _). by apply replay_reads. Qed.

(** What a reconciliation may do to a namespace: nothing; enforce the live
    policy; release what the policy owns if it is being deleted. *)
Lemma reconcile_namespaces req tr res err policy v v' :
  exec (Reconcile Recorder req) tr (res, err) -> replay v tr v' -> named v ->
  v_policies v !! req = Some policy -> meta_key (policy_meta policy) = req -> UID (policy_meta policy) <> "" ->
  namespaces_change (fun name n n' =>
    if deleting policy
    then n' = n \/ (owner n = UID (policy_meta policy) /\ cleared_to n n')
    else enforced_to policy name n n') v v'.
Proof.
  intros [_ Ho]%policy_outcome_of Hr%replay_loud Hnamed Hp Hkey Huid. subst req.
  destruct Ho as [e|policy' Hd Hf|policy' t e Hd Hf Hc|policy' t r Hd Hf Hc|policy' pre e Hd Hfin
                 |policy' pre live t err Hd Hfin Hlive];
    destruct Hr as (v0 & [-> Hgot] & Hr); rewrite Hp in Hgot; simplify_eq/=; rewrite Hd.
  - apply change_id; [done|]. by left.
  - destruct (clear_step _ _ _ _ _ Huid Hnamed Hc Hr) as [? _]. done.
  - apply replay_app in Hr as (v1 & Hr1 & v2 & Hs & Hr2). cbn in Hr2. subst v2.
    destruct (clear_step _ _ _ _ _ Huid Hnamed Hc Hr1) as [_ Hs1].
    assert (v_namespaces v' = v_namespaces v1) as Heq.
    { cbn in Hs. unfold patched in Hs. case_match; [by destruct Hs as (rv & _ & _ & ->)|by destruct Hs as [-> _]]. }
    destruct (change_of_step _ (fun _ n n' => n' = n \/ (owner n = UID (policy_meta policy) /\ cleared_to n n'))
                v v v1 eq_refl Hs1) as [HN HS]; [tauto|]. split; by rewrite Heq.
  - destruct (finalizer_step _ _ _ _ _ Hp Hfin Hr) as (? & ? & _). done.
  - apply replay_app in Hr as (v1 & Hr1 & Hr2).
    destruct (finalizer_step _ _ _ _ _ Hp Hfin Hr1) as (live' & [= <-] & Hsame & _ & ->).
    set (v1 := set_policies _ v) in *.
    assert (named v1) as Hnamed1 by done.
    assert (UID (policy_meta live) <> "") as Huid1 by by rewrite (sp_uid _ _ Hsame).
    destruct Hlive as [t e r Hv|t t' e r Hv He|t t' n r Hv He];
      apply replay_app in Hr2 as (v2 & Hr2 & Hr3); rewrite (validate_step _ _ _ _ _ Hv Hr2) in Hr3.
    + destruct Hr3 as (v3 & Hs & [= ->]). apply status_step in Hs. apply change_id; [done|]. by left.
    + apply replay_app in Hr3 as (v4 & Hr4 & v5 & Hs & [= ->]). apply status_step in Hs.
      destruct (enforce_step _ _ _ _ _ Huid1 Hnamed1 He Hr4) as [Hst _].
      destruct (change_of_step _ (enforced_to policy) v v1 v4 eq_refl Hst) as [HN HS];
        [intros; by eapply enforced_to_same|]. split; by rewrite Hs.
    + apply replay_app in Hr3 as (v4 & Hr4 & v5 & Hs & [= ->]). apply status_step in Hs.
      destruct (enforce_step _ _ _ _ _ Huid1 Hnamed1 He Hr4) as [Hst _].
      destruct (change_of_step _ (enforced_to policy) v v1 v4 eq_refl Hst) as [HN HS];
        [intros; by eapply enforced_to_same|]. split; by rewrite Hs.
Qed.

(** ** The theorems *)

(** C8. Claims are respected. On a working API server, the reconciliation of a
    policy, valid or not, live or being deleted, leaves alone every namespace
    that another policy owns; it changes nothing but the claim annotations of
    any other, which are owned afterwards by whoever owned them before, by the
    policy, or by nobody. *)
Theorem claims_respected req tr res err policy v v' :
  exec (Reconcile Recorder req) tr (res, err) -> replay v tr v' -> named v ->
  v_policies v !! req = Some policy -> meta_key (policy_meta policy) = req -> UID (policy_meta policy) <> "" ->
  namespaces_change (fun _ n n' =>
    same_but_claim n n' /\
    (held_by_other policy n -> n' = n) /\
    (owner n' = owner n \/ owner n' = UID (policy_meta policy) \/ owner n' = "")) v v'.
Proof.
  intros Hx Hr Hnamed Hp Hkey Huid.
  destruct (reconcile_namespaces _ _ _ _ _ _ _ Hx Hr Hnamed Hp Hkey Huid) as [HN HS]. split; [done|].
  intros name n Hn. destruct (HS name n Hn) as (n' & Hn' & Hc). exists n'. split; [done|].
  assert (n' = n \/ (~ held_by_other policy n /\ claimed_to policy n n') \/
          (owner n = UID (policy_meta policy) /\ cleared_to n n')) as Hcases.
  { destruct (deleting policy); [tauto|]. destruct Hc as [?|[?|?]]; tauto. }
  destruct Hcases as [->|[(Hh & Hcl & Hs)|(Ho & Hu & Hs)]]; split_and!; try done; auto.
  - right. left. by apply claimed_owner.
  - intros [_ ?]. done.
  - right. right. by apply unclaimed_owner.
Qed.

(** The objects that the policy refers to exist. *)
Definition references_exist (v : View) (policy : ExternalDNSPolicy) : Prop :=
  let ns := Namespace (policy_meta policy) in
  is_Some (v_pools v !! {| key_Namespace := ns; key_Name := UpstreamPoolRef (policy_spec policy) |}) /\
  (CacheProfileRef (policy_spec policy) <> "" ->
   is_Some (v_profiles v !! {| key_Namespace := ns; key_Name := CacheProfileRef (policy_spec policy) |})).

Lemma validate_succeeds policy tr err v v' :
  references_valid policy -> references_exist v policy ->
  validate_outcome policy tr err -> replay v tr v' -> err = None.
Proof.
  intros Hvalid [[pool Hpool] Hprofile] (_ & _ & Hbad) Hr. destruct err as [e|]; [|done].
  destruct Hbad as [?|(e' & [->|(Hc & p & ->)])]; [done..| |].
  - destruct Hr as (v1 & [_ Hf] & _). by rewrite Hpool in Hf.
  - destruct Hr as (v1 & [-> _] & v2 & [_ Hf] & _). destruct (Hprofile Hc) as [profile Hpr].
    by rewrite Hpr in Hf.
Qed.

(** The claims are as the policy wants them. *)
Definition claims_in_place (policy : ExternalDNSPolicy) (v : View) : Prop :=
  forall name n, v_namespaces v !! name = Some n ->
    (name ∈ selected_namespaces policy -> claimed_by policy n) /\
    (name ∉ selected_namespaces policy -> owner n <> UID (policy_meta policy)).

(** The policy is reported as enforced, and protected by its finalizer. *)
Record reported_enforced (policy p : ExternalDNSPolicy) : Prop := {
  re_same : same_policy policy p;
  re_finalizer : has_finalizer p = true;
  re_condition :
    find_condition "Validated" (Conditions (policy_status p))
    = Some (validated_condition p ConditionTrue "Enforced" "References are valid and policy is enforced");
}.

Lemma report_step live status reason message n r v v' :
  v_policies v !! meta_key (policy_meta live) = Some live ->
  step v (policy_status_event live status reason message n r) v' ->
  r = None /\ exists p, v_policies v' !! meta_key (policy_meta live) = Some p /\ same_policy live p /\
    has_finalizer p = has_finalizer live /\
    find_condition "Validated" (Conditions (policy_status p)) = Some (validated_condition p status reason message).
Proof.
  intros Hp Hs. unfold policy_status_event, step, ev, answers in Hs.
  change (meta_key (policy_meta (with_validated live ?c n))) with (meta_key (policy_meta live)) in Hs.
  rewrite Hp in Hs. destruct Hs as (rv & _ & -> & ->). split; [done|]. eexists. cbn [v_policies set_policies].
  rewrite lookup_insert_eq. split; [done|]. split; [done|]. split; [done|].
  cbn [patched_policy_status policy_status with_validated]. rewrite merge_status_fresh. cbn [Conditions].
  exact (SetStatusCondition_same _ (validated_condition live status reason message)).
Qed.

(** C7. Policies converge. On a working API server, one reconciliation of a live
    policy whose references are well formed and exist, and whose namespaces
    nobody else holds, succeeds: it holds its finalizer and is reported as
    enforced, every namespace of its selector that exists carries its claim,
    and no other namespace is owned by it. *)
Theorem policy_converges req tr res err policy v v' :
  exec (Reconcile Recorder req) tr (res, err) -> replay v tr v' -> named v ->
  v_policies v !! req = Some policy -> meta_key (policy_meta policy) = req -> UID (policy_meta policy) <> "" ->
  deleting policy = false -> references_valid policy -> references_exist v policy ->
  (forall name n, name ∈ selected_namespaces policy -> v_namespaces v !! name = Some n ->
     ~ held_by_other policy n) ->
  err = None /\ claims_in_place policy v' /\
  exists p, v_policies v' !! req = Some p /\ reported_enforced policy p.
Proof.
  intros [_ Ho]%policy_outcome_of Hr%replay_loud Hnamed Hp Hkey Huid Hlive Hvalid Hex Hfree. subst req.
  destruct Ho as [e|policy' Hd Hf|policy' t e Hd Hf Hc|policy' t r Hd Hf Hc|policy' pre e Hd Hfin
                 |policy' pre live t err Hd Hfin Ho];
    destruct Hr as (v0 & [-> Hgot] & Hr); rewrite Hp in Hgot; simplify_eq/=; try congruence.
  { destruct (finalizer_step _ _ _ _ _ Hp Hfin Hr) as (? & ? & _). done. }
  apply replay_app in Hr as (v1 & Hr1 & Hr2).
  destruct (finalizer_step _ _ _ _ _ Hp Hfin Hr1) as (live' & [= <-] & Hsame & Hhas & ->).
  set (v1 := set_policies _ v) in *. assert (named v1) as Hnamed1 by done.
  assert (references_valid live) as Hvalid1 by by rewrite (same_policy_references _ _ Hsame).
  assert (references_exist v1 live) as Hex1.
  { destruct (same_policy_names _ _ Hsame) as [Hns _]. unfold references_exist in *.
    by rewrite Hns, (sp_spec _ _ Hsame). }
  assert (UID (policy_meta live) <> "") as Huid1 by by rewrite (sp_uid _ _ Hsame).
  assert (v_policies v1 !! meta_key (policy_meta live) = Some live) as Hp1.
  { rewrite (sp_key _ _ Hsame). apply lookup_insert_eq. }
  destruct Ho as [t e r Hv|t t' e r Hv He|t t' n r Hv He];
    apply replay_app in Hr2 as (v2 & Hr2 & Hr3).
  { by pose proof (validate_succeeds _ _ _ _ _ Hvalid1 Hex1 Hv Hr2). }
  all: rewrite (validate_step _ _ _ _ _ Hv Hr2) in Hr3; apply replay_app in Hr3 as (v4 & Hr4 & v5 & Hs & [= ->]);
    destruct (enforce_step _ _ _ _ _ Huid1 Hnamed1 He Hr4) as [Hst Hres].
  { destruct Hres as (_ & name & m & Hsel & Hm & Hh). rewrite (same_policy_selected _ _ Hsame) in Hsel.
    rewrite (same_policy_held _ _ _ Hsame) in Hh. by destruct (Hfree name m Hsel Hm). }
  pose proof (status_step _ _ _ _ _ _ _ _ Hs) as Hns.
  assert (v_policies v4 !! meta_key (policy_meta live) = Some live) as Hp4 by by rewrite (ns_rest _ _ _ Hst).
  destruct (report_step _ _ _ _ _ _ _ _ Hp4 Hs) as (-> & p & Hp' & Hsp & Hfp & Hcond).
  split; [done|]. split.
  - intros name m Hm. rewrite Hns in Hm. destruct (Hres name m Hm) as [Hc1 Hc2].
    rewrite (same_policy_selected _ _ Hsame), (same_policy_claimed _ _ _ Hsame), (sp_uid _ _ Hsame) in *.
    by split.
  - exists p. rewrite <- (sp_key _ _ Hsame). split; [done|]. split; [by etrans|congruence|done].
Qed.

(** C30. Enforcement reaches a fixed point: with the claims of a live policy in
    place, its reconciliation leaves every namespace as it is. *)
Theorem policy_fixpoint req tr res err policy v v' :
  exec (Reconcile Recorder req) tr (res, err) -> replay v tr v' -> named v ->
  v_policies v !! req = Some policy -> meta_key (policy_meta policy) = req -> UID (policy_meta policy) <> "" ->
  deleting policy = false -> claims_in_place policy v -> v_namespaces v' = v_namespaces v.
Proof.
  intros Hx Hr Hnamed Hp Hkey Huid Hlive Hplace.
  destruct (reconcile_namespaces _ _ _ _ _ _ _ Hx Hr Hnamed Hp Hkey Huid) as [HN HS].
  apply map_eq. intros name. destruct (v_namespaces v !! name) as [n|] eqn:Hn; [|by apply HN].
  destruct (HS name n Hn) as (n' & Hn' & Hc). rewrite Hlive in Hc. destruct (Hplace name n Hn) as [Hc1 Hc2].
  destruct Hc as [->|[(Hsel & _ & Hno & _)|(Hsel & Ho & _)]]; [done|..].
  - by destruct Hno; apply Hc1.
  - by destruct Hc2.
Qed.

(** C10. A deletion releases everything. On a working API server, one
    reconciliation of a policy that is being deleted and holds the finalizer
    succeeds: no namespace is owned by it any more, those it did not own are as
    they were, and the policy is gone if that was its last finalizer. *)
Theorem deletion_releases req tr res err policy v v' :
  exec (Reconcile Recorder req) tr (res, err) -> replay v tr v' -> named v ->
  v_policies v !! req = Some policy -> meta_key (policy_meta policy) = req -> UID (policy_meta policy) <> "" ->
  deleting policy = true -> has_finalizer policy = true ->
  err = None /\
  namespaces_change (fun _ n n' =>
    (owner n <> UID (policy_meta policy) /\ n' = n) \/
    (owner n = UID (policy_meta policy) /\ unclaimed n' /\ same_but_claim n n')) v v' /\
  match v_policies v' !! req with
  | None => True
  | Some p => has_finalizer p = false /\ exists f, f ∈ Finalizers (policy_meta policy) /\ f <> externalPolicyFinalizer
  end.
Proof.
  intros [_ Ho]%policy_outcome_of Hr%replay_loud Hnamed Hp Hkey Huid Hdel Hhas. subst req.
  destruct Ho as [e|policy' Hd Hf|policy' t e Hd Hf Hc|policy' t r Hd Hf Hc|policy' pre e Hd Hfin
                 |policy' pre live t err Hd Hfin Ho];
    destruct Hr as (v0 & [-> Hgot] & Hr); rewrite Hp in Hgot; simplify_eq/=; try congruence.
  { destruct (clear_step _ _ _ _ _ Huid Hnamed Hc Hr) as [? _]. done. }
  apply replay_app in Hr as (v1 & Hr1 & v2 & Hs & [= ->]).
  destruct (clear_step _ _ _ _ _ Huid Hnamed Hc Hr1) as [_ Hs1].
  assert (v_policies v1 !! meta_key (policy_meta policy) = Some policy) as Hp1.
  { by rewrite (ns_rest _ _ _ Hs1). }
  unfold step, ev, answers in Hs.
  change (meta_key (policy_meta (with_finalizers ?l policy))) with (meta_key (policy_meta policy)) in Hs.
  rewrite Hp1 in Hs. destruct Hs as (rv & _ & -> & ->). split; [done|]. split.
  { destruct (change_of_step _ (fun _ n n' =>
      (owner n <> UID (policy_meta policy) /\ n' = n) \/
      (owner n = UID (policy_meta policy) /\ unclaimed n' /\ same_but_claim n n')) v v v1 eq_refl Hs1) as [HN HS];
      [unfold cleared_to; tauto|]. by split. }
  cbn [v_policies set_policies]. set (p := patched_policy _ _ _ _).
  assert (Finalizers (policy_meta p) = RemoveFinalizer (Finalizers (policy_meta policy)) externalPolicyFinalizer)
    as Hfin by apply merge_field_fresh.
  assert (DeletionTimestamp (policy_meta policy) <> None) as Hdt.
  { unfold deleting in Hdel. by destruct (DeletionTimestamp (policy_meta policy)). }
  unfold put_policy. case_decide as Hlast; [by rewrite lookup_delete_eq|]. rewrite lookup_insert_eq.
  assert (Finalizers (policy_meta p) <> []) as Hne by by intros Hnil; apply Hlast.
  rewrite Hfin in Hne. split.
  - unfold has_finalizer. rewrite Hfin. apply not_true_is_false. rewrite ContainsFinalizer_spec, RemoveFinalizer_spec.
    by intros [? _].
  - destruct (RemoveFinalizer (Finalizers (policy_meta policy)) externalPolicyFinalizer) as [|f l] eqn:E; [done|].
    exists f. destruct (proj1 (RemoveFinalizer_spec (Finalizers (policy_meta policy)) externalPolicyFinalizer f))
      as [? ?]; [rewrite E; by left|done].
Qed.

(** C37. A claim can be lost to a stale read. The patch of a namespace carries no
    condition on its version: if a policy read a namespace before another
    policy claimed it, as through a cache that lags behind, its update succeeds
    and takes the namespace over from the other policy. *)
Theorem stale_claim_steals policy base stored tr err v v' :
  exec (updateNamespacePolicyAnnotations (Some base) (Some policy)) tr err -> replay v tr v' ->
  UID (policy_meta policy) <> "" -> owner base = "" ->
  v_namespaces v !! namespace_name base = Some stored -> held_by_other policy stored ->
  err = None /\
  exists n, v_namespaces v' !! namespace_name base = Some n /\ owner n = UID (policy_meta policy).
Proof.
  intros Hx Hr Huid Hfree Hst _.
  destruct (proj1 (wp_exec _ _) (wp_update policy base) _ _ Hx)
    as [([Hne _] & _)|[(Hc & _)|(_ & obj & r & -> & [_ Hc Hsame] & ->)]]; [done| |].
  { apply claimed_owner in Hc. congruence. }
  destruct Hr as (v1 & Hs & [= ->]). pose proof (same_otherwise_name _ _ Hsame) as Hname.
  cbn in Hs. unfold namespace_name in Hname, Hst. rewrite Hname, Hst in Hs.
  destruct Hs as (rv & _ & -> & ->). split; [done|]. eexists. unfold namespace_name. cbn.
  rewrite lookup_insert_eq. split; [done|]. apply claimed_owner in Hc. rewrite <- Hc.
  unfold owner, annotation in *. rewrite !map_get_lookup in *. cbn. rewrite lookup_merge_annotations.
  rewrite decide_False; [done|]. intros Heq. rewrite Heq in Hfree. congruence.
Qed.
End Reconciliations.
