(* ===== verification/PolicyConcurrency.v ===== *)
(** Many policy reconciliations at once, on an API server that answers from
    what it holds but may fail at any call, beside users and restarts of the
    operator: no namespace is ever left with a claim whose policy is gone or
    holds no finalizer. The proof is by rely and guarantee: [rely] is what the
    reconciliation of a key needs of the others, [guarantee] what it does. *)
From S2P Require Import Prelude GoStrings GoErrors Types Kube ApiServer RelyGuarantee.
From S2P Require Import PolicyController PolicySpec PolicyConvergence.

Section Relations.
Context `{ApiMachineryLaws}.

(** ** What must never be broken *)

(** The policy at [key] has the UID [u] and holds the finalizer. *)
Definition held (key : NamespacedName) (u : string) (v : View) : Prop :=
  exists p, v_policies v !! key = Some p /\ UID (policy_meta p) = u /\ has_finalizer p = true.

(** No claim is an orphan: the policy of every claim is there, with the
    finalizer that makes its deletion wait for the claim's removal. *)
Definition claims_held (v : View) : Prop :=
  forall name n, v_namespaces v !! name = Some n -> owner n <> "" -> exists key, held key (owner n) v.

(** Objects are stored under their names, and UIDs are unique. *)
Record stored_well (v : View) : Prop := {
  sw_named : named v;
  sw_keyed key p : v_policies v !! key = Some p ->
                   meta_key (policy_meta p) = key /\ UID (policy_meta p) <> "";
  sw_unique key1 key2 p1 p2 :
    v_policies v !! key1 = Some p1 -> v_policies v !! key2 = Some p2 ->
    UID (policy_meta p1) = UID (policy_meta p2) -> key1 = key2;
}.

(** No namespace is owned by [u]. *)
Definition unowned (u : string) (v : View) : Prop :=
  forall name n, v_namespaces v !! name = Some n -> owner n <> u.

(** ** Rely and guarantee *)

(** What others may do while the policy at [key] is reconciled: they leave
    its finalizer, and claim nothing for it. *)
Record rely (key : NamespacedName) (v v' : View) : Prop := {
  rl_stored : stored_well v -> stored_well v';
  rl_held u : held key u v -> held key u v';
  rl_owned u name n' :
    held key u v -> u <> "" -> v_namespaces v' !! name = Some n' -> owner n' = u ->
    exists n, v_namespaces v !! name = Some n /\ owner n = u;
}.

(** What the reconciliation of [key] does: it changes no other policy, claims
    namespaces only for its own and only under the finalizer, which it gives
    up only when nothing is claimed. *)
Record guarantee (key : NamespacedName) (v v' : View) : Prop := {
  gr_others key' : key' <> key -> v_policies v' !! key' = v_policies v !! key';
  gr_own p' : v_policies v' !! key = Some p' ->
    exists p, v_policies v !! key = Some p /\ UID (policy_meta p') = UID (policy_meta p) /\
              meta_key (policy_meta p') = meta_key (policy_meta p);
  gr_held u : held key u v -> held key u v' \/ unowned u v';
  gr_claims name n' : v_namespaces v' !! name = Some n' ->
    exists n, v_namespaces v !! name = Some n /\ namespace_name n' = namespace_name n /\
      (owner n' = owner n \/ owner n' = "" \/ held key (owner n') v);
}.

#[export] Instance guarantee_refl key : Reflexive (guarantee key).
Proof. intros v. split; eauto 10. Qed.

Lemma guarantee_stored key v v' : guarantee key v v' -> stored_well v -> stored_well v'.
Proof.
  intros [Go Gp _ Gc] [W1 W2 W3].
  assert (forall k p', v_policies v' !! k = Some p' -> exists p, v_policies v !! k = Some p /\
    UID (policy_meta p') = UID (policy_meta p) /\ meta_key (policy_meta p') = meta_key (policy_meta p)) as Hp.
  { intros k p' Hp'. destruct (decide (k = key)) as [->|Hk]; [by apply Gp|].
    rewrite Go in Hp' by done. by exists p'. }
  split.
  - intros name n' Hn'. destruct (Gc _ _ Hn') as (n & Hn & -> & _). by apply W1.
  - intros k p' (p & Hp1 & -> & ->)%Hp. by apply W2.
  - intros k1 k2 p1 p2 (q1 & Hq1 & -> & _)%Hp (q2 & Hq2 & -> & _)%Hp. by apply W3.
Qed.

(** What the reconciliation of one key guarantees, the others can rely on. *)
Lemma guarantee_rely key key' v v' :
  guarantee key v v' -> stored_well v -> key' <> key -> rely key' v v'.
Proof.
  intros HG HW Hk. pose proof HG as [Go _ _ Gc]. split.
  - intros _. by eapply guarantee_stored.
  - intros u (p & Hp & Hu & Hf). exists p. by rewrite Go.
  - intros u name n' (p & Hp & Hu & _) Hne Hn' Ho.
    destruct (Gc _ _ Hn') as (n & Hn & _ & [Hc|[Hc|(q & Hq & Hqu & _)]]); [|congruence|].
    + exists n. split; [done|congruence].
    + destruct Hk. apply (sw_unique _ HW _ _ p q); [done..|]. congruence.
Qed.

Lemma guarantee_claims key v v' : guarantee key v v' -> claims_held v -> claims_held v'.
Proof.
  intros [Go _ Gh Gc] HI name n' Hn' Hne.
  assert (held key (owner n') v -> exists key0, held key0 (owner n') v') as Hown.
  { intros Hh. destruct (Gh _ Hh) as [?|Hno]; [eauto|]. by destruct (Hno _ _ Hn'). }
  destruct (Gc _ _ Hn') as (n & Hn & _ & [Hc|[Hc|Hc]]); [|done|by apply Hown].
  destruct (HI name n Hn) as [key0 Hh]; [congruence|]. rewrite <- Hc in Hh.
  destruct (decide (key0 = key)) as [->|Hk]; [by apply Hown|]. exists key0.
  destruct Hh as (p & Hp & ?). exists p. by rewrite Go.
Qed.

Abbreviation beside_key key := (beside (rely key) (guarantee key)) (only parsing).

Lemma stored_stable key : stable (rely key) stored_well.
Proof. intros v v' [? _ _]. done. Qed.

(** What is known while a policy with the finalizer is reconciled. *)
Definition holds_policy (key : NamespacedName) (u : string) (v : View) : Prop :=
  stored_well v /\ held key u v.

Lemma holds_stable key u : stable (rely key) (holds_policy key u).
Proof. intros v v' [? ? _] [? ?]. split; auto. Qed.

Lemma holds_nonempty key u v : holds_policy key u v -> u <> "".
Proof. intros [HW (p & Hp & <- & _)]. by apply (sw_keyed _ HW key p). Qed.

(** ** The effects of the calls *)

Lemma guarantee_namespace key v name n n' :
  v_namespaces v !! name = Some n -> namespace_name n' = namespace_name n ->
  (owner n' = owner n \/ owner n' = "" \/ held key (owner n') v) ->
  guarantee key v (set_namespaces (<[name := n']> (v_namespaces v)) v).
Proof.
  intros Hn Hname Ho. split; cbn; [done|eauto|eauto|].
  intros name0 m. destruct (decide (name0 = name)) as [->|Hne].
  - rewrite lookup_insert_eq. intros [= <-]. eauto.
  - rewrite lookup_insert_ne by done. eauto 10.
Qed.

(** The owner after a patch is that of the patch where it changes it. *)
Lemma patched_owner base obj stored rv :
  let lookup n := map_lookup (Annotations (namespace_meta n)) namespacePolicyOwnerUIDAnnotation in
  owner (patched_namespace base obj stored rv)
  = if decide (lookup base = lookup obj) then owner stored else owner obj.
Proof.
  intros lookup. unfold owner, annotation. rewrite !map_get_lookup.
  change (namespace_meta (patched_namespace base obj stored rv))
    with (merge_meta (namespace_meta base) (namespace_meta obj) (namespace_meta stored) rv).
  cbn [merge_meta Annotations]. rewrite lookup_merge_annotations.
  change (decide (map_lookup (Annotations (namespace_meta base)) _ = _)) with (decide (lookup base = lookup obj)).
  by case_decide.
Qed.

Lemma namespace_attempt v obj base r v' :
  same_otherwise base obj -> attempt v (PatchNamespace obj base) r v' ->
  v' = v \/ exists stored rv, v_namespaces v !! namespace_name base = Some stored /\
    v' = set_namespaces (<[namespace_name base := patched_namespace base obj stored rv]> (v_namespaces v)) v.
Proof.
  intros Hsame%same_otherwise_name [->|[r' Ha]]%attempt_effect; [by left|].
  cbn in Ha. unfold namespace_name in Hsame. rewrite Hsame in Ha.
  destruct (v_namespaces v !! Name (namespace_meta base)) as [stored|] eqn:Hst; [right|left; by destruct Ha].
  destruct Ha as (rv & _ & _ & ->). exists stored, rv. done.
Qed.

(** A patch that claims or clears. *)
Lemma namespace_guarantee key v obj base r v' :
  same_otherwise base obj -> attempt v (PatchNamespace obj base) r v' ->
  (owner obj = "" \/ held key (owner obj) v) -> guarantee key v v'.
Proof.
  intros Hsame Ha Ho. destruct (namespace_attempt _ _ _ _ _ Hsame Ha) as [->|(stored & rv & Hst & ->)]; [done|].
  eapply guarantee_namespace; [done|done|]. rewrite patched_owner. case_decide; tauto.
Qed.

(** A policy written back under its key, unless it is gone with its last
    finalizer. *)
Record written_back (key : NamespacedName) (p' : ExternalDNSPolicy) (m m' : gmap NamespacedName ExternalDNSPolicy)
    : Prop := {
  wb_others key' : key' <> key -> m' !! key' = m !! key';
  wb_only q : m' !! key = Some q -> q = p';
  wb_finalized : has_finalizer p' = true -> m' !! key = Some p';
}.

Lemma written_insert key p' m : written_back key p' m (<[key := p']> m).
Proof.
  split.
  - intros key' ?. by rewrite lookup_insert_ne.
  - intros q. rewrite lookup_insert_eq. by intros [= <-].
  - intros _. by rewrite lookup_insert_eq.
Qed.

Lemma written_put key p' m : written_back key p' m (put_policy key p' m).
Proof.
  unfold put_policy. case_decide as Hlast; [|apply written_insert]. split.
  - intros key' ?. by rewrite lookup_delete_ne.
  - intros q. by rewrite lookup_delete_eq.
  - unfold has_finalizer. intros Hf%ContainsFinalizer_spec. destruct Hlast as [_ Hnil]. rewrite Hnil in Hf.
    by apply not_elem_of_nil in Hf.
Qed.

Lemma guarantee_policy key v m p p' :
  v_policies v !! key = Some p -> written_back key p' (v_policies v) m ->
  UID (policy_meta p') = UID (policy_meta p) -> meta_key (policy_meta p') = meta_key (policy_meta p) ->
  (has_finalizer p = true -> has_finalizer p' = true \/ unowned (UID (policy_meta p)) v) ->
  guarantee key v (set_policies m v).
Proof.
  intros Hp [Hoth Hown Hfin] Hu Hm Hf. split; cbn; [done| |  |eauto 10].
  - intros q ->%Hown. eauto.
  - intros u (p0 & Hp0 & <- & Hf0). rewrite Hp in Hp0. injection Hp0 as <-.
    destruct (Hf Hf0) as [Hf'|?]; [|by right]. left. exists p'. cbn. auto.
Qed.

Lemma status_guarantee v obj base r v' :
  attempt v (PatchPolicyStatus obj base) r v' -> guarantee (meta_key (policy_meta obj)) v v'.
Proof.
  intros [->|[r' Ha]]%attempt_effect; [done|]. unfold answers, patched in Ha.
  destruct (v_policies v !! _) as [p|] eqn:Hp; [|by destruct Ha as [-> _]].
  destruct Ha as (rv & _ & _ & ->). eapply guarantee_policy; [done|apply written_insert|done..|]. by left.
Qed.

(** A patch of the finalizers, of the policy or of a later state of it: the
    patched policy has those of [obj], and is otherwise as it was. *)
Lemma finalizers_attempt v policy l r v' :
  let key := meta_key (policy_meta policy) in
  l <> Finalizers (policy_meta policy) ->
  attempt v (PatchPolicy (with_finalizers l policy) policy) r v' ->
  (v' = v /\ exists e, r = inl e) \/
  exists p p', v_policies v !! key = Some p /\
    UID (policy_meta p') = UID (policy_meta p) /\ meta_key (policy_meta p') = meta_key (policy_meta p) /\
    Finalizers (policy_meta p') = l /\ (r = inr p' \/ exists e, r = inl e) /\
    v' = set_policies (put_policy key p' (v_policies v)) v.
Proof.
  intros key Hl Ha.
  assert (forall r', answers v (PatchPolicy (with_finalizers l policy) policy) r' v' ->
    (v' = v /\ exists e, r' = inl e) \/
    exists p p', v_policies v !! key = Some p /\
      UID (policy_meta p') = UID (policy_meta p) /\ meta_key (policy_meta p') = meta_key (policy_meta p) /\
      Finalizers (policy_meta p') = l /\ r' = inr p' /\
      v' = set_policies (put_policy key p' (v_policies v)) v) as Hans.
  { intros r' Hr. unfold answers, patched in Hr. cbn [with_finalizers policy_meta] in Hr.
    change (meta_key (set_Finalizers l (policy_meta policy))) with key in Hr.
    destruct (v_policies v !! key) as [p|] eqn:Hp; [right|left; destruct Hr as [-> (e & -> & _)]; eauto].
    destruct Hr as (rv & _ & -> & ->). exists p, (patched_policy policy (with_finalizers l policy) p rv).
    split; [done|]. split_and!; try reflexivity. cbn. unfold merge_field. by rewrite decide_False. }
  destruct Ha as [Hr|[(e & ->) [->|[r' Hr]]]].
  - destruct (Hans _ Hr) as [?|(p & p' & ? & ? & ? & ? & -> & ?)]; [by left|right; eauto 12].
  - left. eauto.
  - destruct (Hans _ Hr) as [[? _]|(p & p' & ? & ? & ? & ? & -> & ?)]; [left; eauto|right; eauto 12].
Qed.

(** ** Reconciliations beside others *)

Lemma namespace_policies v obj base r v' :
  attempt v (PatchNamespace obj base) r v' -> v_policies v' = v_policies v.
Proof.
  intros [->|[r' Ha]]%attempt_effect; [done|]. cbn in Ha. unfold patched in Ha.
  case_match; [by destruct Ha as (rv & _ & _ & ->)|by destruct Ha as [-> _]].
Qed.

Lemma holds_after key u v v' :
  guarantee key v v' -> v_policies v' = v_policies v -> holds_policy key u v -> holds_policy key u v'.
Proof. intros HG Hp [HW Hh]. split; [by eapply guarantee_stored|]. unfold held. by rewrite Hp. Qed.

(** A patch of a namespace under the finalizer. *)
Lemma beside_patch key u obj base r (P : View -> Prop) v :
  same_otherwise base obj -> owner obj = "" \/ owner obj = u ->
  stable (rely key) P -> (forall v, P v -> holds_policy key u v) -> P v ->
  beside_key key [ev (PatchNamespace obj base) r]
    (fun v' => holds_policy key u v' /\ exists v0, P v0 /\ attempt v0 (PatchNamespace obj base) r v') v.
Proof.
  intros Hsame Ho HP HPh Hv. apply (beside_step _ _ P); [done..|]. intros v1 v2 Hv1 Ha.
  pose proof (HPh _ Hv1) as Hh1.
  assert (guarantee key v1 v2) as HG.
  { eapply namespace_guarantee; [done|exact Ha|]. destruct Ho as [Ho|Ho]; [by left|]. right. rewrite Ho. apply Hh1. }
  split; [done|]. split; [|eauto]. eapply holds_after; [done| |done]. exact (namespace_policies _ _ _ _ _ Ha).
Qed.

Context `{GoRuntime}.

Lemma beside_update key policy base tr err v :
  update_outcome policy base tr err -> holds_policy key (UID (policy_meta policy)) v ->
  beside_key key tr (holds_policy key (UID (policy_meta policy))) v.
Proof.
  intros [(_ & -> & _)|[(_ & -> & _)|(_ & obj & r & -> & [_ Hc Hsame] & _)]] Hv; [done..|].
  eapply beside_mono; [|apply (beside_patch key (UID (policy_meta policy)) _ _ _
    (holds_policy key (UID (policy_meta policy)))); [done| |apply holds_stable|done..]].
  - by intros v' [? _].
  - right. by apply claimed_owner.
Qed.

Lemma beside_remove key u base tr err v :
  remove_outcome base tr err -> holds_policy key u v -> beside_key key tr (holds_policy key u) v.
Proof.
  intros [(-> & _)|(obj & r & -> & [Hun Hsame _] & _)] Hv; [done|].
  eapply beside_mono; [|apply (beside_patch key u _ _ _ (holds_policy key u));
    [done|left; by apply unclaimed_owner|apply holds_stable|done..]].
  by intros v' [? _].
Qed.

(** One call that reads. *)
Lemma beside_read key e tr Q (P : View -> Prop) v :
  is_read (projT1 e) = true -> stable (rely key) P -> P v ->
  (forall v1, P v1 -> attempt v1 (projT1 e) (projT2 e) v1 -> beside_key key tr Q v1) ->
  beside_key key (e :: tr) Q v.
Proof.
  intros He HP Hv Hs. apply (beside_step _ _ P); [done..|]. intros v1 v2 Hv1 Ha.
  pose proof (attempt_read _ _ _ _ He Ha). subst. split; [done|]. by apply Hs.
Qed.

Lemma beside_enforce key policy tr r v :
  enforce_outcome policy tr r -> holds_policy key (UID (policy_meta policy)) v ->
  beside_key key tr (holds_policy key (UID (policy_meta policy))) v.
Proof.
  set (P := holds_policy key (UID (policy_meta policy))). intros Ho Hv.
  assert (stable (rely key) P) as HP by apply holds_stable.
  assert (forall l tr r v, each_runs (keep_or_clear policy) l tr r -> P v -> beside_key key tr P v) as Heach.
  { intros l tr0 r0 v0 Hr. revert v0.
    assert (forall x t r v, keep_or_clear policy x t r -> P v -> beside_key key t P v) as Hstep.
    { intros x t r1 v0 [(_ & -> & _)|[_ Hrem]] Hv0; [done|]. by eapply beside_remove. }
    induction Hr as [|x l t e Hx|x l t t' r1 Hx Hr IH]; intros v0 Hv0; [done|by eapply Hstep|].
    apply beside_app. eapply beside_mono; [|by eapply Hstep]. auto. }
  destruct Ho as [e|items tr e Hr|items tr order tr' r Hr Hf];
    (apply (beside_read _ _ _ _ P); [done..|]); intros v1 Hv1 _; [done|by eapply Heach|].
  apply beside_app. eapply beside_mono; [|by eapply Heach]. intros v2 Hv2.
  apply (beside_read _ _ _ _ P); [done..|]. intros v3 Hv3 _.
  eapply (beside_fold _ _ (claim_selected policy) P); [|done|done].
  intros name count t r0 [(e & -> & _)|(n & t' & err & -> & Hu & _)] v4 Hv4;
    (apply (beside_read _ _ _ _ P); [done..|]); intros v5 Hv5 _; [done|by eapply beside_update].
Qed.

(** ** Deletions beside others *)

(** All that the policy owns is in the list. *)
Definition owned_within (u : string) (l : list CoreNamespace) (v : View) : Prop :=
  forall name n, v_namespaces v !! name = Some n -> owner n = u -> name ∈ namespace_name <$> l.

Lemma owned_stable key u l : stable (rely key) (fun v => holds_policy key u v /\ owned_within u l v).
Proof.
  intros v v' HR [Hh Hl]. split; [by eapply holds_stable|]. intros name n' Hn' Ho.
  destruct (rl_owned _ _ _ HR u name n') as (n & Hn & ?); [by destruct Hh|by eapply holds_nonempty|done..|].
  by eapply Hl.
Qed.

Lemma owned_cleared u base obj l v v' :
  u <> "" -> owner base = u -> unclaimed obj -> same_otherwise base obj ->
  answers v (PatchNamespace obj base) None v' -> owned_within u (base :: l) v -> owned_within u l v'.
Proof.
  intros Hne Hbase Hun Hsame Ha Hl.
  destruct (v_namespaces v !! Name (namespace_meta obj)) as [stored|] eqn:Hst;
    cbn in Ha; rewrite Hst in Ha; [|by destruct Ha as [_ (e & ? & _)]].
  destruct Ha as (rv & _ & _ & ->). pose proof (same_otherwise_name _ _ Hsame) as Hname.
  unfold namespace_name in Hname. intros name n. cbn.
  destruct (decide (name = Name (namespace_meta obj))) as [->|Hk].
  - rewrite lookup_insert_eq. intros [= <-]. rewrite patched_owner, decide_False.
    + rewrite (unclaimed_owner _ Hun). congruence.
    + rewrite (Hun namespacePolicyOwnerUIDAnnotation) by (unfold policy_keys; set_solver).
      intros Hnone%owner_lookup. congruence.
  - rewrite lookup_insert_ne by done. intros Hn Ho. specialize (Hl _ _ Hn Ho).
    apply elem_of_cons in Hl as [->|?]; [|done]. unfold namespace_name in Hk. congruence.
Qed.

Lemma beside_clear key policy tr r v :
  clear_outcome policy tr r -> holds_policy key (UID (policy_meta policy)) v ->
  beside_key key tr (fun v' => match r with
    | None => holds_policy key (UID (policy_meta policy)) v' /\ unowned (UID (policy_meta policy)) v'
    | Some _ => True
    end) v.
Proof.
  set (u := UID (policy_meta policy)). intros Ho Hv. pose proof (holds_nonempty _ _ _ Hv) as Hne.
  destruct Ho as [e|items tr r Hr];
    (apply (beside_read _ _ _ _ (holds_policy key u)); [done|apply holds_stable|done|]); intros v1 Hv1 Ha; [done|].
  set (I l v := (holds_policy key u v /\ owned_within u l v) /\ Forall (fun n => owner n = u) l).
  assert (forall x l t r, remove_outcome x t r -> forall v, I (x :: l) v ->
    beside_key key t (fun v' => match r with None => I l v' | Some _ => True end) v) as Hstep.
  { intros x l t r0 Hrem v0 [[Hh Hl] HF]. pose proof (Forall_inv HF) as Hx. apply Forall_inv_tail in HF.
    destruct Hrem as [(-> & -> & Hnone)|(obj & r1 & -> & [Hun Hsame _] & ->)].
    { apply owner_lookup in Hnone. cbn beta in Hx. congruence. }
    eapply beside_mono; [|apply (beside_patch key u _ _ _
      (fun v => holds_policy key u v /\ owned_within u (x :: l) v)); [done|left; by apply unclaimed_owner|
        apply owned_stable|by intros ? []|done]].
    intros v' [Hh' (v2 & [_ Hl2] & [Ha2|[[e ->] _]])]; [|done].
    destruct r1 as [e|]; [done|]. cbn. split; [|done]. split; [done|]. exact (owned_cleared _ _ _ _ _ _ Hne Hx Hun Hsame Ha2 Hl2). }
  eapply beside_mono; [|eapply (beside_each _ _ _ I); [..|exact Hr|]].
  - intros v' Hres. destruct r; [done|]. destruct Hres as [[Hh Hl] _]. split; [done|].
    intros name n Hn Hown. specialize (Hl _ _ Hn Hown). by apply not_elem_of_nil in Hl.
  - intros x l t Hrem v0 HI. exact (Hstep x l t None Hrem v0 HI).
  - intros x l t e Hrem v0 HI. exact (Hstep x l t (Some e) Hrem v0 HI).
  - destruct Ha as [[_ (l & [= ->] & Hl)]|[[e ?] _]]; [|done].
    destruct (managed_listed policy v1 l (sw_named _ (proj1 Hv1)) Hne Hl) as (_ & Hin & Hnames).
    split; [split; [done|]|].
    + intros name n Hn Hown. by apply (Hnames name n Hn).
    + apply Forall_forall. intros n [_ Hm]%list_elem_of_In%List.filter_In. by apply managed_by_owner in Hm as [_ ?].
Qed.
(** ** The whole reconciliation *)

Lemma beside_validate key u policy tr err v :
  validate_outcome policy tr err -> holds_policy key u v -> beside_key key tr (holds_policy key u) v.
Proof. intros ((Hw & _) & _) Hv. apply beside_reads; [apply _|apply holds_stable|done..]. Qed.

Lemma beside_status policy status reason message n r v :
  beside_key (meta_key (policy_meta policy)) [policy_status_event policy status reason message n r]
    (fun _ => True) v.
Proof.
  apply (beside_step _ _ (fun _ => True)); [by intros ? ?|done|]. intros v1 v2 _ Ha. split; [|done].
  exact (status_guarantee _ _ _ _ _ Ha).
Qed.

Lemma beside_live policy tr err v :
  let key := meta_key (policy_meta policy) in
  live_outcome policy tr err -> holds_policy key (UID (policy_meta policy)) v ->
  beside_key key tr (fun _ => True) v.
Proof.
  intros key Ho Hv.
  assert (forall tr v status reason message n r, beside_key key tr (holds_policy key (UID (policy_meta policy))) v ->
    beside_key key (tr ++ [policy_status_event policy status reason message n r]) (fun _ => True) v) as Hend.
  { intros tr0 v0 status reason message n r Hb. apply beside_app. eapply beside_mono; [|exact Hb].
    intros v1 _. apply beside_status. }
  destruct Ho as [tr e r Hval|tr tr' e r Hval Henf|tr tr' n r Hval Henf];
    [by eapply Hend, beside_validate|..]; apply beside_app;
    (eapply beside_mono; [|by eapply beside_validate]); intros v1 Hv1; by eapply Hend, beside_enforce.
Qed.

(** The removal of the finalizer, when nothing is owned. *)
Lemma beside_release policy r v :
  let key := meta_key (policy_meta policy) in
  let u := UID (policy_meta policy) in
  has_finalizer policy = true -> holds_policy key u v -> unowned u v ->
  beside_key key [ev (PatchPolicy (with_finalizers
    (RemoveFinalizer (Finalizers (policy_meta policy)) externalPolicyFinalizer) policy) policy) r]
    (fun _ => True) v.
Proof.
  intros key u Hf Hv Hun. apply (beside_step _ _ (fun v => holds_policy key u v /\ owned_within u [] v)).
  { apply owned_stable. }
  { split; [done|]. intros name n Hn Ho. by destruct (Hun name n). }
  intros v1 v2 [[_ (p & Hp & Hu & _)] Hown] Ha. split; [|done].
  assert (RemoveFinalizer (Finalizers (policy_meta policy)) externalPolicyFinalizer
          <> Finalizers (policy_meta policy)) as Hne.
  { intros Heq. unfold has_finalizer in Hf. rewrite <- Heq in Hf.
    apply ContainsFinalizer_spec, RemoveFinalizer_spec in Hf as [? _]. done. }
  destruct (finalizers_attempt _ _ _ _ _ Hne Ha) as [[-> _]|(p0 & p' & Hp0 & Hu' & Hm' & _ & _ & ->)]; [done|].
  fold key in Hp0. eapply guarantee_policy; [done|apply written_put|done..|]. intros _. right.
  intros name n Hn Ho. assert (name ∈ namespace_name <$> []) as Hin by (apply (Hown name n Hn); congruence).
  by apply not_elem_of_nil in Hin.
Qed.

(** The finalizer of a live policy, and what is known once it is there. *)
Lemma beside_finalizer policy pre r v :
  let key := meta_key (policy_meta policy) in
  finalizer_outcome policy pre r -> stored_well v -> v_policies v !! key = Some policy ->
  beside_key key pre (fun v' => match r with
    | inl _ => True
    | inr live => meta_key (policy_meta live) = key /\ holds_policy key (UID (policy_meta live)) v'
    end) v.
Proof.
  intros key [Hf|r' Hf] HW Hp.
  { split; [done|]. split; [done|]. exists policy. done. }
  apply (beside_step _ _ stored_well); [apply stored_stable|done|]. intros v1 v2 HW1. cbn [projT1 projT2 ev]. intros Ha.
  assert (AddFinalizer (Finalizers (policy_meta policy)) externalPolicyFinalizer
          <> Finalizers (policy_meta policy)) as Hne.
  { intros Heq. unfold has_finalizer in Hf. apply not_true_iff_false in Hf. apply Hf.
    rewrite <- Heq. apply ContainsFinalizer_spec, AddFinalizer_spec. by left. }
  destruct (finalizers_attempt _ _ _ _ _ Hne Ha)
    as [[-> [e ->]]|(p & p' & Hp1 & Hu & Hm & Hfin & Hr & ->)]; [by split|].
  fold key in Hp1. assert (has_finalizer p' = true) as Hf'.
  { unfold has_finalizer. rewrite Hfin. apply ContainsFinalizer_spec, AddFinalizer_spec. by left. }
  assert (guarantee key v1 (set_policies (put_policy key p' (v_policies v1)) v1)) as HG.
  { eapply guarantee_policy; [done|apply written_put|done..|]. by left. }
  split; [done|]. destruct Hr as [->|[e ->]]; [|done]. split; [|split; [by eapply guarantee_stored|]].
  - rewrite Hm. by apply (sw_keyed _ HW1).
  - exists p'. split; [|done]. by apply written_put.
Qed.

Lemma beside_policy req tr err v :
  policy_outcome req tr err -> stored_well v -> beside_key req tr (fun _ => True) v.
Proof.
  assert (forall policy tr, (forall v, stored_well v -> v_policies v !! req = Some policy ->
      meta_key (policy_meta policy) = req -> beside_key req tr (fun _ => True) v) ->
    forall v, stored_well v -> beside_key req (ev (GetPolicy req) (inr policy) :: tr) (fun _ => True) v) as Hget.
  { intros policy tr0 Htr v0 HW. apply (beside_read _ _ _ _ stored_well); [done|apply stored_stable|done|].
    intros v1 HW1 [[_ Hf]|[[e ?] _]]; [|done]. cbn in Hf.
    assert (v_policies v1 !! req = Some policy) as Hp.
    { destruct (v_policies v1 !! req); cbn in Hf; [by simplify_eq|by destruct Hf as (e & ? & _)]. }
    apply Htr; [done..|]. by apply (sw_keyed _ HW1). }
  assert (forall policy v, stored_well v -> v_policies v !! req = Some policy -> has_finalizer policy = true ->
    holds_policy req (UID (policy_meta policy)) v) as Hheld.
  { intros policy v0 HW Hp Hf. split; [done|]. by exists policy. }
  intros Ho. revert v.
  destruct Ho as [e|policy Hd Hf|policy tr e Hd Hf Hc|policy tr r Hd Hf Hc|policy pre e Hd Hfin
                 |policy pre live tr err Hd Hfin Ho].
  - intros v HW. apply (beside_read _ _ _ _ stored_well); [done|apply stored_stable|done..].
  - by apply Hget.
  - apply Hget. intros v HW Hp _. by apply (beside_clear _ policy tr (Some e)); [|apply Hheld].
  - apply Hget. intros v HW Hp <-. apply beside_app.
    eapply beside_mono; [|apply (beside_clear _ policy tr None); [done|by apply Hheld]].
    intros v1 [? ?]. by apply beside_release.
  - apply Hget. intros v HW Hp <-. by apply (beside_finalizer policy pre (inl e)).
  - apply Hget. intros v HW Hp <-. apply beside_app.
    eapply beside_mono; [|by apply (beside_finalizer policy pre (inr live))].
    intros v1 [Hkey Hh]. rewrite <- Hkey in *. by apply (beside_live live tr err).
Qed.

Lemma reconcile_beside Recorder key v :
  stored_well v -> runs_beside (rely key) (guarantee key) (Reconcile Recorder key) v.
Proof.
  intros HW. apply wp_exec. intros tr [res err] [_ Ho]%policy_outcome_of.
  apply (beside_loud _ _ stored_well); [apply stored_stable| |done]. intros v1 HW1. by eapply beside_policy.
Qed.

(** ** Users *)

(** What happens in a cluster besides the reconciliations: users create, edit
    and delete policies, the API server keeping an object while it has
    finalizers; and namespaces come and go, and may lose a claim, but nobody
    else writes one. *)
Inductive outside : View -> View -> Prop :=
  | policy_created v key p :
      v_policies v !! key = None -> meta_key (policy_meta p) = key -> UID (policy_meta p) <> "" ->
      (forall key' p', v_policies v !! key' = Some p' -> UID (policy_meta p') <> UID (policy_meta p)) ->
      outside v (set_policies (<[key := p]> (v_policies v)) v)
  | policy_edited v key p p' :
      v_policies v !! key = Some p -> meta_key (policy_meta p') = key ->
      UID (policy_meta p') = UID (policy_meta p) -> (has_finalizer p = true -> has_finalizer p' = true) ->
      outside v (set_policies (<[key := p']> (v_policies v)) v)
  | policy_deleted v key p :
      v_policies v !! key = Some p -> has_finalizer p = false ->
      outside v (set_policies (delete key (v_policies v)) v)
  | namespace_created v n :
      v_namespaces v !! namespace_name n = None -> owner n = "" ->
      outside v (set_namespaces (<[namespace_name n := n]> (v_namespaces v)) v)
  | namespace_edited v n n' :
      v_namespaces v !! namespace_name n' = Some n -> owner n' = owner n \/ owner n' = "" ->
      outside v (set_namespaces (<[namespace_name n' := n']> (v_namespaces v)) v)
  | namespace_deleted v name :
      outside v (set_namespaces (delete name (v_namespaces v)) v)
  | others_changed v pools profiles configs :
      outside v (set_configs configs (set_profiles profiles (set_pools pools v))).

Lemma outside_facts v v' :
  outside v v' -> stored_well v ->
  stored_well v' /\ (forall key u, held key u v -> held key u v') /\
  (forall name n', v_namespaces v' !! name = Some n' -> owner n' <> "" ->
     exists n, v_namespaces v !! name = Some n /\ owner n = owner n').
Proof.
  intros Ho [W1 W2 W3].
  destruct Ho as [v key p Hp Hm Hu Hfresh|v key p p' Hp Hm Hu Hf|v key p Hp Hf|v n Hn Ho|v n n' Hn Ho|v name
                 |v pools profiles configs]; cbn.
  - split_and!; [split; cbn; [done|..]| |eauto].
    + intros k q [[<- <-]|[? ?]]%lookup_insert_Some; [done|by apply W2].
    + intros k1 k2 p1 p2 [[<- <-]|[? Hq1]]%lookup_insert_Some [[<- <-]|[? Hq2]]%lookup_insert_Some Heq;
        [done| | |by eapply W3]; [by destruct (Hfresh _ _ Hq2)|by destruct (Hfresh _ _ Hq1)].
    + intros k u (q & Hq & ?). exists q. cbn. rewrite lookup_insert_ne by congruence. done.
  - split_and!; [split; cbn; [done|..]| |eauto].
    + intros k q [[<- <-]|[? ?]]%lookup_insert_Some; [|by apply W2]. split; [done|]. rewrite Hu. by apply (W2 key p).
    + intros k1 k2 p1 p2 [[<- <-]|[? Hq1]]%lookup_insert_Some [[<- <-]|[? Hq2]]%lookup_insert_Some Heq;
        [done|..]; eapply W3; eauto; congruence.
    + intros k u (q & Hq & <- & Hfq). destruct (decide (k = key)) as [->|Hk].
      * rewrite Hp in Hq. injection Hq as <-. exists p'. cbn. rewrite lookup_insert_eq. auto.
      * exists q. cbn. by rewrite lookup_insert_ne.
  - split_and!; [split; cbn; [done|..]| |eauto].
    + intros k q [_ ?]%lookup_delete_Some. by apply W2.
    + intros k1 k2 p1 p2 [_ ?]%lookup_delete_Some [_ ?]%lookup_delete_Some. by eapply W3.
    + intros k u (q & Hq & <- & Hfq). exists q. cbn. rewrite lookup_delete_ne; [done|]. intros ->. congruence.
  - split_and!; [split; unfold named; cbn; [|done..]|done|].
    + intros name m [[<- <-]|[_ ?]]%lookup_insert_Some; [done|by apply W1].
    + intros name m [[<- <-]|[_ ?]]%lookup_insert_Some; [done|eauto].
  - split_and!; [split; unfold named; cbn; [|done..]|done|].
    + intros name m [[<- <-]|[_ ?]]%lookup_insert_Some; [done|by apply W1].
    + intros name m [[<- <-]|[_ ?]]%lookup_insert_Some Hne; [|eauto]. destruct Ho as [Ho|Ho]; [eauto|done].
  - split_and!; [split; unfold named; cbn; [|done..]|done|].
    + intros name' m [_ ?]%lookup_delete_Some. by apply W1.
    + intros name' m [_ ?]%lookup_delete_Some. eauto.
  - split_and!; [by split|done|eauto].
Qed.

Lemma outside_rely key v v' : outside v v' -> stored_well v -> rely key v v'.
Proof.
  intros Ho HW. destruct (outside_facts _ _ Ho HW) as (? & Hh & Hn). split; [done|eauto|].
  intros u name n' _ Hne Hn' <-. by apply Hn.
Qed.

Lemma outside_claims v v' : outside v v' -> stored_well v -> claims_held v -> claims_held v'.
Proof.
  intros Ho HW HI name n' Hn' Hne. destruct (outside_facts _ _ Ho HW) as (_ & Hh & Hn).
  destruct (Hn _ _ Hn' Hne) as (n & Hn0 & Heq). destruct (HI name n Hn0) as [key Hk]; [congruence|].
  exists key. rewrite <- Heq. by apply Hh.
Qed.

(** ** The operator among users *)

(** The objects, and the reconciliations that are under way with what is left
    of each; the work queue hands a key to one worker at a time. *)
Record System := {
  sys_view : View;
  sys_running : gmap NamespacedName (prog (ReconcileResult * option error));
}.

Variable Recorder : bool.

Inductive system_step : System -> System -> Prop :=
  | step_outside v v' running :
      outside v v' ->
      system_step {| sys_view := v; sys_running := running |} {| sys_view := v'; sys_running := running |}
  | step_start v running key :
      running !! key = None ->
      system_step {| sys_view := v; sys_running := running |}
        {| sys_view := v; sys_running := <[key := Reconcile Recorder key]> running |}
  | step_call v running key c k r v' :
      running !! key = Some (Do c k) -> attempt v c r v' ->
      system_step {| sys_view := v; sys_running := running |}
        {| sys_view := v'; sys_running := <[key := k r]> running |}
  | step_return v running key a :
      running !! key = Some (Ret a) ->
      system_step {| sys_view := v; sys_running := running |}
        {| sys_view := v; sys_running := delete key running |}
  | step_restart v running :
      system_step {| sys_view := v; sys_running := running |} {| sys_view := v; sys_running := ∅ |}.

(** The invariant of the system. *)
Record system_ok (s : System) : Prop := {
  so_stored : stored_well (sys_view s);
  so_claims : claims_held (sys_view s);
  so_running key p : sys_running s !! key = Some p ->
                     runs_beside (rely key) (guarantee key) p (sys_view s);
}.

Lemma system_step_ok s s' : system_step s s' -> system_ok s -> system_ok s'.
Proof.
  intros Hs [HW HI HR]. destruct Hs as [v v' running Ho|v running key Hk|v running key c k r v' Hk Ha
                                       |v running key a Hk|v running]; cbn in *.
  - split; cbn.
    + by destruct (outside_facts _ _ Ho HW).
    + by eapply outside_claims.
    + intros key p Hp. eapply runs_beside_stable; [|by apply HR]. by apply rtc_once, outside_rely.
  - split; cbn; [done..|]. intros key' p [[<- <-]|[_ Hp]]%lookup_insert_Some; [by apply reconcile_beside|by apply HR].
  - destruct (runs_beside_call _ _ c k v r v' (HR _ _ Hk) Ha) as [HG Hk'].
    split; cbn; [by eapply guarantee_stored|by eapply guarantee_claims|].
    intros key' p [[<- <-]|[Hne Hp]]%lookup_insert_Some; [done|].
    eapply runs_beside_stable; [|by apply HR]. apply rtc_once. by eapply guarantee_rely.
  - split; cbn; [done..|]. intros key' p [_ Hp]%lookup_delete_Some. by apply HR.
  - split; cbn; [done..|]. intros key' p Hp. by rewrite lookup_empty in Hp.
Qed.

(** C2. No claim is ever orphaned while reads are fresh. However
    reconciliations of any number of policies interleave, call by call, with one
    another and with users who create, edit and delete policies and namespaces,
    whichever calls fail, before their effect or after it, and whenever the
    operator is restarted: as long as every read that does not fail is answered
    from what the server holds at that moment (which the manager's cache does
    not promise, see [lagging_cache_orphans]), and nobody but the operator
    removes the finalizer of a policy or writes a claim, the owner of every
    claimed namespace is a policy that exists and holds the finalizer, so it
    cannot go before the claim is removed. *)
Theorem no_orphaned_claims s s' :
  stored_well (sys_view s) -> claims_held (sys_view s) -> sys_running s = ∅ ->
  rtc system_step s s' ->
  claims_held (sys_view s').
Proof.
  intros HW HI Hrun Hs. assert (system_ok s) as Hok.
  { split; [done..|]. intros key p Hp. by rewrite Hrun, lookup_empty in Hp. }
  apply so_claims. clear HW HI Hrun. induction Hs as [|s s1 s' Hstep _ IH]; [done|].
  by eapply IH, system_step_ok.
Qed.
End Relations.
