(* ===== verification/Webhook.v ===== *)
(** controllers/dnsupstreampool_webhook.go: the admission webhook that rejects
    a second pool in a namespace.

    The JSON decoding of the object is [UnmarshalPool], as the field names are
    those of the type package. *)
From S2P Require Import Prelude GoStrings GoErrors Sorting Types Kube Manager Instances TestCluster.

Definition StatusBadRequest : Z := 400.
Definition StatusInternalServerError : Z := 500.

Section Webhook.
Context `{GoRuntime} `{SliceSorter}.
Variable UnmarshalPool : string -> result DNSUpstreamPool.

(** Whether the webhook has a client. *)
Variable Client : bool.

Definition Handle (req : Request) : prog Response :=
  (if negb (bool_decide (req_Operation req = Create)) then
     Ret (Allowed "operation does not create a new DNSUpstreamPool")
   else if negb Client then
     Ret (Errored StatusInternalServerError (ErrNew "webhook client is not configured"))
   else
     match UnmarshalPool (req_Raw req) with
     | inl err => Ret (Errored StatusBadRequest (ErrWrap "decode DNSUpstreamPool: " err ""))
     | inr pool =>
         let namespace := TrimSpace (Namespace (pool_meta pool)) in
         let namespace :=
           if bool_decide (namespace = "") then TrimSpace (req_Namespace req) else namespace in
         if bool_decide (namespace = "") then
           Ret (Errored StatusBadRequest (ErrNew "DNSUpstreamPool namespace is required"))
         else
           listed <- trigger (ListPools namespace) ;;
           match listed with
           | inl err =>
               Ret (Errored StatusInternalServerError
                      (ErrWrap ("list DNSUpstreamPools in namespace " +:+ Quote namespace +:+ ": ") err ""))
           | inr items =>
               if (length items =? 0)%nat then Ret (Allowed "first DNSUpstreamPool in namespace")
               else
                 let names := (fun existing => Name (pool_meta existing)) <$> items in
                 let names := sort_Strings names in
                 Ret (Denied ("only one DNSUpstreamPool is allowed per namespace; existing pools: "
                              +:+ Join names ", "))
           end
     end)%prog.
End Webhook.

Definition poolUniquenessWebhookPath : string := "/validate-dns-astradns-com-v1alpha1-dnsupstreampool".

(** [mgr.GetClient()] is never nil. *)
Definition SetupWithManager `{GoRuntime} `{ManagerLib} (UnmarshalPool : string -> result DNSUpstreamPool)
    (Client : bool) (mgr : Manager) : result Manager :=
  let Client := if negb Client then true else Client in
  inr (Register poolUniquenessWebhookPath (Handle UnmarshalPool Client) mgr).

(** ** The decision *)

Section Decision.
Context `{GoRuntime}.
Variable UnmarshalPool : string -> result DNSUpstreamPool.

(** The namespace whose pools are counted. *)
Definition target (req : Request) (pool : DNSUpstreamPool) : string :=
  if bool_decide (TrimSpace (Namespace (pool_meta pool)) = "") then TrimSpace (req_Namespace req)
  else TrimSpace (Namespace (pool_meta pool)).

Lemma wp_Handle Client req :
  wp (Handle UnmarshalPool Client req) (fun tr resp =>
    (req_Operation req <> Create /\ tr = [] /\ exists m, resp = Allowed m) \/
    (req_Operation req = Create /\ tr = [] /\ (exists code e, resp = Errored code e) /\
     (Client = true -> (exists e, UnmarshalPool (req_Raw req) = inl e) \/
                       exists pool, UnmarshalPool (req_Raw req) = inr pool /\ target req pool = "")) \/
    (req_Operation req = Create /\ Client = true /\ exists pool listed,
       UnmarshalPool (req_Raw req) = inr pool /\ target req pool <> "" /\
       tr = [ev (ListPools (target req pool)) listed] /\
       match listed with
       | inl _ => exists e, resp = Errored 500 e
       | inr [] => exists m, resp = Allowed m
       | inr items => resp = Denied ("only one DNSUpstreamPool is allowed per namespace; existing pools: "
                        +:+ Join (sort_Strings ((fun p => Name (pool_meta p)) <$> items)) ", ")
       end)).
Proof.
  unfold Handle. case_bool_decide as Hop; cbn [negb]; [|apply wp_ret; left; eauto].
  destruct Client; cbn [negb]; [|apply wp_ret; right; left; split_and!; eauto; done].
  destruct (UnmarshalPool (req_Raw req)) as [e|pool] eqn:Hu; [apply wp_ret; right; left; by eauto 10|].
  fold (target req pool). case_bool_decide as Hns; [apply wp_ret; right; left; by eauto 12|].
  eapply wp_seq; [apply wp_trigger|]. intros tr listed ->. destruct listed as [e|[|p items]];
    apply wp_ret; right; right; (split; [done|]); (split; [done|]); exists pool; eexists;
    (split; [done|]); (split; [done|]); (split; [reflexivity|]); cbn; eauto.
Qed.

(** C31. The webhook reads at most one listing and changes nothing. It admits
    every operation but a creation, and a creation exactly if the object
    decodes, has a namespace (its own, or the request's) and the namespace was
    listed without a pool: an error of any kind never admits. *)
Theorem webhook_admits_iff Client req tr resp :
  exec (Handle UnmarshalPool Client req) tr resp ->
  List.filter is_write tr = [] /\
  ((exists m, resp = Allowed m) <->
   req_Operation req <> Create \/
   (Client = true /\ exists pool, UnmarshalPool (req_Raw req) = inr pool /\ target req pool <> "" /\
      tr = [ev (ListPools (target req pool)) (inr [])])).
Proof.
  intros Hx. pose proof (proj1 (wp_exec _ _) (wp_Handle Client req) tr resp Hx) as Hw.
  destruct Hw as [(Hop & -> & Hm)|[(Hop & -> & (code & e & ->) & Hwhy)
                 |(Hop & Hc & pool & listed & Hu & Hns & -> & Hr)]].
  - split; [done|]. split; [by left|done].
  - split; [done|]. split; [by intros [? ?]|]. intros [?|(-> & pool & Hu & Hns & ?)]; done.
  - split; [done|]. destruct listed as [e|[|p items]].
    + destruct Hr as [e' ->]. split; [by intros [? ?]|].
      intros [?|(_ & pool' & Hu' & _ & Htr)]; [done|].
      apply (f_equal (omap as_pool_list)) in Htr. by simplify_eq/=.
    + split; [|done]. intros _. right. split; [done|]. exists pool. by split_and!.
    + rewrite Hr. split; [by intros [? ?]|]. intros [?|(_ & pool' & Hu' & _ & Htr)]; [done|].
      apply (f_equal (omap as_pool_list)) in Htr. by simplify_eq/=.
Qed.

(** The answer does not depend on the order in which the API server lists
    the pools: the names in the rejection are sorted. *)
Lemma webhook_order_independent Client req tr1 tr2 r1 r2 ns items1 items2 :
  exec (Handle UnmarshalPool Client req) tr1 r1 -> exec (Handle UnmarshalPool Client req) tr2 r2 ->
  tr1 = [ev (ListPools ns) (inr items1)] -> tr2 = [ev (ListPools ns) (inr items2)] ->
  items1 ≡ₚ items2 -> items1 <> [] -> r1 = r2.
Proof.
  intros Hx1 Hx2 -> -> Hp Hne.
  pose proof (proj1 (wp_exec _ _) (wp_Handle Client req) _ _ Hx1) as W1.
  pose proof (proj1 (wp_exec _ _) (wp_Handle Client req) _ _ Hx2) as W2.
  destruct W1 as [(_ & ? & _)|[(_ & ? & _)|(_ & _ & p1 & l1 & _ & _ & E1 & R1)]]; [done..|].
  destruct W2 as [(_ & ? & _)|[(_ & ? & _)|(_ & _ & p2 & l2 & _ & _ & E2 & R2)]]; [done..|].
  apply (f_equal (omap as_pool_list)) in E1, E2. cbn in E1, E2. simplify_eq.
  destruct items1 as [|a items1]; [done|]. destruct items2 as [|b items2].
  { by apply Permutation_nil_r in Hp. }
  rewrite R1, R2. do 3 f_equal. apply sort_Strings_proper. by rewrite Hp.
Qed.
End Decision.

(** ** Creations through the webhook

    The API server reviews a creation, and creates the object some time after
    it is admitted. [pending] are the admitted objects not yet created. *)
Section Admission.
Context `{GoRuntime}.
Variable UnmarshalPool : string -> result DNSUpstreamPool.

Record Admission := { stored : list DNSUpstreamPool; pending : list DNSUpstreamPool }.

(** A creation the webhook admits, having read the namespace as it is stored. *)
Definition admits (w : list DNSUpstreamPool) (req : Request) (pool : DNSUpstreamPool) : Prop :=
  req_Operation req = Create /\ UnmarshalPool (req_Raw req) = inr pool /\
  target req pool = Namespace (pool_meta pool) /\
  exists m, exec (Handle UnmarshalPool true req)
    [ev (ListPools (target req pool)) (inr (in_namespace pool_meta (target req pool) w))] (Allowed m).

Inductive admission_step : Admission -> Admission -> Prop :=
  | step_review w req pool :
      admits (stored w) req pool ->
      admission_step w {| stored := stored w; pending := pending w ++ [pool] |}
  | step_create w pool pre post :
      pending w = pre ++ pool :: post ->
      admission_step w {| stored := stored w ++ [pool]; pending := pre ++ post |}
  | step_delete w pre post pool :
      stored w = pre ++ pool :: post ->
      admission_step w {| stored := pre ++ post; pending := pending w |}.

Definition nothing : Admission := {| stored := []; pending := [] |}.

(** Serial executions: a review starts only when no creation is pending. *)
Definition serial_step (w w' : Admission) : Prop :=
  admission_step w w' /\ (length (pending w') <= 1)%nat.

Definition unique_per_namespace (l : list DNSUpstreamPool) : Prop :=
  forall ns, (length (in_namespace pool_meta ns l) <= 1)%nat.

Lemma in_namespace_app ns l1 l2 :
  in_namespace pool_meta ns (l1 ++ l2) = in_namespace pool_meta ns l1 ++ in_namespace pool_meta ns l2.
Proof. apply List.filter_app. Qed.

Lemma admits_empty w req pool :
  admits w req pool -> in_namespace pool_meta (Namespace (pool_meta pool)) w = [].
Proof.
  intros (Hop & Hu & Ht & m & Hx).
  pose proof (proj1 (wp_exec _ _) (wp_Handle UnmarshalPool true req) _ _ Hx) as Hw.
  destruct Hw as [(_ & ? & _)|[(_ & ? & _)|(_ & _ & p & l & Hp & _ & E & R)]]; [done..|].
  apply (f_equal (omap as_pool_list)) in E. cbn in E. rewrite Hu in Hp. simplify_eq.
  rewrite <- Ht. destruct (in_namespace pool_meta (target req p) w); [done|]. by rewrite R in *.
Qed.

Lemma unique_app l pool :
  unique_per_namespace l -> in_namespace pool_meta (Namespace (pool_meta pool)) l = [] ->
  unique_per_namespace (l ++ [pool]).
Proof.
  intros Hl Hp ns. rewrite in_namespace_app, length_app. cbn. case_bool_decide as Hns.
  - subst. by rewrite Hp.
  - specialize (Hl ns). cbn. lia.
Qed.

Lemma unique_delete l pre pool post :
  unique_per_namespace (pre ++ pool :: post ++ l) -> unique_per_namespace (pre ++ post ++ l).
Proof.
  intros Hu ns. specialize (Hu ns). revert Hu. change (pool :: post ++ l) with ([pool] ++ post ++ l).
  rewrite !in_namespace_app, !length_app. lia.
Qed.

(** With the webhook, creations that are admitted and performed one after
    the other never give a namespace a second pool, however they interleave
    with deletions. *)
Lemma webhook_serial_uniqueness w :
  rtc serial_step nothing w -> unique_per_namespace (stored w ++ pending w).
Proof.
  assert (forall w0 w1, rtc serial_step w0 w1 ->
    unique_per_namespace (stored w0 ++ pending w0) -> unique_per_namespace (stored w1 ++ pending w1)) as Hinv.
  { induction 1 as [w0|w0 w1 w2 [Hs Hlen] _ IH]; intros Hu; [done|]. apply IH. clear IH w2.
    destruct Hs as [w0 req pool Ha|w0 pool pre post Hp|w0 pre post pool Hst]; cbn in *.
    - rewrite length_app in Hlen. cbn in Hlen.
      destruct (pending w0) as [|]; [|cbn in Hlen; lia]. rewrite app_nil_r in Hu.
      apply unique_app; [done|]. by eapply admits_empty.
    - rewrite Hp in Hu. intros ns. specialize (Hu ns). revert Hu.
      change (pool :: post) with ([pool] ++ post). rewrite !in_namespace_app, !length_app. lia.
    - rewrite Hst in Hu. rewrite <- app_assoc in Hu. cbn in Hu.
      rewrite <- app_assoc. by eapply unique_delete. }
  intros Hr. apply (Hinv _ _ Hr). intros ns. cbn. lia.
Qed.
End Admission.

(** ** The race *)

(** An object that decodes to a pool of its name in the namespace [dns]. *)
Definition decode_name (raw : string) : result DNSUpstreamPool :=
  inr (sample_pool (sample_meta raw "1" 100 None) []).

Definition create_request (raw : string) : Request :=
  {| req_Operation := Create; req_Raw := raw; req_Namespace := "dns" |}.

Definition race_pool (raw : string) : DNSUpstreamPool := sample_pool (sample_meta raw "1" 100 None) [].

(** The webhook alone does not keep the namespace unique: two creations
    reviewed before either is performed are both admitted, and both pools are
    stored. *)
Lemma webhook_race :
  exists w, rtc (admission_step (H := test_runtime) decode_name) nothing w /\
    pending w = [] /\ ~ unique_per_namespace (stored w).
Proof.
  exists {| stored := [race_pool "a"; race_pool "b"]; pending := [] |}. split_and!; [|done|].
  - assert (forall raw, admits (H := test_runtime) decode_name [] (create_request raw) (race_pool raw)) as Ha.
    { intros raw. split_and!; [done..|]. eexists. exists (inr []), []. split; [reflexivity|]. by split. }
    eapply rtc_l; [apply (step_review _ nothing (create_request "a")), Ha|].
    eapply rtc_l; [apply (step_review _ {| stored := []; pending := [race_pool "a"] |}
                            (create_request "b")), Ha|].
    eapply rtc_l; [apply (step_create _ {| stored := []; pending := [race_pool "a"; race_pool "b"] |}
                            (race_pool "a") [] [race_pool "b"]); done|].
    eapply rtc_l; [apply (step_create _ {| stored := [race_pool "a"]; pending := [race_pool "b"] |}
                            (race_pool "b") [] []); done|].
    apply rtc_refl.
  - intros Hu. specialize (Hu "dns"). vm_compute in Hu. lia.
Qed.

