(* ===== verification/Operator.v ===== *)
(** cmd/main.go: how the parts are put together. The choice of the renderer
    from the environment and the registry the renderer packages fill, the
    switch of the admission webhook, and what the whole gives: the
    configuration an operator with the default generator publishes.

    The registry is astradns-types' ([RegisterRenderer], [NewRenderer]). The
    rest of main is in Flags and Startup. *)
From S2P Require Import Prelude GoStrings GoErrors Sorting Types Generator Renderers Kube.
From S2P Require Import PoolValidation PoolSelection CircuitBreaker Metrics PoolController PoolSpec.
From S2P Require Import PoolProperties.

Class RendererRegistry := {
  registry : Type;
  empty_registry : registry;
  RegisterRenderer : string -> ConfigRenderer -> registry -> registry;
  NewRenderer : registry -> string -> result ConfigRenderer;
}.

(** A registered engine type gives its renderer, an unregistered one an error. *)
Class RendererRegistryLaws `{RendererRegistry} : Prop := {
  NewRenderer_empty t : exists e, NewRenderer empty_registry t = inl e;
  NewRenderer_registered t c r t' :
    NewRenderer (RegisterRenderer t c r) t' = if decide (t = t') then inr c else NewRenderer r t';
}.

#[export] Instance list_registry : RendererRegistry := {|
  registry := list (string * ConfigRenderer);
  empty_registry := [];
  RegisterRenderer t c r := (t, c) :: r;
  NewRenderer r t :=
    match List.find (fun '(t', _) => bool_decide (t' = t)) r with
    | Some (_, c) => inr c
    | None => inl (ErrNew "no renderer registered")
    end;
|}.

#[export] Instance list_registry_laws : RendererRegistryLaws (H := list_registry).
Proof.
  split; cbn; [eauto|]. intros t c r t'. case_bool_decide; case_decide; congruence.
Qed.

Definition enablePoolUniquenessWebhookEnv : string := "ASTRADNS_ENABLE_POOL_UNIQUENESS_WEBHOOK".

Section Main.
Context `{GoRuntime} `{EngineLib} `{RendererRegistry}.

(** The three [init] functions that the blank imports of main.go run, in the
    order of the imports. *)
Definition registered : registry :=
  RegisterRenderer EngineUnbound Unbound.UnboundRenderer
    (RegisterRenderer EnginePowerDNS PowerDNS.PowerDNSRenderer
       (RegisterRenderer EngineCoreDNS CoreDNS.CoreDNSRenderer empty_registry)).

(** The renderer of the process; on an error it exits. *)
Definition selectRenderer : prog (result ConfigRenderer) :=
  (engineTypeName <- trigger (Getenv "ASTRADNS_ENGINE_TYPE") ;;
   let engineTypeName :=
     if bool_decide (engineTypeName = "") then EngineUnbound else engineTypeName in
   Ret (NewRenderer registered engineTypeName))%prog.

Definition isPoolUniquenessWebhookEnabled : prog bool :=
  (value <- trigger (Getenv enablePoolUniquenessWebhookEnv) ;;
   let value := TrimSpace value in
   if bool_decide (value = "") then Ret false
   else
     match ParseBool value with
     | Some parsed => Ret parsed
     | None => Ret false
     end)%prog.
End Main.

(** The renderer of an engine name in the environment: Unbound by default,
    else exactly the named one, without trimming or case folding. *)
Definition engine_renderer `{GoRuntime} `{EngineLib} (name : string) : option ConfigRenderer :=
  if bool_decide (name = "" \/ name = "unbound") then Some Unbound.UnboundRenderer
  else if bool_decide (name = "coredns") then Some CoreDNS.CoreDNSRenderer
  else if bool_decide (name = "powerdns") then Some PowerDNS.PowerDNSRenderer
  else None.

(** The webhook is enabled by the spellings of true that [strconv.ParseBool]
    knows, up to surrounding white space. *)
Definition webhook_opted (value : string) : bool :=
  bool_decide (TrimSpace value ∈ ["1"; "t"; "T"; "true"; "TRUE"; "True"]).

Lemma wp_selectRenderer `{GoRuntime} `{EngineLib} `{RendererRegistryLaws} :
  wp selectRenderer (fun tr r => exists name, tr = [ev (Getenv "ASTRADNS_ENGINE_TYPE") name] /\
    match engine_renderer name with
    | Some rend => r = inr rend
    | None => exists e, r = inl e
    end).
Proof.
  unfold selectRenderer, registered, engine_renderer. intros name. cbn [wp]. exists name.
  split; [done|]. rewrite !NewRenderer_registered. unfold EngineUnbound, EnginePowerDNS, EngineCoreDNS.
  destruct (decide (name = "")) as [->|Hempty]; [done|].
  rewrite (bool_decide_false (name = "")) by done.
  destruct (decide (name = "unbound")) as [->|Hu]; [done|].
  destruct (decide (name = "coredns")) as [->|Hc]; [done|].
  destruct (decide (name = "powerdns")) as [->|Hp]; [done|].
  rewrite !bool_decide_false, !decide_False by (congruence || by intros [?|?]).
  apply NewRenderer_empty.
Qed.

Lemma wp_webhook_enabled `{GoRuntime} :
  wp isPoolUniquenessWebhookEnabled (fun tr b => exists value,
    tr = [ev (Getenv enablePoolUniquenessWebhookEnv) value] /\ b = webhook_opted value).
Proof.
  unfold isPoolUniquenessWebhookEnabled, webhook_opted.
  eapply wp_seq; [apply wp_trigger|]. intros tr0 value ->. case_bool_decide as Hempty.
  { apply wp_ret. exists value. by rewrite Hempty. }
  unfold ParseBool. case_bool_decide as Ht.
  - apply wp_ret. exists value. by rewrite bool_decide_true.
  - case_bool_decide; apply wp_ret; exists value; by rewrite (bool_decide_false _ Ht).
Qed.

(** ** Start-up *)

(** The engine the operator renders for: Unbound by default, else exactly
    the engine named by the environment (without trimming or case folding) if
    it is one of unbound, coredns and powerdns; for any other name, bind
    included, there is no renderer and the process exits. *)
Lemma engine_selection `{GoRuntime} `{EngineLib} `{RendererRegistryLaws} tr r :
  exec selectRenderer tr r ->
  exists name, tr = [ev (Getenv "ASTRADNS_ENGINE_TYPE") name] /\
    ((name = "" \/ name = "unbound") /\ r = inr Unbound.UnboundRenderer \/
     name = "coredns" /\ r = inr CoreDNS.CoreDNSRenderer \/
     name = "powerdns" /\ r = inr PowerDNS.PowerDNSRenderer \/
     name ∉ [""; "unbound"; "coredns"; "powerdns"] /\ exists e, r = inl e).
Proof.
  revert tr r. apply wp_exec. unfold selectRenderer, registered. intros name. cbn [wp]. exists name.
  split; [done|]. case_bool_decide as Hempty.
  { left. subst. rewrite NewRenderer_registered, decide_True by done. auto. }
  rewrite !NewRenderer_registered. unfold EngineUnbound, EnginePowerDNS, EngineCoreDNS.
  repeat case_decide; subst; [left; auto|auto 10|auto|].
  do 3 right. split; [set_solver|]. apply NewRenderer_empty.
Qed.

(** The uniqueness webhook is off unless the environment says true, in one
    of the spellings of [strconv.ParseBool], up to surrounding white space. *)
Lemma webhook_opt_in `{GoRuntime} tr b :
  exec isPoolUniquenessWebhookEnabled tr b ->
  exists value, tr = [ev (Getenv "ASTRADNS_ENABLE_POOL_UNIQUENESS_WEBHOOK") value] /\
    (b = true <-> TrimSpace value ∈ ["1"; "t"; "T"; "true"; "TRUE"; "True"]).
Proof.
  revert tr b. apply wp_exec. unfold isPoolUniquenessWebhookEnabled.
  eapply wp_seq; [apply wp_trigger|]. intros tr0 value ->. case_bool_decide as Hempty.
  { apply wp_ret. exists value. split; [done|]. rewrite Hempty. split; [done|]. set_solver. }
  unfold ParseBool. case_bool_decide as Ht; [apply wp_ret; exists value; by split|].
  case_bool_decide; apply wp_ret; exists value; by split.
Qed.

(** ** What the operator publishes *)

Section Published.
Context `{GoRuntime} `{SliceSorter} `{GaugeVec} `{ApiMachinery} `{EngineLib}.

(** The configuration can be loaded by the engine: what the renderer of the
    engine type checks holds of [cfg] itself, and the engine's template
    executes on it. *)
Definition loadable (rend : ConfigRenderer) (cfg : EngineConfig) : Prop :=
  (rend = Unbound.UnboundRenderer /\
   Forall (fun u => uc_Transport u <> "doh") (ec_Upstreams cfg) /\
   (Exists (fun u => uc_Transport u = "dot") (ec_Upstreams cfg) -> ~ Exists plain (ec_Upstreams cfg)) /\
   exists out, executes_to "unbound.conf" UnboundConfigTemplate cfg out) \/
  (rend = CoreDNS.CoreDNSRenderer /\ ec_DNSSECMode cfg = "off" /\
   (forall u v, u ∈ ec_Upstreams cfg -> v ∈ ec_Upstreams cfg -> presents u -> presents v ->
      uc_TLSServerName u = uc_TLSServerName v) /\
   exists out, executes_to "Corefile" CorefileTemplate cfg out) \/
  (rend = PowerDNS.PowerDNSRenderer /\
   Forall (fun u => uc_Transport u = "dns") (ec_Upstreams cfg) /\
   exists out, executes_to "recursor.conf" RecursorConfTemplate cfg out).

Lemma rendered_loadable rend pool profile cfg out :
  rend ∈ [Unbound.UnboundRenderer; CoreDNS.CoreDNSRenderer; PowerDNS.PowerDNSRenderer] ->
  Forall (fun u => all_bytes no_space_byte (Address u) = true) (Upstreams (pool_spec pool)) ->
  generate (Some pool) profile = inr cfg -> Render rend (Some cfg) = inr out -> loadable rend cfg.
Proof.
  intros Hrend Hsp Hg Hr. destruct (generate_normal _ _ _ Hsp Hg) as (HU & HC & HP).
  unfold loadable. repeat (apply elem_of_cons in Hrend as [->|Hrend]); [left|right; left|right; right|].
  - apply unbound_render_spec in Hr as [[? ?] ?]. rewrite HU in *. eauto 10.
  - apply coredns_render_spec in Hr as [[? ?] ?]. rewrite HC in *. eauto 10.
  - apply powerdns_render_spec in Hr as [? ?]. rewrite HP in *. eauto 10.
  - by apply not_elem_of_nil in Hrend.
Qed.

End Published.
