(* ===== verification/Startup.v ===== *)
(** cmd/main.go, from the command line to the manager's start: the options of
    the servers, the controllers and the webhook that are registered, and the
    exit codes. *)
From S2P Require Import Prelude GoStrings GoErrors Sorting Types Flags Kube Manager.
From S2P Require Import Generator Renderers PoolValidation CacheProfile PoolSelection CircuitBreaker.
From S2P Require Import Metrics PoolController PolicyController Webhook Operator.

(** ** The servers *)

Definition disableHTTP2 (c : tlsConfig) : tlsConfig := {| NextProtos := ["http/1.1"] |}.

Definition tlsOpts (o : Options) : list (tlsConfig -> tlsConfig) :=
  if negb (bool_of o enableHTTP2) then [disableHTTP2] else [].

Definition webhookServerOptions (o : Options) : WebhookOptions :=
  if 0 <? len (string_of o webhookCertPath) then
    {| wo_TLSOpts := tlsOpts o; wo_CertDir := string_of o webhookCertPath;
       wo_CertName := string_of o webhookCertName; wo_KeyName := string_of o webhookCertKey |}
  else {| wo_TLSOpts := tlsOpts o; wo_CertDir := ""; wo_CertName := ""; wo_KeyName := "" |}.

Definition metricsServerOptions (o : Options) : MetricsOptions :=
  let filter := if bool_of o secureMetrics then Some WithAuthenticationAndAuthorization else None in
  if 0 <? len (string_of o metricsCertPath) then
    {| mo_BindAddress := string_of o metricsAddr; mo_SecureServing := bool_of o secureMetrics;
       mo_TLSOpts := tlsOpts o; mo_FilterProvider := filter;
       mo_CertDir := string_of o metricsCertPath; mo_CertName := string_of o metricsCertName;
       mo_KeyName := string_of o metricsCertKey |}
  else
    {| mo_BindAddress := string_of o metricsAddr; mo_SecureServing := bool_of o secureMetrics;
       mo_TLSOpts := tlsOpts o; mo_FilterProvider := filter;
       mo_CertDir := ""; mo_CertName := ""; mo_KeyName := "" |}.

(** ** What a command line asks for

    The twelve flags of main by their names, each given or not, and the manager
    options that are meant by them. *)
Record Settings := {
  metrics_bind_address : option string;
  health_probe_bind_address : option string;
  leader_elect : option bool;
  leader_election_id : option string;
  metrics_secure : option bool;
  webhook_cert_path : option string;
  webhook_cert_name : option string;
  webhook_cert_key : option string;
  metrics_cert_path : option string;
  metrics_cert_name : option string;
  metrics_cert_key : option string;
  enable_http2 : option bool;
}.

Definition command_line (s : Settings) : list string :=
  string_arg "metrics-bind-address" (metrics_bind_address s)
  ++ string_arg "health-probe-bind-address" (health_probe_bind_address s)
  ++ bool_arg "leader-elect" (leader_elect s)
  ++ string_arg "leader-election-id" (leader_election_id s)
  ++ bool_arg "metrics-secure" (metrics_secure s)
  ++ string_arg "webhook-cert-path" (webhook_cert_path s)
  ++ string_arg "webhook-cert-name" (webhook_cert_name s)
  ++ string_arg "webhook-cert-key" (webhook_cert_key s)
  ++ string_arg "metrics-cert-path" (metrics_cert_path s)
  ++ string_arg "metrics-cert-name" (metrics_cert_name s)
  ++ string_arg "metrics-cert-key" (metrics_cert_key s)
  ++ bool_arg "enable-http2" (enable_http2 s).

(** A file of a certificate directory: it is only named when the directory is. *)
Definition cert_file (path name : option string) (standard : string) : string :=
  if String.eqb (default "" path) "" then "" else default standard name.

Definition asked_tls (s : Settings) : list (tlsConfig -> tlsConfig) :=
  if default false (enable_http2 s) then [] else [disableHTTP2].

Definition asked_metrics (s : Settings) : MetricsOptions := {|
  mo_BindAddress := default "0" (metrics_bind_address s);
  mo_SecureServing := default true (metrics_secure s);
  mo_TLSOpts := asked_tls s;
  mo_FilterProvider :=
    if default true (metrics_secure s) then Some WithAuthenticationAndAuthorization else None;
  mo_CertDir := default "" (metrics_cert_path s);
  mo_CertName := cert_file (metrics_cert_path s) (metrics_cert_name s) "tls.crt";
  mo_KeyName := cert_file (metrics_cert_path s) (metrics_cert_key s) "tls.key";
|}.

Definition asked_webhook (s : Settings) : WebhookOptions := {|
  wo_TLSOpts := asked_tls s;
  wo_CertDir := default "" (webhook_cert_path s);
  wo_CertName := cert_file (webhook_cert_path s) (webhook_cert_name s) "tls.crt";
  wo_KeyName := cert_file (webhook_cert_path s) (webhook_cert_key s) "tls.key";
|}.

Definition asked_options `{ManagerLib} (scheme : Scheme) (s : Settings) : ManagerOptions Scheme WebhookServer := {|
  opt_Scheme := scheme;
  opt_Metrics := asked_metrics s;
  opt_WebhookServer := NewServer (asked_webhook s);
  opt_HealthProbeBindAddress := default ":8081" (health_probe_bind_address s);
  opt_LeaderElection := default false (leader_elect s);
  opt_LeaderElectionID := default "60acac32.astradns.com" (leader_election_id s);
|}.

(** ** The process *)

Section Main.
Context `{GoRuntime} `{SliceSorter} `{GaugeVec} `{ApiMachinery} `{EngineLib}.
Context `{OtherFlags} `{RendererRegistry} `{ManagerLib}.
Variable UnmarshalPool : string -> result DNSUpstreamPool.

(** The package's [init]: the scheme, or a panic of [utilruntime.Must]. *)
Definition init_scheme : result Scheme :=
  (scheme <- clientgo_AddToScheme NewScheme ;;
   v1alpha1_AddToScheme scheme)%result.

Definition manager_options (scheme : Scheme) (o : Options) : ManagerOptions Scheme WebhookServer := {|
  opt_Scheme := scheme;
  opt_Metrics := metricsServerOptions o;
  opt_WebhookServer := NewServer (webhookServerOptions o);
  opt_HealthProbeBindAddress := string_of o probeAddr;
  opt_LeaderElection := bool_of o enableLeaderElection;
  opt_LeaderElectionID := string_of o leaderElectionID;
|}.

(** How the process ends: a panic before main, an exit before the manager is
    started, or the manager started and the exit code after it returned. *)
Inductive ending :=
  | Panicked
  | Exited (code : Z)
  | Served (m : Manager) (code : Z).

(** [if err != nil { os.Exit(1) }]. *)
Definition or_exit {A} (r : result A) (k : A -> prog ending) : prog ending :=
  match r with
  | inl _ => Ret (Exited 1)
  | inr a => k a
  end.

(** From the health checks to the end of main. *)
Definition serve (mgr : Manager) : prog ending :=
  or_exit (AddHealthzCheck "healthz" mgr) (fun mgr =>
  or_exit (AddReadyzCheck "readyz" mgr) (fun mgr =>
  Ret (Served mgr (match Start mgr with
                   | Some _ => 1
                   | None => 0
                   end)))).

(** From the choice of the renderer to the registration of the webhook. *)
Definition register (mgr : Manager) : prog ending :=
  (renderer <- selectRenderer ;;
   or_exit renderer (fun configRenderer =>
   or_exit (PoolController.SetupWithManager (Some DefaultConfigGenerator) (Some configRenderer) true mgr)
     (fun mgr =>
   or_exit (CacheProfile.SetupWithManager true mgr) (fun mgr =>
   or_exit (PolicyController.SetupWithManager true mgr) (fun mgr =>
   enabled <- isPoolUniquenessWebhookEnabled ;;
   if (enabled : bool) then or_exit (Webhook.SetupWithManager UnmarshalPool true mgr) serve
   else serve mgr)))))%prog.

(** [main] on the arguments [os.Args[1:]], after [init]. *)
Definition main (args : list string) : prog ending :=
  match init_scheme with
  | inl _ => Ret Panicked
  | inr scheme =>
      match flag_Parse args with
      | HelpRequested => Ret (Exited 0)
      | BadArguments => Ret (Exited 2)
      | Parsed o _ _ =>
          match GetConfigOrDie with
          | None => Ret (Exited 1)
          | Some config => or_exit (NewManager config (manager_options scheme o)) register
          end
      end
  end.

(** ** What is registered *)

Definition pool_controller (rend : ConfigRenderer) : Controller :=
  {| ctl_builder := pool_builder;
     ctl_reconciler := reconciler (Some DefaultConfigGenerator) (Some rend) true |}.
Definition profile_controller : Controller :=
  {| ctl_builder := profile_builder; ctl_reconciler := stateless (CacheProfile.Reconcile true) |}.
Definition policy_controller : Controller :=
  {| ctl_builder := policy_builder; ctl_reconciler := stateless (PolicyController.Reconcile true) |}.

(** What a complete start-up leaves in the manager. *)
Definition complete_registration (scheme : Scheme) (o : Options) (rend : ConfigRenderer) (webhook : bool)
    : Registered Scheme WebhookServer := {|
  m_options := manager_options scheme o;
  m_controllers := [pool_controller rend; profile_controller; policy_controller];
  m_handlers := if webhook then [(poolUniquenessWebhookPath, Handle UnmarshalPool true)] else [];
  m_healthz := ["healthz"];
  m_readyz := ["readyz"];
|}.

Context `{!RendererRegistryLaws} `{!ManagerLaws}.

Lemma wp_or_exit {A} (r : result A) (k : A -> prog ending) Q :
  (forall e, r = inl e -> Q [] (Exited 1)) -> (forall a, r = inr a -> wp (k a) Q) -> wp (or_exit r k) Q.
Proof. intros Hl Hr. destruct r; cbn; eauto. Qed.

(** From a manager that holds [r] before the checks. *)
Lemma wp_serve mgr (Q : trace -> ending -> Prop) :
  Q [] (Exited 1) ->
  (forall m code, holds m = {| m_options := m_options (holds mgr);
       m_controllers := m_controllers (holds mgr); m_handlers := m_handlers (holds mgr);
       m_healthz := m_healthz (holds mgr) ++ ["healthz"];
       m_readyz := m_readyz (holds mgr) ++ ["readyz"] |} ->
     code = (if Start m then 1 else 0) -> Q [] (Served m code)) ->
  wp (serve mgr) Q.
Proof.
  intros He Hs. unfold serve. apply wp_or_exit; [done|]. intros m1 Hm1%AddHealthzCheck_holds.
  apply wp_or_exit; [done|]. intros m2 Hm2%AddReadyzCheck_holds. cbn [wp]. apply Hs.
  - by rewrite Hm2, Hm1.
  - by destruct (Start m2).
Qed.

(** The answers of the environment to the two questions main asks. *)
Definition environment (tr : trace) (name hook : string) : Prop :=
  tr = [ev (Getenv "ASTRADNS_ENGINE_TYPE") name; ev (Getenv enablePoolUniquenessWebhookEnv) hook].

Lemma wp_register scheme o mgr :
  holds mgr = {| m_options := manager_options scheme o; m_controllers := []; m_handlers := [];
                 m_healthz := []; m_readyz := [] |} ->
  wp (register mgr) (fun tr out =>
    out = Exited 1 \/
    exists name hook rend m code, out = Served m code /\ environment tr name hook /\
      engine_renderer name = Some rend /\ code = (if Start m then 1 else 0) /\
      holds m = complete_registration scheme o rend (webhook_opted hook)).
Proof.
  intros Hmgr. unfold register. eapply wp_seq; [apply wp_selectRenderer|].
  intros tr renderer (name & -> & Hrend). apply wp_or_exit; [by left|]. intros rend ->.
  destruct (engine_renderer name) as [rend'|] eqn:Hname; [|by destruct Hrend]. simplify_eq.
  apply wp_or_exit; [by left|]. intros m1 Hm1%Complete_holds.
  apply wp_or_exit; [by left|]. intros m2 Hm2%Complete_holds.
  apply wp_or_exit; [by left|]. intros m3 Hm3%Complete_holds.
  eapply wp_seq; [apply wp_webhook_enabled|]. intros tr' hook' (hook & -> & ->).
  rewrite Hm2, Hm1, Hmgr in Hm3. cbn in Hm3.
  destruct (webhook_opted hook) eqn:Hhook.
  - apply wp_or_exit; [by left|]. intros m4 Hm4.
    injection Hm4 as <-.
    apply wp_serve; [by left|]. intros m code Hm ->. right. exists name, hook, rend', m, (if Start m then 1 else 0).
    rewrite Hm, Register_holds, Hm3. by rewrite Hhook.
  - apply wp_serve; [by left|]. intros m code Hm ->. right. exists name, hook, rend', m, (if Start m then 1 else 0).
    rewrite Hm, Hm3. by rewrite Hhook.
Qed.

Lemma main_ending args tr out :
  exec (main args) tr out ->
  match out with
  | Panicked => exists e, init_scheme = inl e
  | Exited code =>
      (flag_Parse args = HelpRequested /\ code = 0) \/
      (flag_Parse args = BadArguments /\ code = 2) \/
      (exists o x rest, flag_Parse args = Parsed o x rest /\ code = 1)
  | Served m code =>
      exists scheme o x rest name hook rend,
        init_scheme = inr scheme /\ flag_Parse args = Parsed o x rest /\
        environment tr name hook /\ engine_renderer name = Some rend /\
        holds m = complete_registration scheme o rend (webhook_opted hook) /\
        code = (if Start m then 1 else 0)
  end.
Proof.
  revert tr out. apply wp_exec. unfold main.
  destruct init_scheme as [e|scheme]; [cbn; eauto|].
  destruct (flag_Parse args) as [o x rest| |] eqn:Hargs; [|cbn; auto..].
  destruct GetConfigOrDie as [config|]; [|cbn; eauto 10].
  apply wp_or_exit; [eauto 10|]. intros mgr Hmgr%NewManager_holds.
  eapply wp_mono; [|by apply wp_register].
  intros tr out [->|(name & hook & rend & m & code & -> & Htr & Hname & -> & Hm)]; [by eauto 10|].
  by exists scheme, o, x, rest, name, hook, rend.
Qed.

Lemma main_served args tr m code :
  exec (main args) tr (Served m code) ->
  exists scheme o x rest name hook rend,
    init_scheme = inr scheme /\ flag_Parse args = Parsed o x rest /\
    environment tr name hook /\ engine_renderer name = Some rend /\
    holds m = complete_registration scheme o rend (webhook_opted hook) /\
    code = (if Start m then 1 else 0).
Proof. apply main_ending. Qed.

(** C18. Start-up is all or nothing. The manager is started only when the command
    line parsed, every registration succeeded and the environment names an
    engine with a renderer; it then holds exactly the three controllers, with
    the renderer of that engine, the webhook if the environment opts in, the
    two checks and the options of the command line, and the exit code is that
    of the manager. Otherwise nothing is started and the exit code tells why:
    0 for the help text, 2 for a bad command line, 1 for anything else. *)
Theorem startup_complete args tr out :
  exec (main args) tr out ->
  match out with
  | Panicked => exists e, init_scheme = inl e
  | Exited code =>
      (flag_Parse args = HelpRequested /\ code = 0) \/
      (flag_Parse args = BadArguments /\ code = 2) \/
      (exists o x rest, flag_Parse args = Parsed o x rest /\ code = 1)
  | Served m code =>
      exists scheme o x rest name hook rend,
        init_scheme = inr scheme /\ flag_Parse args = Parsed o x rest /\
        environment tr name hook /\ engine_renderer name = Some rend /\
        holds m = complete_registration scheme o rend (webhook_opted hook) /\
        code = (if Start m then 1 else 0)
  end.
Proof. apply main_ending. Qed.

(** The options after the flags of a command line. *)
Definition options_of (s : Settings) : Options :=
  give_bool enableHTTP2 (enable_http2 s)
  $ give_string metricsCertKey (metrics_cert_key s)
  $ give_string metricsCertName (metrics_cert_name s)
  $ give_string metricsCertPath (metrics_cert_path s)
  $ give_string webhookCertKey (webhook_cert_key s)
  $ give_string webhookCertName (webhook_cert_name s)
  $ give_string webhookCertPath (webhook_cert_path s)
  $ give_bool secureMetrics (metrics_secure s)
  $ give_string leaderElectionID (leader_election_id s)
  $ give_bool enableLeaderElection (leader_elect s)
  $ give_string probeAddr (health_probe_bind_address s)
  $ give_string metricsAddr (metrics_bind_address s) default_options.

Lemma parse_command_line s after :
  flag_Parse (command_line s ++ "--" :: after) = Parsed (options_of s) other_default after.
Proof.
  unfold flag_Parse, command_line. rewrite <- !app_assoc.
  repeat first [erewrite parse_string_arg by reflexivity | erewrite parse_bool_arg by reflexivity].
  done.
Qed.

Lemma options_of_string s v :
  string_of (options_of s) v =
  match v with
  | metricsAddr => default "0" (metrics_bind_address s)
  | probeAddr => default ":8081" (health_probe_bind_address s)
  | leaderElectionID => default "60acac32.astradns.com" (leader_election_id s)
  | webhookCertPath => default "" (webhook_cert_path s)
  | webhookCertName => default "tls.crt" (webhook_cert_name s)
  | webhookCertKey => default "tls.key" (webhook_cert_key s)
  | metricsCertPath => default "" (metrics_cert_path s)
  | metricsCertName => default "tls.crt" (metrics_cert_name s)
  | metricsCertKey => default "tls.key" (metrics_cert_key s)
  end.
Proof. unfold options_of. autorewrite with give. by destruct v. Qed.

Lemma options_of_bool s v :
  bool_of (options_of s) v =
  match v with
  | enableLeaderElection => default false (leader_elect s)
  | secureMetrics => default true (metrics_secure s)
  | enableHTTP2 => default false (enable_http2 s)
  end.
Proof. unfold options_of. autorewrite with give. by destruct v. Qed.

Lemma path_given (path : string) : (0 <? len path) = negb (String.eqb path "").
Proof. by destruct path. Qed.

Lemma options_of_asked scheme s : manager_options scheme (options_of s) = asked_options scheme s.
Proof.
  unfold manager_options, asked_options, metricsServerOptions, webhookServerOptions, tlsOpts.
  rewrite !options_of_string, !options_of_bool, !path_given.
  unfold asked_metrics, asked_webhook, asked_tls, cert_file.
  destruct (String.eqb_spec (default "" (webhook_cert_path s)) "") as [->|],
    (String.eqb_spec (default "" (metrics_cert_path s)) "") as [->|],
    (default false (enable_http2 s)); done.
Qed.

(** C35. Every setting of main's twelve flags, given or not, has a command line
    that the operator reads back: it parses, whatever the values and the
    arguments after the terminator are, and a manager that is started on it has
    exactly the options asked for by name, each server with the certificate
    files of its own flags (named only when the directory is), and the
    default for each flag that is not given. *)
Theorem command_line_options s after :
  (exists o x, flag_Parse (command_line s ++ "--" :: after) = Parsed o x after) /\
  forall tr m code, exec (main (command_line s ++ "--" :: after)) tr (Served m code) ->
    exists scheme, init_scheme = inr scheme /\ m_options (holds m) = asked_options scheme s.
Proof.
  rewrite parse_command_line. split; [by eauto|].
  intros tr m code (scheme & o & x & rest & name & hook & rend & Hscheme & Hargs & _ & _ & Hm & _)%main_served.
  rewrite parse_command_line in Hargs. simplify_eq. exists scheme. split; [done|].
  rewrite Hm. apply options_of_asked.
Qed.

(** C34. Secure by default. Whatever else is on the command line, a manager that
    is started without mention of [enable-http2] serves metrics and webhook
    without HTTP/2, and one started without mention of [metrics-secure] serves
    its metrics over TLS, to authenticated and authorised clients only; both
    servers always have the same TLS options. *)
Theorem secure_by_default args tr m code :
  exec (main args) tr (Served m code) ->
  let metrics := opt_Metrics (m_options (holds m)) in
  exists wo, opt_WebhookServer (m_options (holds m)) = NewServer wo /\
    wo_TLSOpts wo = mo_TLSOpts metrics /\
    ((forall s, s ∈ args -> ~ mentions "enable-http2" s) ->
     forall c, NextProtos (apply_TLSOpts (mo_TLSOpts metrics) c) = ["http/1.1"]) /\
    ((forall s, s ∈ args -> ~ mentions "metrics-secure" s) ->
     mo_SecureServing metrics = true /\ mo_FilterProvider metrics = Some WithAuthenticationAndAuthorization).
Proof.
  intros (scheme & o & x & rest & name & hook & rend & _ & Hargs & _ & _ & Hm & _)%main_served metrics.
  subst metrics. rewrite Hm. cbn [complete_registration m_options manager_options opt_Metrics opt_WebhookServer].
  assert (forall b name0, (name0, inr b) ∈ flags -> (forall n, (n, inr b) ∈ flags -> n = name0) ->
    (forall s, s ∈ args -> ~ mentions name0 s) -> bool_of o b = bool_of default_options b) as Hb.
  { intros b name0 Hin Hone Hno. by apply (parse_unmentioned b name0 args _ _ _ _ Hin Hone Hno Hargs). }
  exists (webhookServerOptions o). unfold webhookServerOptions, metricsServerOptions, tlsOpts.
  split; [done|]. split; [by repeat case_match|]. split.
  - intros Hno. rewrite (Hb enableHTTP2 "enable-http2") by set_solver. by case_match.
  - intros Hno. rewrite (Hb secureMetrics "metrics-secure") by set_solver. by case_match.
Qed.
End Main.
