(* ===== verification/Calls.v ===== *)
(** Which calls the reconcilers make, and how many: every reconciliation ends
    after a bounded number of calls, reads only objects of the types its
    controller watches, and is requested again when one that it read by name
    changes, save the agent's ConfigMap, which the pool controller reads without
    watching it. *)
From S2P Require Import Prelude GoStrings GoErrors Sorting Types Kube Manager.
From S2P Require Import PoolValidation CacheProfile PoolSelection CircuitBreaker Metrics PoolController.
From S2P Require Import PoolSpec PolicyController PolicySpec PolicyProperties.

(** ** Programs by their calls

    [uses P n p]: every call of [p] satisfies [P], and there are at most [n]. *)
Fixpoint uses {A} (P : call -> Prop) (n : nat) (p : prog A) {struct p} : Prop :=
  match p with
  | Ret _ => True
  | Do c k =>
      match n with
      | O => False
      | S n => P c /\ forall r, uses P n (k r)
      end
  end.

Lemma uses_ret {A} P n (a : A) : uses P n (Ret a).
Proof. done. Qed.

Lemma uses_trigger (P : call -> Prop) c : P c -> uses P 1 (trigger c).
Proof. by split. Qed.

Lemma uses_mono {A} P n m (p : prog A) : (n <= m)%nat -> uses P n p -> uses P m p.
Proof.
  revert n m. induction p as [a|c k IH]; intros n m Hle; [done|].
  destruct n as [|n], m as [|m]; cbn; [done..|lia|]. intros [? Hk]. split; [done|].
  intros r. apply (IH r n); [lia|]. apply Hk.
Qed.

Lemma uses_bind {A B} P n m (p : prog A) (f : A -> prog B) :
  uses P n p -> (forall a, uses P m (f a)) -> uses P (n + m) (bind p f).
Proof.
  intros Hp Hf. revert n Hp. induction p as [a|c k IH]; intros n Hp; cbn.
  - apply (uses_mono _ m); [lia|apply Hf].
  - destruct n as [|n]; [done|]. destruct Hp as [? Hk]. split; [done|]. intros r. by apply IH.
Qed.

Lemma uses_state_bind {S A B} P n m (p : state S A) (f : A -> state S B) s :
  uses P n (p s) -> (forall a s, uses P m (f a s)) -> uses P (n + m) (state_bind p f s).
Proof. intros Hp Hf. apply uses_bind; [done|]. intros [s' a]. apply Hf. Qed.

Lemma uses_lift {S A} P n (p : prog A) (s : S) : uses P n p -> uses P n (lift p s).
Proof. intros Hp. rewrite <- (Nat.add_0_r n). by apply uses_bind. Qed.

(** A program on a handler makes no other calls. *)
Lemma uses_exec {A} P n (p : prog A) tr a :
  uses P n p -> exec p tr a -> (length tr <= n)%nat /\ Forall (fun e => P (projT1 e)) tr.
Proof.
  revert n tr. induction p as [b|c k IH]; intros n tr Hp; cbn.
  - intros [-> _]. split; [cbn; lia|constructor].
  - destruct n as [|n]; [done|]. destruct Hp as [? Hk]. intros (r & tr' & -> & Hx).
    destruct (IH r n tr' (Hk r) Hx) as [Hl HF]. split; [cbn; lia|by constructor].
Qed.

Create HintDb uses discriminated.
#[export] Hint Resolve uses_ret uses_trigger : uses.

(** ** The pool reconciler *)

(** The type of the objects a call reads. *)
Definition reads (c : call) : option Kind :=
  match c with
  | GetPool _ | ListPools _ => Some KindPool
  | GetProfile _ => Some KindProfile
  | GetPolicy _ | ListPolicies _ => Some KindPolicy
  | GetNamespace _ | ListNamespaces => Some KindNamespace
  | GetConfigMap _ | CreateOrUpdate _ _ => Some KindConfigMap
  | _ => None
  end.

(** The types whose changes reach the controller. *)
Definition watched (b : Builder) : list Kind := builder_For b :: (fst <$> builder_Watches b).

(** A call reads only such types, save the ConfigMap in the pool controller. *)
Definition reads_watched (b : Builder) (c : call) : Prop :=
  forall k, reads c = Some k -> k ∈ watched b \/ (k = KindConfigMap /\ builder_For b = KindPool).

(** Closes [reads_watched] on a call. *)
Ltac watched_call :=
  intros k0 [= <-]; first [by left; apply (bool_decide_unpack _) | by right].

Section Pool.
Context `{GoRuntime} `{SliceSorter} `{GaugeVec} `{ApiMachinery} `{EngineLib}.
Variables (gen : ConfigGenerator) (rend : ConfigRenderer) (Recorder : bool).

Abbreviation pool_uses n p := (uses (reads_watched pool_builder) n p).

Lemma uses_recordEvent object t r m : pool_uses 1 (PoolController.recordEvent Recorder object t r m).
Proof. unfold PoolController.recordEvent. case_match; [done|]. apply uses_trigger. watched_call. Qed.

Lemma uses_setReadyCondition pool st r m : pool_uses 1 (setReadyCondition pool st r m).
Proof.
  apply (uses_bind _ 1 0); [apply uses_trigger; watched_call|]. by intros [].
Qed.

Lemma uses_refuse pool r m res err : pool_uses 2 (refuse Recorder pool r m res err).
Proof.
  apply (uses_bind _ 1 1); [apply uses_recordEvent|]. intros _.
  apply (uses_bind _ 1 0); [apply uses_setReadyCondition|]. by intros [].
Qed.

Lemma uses_readClock b : pool_uses 1 (readClock b).
Proof. destruct b; [|done]. apply uses_trigger. watched_call. Qed.

Lemma uses_upsert ns json s : pool_uses 5 (upsertConfigMapWithCircuitBreaker ns json s).
Proof.
  apply (uses_state_bind _ 1 4).
  { apply (uses_bind _ 1 0); [apply uses_readClock|]. intros now.
    by destruct (isConfigMapCircuitOpen now ns (circuit s)). }
  intros [until [|]] s1; [done|]. apply (uses_state_bind _ 2 2).
  { apply uses_lift. apply (uses_bind _ 1 1).
    - apply (uses_bind _ 1 0); [apply uses_trigger; watched_call|done].
    - intros name. apply (uses_bind _ 1 0); [apply uses_trigger; watched_call|]. by intros []. }
  intros [e|] s2; [|done]. apply (uses_state_bind _ 2 0); [|done].
  apply (uses_bind _ 1 1); [apply uses_readClock|]. intros now1.
  apply (uses_bind _ 1 0); [apply uses_readClock|done].
Qed.

Lemma uses_operatorNamespace ns : pool_uses 1 (operatorNamespace ns).
Proof. apply (uses_bind _ 1 0); [apply uses_trigger; watched_call|done]. Qed.

Lemma uses_getDefaultCacheProfile ns : pool_uses 1 (getDefaultCacheProfile ns).
Proof.
  apply (uses_bind _ 1 0); [apply uses_trigger; watched_call|]. intros [e|]; [|done]. by destruct (IsNotFound e).
Qed.

Lemma uses_publish pool json s : pool_uses 8 (publish Recorder pool json s).
Proof.
  apply (uses_state_bind _ 1 7); [apply uses_lift, uses_operatorNamespace|]. intros ns s1.
  apply (uses_state_bind _ 5 2); [apply uses_upsert|]. intros [e|] s2; [apply uses_lift, uses_refuse|].
  apply (uses_state_bind _ 1 1); [apply uses_lift, uses_recordEvent|]. intros _ s3.
  apply (uses_state_bind _ 1 0); [apply uses_lift, uses_setReadyCondition|done].
Qed.

Lemma uses_reconcileActivePool pool s : pool_uses 9 (reconcileActivePool Recorder gen rend pool s).
Proof.
  apply (uses_state_bind _ 1 8); [apply uses_lift, uses_getDefaultCacheProfile|]. intros profile s1.
  repeat case_match; try (apply (uses_mono _ 2); [lia|]; apply uses_lift, uses_refuse).
  apply uses_publish.
Qed.

Lemma uses_reconcilePool pool s : pool_uses 10 (reconcilePool Recorder gen rend pool s).
Proof.
  unfold reconcilePool. destruct (validateDNSUpstreamPool _).
  { apply (uses_mono _ 2); [lia|]. apply uses_lift, uses_refuse. }
  apply (uses_state_bind _ 1 9).
  { apply uses_lift. apply (uses_bind _ 1 0); [apply uses_trigger; watched_call|].
    intros [e|items]; [done|]. by destruct (sortPoolsForSelection items). }
  intros [e|[[name count] reason]] s1; [done|].
  apply (uses_state_bind _ 0 9); [done|]. intros _ s2.
  case_match; [apply (uses_mono _ 2); [lia|]; apply uses_lift, uses_refuse|apply uses_reconcileActivePool].
Qed.

Lemma uses_publishRemaining ns pool json s : pool_uses 7 (publishRemaining Recorder ns pool json s).
Proof.
  assert (forall text reason err (s : PoolReconciler), pool_uses 2 (state_bind
    (lift (PoolController.recordEvent Recorder pool "Warning" reason (Error err))) (fun _ => state_bind
    (lift (setReadyCondition pool ConditionFalse reason (Error err))) (fun statusErr =>
      state_ret ((fun statusErr => ErrWrap text statusErr "") <$> statusErr))) s)) as Hrefuse.
  { intros text reason err s0. apply (uses_state_bind _ 1 1); [apply uses_lift, uses_recordEvent|].
    intros _ s1. apply (uses_state_bind _ 1 0); [apply uses_lift, uses_setReadyCondition|done]. }
  unfold publishRemaining. destruct (validateConfigMapPayloadSize json).
  { apply (uses_mono _ 2); [lia|]. apply Hrefuse. }
  apply (uses_state_bind _ 5 2); [apply uses_upsert|]. intros [e|] s1.
  - case_match; [apply Hrefuse|done].
  - apply (uses_mono _ 1); [lia|].
    apply (uses_state_bind _ 1 0); [apply uses_lift, uses_setReadyCondition|done].
Qed.

Lemma uses_removeConfigKey ns : pool_uses 3 (removeConfigKey ns).
Proof.
  apply (uses_bind _ 1 2).
  - apply (uses_bind _ 1 0); [apply uses_trigger; watched_call|done].
  - intros name. apply (uses_bind _ 1 1); [apply uses_trigger; watched_call|]. intros [e|cm].
    + by destruct (IsNotFound e).
    + apply (uses_bind _ 1 0); [apply uses_trigger; watched_call|]. by intros [].
Qed.

Lemma uses_reconcileAfterPoolDeletion ns s :
  pool_uses 10 (reconcileAfterPoolDeletion Recorder gen rend ns s).
Proof.
  apply (uses_state_bind _ 1 9); [apply uses_lift, uses_trigger; watched_call|]. intros [e|items] s1; [done|].
  apply (uses_state_bind _ 1 8); [apply uses_lift, uses_operatorNamespace|]. intros cns s2.
  destruct (sortPoolsForSelection items) as [|pool rest].
  - apply (uses_state_bind _ 0 8); [done|]. intros _ s3. apply (uses_mono _ 3); [lia|].
    apply uses_lift, uses_removeConfigKey.
  - apply (uses_state_bind _ 0 8); [done|]. intros _ s3.
    apply (uses_state_bind _ 1 7); [apply uses_lift, uses_getDefaultCacheProfile|]. intros profile s4.
    repeat case_match; try done. apply uses_publishRemaining.
Qed.

Lemma uses_Reconcile req s : pool_uses 12 (PoolController.Reconcile (Some gen) (Some rend) Recorder req s).
Proof.
  apply (uses_state_bind _ 1 11); [apply uses_lift, uses_trigger; watched_call|]. intros [e|pool] s1.
  - case_match; [|done]. apply (uses_mono _ 10); [lia|].
    apply (uses_state_bind _ 10 0); [apply uses_reconcileAfterPoolDeletion|done].
  - apply (uses_state_bind _ 1 10).
    { apply uses_lift. unfold ensureInitialRVAnnotation. case_match; [done|].
      apply (uses_bind _ 1 0); [apply uses_trigger; watched_call|done]. }
    intros [e|pool'] s2; [done|]. apply uses_reconcilePool.
Qed.
End Pool.

(** ** The policy reconciler

    Its loops run over what it has listed: a namespace listed costs at most one
    call, a selected one at most two. *)
Definition work (tr : trace) : nat :=
  sum_list_with (fun e : event =>
    let '(existT c r) := e in
    match c return resp c -> nat with
    | ListNamespaces => fun r => match r with
                                 | inr items => length items
                                 | inl _ => 0%nat
                                 end
    | MapRange keys => fun r => (2 * length (`r))%nat
    | _ => fun _ => 0%nat
    end r) tr.

Lemma work_app tr tr' : work (tr ++ tr') = (work tr + work tr')%nat.
Proof. apply sum_list_with_app. Qed.

Arguments work : simpl never.

Section Policy.
Context `{GoRuntime} `{ApiMachinery}.
Variable Recorder : bool.

Definition spends {A} (n : nat) (p : prog A) : Prop :=
  wp p (fun tr _ => (length tr <= n + work tr)%nat /\
                    Forall (fun e => reads_watched policy_builder (projT1 e)) tr).

Lemma spends_uses {A} n (p : prog A) : uses (reads_watched policy_builder) n p -> spends n p.
Proof.
  intros Hu. apply wp_exec. intros tr a Hx. destruct (uses_exec _ _ _ _ _ Hu Hx). split; [lia|done].
Qed.

(** Composition, with what is known of the first part. *)
Lemma spends_seq {A B} n m P (p : prog A) (f : A -> prog B) :
  spends n p -> wp p P -> (forall tr a, P tr a -> spends m (f a)) -> spends (n + m) (bind p f).
Proof.
  intros Hp HP Hf. apply wp_bind. unfold spends in *. rewrite !wp_exec in *. intros tr a Hx.
  eapply wp_mono; [|apply (Hf tr a), HP, Hx]. intros tr' b [Hl' HF']. destruct (Hp tr a Hx) as [Hl HF].
  rewrite length_app, work_app. split; [lia|]. by apply Forall_app.
Qed.

Lemma spends_bind {A B} n m (p : prog A) (f : A -> prog B) :
  spends n p -> (forall a, spends m (f a)) -> spends (n + m) (bind p f).
Proof.
  intros Hp Hf. apply (spends_seq _ _ (fun _ _ => True)); [done| |intros; apply Hf].
  by apply wp_exec.
Qed.

Lemma spends_mono {A} n m (p : prog A) : (n <= m)%nat -> spends n p -> spends m p.
Proof. intros Hle. apply wp_mono. intros tr _ [? ?]. split; [lia|done]. Qed.

Lemma spends_for_each {A E} n (f : A -> prog (option E)) l :
  (forall x, spends n (f x)) -> spends (length l * n) (for_each f l).
Proof.
  intros Hf. induction l as [|x l IH]; [apply wp_ret; by split|]. cbn [for_each length].
  apply spends_bind; [apply Hf|]. intros [e|]; [apply wp_ret; split; [cbn; lia|done]|done].
Qed.

Lemma spends_for_fold {A S E} n (f : A -> S -> prog (E + S)) l s :
  (forall x s, spends n (f x s)) -> spends (length l * n) (for_fold f l s).
Proof.
  intros Hf. revert s. induction l as [|x l IH]; intros s; [apply wp_ret; by split|]. cbn [for_fold length].
  apply spends_bind; [apply Hf|]. intros [e|s']; [apply wp_ret; split; [cbn; lia|done]|done].
Qed.

Lemma spends_ret {A} n (a : A) : spends n (Ret a).
Proof. apply wp_ret. split; [cbn; lia|constructor]. Qed.

(** A match at the head of the program, and a program that has returned. *)
Ltac spend_cases :=
  repeat first [apply spends_ret
               | lazymatch goal with |- spends _ (match ?x with _ => _ end) => destruct x end].

Lemma spends_call c : reads_watched policy_builder c -> spends 1 (trigger c).
Proof. intros Hc. by apply spends_uses, uses_trigger. Qed.

Lemma spends_recordEvent object t r m : spends 1 (recordEvent Recorder object t r m).
Proof. unfold recordEvent. spend_cases. apply spends_call; watched_call. Qed.

Lemma spends_setValidatedCondition policy st r m n : spends 1 (setValidatedCondition policy st r m n).
Proof.
  apply (spends_bind 1 0); [apply spends_call; watched_call|]. intros []; apply spends_ret.
Qed.

Lemma spends_validateReferences policy : spends 2 (validateReferences (Some policy)).
Proof.
  unfold validateReferences. spend_cases.
  apply (spends_bind 1 1); [apply spends_call; watched_call|]. intros [?|?].
  { spend_cases. }
  spend_cases.
  apply (spends_bind 1 0); [apply spends_call; watched_call|]. intros [?|?]; spend_cases.
Qed.

Lemma spends_remove ns : spends 1 (removeNamespacePolicyAnnotations (Some ns)).
Proof.
  unfold removeNamespacePolicyAnnotations. spend_cases.
  apply (spends_bind 1 0); [apply spends_call; watched_call|]. intros []; apply spends_ret.
Qed.

Lemma spends_update ns policy : spends 1 (updateNamespacePolicyAnnotations (Some ns) (Some policy)).
Proof.
  unfold updateNamespacePolicyAnnotations. spend_cases.
  apply (spends_bind 1 0); [apply spends_call; watched_call|]. intros []; apply spends_ret.
Qed.

(** The listing pays for one call per namespace. *)
Lemma spends_managed {B} n (f : result (list CoreNamespace) -> prog B) uid :
  (forall e, spends n (f (inl e))) ->
  (forall l, spends (n + length l) (f (inr l))) ->
  spends (S n) (bind (listManagedPolicyNamespaces uid) f).
Proof.
  intros Hl Hr [e|items]; cbn [bind listManagedPolicyNamespaces trigger].
  - eapply wp_mono; [|apply Hl]. intros tr _ [? ?].
    change (work (ev ListNamespaces (inl e) :: tr)) with (work tr).
    split; [cbn [length]; lia|]. constructor; [watched_call|done].
  - eapply wp_mono; [|apply Hr]. intros tr _ [Hlen ?]. cbn in *.
    pose proof (List.filter_length_le (managed_by uid) items).
    change (work (ev ListNamespaces (inr items) :: tr)) with (length items + work tr)%nat.
    split; [lia|]. constructor; [watched_call|done].
Qed.

(** The names selected pay for two calls each. *)
Lemma spends_range {B} n keys (f : resp (MapRange keys) -> prog B) :
  (forall order, spends (n + length (`order) * 2) (f order)) -> spends (S n) (bind (trigger (MapRange keys)) f).
Proof.
  intros Hf order. eapply wp_mono; [|apply (Hf order)]. intros tr _ [Hlen ?].
  change (work (ev (MapRange keys) order :: tr)) with (2 * length (`order) + work tr)%nat.
  split; [cbn [length]; lia|]. constructor; [watched_call|done].
Qed.

Lemma spends_enforcePolicy policy : spends 2 (enforcePolicy policy).
Proof.
  unfold enforcePolicy. apply (spends_managed 1); [intros; apply spends_ret|]. intros l.
  rewrite Nat.add_comm. apply spends_bind.
  { apply (spends_mono (length l * 1)); [lia|]. apply spends_for_each. intros x.
    spend_cases. apply spends_remove. }
  intros [e|]; [apply spends_ret|]. apply (spends_range 0). intros order. apply spends_for_fold.
  intros name n. apply (spends_bind 1 1); [apply spends_call; watched_call|]. intros [e|ns].
  - spend_cases.
  - apply (spends_bind 1 0); [apply spends_update|]. intros []; apply spends_ret.
Qed.

Lemma spends_clear policy : spends 1 (clearPolicyEnforcement policy).
Proof.
  unfold clearPolicyEnforcement. apply (spends_managed 0); [intros; apply spends_ret|]. intros l.
  apply (spends_mono (length l * 1)); [lia|]. apply spends_for_each. intros x. apply spends_remove.
Qed.

Lemma spends_Reconcile req : spends 8 (Reconcile Recorder req).
Proof.
  apply (spends_bind 1 7); [apply spends_call; watched_call|]. intros [e|policy].
  { spend_cases. }
  spend_cases.
  - apply (spends_mono 2); [lia|]. unfold reconcileDeletion. spend_cases.
    apply (spends_bind 1 1); [apply spends_clear|]. intros [e|]; [apply spends_ret|].
    apply (spends_bind 1 0); [apply spends_call; watched_call|]. intros []; apply spends_ret.
  - apply (spends_bind 1 6).
    { unfold ensureFinalizer. spend_cases.
      apply (spends_bind 1 0); [apply spends_call; watched_call|]. intros; apply spends_ret. }
    intros [e|live]; [apply spends_ret|].
    apply (spends_bind 2 4); [apply spends_validateReferences|]. intros [e|].
    { apply (spends_mono 2); [lia|]. apply (spends_bind 1 1); [apply spends_recordEvent|]. intros _.
      apply (spends_bind 1 0); [apply spends_setValidatedCondition|]. intros; apply spends_ret. }
    apply (spends_bind 2 2); [apply spends_enforcePolicy|]. intros [e|n];
      (apply (spends_bind 1 1); [apply spends_recordEvent|]; intros _;
       apply (spends_bind 1 0); [apply spends_setValidatedCondition|]; intros; spend_cases).
Qed.
End Policy.

(** ** The profile reconciler *)

Lemma uses_profile_Reconcile `{ApiMachinery} Recorder req :
  uses (reads_watched profile_builder) 3 (CacheProfile.Reconcile Recorder req).
Proof.
  apply (uses_bind _ 1 2).
  { apply uses_trigger. watched_call. }
  intros [e|profile]; [by destruct (IsNotFound e)|].
  assert (forall t r m, uses (reads_watched profile_builder) 1 (CacheProfile.recordEvent Recorder profile t r m))
    as Hevent by (intros; unfold CacheProfile.recordEvent; destruct Recorder; by repeat split).
  assert (forall st r m, uses (reads_watched profile_builder) 1 (setActiveCondition profile st r m))
    as Hset by (intros; split; [done|]; by intros []).
  destruct (validateDNSCacheProfile (Some profile));
    (apply (uses_bind _ 1 1); [apply Hevent|]; intros _; apply (uses_bind _ 1 0); [apply Hset|done]).
Qed.

(** ** Every reconciliation *)

Lemma uses_run {W A} (h : handler W) P n (p : prog A) w :
  uses P n p ->
  exists w' tr a, run_trace h p w = (w', tr, a) /\ (length tr <= n)%nat /\ Forall (fun e => P (projT1 e)) tr.
Proof.
  intros Hu. destruct (run_trace h p w) as [[w' tr] a] eqn:E.
  destruct (run_trace_exec _ _ _ _ _ _ E) as [Hx _]. destruct (uses_exec _ _ _ _ _ Hu Hx). eauto 10.
Qed.

(** C19. Reconciliations end. On any API server, the pool reconciler returns
    after at most twelve calls, the profile reconciler after three, and the
    policy reconciler after eight more than one for each namespace listed and
    two for each one selected. All that a reconciliation reads is of a type
    whose changes its controller watches, save the agent's ConfigMap. *)
Theorem reconcile_terminates {W} (h : handler W) (w : W) `{GoRuntime} `{SliceSorter} `{GaugeVec}
    `{ApiMachinery} `{EngineLib} gen rend Recorder req s :
  (exists w' tr r, run_trace h (PoolController.Reconcile (Some gen) (Some rend) Recorder req s) w = (w', tr, r) /\
     (length tr <= 12)%nat /\ Forall (fun e => reads_watched pool_builder (projT1 e)) tr) /\
  (exists w' tr r, run_trace h (CacheProfile.Reconcile Recorder req) w = (w', tr, r) /\
     (length tr <= 3)%nat /\ Forall (fun e => reads_watched profile_builder (projT1 e)) tr) /\
  (exists w' tr r, run_trace h (PolicyController.Reconcile Recorder req) w = (w', tr, r) /\
     (length tr <= 8 + work tr)%nat /\ Forall (fun e => reads_watched policy_builder (projT1 e)) tr).
Proof.
  split_and!.
  - apply uses_run, uses_Reconcile.
  - apply uses_run, uses_profile_Reconcile.
  - destruct (run_trace h (PolicyController.Reconcile Recorder req) w) as [[w' tr] a] eqn:E.
    destruct (run_trace_exec _ _ _ _ _ _ E) as [Hx _].
    pose proof (proj1 (wp_exec _ _) (spends_Reconcile Recorder req) tr a Hx) as [? ?]. eauto 10.
Qed.

(** ** Waking up *)

(** The object that a call reads by its name. *)
Definition touches (c : call) (k : Kind) (obj : ObjectMeta) : Prop :=
  match c with
  | GetPool key => k = KindPool /\ meta_key obj = key
  | GetProfile key => k = KindProfile /\ meta_key obj = key
  | GetPolicy key => k = KindPolicy /\ meta_key obj = key
  | GetNamespace name => k = KindNamespace /\ Name obj = name
  | GetConfigMap key => k = KindConfigMap /\ meta_key obj = key
  | CreateOrUpdate cm _ => k = KindConfigMap /\ meta_key obj = cm_key cm
  | _ => False
  end.

Section Wake.
Context `{GoRuntime} `{ApiMachinery}.

(** An event on the object makes the controller list policies, among them
    those of the namespace of [policy], and request a reconciliation of
    [policy] if it is listed with the spec it has here. *)
Definition wakes_policy (policy : ExternalDNSPolicy) (k : Kind) (obj : ObjectMeta) : Prop :=
  exists f, (k, f) ∈ builder_Watches policy_builder /\
  forall tr reqs, exec (f obj) tr reqs ->
    exists ns listed, tr = [ev (ListPolicies ns) listed] /\
      (ns = None \/ ns = Some (Namespace (policy_meta policy))) /\
      forall items p, listed = inr items -> p ∈ items ->
        meta_key (policy_meta p) = meta_key (policy_meta policy) -> policy_spec p = policy_spec policy ->
        meta_key (policy_meta policy) ∈ reqs.

(** An event on the object makes the controller list the pools of the
    namespace and request a reconciliation of each that is listed. *)
Definition wakes_pools (ns : string) (k : Kind) (obj : ObjectMeta) : Prop :=
  exists f, (k, f) ∈ builder_Watches pool_builder /\
  forall tr reqs, exec (f obj) tr reqs ->
    exists listed, tr = [ev (ListPools ns) listed] /\
      forall items, listed = inr items -> reqs = (fun p => meta_key (pool_meta p)) <$> items.

Lemma wakes_by policy k f obj ns refers :
  (k, f) ∈ builder_Watches policy_builder ->
  f obj = (policies <- trigger (ListPolicies ns) ;;
           match policies with
           | inl _ => Ret []
           | inr items => Ret (policy_requests (fun p => refers (policy_spec p)) items)
           end)%prog ->
  (ns = None \/ ns = Some (Namespace (policy_meta policy))) -> refers (policy_spec policy) = true ->
  wakes_policy policy k obj.
Proof.
  intros Hin Hf Hns Hr. exists f. split; [done|]. rewrite Hf. apply wp_exec.
  intros [e|items]; cbn; eexists ns, _; (split; [reflexivity|]); (split; [done|]); [done|].
  intros ? p [= <-] Hp Hkey Hspec. rewrite <- Hspec in Hr.
  apply (policy_requests_spec _ (fun p => refers (policy_spec p) = true)); [done|eauto].
Qed.

Lemma pool_wakes policy obj :
  Namespace obj = Namespace (policy_meta policy) ->
  TrimSpace (UpstreamPoolRef (policy_spec policy)) = Name obj -> wakes_policy policy KindPool obj.
Proof.
  intros Hns Hname.
  apply (wakes_by _ _ mapUpstreamPoolToPolicies _ (Some (Namespace obj))
    (fun spec => String.eqb (TrimSpace (UpstreamPoolRef spec)) (Name obj)));
    [by left|done|right; by rewrite Hns|by apply String.eqb_eq].
Qed.

Lemma profile_wakes policy obj :
  Namespace obj = Namespace (policy_meta policy) ->
  TrimSpace (CacheProfileRef (policy_spec policy)) = Name obj -> wakes_policy policy KindProfile obj.
Proof.
  intros Hns Hname.
  apply (wakes_by _ _ mapCacheProfileToPolicies _ (Some (Namespace obj))
    (fun spec => String.eqb (TrimSpace (CacheProfileRef spec)) (Name obj)));
    [right; by left|done|right; by rewrite Hns|by apply String.eqb_eq].
Qed.

Lemma namespace_wakes policy obj :
  Name obj ∈ selected_namespaces policy -> wakes_policy policy KindNamespace obj.
Proof.
  intros Hname. apply (wakes_by _ _ mapNamespaceToPolicies _ None
    (fun spec => existsb (fun namespace => String.eqb (TrimSpace namespace) (Name obj))
                   (SelectorNamespaces spec)));
    [right; right; by left|done|by left|].
  unfold selected_namespaces in Hname. apply elem_of_list_to_set, list_elem_of_fmap in Hname as (n & Hn & Hin).
  apply existsb_exists. exists n. rewrite <- list_elem_of_In, Hn. by rewrite String.eqb_refl.
Qed.

(** All the calls of a program satisfy [P]. *)
Abbreviation only P p := (wp p (fun tr _ => Forall (fun e : event => P (projT1 e)) tr)).

Definition policy_call_ok (policy : ExternalDNSPolicy) (c : call) : Prop :=
  forall k obj, touches c k obj -> wakes_policy policy k obj.

Lemma only_bind {A B} (P : call -> Prop) (p : prog A) (f : A -> prog B) :
  only P p -> (forall a, only P (f a)) -> only P (bind p f).
Proof.
  intros Hp Hf. eapply wp_seq; [apply Hp|]. cbn. intros tr a Htr. eapply wp_mono; [|apply Hf].
  intros tr' b ?. by apply Forall_app.
Qed.

Lemma only_trigger (P : call -> Prop) c : P c -> only P (trigger c).
Proof. by repeat constructor. Qed.

Lemma only_for_each {A E} (P : call -> Prop) (f : A -> prog (option E)) l :
  (forall x, only P (f x)) -> only P (for_each f l).
Proof.
  intros Hf. eapply wp_mono; [|apply wp_for_each; intros x _; apply Hf]. cbn. intros tr r.
  apply each_runs_Forall. by intros.
Qed.

Lemma only_for_fold {A S E} (P : call -> Prop) (f : A -> S -> prog (E + S)) l s :
  (forall x s, x ∈ l -> only P (f x s)) -> only P (for_fold f l s).
Proof.
  intros Hf. eapply wp_mono; [|apply wp_for_fold; intros x s0 Hx; by apply Hf]. cbn. intros tr r.
  apply fold_runs_Forall. by intros.
Qed.

Lemma wp_validate_touches policy :
  only (policy_call_ok policy) (validateReferences (Some policy)).
Proof.
  unfold validateReferences. destruct (length _ =? 0)%nat; [constructor|].
  destruct (validate_selector _) as [e|seen]; [constructor|].
  destruct (validatePolicyRefName (UpstreamPoolRef (policy_spec policy)) _ true) as [e|v] eqn:Hup;
    [constructor|].
  apply validatePolicyRefName_ok in Hup as [Hup ->].
  assert (policy_call_ok policy (GetPool {| key_Namespace := Namespace (policy_meta policy);
                                            key_Name := UpstreamPoolRef (policy_spec policy) |})) as Hpool.
  { intros k obj [-> [= ? ?]]. apply pool_wakes; [done|].
    by destruct Hup as [[_ ?]|(_ & -> & _)]. }
  apply only_bind; [by apply only_trigger|]. intros [e|pool]; [by destruct (IsNotFound e); constructor|].
  destruct (validatePolicyRefName (CacheProfileRef (policy_spec policy)) _ false) as [e|v] eqn:Hc;
    [constructor|].
  apply validatePolicyRefName_ok in Hc as [Hc ->]. case_bool_decide as Hempty; [constructor|].
  assert (policy_call_ok policy (GetProfile {| key_Namespace := Namespace (policy_meta policy);
                                               key_Name := CacheProfileRef (policy_spec policy) |})) as Hprofile.
  { intros k obj [-> [= ? ?]]. apply profile_wakes; [done|].
    by destruct Hc as [[? _]|(_ & -> & _)]. }
  apply only_bind; [by apply only_trigger|]. intros [e|profile]; [by destruct (IsNotFound e); constructor|constructor].
Qed.

(** A call that reads no object by its name. *)
Ltac quiet := repeat constructor; by intros ? ? [].

Lemma wp_update_touches policy ns (p : ExternalDNSPolicy) :
  only (policy_call_ok policy) (updateNamespacePolicyAnnotations (Some ns) (Some p)).
Proof.
  eapply wp_mono; [|apply wp_update].
  intros tr err [(_ & -> & _)|[(_ & -> & _)|(_ & obj & r & -> & _)]]; [constructor..|quiet].
Qed.

Lemma wp_remove_touches policy ns :
  only (policy_call_ok policy) (removeNamespacePolicyAnnotations (Some ns)).
Proof.
  eapply wp_mono; [|apply wp_remove].
  intros tr err [(-> & _)|(obj & r & -> & _)]; [constructor|quiet].
Qed.

Lemma wp_enforce_touches policy : only (policy_call_ok policy) (enforcePolicy policy).
Proof.
  unfold enforcePolicy. apply only_bind.
  { apply only_bind; [apply only_trigger; quiet|]. intros [e|items]; constructor. }
  intros [e|managed]; [constructor|]. apply only_bind.
  { apply only_for_each. intros ns. case_bool_decide; [constructor|apply wp_remove_touches]. }
  intros [e|]; [constructor|]. apply only_bind; [apply only_trigger; quiet|].
  intros [order Horder]. apply only_for_fold. intros name n Hin. apply only_bind.
  { apply only_trigger. intros k obj [-> <-]. apply namespace_wakes. cbn in Hin.
    by rewrite Horder, elem_of_elements in Hin. }
  intros [e|ns]; [destruct (IsNotFound e); constructor|]. apply only_bind; [apply wp_update_touches|].
  intros [e|]; constructor.
Qed.

Lemma wp_live_touches Recorder policy :
  only (policy_call_ok policy) (reconcileLive Recorder policy).
Proof.
  assert (forall t r m, only (policy_call_ok policy) (recordEvent Recorder policy t r m)) as Hevent
    by (intros; unfold recordEvent; destruct Recorder; [quiet|constructor]).
  assert (forall st r m n, only (policy_call_ok policy) (setValidatedCondition policy st r m n)) as Hset.
  { intros. apply only_bind; [apply only_trigger; quiet|]. intros []; constructor. }
  apply only_bind; [apply wp_validate_touches|]. intros [e|].
  - apply only_bind; [apply Hevent|]. intros _. apply only_bind; [apply Hset|]. constructor.
  - apply only_bind; [apply wp_enforce_touches|]. intros [e|n]; (apply only_bind; [apply Hevent|]; intros _;
      apply only_bind; [apply Hset|]; intros []; try constructor).
    destruct (errors_Is _ _); constructor.
Qed.

(** ** Pools *)

Context `{SliceSorter} `{GaugeVec} `{EngineLib}.

Lemma profile_wakes_pools ns obj : Namespace obj = ns -> wakes_pools ns KindProfile obj.
Proof.
  intros <-. exists mapCacheProfileToPools. split; [by left|]. apply wp_exec.
  intros [e|items]; cbn; eexists; (split; [reflexivity|]); [done|]. by intros ? [= <-].
Qed.

(** What an object read for the namespace is: the ConfigMap, or one whose events
    request the namespace's pools. *)
Definition pool_event_ok (ns : string) (e : event) : Prop :=
  forall k obj, touches (projT1 e) k obj -> k = KindConfigMap \/ wakes_pools ns k obj.

(** Events that read nothing by name, or the ConfigMap. *)
Ltac pool_quiet := cbn [clock]; repeat (apply Forall_cons; split); try apply Forall_nil_2; first [by intros ? ? [] | by intros ? ? [-> _]; left].

Lemma clock_touches ns b t : Forall (pool_event_ok ns) (clock b t).
Proof. destruct b; pool_quiet. Qed.

Lemma upsert_touches ns ns' json c tr c' err :
  upsert_outcome ns' json c tr c' err -> Forall (pool_event_ok ns) tr.
Proof.
  destruct 1; rewrite ?Forall_app; split_and?; try apply clock_touches; pool_quiet.
Qed.

Lemma profile_event_ok ns got : pool_event_ok ns (ev (GetProfile (profile_key ns)) got).
Proof. intros k obj [-> [= ? ?]]. right. by apply profile_wakes_pools. Qed.

(** The events of an outcome, one by one. *)
Ltac pool_events :=
  rewrite ?Forall_cons, ?Forall_app, ?Forall_cons; split_and?;
  repeat first [by constructor | by apply profile_event_ok | by eapply upsert_touches
               | by intros ? ? [] | by intros ? ? [-> _]; left].

Lemma pool_outcome_touches gen rend pool s tr s' res err :
  pool_outcome gen rend pool s tr s' res err -> Forall (pool_event_ok (Namespace (pool_meta pool))) tr.
Proof. destruct 1; pool_events. Qed.

Lemma deletion_outcome_touches gen rend ns s tr s' err :
  deletion_outcome gen rend ns s tr s' err -> Forall (pool_event_ok ns) tr.
Proof.
  destruct 1 as [|? ? ? ? ? Hr| |? ? ? ? ? ? ? ? ? ? ? Hr]; [pool_events| | pool_events|].
  - destruct Hr; pool_events.
  - destruct Hr; pool_events.
Qed.

(** The object a reconciliation is about, as it read it: the answer of its Get,
    or of the patch that added the stamp or the finalizer. *)
Definition pool_read (req : NamespacedName) (tr : trace) (pool : DNSUpstreamPool) : Prop :=
  ev (GetPool req) (inr pool) ∈ tr \/ exists obj base, ev (PatchPool obj base) (inr pool) ∈ tr.
Definition policy_read (req : NamespacedName) (tr : trace) (policy : ExternalDNSPolicy) : Prop :=
  ev (GetPolicy req) (inr policy) ∈ tr \/ exists obj base, ev (PatchPolicy obj base) (inr policy) ∈ tr.

(** The namespace whose pools a reconciliation is about. *)
Definition pool_scope (req : NamespacedName) (tr : trace) (ns : string) : Prop :=
  ns = key_Namespace req \/ exists pool, pool_read req tr pool /\ ns = Namespace (pool_meta pool).

Lemma reconcile_outcome_touches gen rend req s tr s' res err :
  reconcile_outcome gen rend req s tr s' res err ->
  forall e k obj, e ∈ tr -> touches (projT1 e) k obj ->
    (k = KindPool /\ meta_key obj = req) \/ k = KindConfigMap \/
    exists ns, pool_scope req tr ns /\ wakes_pools ns k obj.
Proof.
  assert (forall ns tr1 tr2 e k obj, pool_scope req tr2 ns -> Forall (pool_event_ok ns) tr1 ->
    e ∈ tr1 -> touches (projT1 e) k obj ->
    k = KindConfigMap \/ exists ns, pool_scope req tr2 ns /\ wakes_pools ns k obj) as Hok.
  { intros ns tr1 tr2 e k obj Hscope HF He Ht. rewrite Forall_forall in HF.
    destruct (HF e He k obj Ht); eauto. }
  intros Hout e k obj He Ht.
  destruct Hout as [e0 _|e0 tr s' err _ Hd|pool tr e0 Hst|pool stamped tr tr' s' res err Hst Hp];
    apply elem_of_cons in He as [->|He]; try (left; exact Ht).
  - by apply not_elem_of_nil in He.
  - right. eapply Hok; [by left|by eapply deletion_outcome_touches|done..].
  - destruct Hst; [by apply not_elem_of_nil in He|]. apply list_elem_of_singleton in He as ->. done.
  - apply elem_of_app in He as [He|He].
    { destruct Hst; [by apply not_elem_of_nil in He|]. apply list_elem_of_singleton in He as ->. done. }
    right. eapply Hok; [|by eapply pool_outcome_touches|done..].
    right. exists stamped. split; [|done]. inversion Hst; subst; [by left; left|].
    right. do 2 eexists. right. apply elem_of_app. left. by left.
Qed.

Lemma wp_pool_touches gen rend Recorder req s :
  wp (PoolController.Reconcile (Some gen) (Some rend) Recorder req s) (fun tr _ =>
    forall e k obj, e ∈ tr -> touches (projT1 e) k obj ->
      (k = KindPool /\ meta_key obj = req) \/ k = KindConfigMap \/
      exists ns, pool_scope req tr ns /\ wakes_pools ns k obj).
Proof.
  apply wp_exec. intros tr [s' [res err]] Hx%reconcile_refines e k obj He Ht.
  destruct (reconcile_outcome_touches _ _ _ _ _ _ _ _ Hx e k obj) as [?|[?|(ns & Hs & ?)]]; auto.
  { apply elem_of_loud. split; [|done]. by destruct e as [[] ?]. }
  right. right. exists ns. split; [|done]. destruct Hs as [?|(pool & Hread & ?)]; [by left|].
  right. exists pool. split; [|done].
  destruct Hread as [[_ ?]%elem_of_loud|(o & b & [_ ?]%elem_of_loud)]; [by left|right; eauto].
Qed.

Lemma wp_clear_touches policy p : only (policy_call_ok policy) (clearPolicyEnforcement p).
Proof.
  unfold clearPolicyEnforcement. apply only_bind.
  { apply only_bind; [apply only_trigger; quiet|]. intros [e|items]; constructor. }
  intros [e|managed]; [constructor|]. apply only_for_each. intros ns. apply wp_remove_touches.
Qed.

Lemma wp_policy_touches Recorder req :
  wp (PolicyController.Reconcile Recorder req) (fun tr _ =>
    forall e k obj, e ∈ tr -> touches (projT1 e) k obj ->
      (k = KindPolicy /\ meta_key obj = req) \/
      exists policy, policy_read req tr policy /\ wakes_policy policy k obj).
Proof.
  intros [e0|policy]; cbn [bind].
  { assert (forall e k obj, e ∈ [ev (GetPolicy req) (inl e0)] -> touches (projT1 e) k obj ->
      (k = KindPolicy /\ meta_key obj = req) \/
      exists policy, policy_read req [ev (GetPolicy req) (inl e0)] policy /\ wakes_policy policy k obj) as Hone
      by (intros e k obj ->%list_elem_of_singleton Ht; left; exact Ht).
    destruct (IsNotFound e0); exact Hone. }
  assert (forall tr p, policy_read req (ev (GetPolicy req) (inr policy) :: tr) p ->
    Forall (fun e => policy_call_ok p (projT1 e)) tr ->
    forall e k obj, e ∈ ev (GetPolicy req) (inr policy) :: tr -> touches (projT1 e) k obj ->
      (k = KindPolicy /\ meta_key obj = req) \/
      exists p, policy_read req (ev (GetPolicy req) (inr policy) :: tr) p /\ wakes_policy p k obj) as Hok.
  { intros tr p Hread HF e k obj [->|He]%elem_of_cons Ht; [left; exact Ht|]. right. exists p. split; [done|].
    rewrite Forall_forall in HF. by apply (HF e He). }
  destruct (deleting policy).
  - eapply wp_mono; [intros tr r HF; apply (Hok tr policy); [by left; left|exact HF]|].
    unfold reconcileDeletion. destruct (negb _); [constructor|].
    apply only_bind; [apply wp_clear_touches|]. intros [e|]; [constructor|].
    apply only_bind; [apply only_trigger; quiet|]. intros []; constructor.
  - unfold ensureFinalizer. destruct (has_finalizer policy); cbn [negb].
    + eapply wp_mono; [intros tr r HF; apply (Hok tr policy); [by left; left|exact HF]|]. apply wp_live_touches.
    + intros [e|live]; cbn [bind wrap_err].
      * apply wp_ret, (Hok [_] policy); [by left; left|]. quiet.
      * eapply wp_mono; [|apply (wp_live_touches Recorder live)]. intros tr r HF.
        apply (Hok (_ :: tr) live); [|constructor; [quiet|exact HF]].
        right. do 2 eexists. right. by left.
Qed.

Definition reads_nothing (c : call) : Prop := forall k obj, touches c k obj -> False.

Lemma wp_profile_touches Recorder req :
  wp (CacheProfile.Reconcile Recorder req) (fun tr _ =>
    forall e k obj, e ∈ tr -> touches (projT1 e) k obj -> k = KindProfile /\ meta_key obj = req).
Proof.
  eapply wp_mono with (fun tr _ => exists got tr', tr = ev (GetProfile req) got :: tr' /\
    Forall (fun e : event => reads_nothing (projT1 e)) tr').
  { intros tr _ (got & tr' & -> & HF) e k obj [->|He]%elem_of_cons Ht; [exact Ht|].
    rewrite Forall_forall in HF. by destruct (HF e He k obj Ht). }
  intros got. eapply (wp_mono _ (fun tr _ => Forall (fun e : event => reads_nothing (projT1 e)) tr));
    [by eauto|]. destruct got as [e|profile]; cbn [bind]; [by destruct (IsNotFound e); constructor|].
  assert (forall t r m, only reads_nothing
    (CacheProfile.recordEvent Recorder profile t r m)) as Hevent
    by (intros; unfold CacheProfile.recordEvent; destruct Recorder; [quiet|constructor]).
  assert (forall st r m, only reads_nothing
    (setActiveCondition profile st r m)) as Hset.
  { intros. apply only_bind; [apply only_trigger; quiet|]. intros []; constructor. }
  destruct (validateDNSCacheProfile (Some profile));
    (apply only_bind; [apply Hevent|]; intros _; apply only_bind; [apply Hset|]; constructor).
Qed.
End Wake.

(** C23. No wake-up is lost, save for the ConfigMap. Whatever object a
    reconciliation reads by name, it is the object it is requested for; or it is
    the agent's ConfigMap, read by the pool controller only, whose events reach
    no controller; or an event on it makes the controller list the objects that
    depend on it and request them if they are listed: for a policy the policy
    as it was read (listed with the same spec), for a pool, existing or deleted,
    all the pools of its namespace. *)
Theorem no_missed_wakeup `{GoRuntime} `{ApiMachinery} `{SliceSorter} `{GaugeVec} `{EngineLib}
    gen rend Recorder req s :
  wp (PolicyController.Reconcile Recorder req) (fun tr _ =>
    forall e k obj, e ∈ tr -> touches (projT1 e) k obj ->
      (k = builder_For policy_builder /\ meta_key obj = req) \/
      exists policy, policy_read req tr policy /\ wakes_policy policy k obj) /\
  wp (PoolController.Reconcile (Some gen) (Some rend) Recorder req s) (fun tr _ =>
    forall e k obj, e ∈ tr -> touches (projT1 e) k obj ->
      (k = builder_For pool_builder /\ meta_key obj = req) \/ k = KindConfigMap \/
      exists ns, pool_scope req tr ns /\ wakes_pools ns k obj) /\
  wp (CacheProfile.Reconcile Recorder req) (fun tr _ =>
    forall e k obj, e ∈ tr -> touches (projT1 e) k obj ->
      k = builder_For profile_builder /\ meta_key obj = req) /\
  Forall (fun b => KindConfigMap ∉ watched b) [policy_builder; pool_builder; profile_builder].
Proof.
  split_and!; [apply wp_policy_touches|apply wp_pool_touches|apply wp_profile_touches|].
  repeat constructor; apply (bool_decide_unpack _); vm_compute; constructor.
Qed.
