(* ===== verification/Scenarios.v ===== *)
(** Concrete clusters and reconciliations on them: the witnesses of the
    theorems apply them here. *)
From S2P Require Import Prelude GoStrings GoErrors Sorting Types Instances Kube TestCluster.
From S2P Require Import Generator Renderers PoolValidation PoolSelection CircuitBreaker Metrics.
From S2P Require Import PoolController PoolSpec PoolProperties ApiServer PoolConvergence.
From S2P Require PolicyController PolicySpec.

#[export] Existing Instance test_runtime.
#[export] Existing Instance test_machinery.
#[export] Existing Instance test_engine.
#[export] Existing Instance insertion_sorter.

Definition dns_key (name : string) : NamespacedName := {| key_Namespace := "dns"; key_Name := name |}.

Definition plain_pool (name : string) (ts : time) (address : string) : DNSUpstreamPool :=
  sample_pool (sample_meta name "10" ts None) [sample_upstream address "" 0 0].

(** An older and a newer pool of one namespace. *)
Definition old_pool : DNSUpstreamPool := plain_pool "old" 100 "1.1.1.1".
Definition new_pool : DNSUpstreamPool := plain_pool "new" 200 "9.9.9.9".

Definition with_objects (pools : list DNSUpstreamPool) (read_only : bool) : Cluster :=
  {| cl_pools := pools; cl_profiles := [sample_profile]; cl_policies := []; cl_namespaces := [];
     cl_configs := []; cl_clock := 1000 * Second; cl_env := []; cl_read_only := read_only |}.

Definition two_pools : Cluster := with_objects [new_pool; old_pool] false.

(** The reconciler as main.go makes it, for Unbound. *)
Definition reconcile_pool (req : NamespacedName) : state PoolReconciler (ReconcileResult * option error) :=
  Reconcile (Some DefaultConfigGenerator) (Some Unbound.UnboundRenderer) true req.

Definition pool_trace (w : Cluster) (req : NamespacedName) (s : PoolReconciler) : trace :=
  trace_on w (reconcile_pool req s).
Definition pool_state (w : Cluster) (req : NamespacedName) (s : PoolReconciler) : PoolReconciler :=
  (result_on w (reconcile_pool req s)).1.
Definition pool_result (w : Cluster) (req : NamespacedName) (s : PoolReconciler)
    : ReconcileResult * option error :=
  (result_on w (reconcile_pool req s)).2.

Lemma pool_exec w req s :
  exec (reconcile_pool req s) (pool_trace w req s)
    (pool_state w req s, ((pool_result w req s).1, (pool_result w req s).2)).
Proof.
  pose proof (exec_on w (reconcile_pool req s)) as Hx. unfold pool_trace, pool_state, pool_result.
  by destruct (result_on w (reconcile_pool req s)) as [s' [res err]].
Qed.

(** A pool whose address is upper case, which the validation refuses. *)
Definition invalid_pool : DNSUpstreamPool := plain_pool "left" 300 "DNS.Quad9.net".

(** Three pools of one second, of which the middle one is not stamped yet. *)
Definition racing_pool (name : string) (stamp : option string) : DNSUpstreamPool :=
  sample_pool
    (sample_meta name "10" 100 ((fun v => {[ "dns.astradns.com/initial-resource-version" := v ]}) <$> stamp))
    [sample_upstream "1.1.1.1" "" 0 0].
Definition race_c : DNSUpstreamPool := racing_pool "c" (Some "1").
Definition race_b : DNSUpstreamPool := racing_pool "b" None.
Definition race_a : DNSUpstreamPool := racing_pool "a" (Some "2").

(** ** Policies *)

Definition sample_namespace (name : string) (annotations : option (gmap string string)) : CoreNamespace :=
  {| namespace_meta :=
       {| Name := name; Namespace := ""; UID := "ns-" +:+ name; ResourceVersion := "5"; Generation := 1;
          CreationTimestamp := 1; DeletionTimestamp := None; Annotations := annotations;
          Finalizers := [] |} |}.

Definition sample_policy (deletion : option time) (finalizers : list string) : ExternalDNSPolicy :=
  {| policy_meta :=
       {| Name := "pol"; Namespace := "dns"; UID := "uid-pol"; ResourceVersion := "8"; Generation := 2;
          CreationTimestamp := 50; DeletionTimestamp := deletion; Annotations := None;
          Finalizers := finalizers |};
     policy_spec := {| SelectorNamespaces := ["team-a"; "team-b"]; UpstreamPoolRef := "old";
                       CacheProfileRef := "default" |};
     policy_status := empty_status; AppliedNodes := 0 |}.

Definition with_policy (p : ExternalDNSPolicy) : Cluster :=
  {| cl_pools := [old_pool]; cl_profiles := [sample_profile]; cl_policies := [p];
     cl_namespaces :=
       [sample_namespace "team-a" None;
        sample_namespace "team-c" (Some {[ "dns.astradns.com/external-policy-owner-uid" := "uid-pol";
                                           "keep" := "me" ]})];
     cl_configs := []; cl_clock := 0; cl_env := []; cl_read_only := false |}.

Definition live_policy : ExternalDNSPolicy := sample_policy None [].
Definition deleted_policy : ExternalDNSPolicy :=
  sample_policy (Some 60) ["dns.astradns.com/external-policy-finalizer"].

Definition policy_trace (w : Cluster) : trace :=
  trace_on w (PolicyController.Reconcile true (dns_key "pol")).
Definition policy_result (w : Cluster) : ReconcileResult * option error :=
  result_on w (PolicyController.Reconcile true (dns_key "pol")).

Lemma policy_exec w :
  exec (PolicyController.Reconcile true (dns_key "pol")) (policy_trace w)
    ((policy_result w).1, (policy_result w).2).
Proof.
  pose proof (exec_on w (PolicyController.Reconcile true (dns_key "pol"))) as Hx.
  unfold policy_trace, policy_result.
  by destruct (result_on w (PolicyController.Reconcile true (dns_key "pol"))).
Qed.

(** ** A working API server *)

Definition key_pools (l : list DNSUpstreamPool) : gmap NamespacedName DNSUpstreamPool :=
  list_to_map ((fun p => (meta_key (pool_meta p), p)) <$> l).

Definition server_of (v : View) : Server := {| srv_view := v; srv_revision := 100 |}.

Definition pools_view (l : list DNSUpstreamPool) : View :=
  {| v_pools := key_pools l; v_profiles := {[ dns_key "default" := sample_profile ]}; v_policies := ∅;
     v_namespaces := ∅; v_configs := ∅; v_env := fun _ => "" |}.

(** Two pools of one second; the one with the lesser name has the greater
    version. *)
Definition twin_pool (name rv : string) : DNSUpstreamPool :=
  sample_pool (sample_meta name rv 100 None) [sample_upstream "1.1.1.1" "" 0 0].

Definition twin_pools : list DNSUpstreamPool := [twin_pool "a" "9"; twin_pool "b" "5"].
Definition twins : View := pools_view twin_pools.

Definition ready_status (w : Server) (name : string) : option (ConditionStatus * string) :=
  p ← v_pools (srv_view w) !! dns_key name;
  (fun c => (cond_Status c, cond_Reason c)) <$> find_condition "Ready" (Conditions (pool_status p)).

(** One reconciliation of each pool is not enough before the pools are
    stamped: each of the twins can be superseded by the other, and nothing is
    published, until one of them is reconciled again. *)
Lemma one_pass_strands :
  let after reqs := (reconcile_all Unbound.UnboundRenderer true reqs (server_of twins) new_reconciler).1 in
  let w1 := after [dns_key "b"; dns_key "a"] in
  let w2 := after [dns_key "b"; dns_key "a"; dns_key "b"] in
  ready_status w1 "a" = Some (ConditionFalse, "Superseded") /\
  ready_status w1 "b" = Some (ConditionFalse, "Superseded") /\
  v_configs (srv_view w1) = ∅ /\
  ready_status w2 "b" = Some (ConditionTrue, "Ready") /\
  published_document "dns" (srv_view w2) = Some "1.1.1.1".
Proof. vm_compute. by split_and!. Qed.

(** ** A lagging cache *)

Definition rival_policy (name : string) : ExternalDNSPolicy :=
  {| policy_meta :=
       {| Name := name; Namespace := "dns"; UID := "uid-" +:+ name; ResourceVersion := "8"; Generation := 2;
          CreationTimestamp := 50; DeletionTimestamp := None; Annotations := None;
          Finalizers := ["dns.astradns.com/external-policy-finalizer"] |};
     policy_spec := {| SelectorNamespaces := ["shared"]; UpstreamPoolRef := "old"; CacheProfileRef := "" |};
     policy_status := empty_status; AppliedNodes := 0 |}.

Definition rivals : View :=
  {| v_pools := key_pools [old_pool]; v_profiles := ∅;
     v_policies := {[ dns_key "p" := rival_policy "p"; dns_key "q" := rival_policy "q" ]};
     v_namespaces := {[ "shared" := sample_namespace "shared" None ]};
     v_configs := ∅; v_env := fun _ => "" |}.

(** Two reconciliations one after the other, the second before the cache has
    seen the first: both policies are reported as enforced on the namespace,
    and it belongs to the second. *)
Lemma both_enforced :
  let w0 := {| cache := rivals; live := server_of rivals |} in
  let w1 := (run cached_serve (PolicyController.Reconcile true (dns_key "p")) w0).1 in
  let w2 := (run cached_serve (PolicyController.Reconcile true (dns_key "q")) w1).1 in
  let v := srv_view (live w2) in
  let validated name :=
    p ← v_policies v !! dns_key name;
    (fun c => (cond_Status c, AppliedNodes p)) <$> find_condition "Validated" (Conditions (policy_status p)) in
  validated "p" = Some (ConditionTrue, 1) /\ validated "q" = Some (ConditionTrue, 1) /\
  PolicySpec.owner <$> v_namespaces v !! "shared" = Some "uid-q".
Proof. vm_compute. by split_and!. Qed.

(** The deletion of a policy, seen by the cache before the claim it made last:
    the reconciliation finds nothing to clear and lets the policy go, and the
    claim stays, of a policy that is gone. *)
Definition deleted_rival : ExternalDNSPolicy :=
  {| policy_meta :=
       {| Name := "p"; Namespace := "dns"; UID := "uid-p"; ResourceVersion := "9"; Generation := 3;
          CreationTimestamp := 50; DeletionTimestamp := Some 60; Annotations := None;
          Finalizers := ["dns.astradns.com/external-policy-finalizer"] |};
     policy_spec := policy_spec (rival_policy "p"); policy_status := empty_status; AppliedNodes := 1 |}.

Definition deletion_view (annotations : option (gmap string string)) : View :=
  {| v_pools := key_pools [old_pool]; v_profiles := ∅; v_policies := {[ dns_key "p" := deleted_rival ]};
     v_namespaces := {[ "shared" := sample_namespace "shared" annotations ]};
     v_configs := ∅; v_env := fun _ => "" |}.

Lemma lagging_cache_orphans :
  let claim := Some {[ "dns.astradns.com/external-policy-owner-uid" := "uid-p" ]} in
  let w0 := {| cache := deletion_view None; live := server_of (deletion_view claim) |} in
  let '(w1, (_, err)) := run cached_serve (PolicyController.Reconcile true (dns_key "p")) w0 in
  let v := srv_view (live w1) in
  err = None /\ v_policies v = ∅ /\ PolicySpec.owner <$> v_namespaces v !! "shared" = Some "uid-p".
Proof. vm_compute. by split_and!. Qed.
