(* ===== verification/Witnesses.v ===== *)
(** The theorems at concrete inputs: for each theorem with hypotheses, a
    closed instance whose hypotheses are shown to hold by evaluation, next to
    the value that makes it interesting. *)
From S2P Require Import Prelude GoStrings GoErrors Netip Sorting Types Flags Instances Generator Renderers.
From S2P Require Import Kube Manager TestCluster ApiServer PoolValidation CacheProfile PoolSelection CircuitBreaker.
From S2P Require Import Metrics PoolController PoolSpec PoolProperties PoolHistory PoolConvergence PoolDeletion.
From S2P Require Import PolicyController PolicySpec.
From S2P Require Import RelyGuarantee PolicyProperties PolicyConvergence PolicyConcurrency Webhook Operator Startup Scenarios.

(** The statement of a theorem's instance. *)
Abbreviation instance_of t := (ltac:(let T := type of t in exact T)) (only parsing).

(** ** Pool reconciler *)


(** The same pools, listed the other way round. *)
Definition two_pools_reversed : Cluster := with_objects [old_pool; new_pool] false.

Lemma has_write tr : length (omap as_config_write tr) = 1%nat -> omap as_config_write tr <> [].
Proof. by intros Hl Hn; rewrite Hn in Hl. Qed.

Ltac by_computation := vm_compute; repeat constructor.

Lemma listed_ready : selection_ready [new_pool; stamp old_pool].
Proof.
  intros p q Hp Hq.
  apply elem_of_cons in Hp as [->|Hp%list_elem_of_singleton];
    apply elem_of_cons in Hq as [->|Hq%list_elem_of_singleton]; subst; split; vm_compute; congruence.
Qed.

Lemma one_publisher_witness :
  [new_pool; stamp old_pool] <> [stamp old_pool; new_pool] /\ "old" = "old".
Proof.
  split; [by intros ?|].
  refine (one_publisher _ _ _ _ "dns" "old" "old" new_reconciler _ _ new_reconciler _ _ old_pool old_pool
    [new_pool; stamp old_pool] [stamp old_pool; new_pool]
    (pool_exec two_pools (dns_key "old") new_reconciler)
    (pool_exec two_pools_reversed (dns_key "old") new_reconciler)
    _ _ _ _ _ _ _ _ _ _ _ _).
  - apply names_kept_read; by_computation.
  - apply names_kept_read; by_computation.
  - vm_compute. reflexivity.
  - vm_compute. reflexivity.
  - vm_compute. reflexivity.
  - vm_compute. reflexivity.
  - exact (Permutation_swap _ _ _).
  - cbn. lia.
  - exact listed_ready.
  - by apply (bool_decide_unpack _); vm_compute.
  - apply has_write. by vm_compute.
  - apply has_write. by vm_compute.
Defined.

(** The report on a superseded pool. *)
Lemma ready_report_witness :
  omap as_config_write (pool_trace two_pools (dns_key "new") new_reconciler) = [] /\
  instance_of (ready_report _ _ _ _ _ _ _ _ _ new_pool
                 (pool_exec two_pools (dns_key "new") new_reconciler)
                 (ltac:(vm_compute; reflexivity) :
                    reads_pool (dns_key "new") (pool_trace two_pools (dns_key "new") new_reconciler) new_pool)).
Proof.
  split; [by vm_compute|].
  refine (ready_report _ _ _ _ _ _ _ _ _ new_pool (pool_exec two_pools (dns_key "new") new_reconciler) _).
  vm_compute. reflexivity.
Defined.

(** A cluster that refuses the ConfigMap. *)
Definition read_only_cluster : Cluster := with_objects [old_pool] true.

(** Three reconciliations whose write is refused, one that finds the circuit
    open, and one on a cluster that accepts the write, later. *)
Definition failing (s : PoolReconciler) : trace := pool_trace read_only_cluster (dns_key "old") s.
Definition failed (s : PoolReconciler) : PoolReconciler := pool_state read_only_cluster (dns_key "old") s.
Definition failed_thrice : PoolReconciler := failed (failed (failed new_reconciler)).
Definition later_cluster : Cluster := with_clock (2000 * Second) (with_objects [old_pool] false).
Definition published_later : trace := pool_trace later_cluster (dns_key "old") (failed failed_thrice).

Definition failing_runs : list trace :=
  [failing new_reconciler; failing (failed new_reconciler); failing (failed (failed new_reconciler))].

Abbreviation history_of := (reconciliations DefaultConfigGenerator Unbound.UnboundRenderer true new_reconciler).

Lemma failing_runs_run : history_of failing_runs failed_thrice.
Proof.
  refine (next_reconciliation _ _ _ _ [_; _] _ _ _ _ _ _ _ (pool_exec _ _ _)).
  refine (next_reconciliation _ _ _ _ [_] _ _ _ _ _ _ _ (pool_exec _ _ _)).
  exact (next_reconciliation _ _ _ _ [] _ _ _ _ _ _ (no_reconciliation _ _ _ _) (pool_exec _ _ _)).
Qed.

Lemma breaker_over_time_witness :
  writes "dns" failing_runs = [Some forbidden; Some forbidden; Some forbidden] /\
  instance_of (breaker_over_time _ _ _ _ _ "dns" failing_runs_run).
Proof.
  split; [by vm_compute|]. exact (breaker_over_time _ _ _ _ _ "dns" failing_runs_run).
Defined.

Lemma suspended_run :
  history_of ([failing new_reconciler; failing (failed new_reconciler)] ++
    failing (failed (failed new_reconciler)) :: [failing failed_thrice] ++ [published_later])
    (pool_state later_cluster (dns_key "old") (failed failed_thrice)).
Proof.
  refine (next_reconciliation _ _ _ _ [_; _; _; _] _ _ _ _ _ _ _ (pool_exec _ _ _)).
  exact (next_reconciliation _ _ _ _ [_; _; _] _ _ _ _ _ _ failing_runs_run (pool_exec _ _ _)).
Qed.

Lemma writes_suspended_witness :
  attempts "dns" published_later = [None] /\
  exists t now, ev Now t ∈ failing (failed (failed new_reconciler)) /\ ev Now now ∈ published_later /\
    t + 30 * Second < now.
Proof.
  split; [by vm_compute|].
  refine (writes_suspended _ _ _ _ _ _ _ _ "dns" suspended_run _ _ _ _ _); by vm_compute.
Defined.

Lemma gauge_shows_selection_witness :
  instance_of (gauge_shows_selection (H0 := map_gauge_laws)
    [Record_selection "dns" "a" " "; Record_selection "dns" "b" "oldest_pool"; Clear "other"]) /\
  gauge_value (activePoolSelectionGauge (foldl metric_step new_metric
    [Record_selection "dns" "a" " "; Record_selection "dns" "b" "oldest_pool"; Clear "other"]))
    ["dns"; "a"; "single_pool"] = None.
Proof.
  split; [|by vm_compute].
  exact (gauge_shows_selection (H0 := map_gauge_laws)
    [Record_selection "dns" "a" " "; Record_selection "dns" "b" "oldest_pool"; Clear "other"]).
Defined.

Definition written (tr : trace) : ConfigMap * (ConfigMap -> ConfigMap) * option error :=
  default ({| cm_key := dns_key ""; cm_Data := None |}, drop_config, None) (head (omap as_config_write tr)).

Lemma written_in tr :
  length (omap as_config_write tr) = 1%nat ->
  ((written tr).1.1, (written tr).1.2, (written tr).2) ∈ omap as_config_write tr.
Proof.
  unfold written. destruct (omap as_config_write tr) as [|[[cm f] w] l]; [done|]. intros _. by left.
Qed.


(** ** Circuit breaker *)

Definition three_failures : history :=
  [("dns", Failure 1 1); ("other", Failure 2 2); ("dns", Query 3); ("dns", Failure 4 4);
   ("dns", Failure 5 5)].

Lemma circuit_refinement_witness :
  circuit_of (step_circuit (Failure 9 9) "dns" (run_history (take 4 three_failures) new_circuit)) "dns"
    = Open (9 + 30 * Second) /\
  instance_of (circuit_refinement (Failure 9 9) "dns" new_circuit reachable_new).
Proof.
  split; [by vm_compute|]. exact (circuit_refinement (Failure 9 9) "dns" new_circuit reachable_new).
Defined.

(** ** Selection *)

Lemma selection_deterministic_witness :
  let l1 := [new_pool; stamp old_pool] in
  let l2 := [stamp old_pool; new_pool] in
  let r := inr ("old", 2, "oldest_pool") in
  @sortPoolsForSelection insertion_sorter l1 = @sortPoolsForSelection insertion_sorter l2 /\ r = r :> result (string * Z * string).
Proof.
  intros l1 l2 r.
  refine (selection_deterministic insertion_sorter insertion_sorter "dns" l1 l2
    [ev (ListPools "dns") (inr l1)] [ev (ListPools "dns") (inr l2)] r r _ _ listed_ready _
    (Permutation_swap _ _ _) _ _ _ _).
  - by apply (bool_decide_unpack _); vm_compute.
  - eexists _, _. split; [reflexivity|]. split; [reflexivity|]. by vm_compute.
  - eexists _, _. split; [reflexivity|]. split; [reflexivity|]. by vm_compute.
  - by left.
  - by left.
Defined.

(** ** Validation and generation *)

Definition config_a : EngineConfig :=
  match generate (Some pool_a) (Some sample_profile) with
  | inr cfg => cfg
  | inl _ => {| ec_Upstreams := []; ec_Cache := default_cache; ec_ListenAddr := ""; ec_ListenPort := 0;
                ec_WorkerThreads := 0; ec_DNSSECMode := ""; ec_DomainFilter := no_filter |}
  end.

Lemma config_a_generated : generate (Some pool_a) (Some sample_profile) = inr config_a.
Proof. vm_compute. reflexivity. Qed.

Lemma validated_pool_generates_witness :
  validateDNSUpstreamPool (Some pool_a) = None /\
  exists cfg, generate (Some pool_a) (Some sample_profile) = inr cfg /\
    Forall (fun u => 1 <= uc_Port u <= 65535) (ec_Upstreams cfg) /\
    NoDup ((fun u => (uc_Transport u, uc_Address u, uc_Port u)) <$> ec_Upstreams cfg).
Proof.
  split; [by vm_compute|]. apply (validated_pool_generates pool_a (Some sample_profile)). by vm_compute.
Defined.

Lemma generate_upstream_order_witness :
  uc_Address <$> ec_Upstreams config_a = ["8.8.8.8"; "dns.quad9.net"; "1.1.1.1"] /\
  StronglySorted config_before (ec_Upstreams config_a).
Proof.
  split; [by vm_compute|].
  exact (proj1 (generate_upstream_order pool_a (Some sample_profile) config_a config_a_generated)).
Defined.

Lemma generate_well_formed_witness :
  length (ec_Upstreams config_a) = 3%nat /\
  instance_of (generate_well_formed pool_a (Some sample_profile) config_a config_a_generated).
Proof.
  split; [by vm_compute|]. exact (generate_well_formed pool_a (Some sample_profile) config_a config_a_generated).
Defined.

Lemma generated_config_normal_witness :
  Unbound.normalizeConfig config_a = config_a /\ CoreDNS.normalizeConfig config_a = config_a /\
  PowerDNS.normalizeConfig config_a = config_a.
Proof.
  refine (generated_config_normal pool_a (Some sample_profile) config_a _ config_a_generated).
  by_computation.
Defined.

Definition profile_cluster : Cluster := with_objects [] false.

Lemma profile_reconcile_effect_witness :
  no_requeue = no_requeue /\
  exists got tr', trace_on profile_cluster (CacheProfile.Reconcile true (dns_key "default"))
      = ev (GetProfile (dns_key "default")) got :: tr' /\
    match got with
    | inl e =>
        tr' = [] /\
        None = if IsNotFound e then None
               else Some (ErrWrap ("get DNSCacheProfile " +:+ key_String (dns_key "default") +:+ ": ") e "")
    | inr profile =>
        exists r,
          List.filter is_write tr' =
            [ev (PatchProfileStatus (with_active profile (verdict profile)) profile) r] /\
          None = (fun e => ErrWrap "update DNSCacheProfile status: " e "") <$> r
    end.
Proof.
  exact (profile_reconcile_effect true (dns_key "default") _ no_requeue None
    (exec_on profile_cluster (CacheProfile.Reconcile true (dns_key "default")))).
Defined.

(** ** Policies *)


(** The policy without its finalizer, and the base of that patch. *)
Definition released_policy : ExternalDNSPolicy := with_finalizers [] deleted_policy.


(** The policy as it was after the finalizer's patch, and its report. *)
Definition finalized_policy : ExternalDNSPolicy :=
  sample_policy None ["dns.astradns.com/external-policy-finalizer"].
Definition enforced_condition : Condition :=
  validated_condition finalized_policy ConditionTrue "Enforced" "References are valid and policy is enforced".
Definition enforced_policy : ExternalDNSPolicy := with_validated finalized_policy enforced_condition 1.

Lemma policy_status_reported :
  (enforced_policy, finalized_policy, None) ∈ omap as_policy_status (policy_trace (with_policy live_policy)).
Proof. vm_compute. left. Qed.


Lemma policy_report_witness :
  instance_of (policy_report true (dns_key "pol") _ _ _ enforced_policy finalized_policy None
                 (policy_exec (with_policy live_policy)) policy_status_reported).
Proof.
  exact (policy_report true (dns_key "pol") _ _ _ enforced_policy finalized_policy None
           (policy_exec (with_policy live_policy)) policy_status_reported).
Defined.

Lemma validate_references_iff_witness :
  result_on (with_policy live_policy) (validateReferences (Some live_policy)) = None /\
  instance_of (validate_references_iff live_policy _ _
                 (exec_on (with_policy live_policy) (validateReferences (Some live_policy)))).
Proof.
  split; [by vm_compute|].
  exact (validate_references_iff live_policy _ _
           (exec_on (with_policy live_policy) (validateReferences (Some live_policy)))).
Defined.

(** ** Pools over time *)

Lemma key_pools_inv l key p : key_pools l !! key = Some p -> p ∈ l /\ meta_key (pool_meta p) = key.
Proof.
  unfold key_pools. intros Hp%elem_of_list_to_map_2. apply list_elem_of_fmap in Hp as (q & [= -> ->] & ?). done.
Qed.

(** Facts on all the pools of a view follow from the list of them. *)
Lemma pools_view_all (P : NamespacedName -> DNSUpstreamPool -> Prop) l :
  Forall (fun p => P (meta_key (pool_meta p)) p) l ->
  forall key p, v_pools (pools_view l) !! key = Some p -> P key p.
Proof. intros Hl key p [Hin <-]%key_pools_inv. rewrite Forall_forall in Hl. by apply Hl. Qed.

Lemma pools_view_requests l reqs :
  Forall (fun req => key_Namespace req = "dns" /\ is_Some (key_pools l !! req)) reqs ->
  requests_in "dns" (pools_view l) reqs.
Proof. intros Hreqs req Hin. rewrite Forall_forall in Hreqs. by apply Hreqs. Qed.

Lemma pools_view_member l p :
  key_pools l !! meta_key (pool_meta p) = Some p -> Namespace (pool_meta p) = "dns" ->
  exists q, q ∈ pools_at "dns" (pools_view l).
Proof. intros Hp Hns. exists p. apply elem_of_pools_at. by exists (meta_key (pool_meta p)). Qed.

(** A history that reconciles each of the twins once. *)
Definition both : list NamespacedName := [dns_key "b"; dns_key "a"].

Abbreviation on_server reqs w := (reconcile_all Unbound.UnboundRenderer true reqs w new_reconciler) (only parsing).

Ltac view_fact :=
  cbn [view reference_server srv_view server_of]; unfold twins;
  match goal with
  | |- forall key p, v_pools (pools_view ?l) !! key = Some p -> @?P key p => apply (pools_view_all P l)
  end; repeat (apply Forall_cons; split); try apply Forall_nil_2; cbn beta.

Lemma twins_settled pools : pools = twin_pools \/ pools = stamp <$> twin_pools -> settled "dns" (pools_view pools).
Proof.
  intros [->| ->]; unfold settled; view_fact; intros _;
    (split_and!; [done|done|eexists; split; [by vm_compute|done]|]); first [by intros [? ?] | intros _; by vm_compute].
Qed.

Definition twins_after : Server * PoolReconciler := on_server (both ++ both) (server_of twins).

Lemma pools_converge_witness :
  published_document "dns" (srv_view twins_after.1) = Some "1.1.1.1" /\
  exists active, converged Unbound.UnboundRenderer "dns" (srv_view twins_after.1) active.
Proof.
  split; [by vm_compute|].
  refine (proj2 (pools_converge Unbound.UnboundRenderer true "dns" both both (server_of twins) new_reconciler
    twins_after.1 twins_after.2 (twins_settled twin_pools (or_introl eq_refl)) _ _ _ _ _)).
  - by exists 0.
  - apply pools_view_requests. by_computation; by eexists.
  - by apply (pools_view_member _ (twin_pool "a" "9")).
  - view_fact; intros _; (split; [|right]); by apply (bool_decide_unpack _); vm_compute.
  - exact (surjective_pairing twins_after).
Defined.

(** The twins once they are stamped: either order of the two gives the same. *)
Definition stamped_twins : list DNSUpstreamPool := stamp <$> twin_pools.
Definition stamped_after (reqs : list NamespacedName) : Server * PoolReconciler :=
  on_server reqs (server_of (pools_view stamped_twins)).

Lemma convergence_order_independent_witness :
  ready_status (stamped_after both).1 "b" = Some (ConditionTrue, "Ready") /\
  exists active,
    converged Unbound.UnboundRenderer "dns" (srv_view (stamped_after both).1) active /\
    converged Unbound.UnboundRenderer "dns" (srv_view (stamped_after (reverse both)).1) active /\
    v_configs (srv_view (stamped_after both).1) = v_configs (srv_view (stamped_after (reverse both)).1).
Proof.
  split; [by vm_compute|].
  edestruct (convergence_order_independent (W := Server) (HS := reference_server) Unbound.UnboundRenderer true "dns" both (reverse both)
    (server_of (pools_view stamped_twins)) new_reconciler
    (stamped_after both).1 (stamped_after both).2
    (stamped_after (reverse both)).1 (stamped_after (reverse both)).2
    (twins_settled stamped_twins (or_intror eq_refl))) as ((active & H1 & H2 & _) & H3 & _).
  - by exists 0.
  - intros p (key & _ & Hp)%elem_of_pools_at. revert key p Hp. view_fact; by eexists.
  - intros reqs [->| ->]; (split; [apply pools_view_requests; by_computation; by eexists|]);
      view_fact; intros _; by apply (bool_decide_unpack _); vm_compute.
  - by apply (pools_view_member _ (stamp (twin_pool "a" "9"))).
  - exact (surjective_pairing (stamped_after both)).
  - exact (surjective_pairing (stamped_after (reverse both))).
  - exists active. split; [exact H1|]. split; [exact H2|exact H3].
Defined.

(** The pool that is left is invalid: its address is upper case. *)
Definition stamped_invalid : DNSUpstreamPool := stamp invalid_pool.
Definition left_view : View := pools_view [stamped_invalid].
Definition deletion_run : Server * trace * (PoolReconciler * (ReconcileResult * option error)) :=
  run_trace reference_serve (reconcile_pool (dns_key "gone") new_reconciler) (server_of left_view).

Lemma left_active : is_active "dns" left_view "left".
Proof.
  assert (pools_at "dns" left_view = [stamped_invalid]) as Hl by by vm_compute.
  exists stamped_invalid. rewrite Hl. split; [by left|]. split; [done|].
  intros q ->%list_elem_of_singleton. by vm_compute.
Qed.

Lemma deletion_skips_validation_witness :
  validateDNSUpstreamPool (Some stamped_invalid) <> None /\
  published_document "dns" (srv_view deletion_run.1.1) = Some "DNS.Quad9.net" /\ deletion_run.2.2.2 = None.
Proof.
  split; [by vm_compute|].
  pose proof (run_replay (reconcile_pool (dns_key "gone") new_reconciler) (server_of left_view)) as Hr.
  cbn [ApiServer.serve view reference_server] in Hr. fold deletion_run in Hr.
  destruct deletion_run as [[w tr] [s' [res err]]] eqn:E. destruct Hr as [Hx Hr].
  destruct (validateDNSUpstreamPool (Some stamped_invalid)) as [e|] eqn:He; [|by vm_compute in He].
  edestruct (deletion_skips_validation Unbound.UnboundRenderer true "dns" (dns_key "gone") new_reconciler
    tr s' res err left_view (srv_view w) (dns_key "left") stamped_invalid e "DNS.Quad9.net" Hx Hr) as (-> & Hd & _).
  - unfold settled, left_view. view_fact. intros _. split_and!; [done|done| |].
    + eexists. split; [by vm_compute|done].
    + intros _. by vm_compute.
  - intros p (key & _ & Hp)%elem_of_pools_at. revert key p Hp. unfold left_view. view_fact. by eexists.
  - by exists 0.
  - done.
  - by vm_compute.
  - by vm_compute.
  - done.
  - exact left_active.
  - exact He.
  - by vm_compute.
  - by split.
Defined.

Lemma stamp_race_cba : stamp_race race_c race_b race_a.
Proof. split; [by split|by split; vm_compute|by vm_compute|by split; vm_compute]. Qed.

Lemma selection_order_dependent_witness :
  first_of [race_c; race_a; race_b] = "c" /\ first_of [race_b; race_c; race_a] = "b" /\
  instance_of (selection_order_dependent "dns" race_c race_b race_a stamp_race_cba).
Proof.
  split; [by vm_compute|]. split; [by vm_compute|].
  exact (selection_order_dependent "dns" race_c race_b race_a stamp_race_cba).
Defined.

(** ** Policies over time *)

Definition server_run (v : View) : Server * trace * (ReconcileResult * option error) :=
  run_trace reference_serve (PolicyController.Reconcile true (dns_key "p")) (server_of v).
Definition server_trace (v : View) : trace := (server_run v).1.2.
Definition server_view (v : View) : View := srv_view (server_run v).1.1.

Lemma server_exec v :
  exec (PolicyController.Reconcile true (dns_key "p")) (server_trace v)
    ((server_run v).2.1, (server_run v).2.2) /\
  replay v (server_trace v) (server_view v).
Proof.
  pose proof (run_replay (PolicyController.Reconcile true (dns_key "p")) (server_of v)) as Hr.
  unfold server_trace, server_view, server_run. cbn [ApiServer.serve view reference_server] in Hr.
  destruct (run_trace _ _ _) as [[w tr] [res err]]. exact Hr.
Qed.

Definition owned_by (name uid : string) : CoreNamespace :=
  sample_namespace name (Some {[ "dns.astradns.com/external-policy-owner-uid" := uid ]}).

(** The policy p on a cluster with these namespaces. *)
Definition policy_view (p : ExternalDNSPolicy) (namespaces : list CoreNamespace) : View :=
  {| v_pools := key_pools [old_pool]; v_profiles := ∅; v_policies := {[ dns_key "p" := p ]};
     v_namespaces := list_to_map ((fun n => (namespace_name n, n)) <$> namespaces);
     v_configs := ∅; v_env := fun _ => "" |}.

Lemma policy_view_namespaces p l name n :
  v_namespaces (policy_view p l) !! name = Some n -> n ∈ l /\ namespace_name n = name.
Proof. intros Hn%elem_of_list_to_map_2. apply list_elem_of_fmap in Hn as (m & [= -> ->] & ?). done. Qed.

Lemma policy_view_named p l : named (policy_view p l).
Proof. by intros name n [_ ?]%policy_view_namespaces. Qed.

(** Its one namespace is free, an old claim is left, and one is another's. *)
Definition unsettled : View :=
  policy_view (rival_policy "p")
    [sample_namespace "shared" None; owned_by "left" "uid-p"; owned_by "foreign" "uid-q"].
Definition owners (v : View) : gmap string string := owner <$> v_namespaces v.

Lemma claims_respected_witness :
  owners (server_view unsettled) = {[ "shared" := "uid-p"; "left" := ""; "foreign" := "uid-q" ]} /\
  instance_of (claims_respected true (dns_key "p") _ _ _ (rival_policy "p") unsettled _
    (proj1 (server_exec unsettled)) (proj2 (server_exec unsettled)) (policy_view_named _ _) eq_refl eq_refl).
Proof.
  split; [by apply (bool_decide_unpack _); vm_compute|].
  exact (claims_respected true (dns_key "p") _ _ _ (rival_policy "p") unsettled _
    (proj1 (server_exec unsettled)) (proj2 (server_exec unsettled)) (policy_view_named _ _) eq_refl eq_refl).
Defined.

Lemma policy_converges_witness :
  (server_run unsettled).2.2 = None /\ claims_in_place (rival_policy "p") (server_view unsettled) /\
  exists p, v_policies (server_view unsettled) !! dns_key "p" = Some p /\ reported_enforced (rival_policy "p") p.
Proof.
  refine (policy_converges true (dns_key "p") _ _ _ (rival_policy "p") unsettled _
    (proj1 (server_exec unsettled)) (proj2 (server_exec unsettled)) (policy_view_named _ _) eq_refl eq_refl
    _ _ _ _ _).
  - done.
  - done.
  - split; [split|split].
    + done.
    + apply Forall_singleton. by split_and!; [..|vm_compute].
    + apply NoDup_singleton.
    + right. by split_and!; [..|vm_compute].
    + by left.
  - split; [by eexists|done].
  - intros name n Hname [Hn <-]%policy_view_namespaces [Ho Hne].
    apply elem_of_list_to_set, list_elem_of_singleton in Hname.
    repeat (apply elem_of_cons in Hn as [->|Hn]);
      [by destruct Ho|by vm_compute in Hname..|by apply not_elem_of_nil in Hn].
Defined.

(** The same policy, when its claims are in place. *)
Definition claimed_shared : CoreNamespace :=
  default (sample_namespace "shared" None) (v_namespaces (server_view unsettled) !! "shared").
Definition in_place : View := policy_view (rival_policy "p") [claimed_shared; owned_by "foreign" "uid-q"].

Lemma policy_fixpoint_witness : v_namespaces (server_view in_place) = v_namespaces in_place.
Proof.
  refine (policy_fixpoint true (dns_key "p") _ _ _ (rival_policy "p") in_place _
    (proj1 (server_exec in_place)) (proj2 (server_exec in_place)) (policy_view_named _ _) eq_refl eq_refl
    _ _ _).
  - done.
  - done.
  - intros name n [Hn <-]%policy_view_namespaces.
    repeat (apply elem_of_cons in Hn as [->|Hn]); [split..|by apply not_elem_of_nil in Hn].
    + intros _. by vm_compute.
    + intros []. by apply (bool_decide_unpack _); vm_compute.
    + intros Hin%(bool_decide_pack _). by vm_compute in Hin.
    + intros _. by vm_compute.
Defined.

(** The policy at its deletion. *)
Definition leaving_policy : ExternalDNSPolicy :=
  {| policy_meta :=
       {| Name := "p"; Namespace := "dns"; UID := "uid-p"; ResourceVersion := "8"; Generation := 2;
          CreationTimestamp := 50; DeletionTimestamp := Some 60; Annotations := None;
          Finalizers := ["dns.astradns.com/external-policy-finalizer"] |};
     policy_spec := policy_spec (rival_policy "p"); policy_status := empty_status; AppliedNodes := 1 |}.
Definition leaving : View := policy_view leaving_policy [claimed_shared; owned_by "foreign" "uid-q"].

Lemma deletion_releases_witness :
  owners (server_view leaving) = {[ "shared" := ""; "foreign" := "uid-q" ]} /\
  v_policies (server_view leaving) = ∅ /\ (server_run leaving).2.2 = None.
Proof.
  split; [by apply (bool_decide_unpack _); vm_compute|]. split; [by vm_compute|].
  refine (proj1 (deletion_releases true (dns_key "p") _ _ _ leaving_policy leaving _
    (proj1 (server_exec leaving)) (proj2 (server_exec leaving)) (policy_view_named _ _) eq_refl eq_refl
    _ _ _)); done.
Defined.

(** An update from a read made before the other policy's claim. *)
Definition stolen : Server * trace * option error :=
  run_trace reference_serve
    (updateNamespacePolicyAnnotations (Some (sample_namespace "shared" None)) (Some (rival_policy "p")))
    (server_of (policy_view (rival_policy "p") [owned_by "shared" "uid-q"])).

Lemma stale_claim_steals_witness :
  stolen.2 = None /\
  exists n, v_namespaces (srv_view stolen.1.1) !! "shared" = Some n /\ owner n = "uid-p".
Proof.
  pose proof (run_replay
    (updateNamespacePolicyAnnotations (Some (sample_namespace "shared" None)) (Some (rival_policy "p")))
    (server_of (policy_view (rival_policy "p") [owned_by "shared" "uid-q"]))) as Hr.
  cbn [ApiServer.serve view reference_server] in Hr. unfold stolen.
  destruct (run_trace _ _ _) as [[w tr] err]. destruct Hr as [Hx Hr].
  refine (stale_claim_steals (rival_policy "p") (sample_namespace "shared" None) (owned_by "shared" "uid-q")
    _ _ _ _ Hx Hr _ _ _ _); [done|by vm_compute|done|by vm_compute].
Defined.

(** A run of the system: two reconciliations under way, whose calls the
    reference server answers. *)
Lemma run_calls v running key p :
  running !! key = Some p ->
  let '(w, a) := run reference_serve p (server_of v) in
  rtc (system_step true) {| sys_view := v; sys_running := running |}
    {| sys_view := srv_view w; sys_running := <[key := Ret a]> running |}.
Proof.
  change v with (srv_view (server_of v)) at 2. generalize (server_of v) as w. clear v. intros w Hp.
  revert w running Hp. induction p as [a|c k IH]; intros w running Hp; cbn [run].
  - rewrite insert_id by done. done.
  - pose proof (serve_answers c w) as Ha. cbn [ApiServer.serve view reference_server] in Ha.
    destruct (reference_serve c w) as [w1 r]. cbn [fst snd] in Ha.
    specialize (IH r w1 (<[key := k r]> running) (lookup_insert_eq _ _ _)).
    destruct (run reference_serve (k r) w1) as [w2 a]. rewrite insert_insert_eq in IH.
    eapply rtc_l; [|exact IH]. eapply step_call; [done|]. left. exact Ha.
Qed.

Definition both_running : gmap NamespacedName (prog (ReconcileResult * option error)) :=
  {[ dns_key "p" := PolicyController.Reconcile true (dns_key "p");
     dns_key "q" := PolicyController.Reconcile true (dns_key "q") ]}.

Lemma rivals_policies key p :
  v_policies rivals !! key = Some p ->
  (key = dns_key "p" /\ p = rival_policy "p") \/ (key = dns_key "q" /\ p = rival_policy "q").
Proof.
  change (v_policies rivals) with (<[dns_key "p" := rival_policy "p"]> {[ dns_key "q" := rival_policy "q" ]} :
    gmap NamespacedName ExternalDNSPolicy).
  rewrite lookup_insert_Some, lookup_singleton_Some. intros [[-> ->]|[_ [-> ->]]]; auto.
Qed.

Lemma rivals_namespaces name n :
  v_namespaces rivals !! name = Some n -> name = "shared" /\ n = sample_namespace "shared" None.
Proof.
  change (v_namespaces rivals) with ({[ "shared" := sample_namespace "shared" None ]} : gmap string CoreNamespace).
  rewrite lookup_singleton_Some. intros [-> ->]. done.
Qed.

Lemma rivals_well : stored_well rivals.
Proof.
  split.
  - by intros name n [-> ->]%rivals_namespaces.
  - by intros key p [[-> ->]|[-> ->]]%rivals_policies.
  - by intros k1 k2 p1 p2 [[-> ->]|[-> ->]]%rivals_policies [[-> ->]|[-> ->]]%rivals_policies.
Qed.

Lemma rivals_free : claims_held rivals.
Proof. by intros name n [-> ->]%rivals_namespaces. Qed.

Definition first_done : Server * (ReconcileResult * option error) :=
  run reference_serve (PolicyController.Reconcile true (dns_key "p")) (server_of rivals).

Lemma first_run :
  rtc (system_step true) {| sys_view := rivals; sys_running := ∅ |}
    {| sys_view := srv_view first_done.1;
       sys_running := <[dns_key "p" := Ret first_done.2]> both_running |}.
Proof.
  eapply rtc_l; [by apply (step_start true _ _ (dns_key "q"))|].
  eapply rtc_l; [by apply (step_start true _ _ (dns_key "p"))|].
  pose proof (run_calls rivals both_running (dns_key "p") _ eq_refl) as Hrun. unfold first_done.
  destruct (run _ _ _). exact Hrun.
Qed.

Lemma no_orphaned_claims_witness :
  owners (srv_view first_done.1) = {[ "shared" := "uid-p" ]} /\ claims_held (srv_view first_done.1).
Proof.
  split; [by apply (bool_decide_unpack _); vm_compute|].
  exact (no_orphaned_claims true {| sys_view := rivals; sys_running := ∅ |} _ rivals_well rivals_free eq_refl first_run).
Defined.

(** ** Webhook *)

Definition handle_run (w : Cluster) : prog Response := Handle decode_name true (create_request "third").

Lemma webhook_admits_iff_witness :
  result_on two_pools (handle_run two_pools)
    = Denied "only one DNSUpstreamPool is allowed per namespace; existing pools: new, old" /\
  instance_of (webhook_admits_iff decode_name true (create_request "third") _ _
                 (exec_on two_pools (handle_run two_pools))).
Proof.
  split; [by vm_compute|].
  exact (webhook_admits_iff decode_name true (create_request "third") _ _
           (exec_on two_pools (handle_run two_pools))).
Defined.

(** ** Start-up *)

(** No flags but the operator's own. *)
#[local] Instance no_other_flags : OtherFlags :=
  {| other := unit; other_default := tt; other_flag _ := None; other_Set _ _ _ := None |}.

Definition start (args : list string) (env : string -> string) : trace * ending :=
  let '(_, tr, e) := run_trace reference_serve (main (fun _ => inl (ErrNew "no decoder")) args)
    {| srv_view := {| v_pools := ∅; v_profiles := ∅; v_policies := ∅; v_namespaces := ∅; v_configs := ∅;
                      v_env := env |};
       srv_revision := 1 |} in (tr, e).

Lemma start_exec args env :
  exec (main (fun _ => inl (ErrNew "no decoder")) args) (start args env).1 (start args env).2.
Proof.
  unfold start. set (w := {| srv_view := _ |}).
  pose proof (run_trace_exec reference_serve (main (fun _ => inl (ErrNew "no decoder")) args) w) as Hx.
  destruct (run_trace _ _ _) as [[w' tr] e]. by destruct (Hx _ _ _ eq_refl).
Qed.

Definition coredns_env (name : string) : string :=
  if bool_decide (name = "ASTRADNS_ENGINE_TYPE") then "coredns"
  else if bool_decide (name = enablePoolUniquenessWebhookEnv) then " true "
  else "".
Definition sample_args : list string := ["--leader-elect"; "-metrics-bind-address"; ":8443"].

Lemma startup_complete_witness :
  match (start sample_args coredns_env).2 with
  | Served m code => code = 0 /\ length (m_controllers m) = 3%nat /\ length (m_handlers m) = 1%nat
  | _ => False
  end /\
  match (start sample_args (fun _ => "bind")).2 with
  | Exited code => code = 1
  | _ => False
  end /\
  instance_of (startup_complete _ sample_args _ _ (start_exec sample_args coredns_env)).
Proof.
  split; [by vm_compute|]. split; [by vm_compute|].
  exact (startup_complete _ sample_args _ _ (start_exec sample_args coredns_env)).
Defined.

Definition started (args : list string) (env : string -> string) : Manager :=
  match (start args env).2 with
  | Served m _ => m
  | _ => {| m_options := manager_options [] default_options; m_controllers := []; m_handlers := [];
            m_healthz := []; m_readyz := [] |}
  end.

(** Each server has the certificate directory of its own flag; a file name
    without a directory is not used. *)
Definition sample_settings : Settings := {|
  metrics_bind_address := Some ":8443"; health_probe_bind_address := None;
  leader_elect := Some true; leader_election_id := None; metrics_secure := None;
  webhook_cert_path := None; webhook_cert_name := Some "hook.crt"; webhook_cert_key := None;
  metrics_cert_path := Some "/metrics=certs"; metrics_cert_name := None; metrics_cert_key := Some "m.key";
  enable_http2 := Some false;
|}.
Definition settings_args : list string := command_line sample_settings ++ ["--"; "--leader-elect=false"].

Lemma command_line_options_witness :
  opt_Metrics (m_options (started settings_args coredns_env))
  = {| mo_BindAddress := ":8443"; mo_SecureServing := true; mo_TLSOpts := [disableHTTP2];
       mo_FilterProvider := Some WithAuthenticationAndAuthorization;
       mo_CertDir := "/metrics=certs"; mo_CertName := "tls.crt"; mo_KeyName := "m.key" |} /\
  opt_LeaderElection (m_options (started settings_args coredns_env)) = true /\
  opt_LeaderElectionID (m_options (started settings_args coredns_env)) = "60acac32.astradns.com" /\
  wo_CertName (opt_WebhookServer (m_options (started settings_args coredns_env))) = "".
Proof.
  destruct (proj2 (command_line_options (fun _ => inl (ErrNew "no decoder")) sample_settings ["--leader-elect=false"])
    _ _ _ (start_exec settings_args coredns_env)) as (scheme & _ & Hm).
  change (m_options _) with (m_options (started settings_args coredns_env)) in Hm.
  rewrite Hm. by split_and!.
Defined.

Lemma secure_by_default_witness :
  let metrics := opt_Metrics (m_options (started sample_args coredns_env)) in
  mo_BindAddress metrics = ":8443" /\
  mo_SecureServing metrics = true /\ mo_FilterProvider metrics = Some WithAuthenticationAndAuthorization.
Proof.
  intros metrics. split; [by vm_compute|].
  edestruct (secure_by_default (fun _ => inl (ErrNew "no decoder")) sample_args
    (start sample_args coredns_env).1 (started sample_args coredns_env) 0) as (wo & _ & _ & _ & Hsecure).
  - exact (start_exec sample_args coredns_env).
  - apply Hsecure. intros s Hs [value Hv].
    repeat (apply elem_of_cons in Hs as [->|Hs]); [..|by apply not_elem_of_nil in Hs]; by vm_compute in Hv.
Defined.
